(* ===== verification/_CoqProject ===== *)
-Q . S2P
Prelude.v
Doubles.v
JsonRead.v
JsonWrite.v
JsonRoundTrip.v
Text.v
Utility.v
Mustache.v
MustacheSpec.v
MustacheSafe.v
MustacheExamples.v
Sha1.v
QueryString.v
MimeTypes.v
Http.v
Multipart.v
MultipartSpec.v
MultipartExamples.v
WebSocket.v
WebSocketSpec.v
WebSocketExamples.v
Service.v
Backends.v
OrderRoutes.v
Wp.v
OrderSpec.v
OrderTheorems.v
OrderExamples.v
Middleware.v
Cookies.v
Sessions.v
SessionsSpec.v
SessionFiles.v
CookieExamples.v
Cors.v
AppMiddlewares.v
Trie.v
AppExamples.v
Router.v
Blueprints.v
BlueprintSpec.v
BlueprintExamples.v
Main.v
Connection.v
ConnectionSpec.v
ConnectionExamples.v
Tokenizer.v
TokenizerSpec.v
TokenizerRun.v
TokenizerHeaders.v
TokenizerRequest.v
Server.v
ServerStop.v
TaskTimer.v
Deadlines.v
Concurrency.v
Session.v
OrderSession.v
SessionExamples.v
