(* ===== verification/Prelude.v ===== *)
(** * The order service: a verification development

    The program is an HTTP service for orders (src/src/main.cpp, order_routes.cpp) on the Crow
    framework, whose headers are part of the repository (src/crow/; src/include/crow_all.h is
    their concatenation, and the file names below are those of src/crow/).  A request comes as
    bytes on a connection and goes through: the tokenizer, the parser's callbacks and the
    connection, the router, the middlewares, a handler over SQLite and Redis, and back through
    the middlewares to the response writer.

** How the program is modelled

    C++ values are the obvious Rocq data: integers are [Z] with their wrap-around written out
    ([uwrap], [swrap]), bytes are [ascii], [std::string] is [string], structs are records, enums
    and tagged unions inductive types, pointers into a buffer the suffix they point at.  A
    function that can throw returns a [result]; what the C++ standard gives no meaning to
    (and a failed assertion) is the exception [UB], so that the theorems exclude it.  Stateful
    code runs in a state monad with exceptions, [M] of Service.v over the [world] (the global
    variables, the database and the cache), and [R] of Router.v, which adds the response and
    the middlewares' context.  Loops and recursion that are not structural have fuel, and a
    theorem that the fuel given is enough: the depth bound of the JSON parser
    ([parse_total]), the length of the buffer for the tokenizer's loop and three jumps back to its
    switch ([tokenizer_safe]), the number of rows ([list_orders_spec]), the length of a
    pattern ([add_terminates] says where no fuel is).

    What the repository does not define is a parameter with its documented laws: SQLite,
    redis++, the clock, [rand] and [localtime] (classes [Sqlite], [Redis], [Environment] of
    Service.v), the iteration order of [unordered_map] ([UMapIter]), what [std::sort] does to
    equal keys ([StdSort]), the file system.  Backends.v gives instances on which the
    witnesses run.  What asio decides, which thread goes on, which handler runs next and when
    a timer expires, is the choice of a step relation or a list of events.

** Files

    - Prelude.v (this file): exceptions and results, machine integers, bytes and strings,
      and the lemmas on them.  Wp.v: a weakest-precondition logic for the service's monad,
      with a rule for each backend call.  Doubles.v: [strtod], stream extraction and [%g] on
      binary64.
    - JsonRead.v, JsonWrite.v, JsonRoundTrip.v (json.h): [rvalue] and the parser, [wvalue]
      and [dump], and that what is dumped is read back.
    - Text.v: searching and cutting a [std::string] by position.
      Utility.v (utility.h), Sha1.v (TinySHA1.hpp), QueryString.v (query_string.h),
      MimeTypes.v (mime_types.h), Http.v (common.h, ci_map.h, http_request.h, http_response.h).
    - Multipart.v (multipart.h, multipart_view.h: one parser over two ways to cut a string),
      MultipartSpec.v and MultipartExamples.v.
    - Mustache.v (mustache.h), MustacheSpec.v (a template as a tree and its meaning),
      MustacheSafe.v (any text) and MustacheExamples.v.
    - WebSocket.v (websocket.h), WebSocketSpec.v (the frames of RFC 6455) and
      WebSocketExamples.v.
    - Service.v (include/metrics.h, service_state.h, runtime_config.h), Concurrency.v (the
      same atomics under threads), OrderRoutes.v (order_routes.cpp, helpers.hpp), with
      OrderSpec.v and OrderTheorems.v, and OrderExamples.v.
    - Middleware.v (middleware.h), AppMiddlewares.v (the four middlewares of main.cpp and
      auth_middleware.h), Trie.v and Router.v (routing.h), Main.v (the rest of main.cpp),
      with AppExamples.v.  Blueprints.v (the blueprints of routing.h and app.h, on a heap),
      BlueprintSpec.v and BlueprintExamples.v.
    - Of middlewares/: Cookies.v (cookie_parser.h, utf-8.h), Cors.v (cors.h), Sessions.v
      (session.h), with SessionsSpec.v (the middleware refines a book of sessions),
      SessionFiles.v (the store in files) and CookieExamples.v.
    - Tokenizer.v (http_parser_merged.h), TokenizerSpec.v, TokenizerRun.v,
      TokenizerHeaders.v, TokenizerRequest.v; Connection.v (http_connection.h, parser.h), ConnectionSpec.v,
      ConnectionExamples.v; Session.v and SessionExamples.v, where all of it runs together, and
      OrderSession.v, with the order API on top.
    - Server.v (http_server.h, app.h: which worker gets a connection), ServerStop.v (its
      threads, from [run()] to the end), TaskTimer.v (task_timer.h), Deadlines.v (the timer
      calls of http_connection.h).

    A function keeps the name it has in the source; a state of the tokenizer's switch [s_x] is
    handled by [case_x], a member function of a class is a function on its record.

** What the theorems show

    - Orders.  The five handlers implement an abstract order book, with the cache as a view of
      it ([handlers_refine_book]); every branch of every handler, errors included, with the
      SQLite calls that decide it ([create_order_spec], [pay_order_spec], [list_orders_spec]); an order is paid at most once and keeps its data
      ([order_lifecycle]); the cache stays coherent and an answer is truthful
      ([cache_stays_coherent], [get_order_truthful]), as long as deletions of keys succeed and
      no key has a NUL: the examples show what happens otherwise.
      And over the wire: what the responses of a session of calls say, from the bytes sent to
      the bytes received, is what happened to the book ([orders_over_the_wire], for requests
      with a Host header whose heads come in one read and whose bodies are JSON but no array).
    - HTTP.  The tokenizer is memory safe, terminates and meets its assertions on any bytes
      without a NUL, its lengths do not wrap, and it fails an assertion on one with it
      ([tokenizer_safe], [nul_in_connection_aborts]); a request is
      reported as it was written ([requests_reported]); one request, one response
      ([one_response]); and from bytes to bytes, a session of requests is answered by as many
      responses in the same order ([session_served]).
    - The server.  A scheduled task is called once and in time ([deadline_kept]), so a silent
      client is disconnected ([silent_client_disconnected]), unless the identifiers of tasks
      started again while a connection was left that holds one of them; connections are dealt to the workers in turn
      ([connections_dealt_in_turn]); [stop()] ends every thread in a bounded number of steps
      when [run()] has come far enough ([stop_ends_run]).
    - WebSockets.  Whatever the portions the payloads come in, as long as the two bytes that begin
      a frame come together and no handler calls close(), the messages that were framed are what
      the handlers are told ([frames_delivered]) and what one end sends another hears
      ([sent_is_heard]); the key of the
      handshake is hashed by SHA-1 as the standard has it ([sha1_equivalent]).
    - Routing and middlewares.  The tree finds the first rule that matches, optimised or not
      ([trie_finds_first_match], [router_finds_first_rule]); a request of any method goes to
      the route of main.cpp that it names, HEAD and OPTIONS as the router answers them
      ([app_dispatch]); and what the environment sets is what the service starts with, or it
      ends ([startup_configuration]); blueprints are built as they are described, in any order,
      and routed as one list of rules ([blueprints_planned], [blueprint_routes_found]), and
      which catch-all is called ([catchall_of_path]); middlewares run in order around the handler
      ([middleware_protocol]); who is admitted, and that requests in flight are counted on and
      off ([admission], [inflight_balanced]), also when the threads interleave, with the drift
      that requests without a route leave in the counter ([concurrent_admission],
      [drain_turns_away], [duration_metrics_exact]).
    - Data.  JSON: the parser is total, its values are well formed, and [load] inverts
      [dump] ([parse_total], [load_wf], [load_dump]).  Base64 decodes what it encodes; file
      names are sanitised ([base64_roundtrip], [sanitize_filename_safe]).
      A multipart message is read back as it was written; its reading returns or throws on any
      bytes, but for a part without a name, which it has no meaning for; and the view reads what the owning class reads ([dump_read_back], [reading_ends], [view_agrees]).
    - Templates.  What a template compiles to renders as the meaning of the tree it was written
      from ([renders_as_meant]); any text compiles or is refused, and what was compiled is
      rendered without reading an index or a context that is not there ([render_safe]).
    - Cookies, CORS and sessions.  The pairs of cookies that are set, sent back in a Cookie
      header, are what the next request reads ([cookies_come_back]); CORS adds the headers of
      its rule and changes nothing else ([cors_applied]).  However requests overlap, the sessions
      behind the cache are one map that their accesses, one at a time, read and change
      ([sessions_refine], over any store that keeps what it is given: [StoreLaws]); the store in
      files reads back what it has written ([file_session_comes_back]).
    - Faults.  The theorems of the examples files, [upgrade_leaks_inflight],
      [nul_in_connection_aborts], [deadline_cancelled_by_another], [busy_worker_preferred],
      [early_stop_lost], [split_header_misread], [oversized_never_freed], [unnamed_part],
      [split_parameter], [emptied_session_is_lost], [id_with_a_path], [id_drawn_twice],
      [blank_name], [inverted_section_uncounted], [bare_blueprint_fails], [outer_catchall_unused],
      [unknown_path_out_of_range] and [template_base_stays] are
      about inputs and interleavings on which the code does not do what it means to.

** Bounds

    Order amounts and integers of JSON keep their width.  A book has fewer than 2^31 orders, as
    many as a JSON array has places here.  [session_served] and
    [requests_reported] take request heads up to the tokenizer's [max_header_size] (80 kB) and
    bodies shorter than 2^60 bytes.  The head of a request comes in one read, the body in any
    number of reads; heads in several reads are covered by [tokenizer_safe] only, and
    [split_url_not_found] shows why.  Identifiers of tasks stay below 2^64 and accepted
    connections below 2^32, times are unbounded.
    [load_dump] takes values nested up to the parser's depth bound (5000), without
    doubles.  SHA-1 is computed of messages shorter than 2^29 bytes.  The in-flight counter is a 32-bit integer, and fewer threads than that are in
    the middle at once; so are the referrers of a session, and the requests that have one.  The
    loops over a multipart body and over a Cookie header take at least a character each turn,
    and their fuel is the length ([reading_ends], [cookies_come_back]).
    [sessions_refine] takes ids drawn at random to be new; [file_session_comes_back] leaves out
    doubles, sessions without entries, and loads after an expiration.
    A program registers each blueprint once and in none that is registered in it; the fuel of the
    recursion over blueprints is more than their number ([blueprints_planned]).
    Templates are shorter than 2^31 bytes; the loop over their tags has the length of the body as
    fuel ([parse_loop_result]), rendering a fuel that the number of tags is enough for
    ([renders_as_meant], of names without dots, contexts without functions and templates without
    partials and other delimiters): a partial may load itself, so [render_safe] allows that
    the loop is still running.

** Not modelled

    asio itself (sockets, [io_context], its timer), logging sinks, compression: they call the
    operating system.  Of the server, the cached date string and [on_tick].
    Of a WebSocket, the wait of its destructor for other threads, and the rule that hands a
    request over to it; its handlers are functions of what they have been told.
    The data race of [contains] and [refresh_expiration] with the other accesses of a session:
    each access is one step.
    Of templates, the second base directory that blueprints fall back on.
    Dynamic rules and the parts of json.h and utility.h named in the manifest.
    asio, httplib and doctest, vendored under src/include/, are other people's code. *)

From Stdlib Require Export ZArith Lia Ascii.
From stdpp Require Export base tactics option list strings gmap sorting.
From stdpp Require Export pretty.
Global Set Default Proof Using "Type".
#[export] Set Default Goal Selector "!".

(** ** Exceptions and the result type

    A C++ expression either yields a value or leaves the function by an
    exception.  [UB] marks executions on which the C++ standard gives no
    meaning (an indeterminate pointer is read, an index is out of range). *)

Inductive exn : Type :=
| RuntimeError (msg : string)
| BadRequest (msg : string)
| InvalidArgument
| OutOfRange
| InvalidTemplate (msg : string)
| UB (why : string).

Inductive result (A : Type) : Type :=
| Ok (a : A)
| Throw (e : exn).
Arguments Ok {A} a.
Arguments Throw {A} e.

#[export] Instance exn_eq_dec : EqDecision exn.
Proof. solve_decision. Defined.
#[export] Instance result_eq_dec {A} `{!EqDecision A} : EqDecision (result A).
Proof. solve_decision. Defined.

#[export] Instance result_ret : MRet result := @Ok.
#[export] Instance result_bind : MBind result := λ A B f r,
  match r with Ok a => f a | Throw e => Throw e end.
#[export] Instance result_fmap : FMap result := λ A B f r,
  match r with Ok a => Ok (f a) | Throw e => Throw e end.

(** ** Fixed-width integers *)

(** Two's complement wrap-around to [w] bits, signed and unsigned. *)
Definition uwrap (w z : Z) : Z := z mod 2 ^ w.
Definition swrap (w z : Z) : Z := (z + 2 ^ (w - 1)) mod 2 ^ w - 2 ^ (w - 1).

Definition int32_min : Z := - 2 ^ 31.
Definition int32_max : Z := 2 ^ 31 - 1.
Definition int64_min : Z := - 2 ^ 63.
Definition int64_max : Z := 2 ^ 63 - 1.
Definition uint64_max : Z := 2 ^ 64 - 1.

Lemma swrap_id w z : (0 < w)%Z → (- 2 ^ (w - 1) ≤ z < 2 ^ (w - 1))%Z → swrap w z = z.
Proof.
  intros Hw Hz. unfold swrap.
  assert (2 ^ w = 2 * 2 ^ (w - 1))%Z as Hp.
  { rewrite <- Z.pow_succ_r by lia. f_equal. lia. }
  rewrite Z.mod_small; lia.
Qed.

Lemma swrap_range w z : (0 < w)%Z → (- 2 ^ (w - 1) ≤ swrap w z < 2 ^ (w - 1))%Z.
Proof.
  intros Hw. unfold swrap.
  assert (2 ^ w = 2 * 2 ^ (w - 1))%Z as Hp.
  { rewrite <- Z.pow_succ_r by lia. f_equal. lia. }
  pose proof (Z.mod_pos_bound (z + 2 ^ (w - 1)) (2 ^ w)) as Hb.
  assert (0 < 2 ^ w)%Z by (apply Z.pow_pos_nonneg; lia). lia.
Qed.

(** Bytes of a number, and numbers put together from parts. *)
Lemma lor_shift a b n :
  (0 ≤ n → 0 ≤ b < 2 ^ n → Z.lor (Z.shiftl a n) b = a * 2 ^ n + b)%Z.
Proof.
  intros Hn Hb. rewrite <- Z.shiftl_mul_pow2, <- Z.add_lor_land by done.
  assert (Z.land (Z.shiftl a n) b = 0)%Z as ->; [|lia].
  apply Z.bits_inj'. intros i Hi. rewrite Z.land_spec, Z.bits_0, Z.shiftl_spec by done.
  destruct (Z.lt_ge_cases i n); [by rewrite Z.testbit_neg_r by lia|].
  rewrite <- (Z.mod_small b (2 ^ n)), Z.mod_pow2_bits_high by lia. apply andb_false_r.
Qed.
Lemma low_byte z : (Z.land z 0xFF = z mod 256)%Z.
Proof. exact (Z.land_ones z 8 ltac:(lia)). Qed.
Lemma high_byte z n : (0 ≤ n → Z.land (Z.shiftr z n) 0xFF = z / 2 ^ n mod 256)%Z.
Proof. intros Hn. by rewrite low_byte, Z.shiftr_div_pow2. Qed.

(** Numbers of [n] bits. *)
Lemma bits_above n x i : (0 ≤ x < 2 ^ n → 0 ≤ n ≤ i → Z.testbit x i = false)%Z.
Proof.
  intros Hx Hi. rewrite <- (Z.mod_small x (2 ^ n)) by exact Hx. apply Z.mod_pow2_bits_high. lia.
Qed.
Lemma above_bits n x :
  (0 ≤ n → 0 ≤ x → (∀ i, n ≤ i → Z.testbit x i = false) → 0 ≤ x < 2 ^ n)%Z.
Proof.
  intros Hn H0 Hb. split; [done|]. replace x with (x mod 2 ^ n)%Z.
  { apply Z.mod_pos_bound. by apply Z.pow_pos_nonneg. }
  apply Z.bits_inj'. intros i Hi. destruct (Z.lt_ge_cases i n).
  - by apply Z.mod_pow2_bits_low.
  - rewrite Z.mod_pow2_bits_high by lia. by rewrite Hb.
Qed.
Lemma lxor_range n x y : (0 ≤ n → 0 ≤ x < 2 ^ n → 0 ≤ y < 2 ^ n → 0 ≤ Z.lxor x y < 2 ^ n)%Z.
Proof.
  intros Hn Hx Hy. apply above_bits; [done|by apply Z.lxor_nonneg; lia|].
  intros i Hi. by rewrite Z.lxor_spec, !(bits_above n) by lia.
Qed.
Lemma lor_range n x y : (0 ≤ n → 0 ≤ x < 2 ^ n → 0 ≤ y < 2 ^ n → 0 ≤ Z.lor x y < 2 ^ n)%Z.
Proof.
  intros Hn Hx Hy. apply above_bits; [done|by apply Z.lor_nonneg; lia|].
  intros i Hi. by rewrite Z.lor_spec, !(bits_above n) by lia.
Qed.

(** ** Characters *)

Definition NUL : ascii := "000"%char.
Definition DQ : ascii := "034"%char.
Definition BSL : ascii := "092"%char.

(** The byte of a character, and [char] as the signed 8-bit type it is on the
    platforms the service is built for (x86-64, GCC and MSVC). *)
Definition code (c : ascii) : Z := Z.of_N (N_of_ascii c).
Definition schar (c : ascii) : Z := swrap 8 (code c).
Definition chr (z : Z) : ascii := ascii_of_N (Z.to_N (uwrap 8 z)).

Lemma code_range c : (0 ≤ code c < 256)%Z.
Proof.
  unfold code. pose proof (N_ascii_bounded c) as H. lia.
Qed.

Lemma chr_code c : chr (code c) = c.
Proof.
  unfold chr, uwrap. rewrite Z.mod_small by (pose proof (code_range c); simpl; lia).
  unfold code. rewrite N2Z.id. apply ascii_N_embedding.
Qed.

Lemma code_chr z : (0 ≤ z < 256)%Z → code (chr z) = z.
Proof.
  intros Hz. unfold code, chr, uwrap. rewrite Z.mod_small by (simpl; lia).
  rewrite N_ascii_embedding by lia. lia.
Qed.

Lemma code_inj c1 c2 : code c1 = code c2 → c1 = c2.
Proof. intros H. rewrite <- (chr_code c1), <- (chr_code c2). by rewrite H. Qed.

Definition is_digit (c : ascii) : bool :=
  bool_decide (48 ≤ code c)%Z && bool_decide (code c ≤ 57)%Z.
Definition digit_val (c : ascii) : Z := (code c - 48)%Z.

(** [std::toupper] and [std::tolower] in the C locale. *)
Definition toupper (c : ascii) : ascii :=
  if bool_decide (97 ≤ code c ∧ code c ≤ 122)%Z then chr (code c - 32) else c.
Definition tolower (c : ascii) : ascii :=
  if bool_decide (65 ≤ code c ∧ code c ≤ 90)%Z then chr (code c + 32) else c.

(** ** Strings *)

(** The C string stored at [s]: what a reader that stops at the first NUL
    sees of a [std::string] handed over with [c_str()]. *)
Fixpoint c_str (s : string) : string :=
  match s with
  | String c s' => if decide (c = NUL) then EmptyString else String c (c_str s')
  | EmptyString => EmptyString
  end.

(** [strip_prefix p s] is the rest of [s] after [p], when [s] starts with it
    (the test [s.compare(0, p.size(), p) == 0] of the source). *)
Fixpoint strip_prefix (p s : string) : option string :=
  match p, s with
  | EmptyString, _ => Some s
  | String c p', String d s' => if decide (c = d) then strip_prefix p' s' else None
  | String _ _, EmptyString => None
  end.

(** The longest prefix whose characters satisfy [f], and what follows it. *)
Fixpoint span (f : ascii → bool) (s : string) : string * string :=
  match s with
  | String c s' =>
      if f c then let '(a, b) := span f s' in (String c a, b)
      else (EmptyString, s)
  | EmptyString => (EmptyString, EmptyString)
  end.

Fixpoint string_Forall (P : ascii → Prop) (s : string) : Prop :=
  match s with
  | EmptyString => True
  | String c s' => P c ∧ string_Forall P s'
  end.

Fixpoint string_map (f : ascii → ascii) (s : string) : string :=
  match s with
  | EmptyString => EmptyString
  | String c s' => String (f c) (string_map f s')
  end.

(** [std::string(n, c)]. *)
Fixpoint string_rep (n : nat) (c : ascii) : string :=
  match n with O => EmptyString | S n' => String c (string_rep n' c) end.

Lemma string_app_nil_l (s : string) : "" +:+ s = s.
Proof. done. Qed.
Lemma string_app_cons c (s t : string) : String c s +:+ t = String c (s +:+ t).
Proof. done. Qed.
Lemma string_app_nil_r (s : string) : s +:+ "" = s.
Proof. induction s as [|c s IH]; [done|]. by rewrite string_app_cons, IH. Qed.
Lemma string_app_assoc (s t u : string) : (s +:+ t) +:+ u = s +:+ (t +:+ u).
Proof. induction s as [|c s IH]; [done|]. by rewrite !string_app_cons, IH. Qed.
(** Texts in pieces. *)
Lemma string_concat_cons (x : string) l : String.concat "" (x :: l) = x +:+ String.concat "" l.
Proof. destruct l as [|y l]; [simpl; by rewrite string_app_nil_r|done]. Qed.
Lemma string_concat_app (l1 l2 : list string) :
  String.concat "" (l1 ++ l2) = String.concat "" l1 +:+ String.concat "" l2.
Proof.
  induction l1 as [|x l1 IH]; [done|].
  by rewrite <- app_comm_cons, !string_concat_cons, IH, string_app_assoc.
Qed.
Lemma string_length_app (s t : string) :
  String.length (s +:+ t) = String.length s + String.length t.
Proof. induction s as [|c s IH]; [done|]. rewrite string_app_cons. simpl. by rewrite IH. Qed.
Lemma string_app_inj_l (s t u : string) : s +:+ t = s +:+ u → t = u.
Proof.
  induction s as [|c s IH]; [done|]. rewrite !string_app_cons.
  intros H. apply IH. congruence.
Qed.

Lemma strip_prefix_Some p s r : strip_prefix p s = Some r ↔ s = p +:+ r.
Proof.
  revert s. induction p as [|c p IH]; intros s; simpl.
  { rewrite string_app_nil_l. naive_solver. }
  destruct s as [|d s]; rewrite string_app_cons; [done|].
  case_decide as Hc; [rewrite IH|]; naive_solver.
Qed.

Lemma strip_prefix_app p r : strip_prefix p (p +:+ r) = Some r.
Proof. by apply strip_prefix_Some. Qed.

Lemma strip_prefix_None p s : strip_prefix p s = None ↔ ∀ r, s ≠ p +:+ r.
Proof.
  destruct (strip_prefix p s) as [r|] eqn:E.
  - apply strip_prefix_Some in E. naive_solver.
  - split; [|done]. intros _ r Hr. apply strip_prefix_Some in Hr. congruence.
Qed.

Lemma span_app f s : let '(a, b) := span f s in s = a +:+ b.
Proof.
  induction s as [|c s IH]; simpl; [done|].
  destruct (f c); [|done]. destruct (span f s) as [a b].
  by rewrite string_app_cons, IH.
Qed.

Lemma span_eq f s t :
  string_Forall (λ c, f c = true) s →
  (match t with String c _ => f c = false | EmptyString => True end) →
  span f (s +:+ t) = (s, t).
Proof.
  intros Hs Ht. induction s as [|c s IH]; simpl in Hs.
  - rewrite string_app_nil_l. destruct t as [|d t]; simpl; [done|]. by rewrite Ht.
  - destruct Hs as [Hc Hs]. rewrite string_app_cons. simpl. by rewrite Hc, IH.
Qed.

Lemma c_str_id s : string_Forall (λ c, c ≠ NUL) s → c_str s = s.
Proof.
  induction s as [|c s IH]; simpl; [done|]. intros [Hc Hs].
  rewrite decide_False by done. by rewrite IH.
Qed.

Lemma c_str_no_NUL s : string_Forall (λ c, c ≠ NUL) (c_str s).
Proof. induction s as [|c s IH]; simpl; [done|]. by case_decide. Qed.

Lemma c_str_app_NUL s t :
  string_Forall (λ c, c ≠ NUL) s → c_str (s +:+ String NUL t) = s.
Proof.
  induction s as [|c s IH]; intros Hs.
  - done.
  - destruct Hs as [Hc Hs]. rewrite string_app_cons. simpl.
    rewrite decide_False by done. by rewrite IH.
Qed.

Lemma string_Forall_app P s t :
  string_Forall P (s +:+ t) ↔ string_Forall P s ∧ string_Forall P t.
Proof.
  induction s as [|c s IH].
  - rewrite string_app_nil_l. simpl. tauto.
  - rewrite string_app_cons. simpl. rewrite IH. tauto.
Qed.

Lemma string_Forall_impl (P Q : ascii → Prop) s :
  (∀ c, P c → Q c) → string_Forall P s → string_Forall Q s.
Proof. intros HPQ. induction s as [|c s IH]; simpl; naive_solver. Qed.

Lemma substring_split n s :
  String.substring 0 n s +:+ String.substring n (String.length s - n) s = s.
Proof.
  revert n. induction s as [|c s IH]; intros [|n]; simpl; try done.
  - rewrite string_app_nil_l. f_equal. specialize (IH O). rewrite Nat.sub_0_r in IH.
    destruct s; [done|]. by rewrite string_app_nil_l in IH.
  - rewrite string_app_cons. f_equal. apply IH.
Qed.

Lemma substring_take s rest : String.substring 0 (String.length s) (s +:+ rest) = s.
Proof.
  induction s as [|c s IH]; [by destruct rest|]. rewrite string_app_cons. cbn. by rewrite IH.
Qed.
Lemma substring_drop x s : String.substring (String.length x) (String.length s) (x +:+ s) = s.
Proof. induction x as [|c x IH]; [|done].
  pose proof (substring_take s EmptyString) as H. by rewrite string_app_nil_r in H.
Qed.

Lemma substring_length n m s :
  (n ≤ String.length s)%nat →
  String.length (String.substring n m s) = Nat.min m (String.length s - n).
Proof.
  revert n m. induction s as [|c s IH]; intros [|n] m Hn; simpl in *; try lia.
  - by destruct m.
  - destruct m as [|m]; [done|]. simpl. rewrite IH by lia. rewrite Nat.sub_0_r. done.
  - rewrite IH by lia. done.
Qed.

(** ** Lists *)

Lemma filter_elem {A} (P1 P2 : A → Prop) `{∀ x, Decision (P1 x), ∀ x, Decision (P2 x)} (l : list A) :
  (∀ x, x ∈ l → P1 x ↔ P2 x) → filter P1 l = filter P2 l.
Proof.
  induction l as [|x l IH]; intros Hl; [done|]. rewrite !list_basics.list.filter_cons.
  rewrite IH by (intros y Hy; apply Hl; by right).
  assert (P1 x ↔ P2 x) as Hx by (apply Hl; by left). by do 2 case_decide; try tauto.
Qed.
Lemma fst_inj {A B} (l : list (A * B)) e e' :
  NoDup l.*1 → e ∈ l → e' ∈ l → e.1 = e'.1 → e = e'.
Proof.
  intros Hl [i Hi]%list_elem_of_lookup [j Hj]%list_elem_of_lookup He.
  assert (i = j) as ->; [|congruence].
  eapply NoDup_lookup; [exact Hl| |]; rewrite list_lookup_fmap; [by rewrite Hi|by rewrite Hj, He].
Qed.

(** ** Automation *)

Create HintDb svc discriminated.
Create Rewrite HintDb svc_str.
#[export] Hint Resolve chr_code code_chr code_range c_str_no_NUL strip_prefix_app : svc.
#[export] Hint Rewrite string_app_nil_l string_app_nil_r string_app_cons string_app_assoc
  string_length_app : svc_str.

(** Normalise concatenations to the right-nested form. *)
Ltac str_norm := autorewrite with svc_str in *.

(** Case analysis on the scrutinee of the first [match] in the goal or in [H]. *)
Ltac dmatch :=
  match goal with
  | |- context [match ?x with _ => _ end] =>
      lazymatch x with context [match _ with _ => _ end] => fail | _ => destruct x eqn:? end
  end.
Ltac dmatch_in H :=
  match type of H with
  | context [match ?x with _ => _ end] =>
      lazymatch x with context [match _ with _ => _ end] => fail | _ => destruct x eqn:? end
  end.

(** Split a goal about concrete characters into its 256 cases. *)
Ltac all_ascii c := destruct c as [[] [] [] [] [] [] [] []].

(** ** Decimal rendering *)

(** [std::to_string] of an integer. *)
Definition to_string (z : Z) : string := pretty z.

Lemma pretty_N_go_digits x s :
  string_Forall (λ c, is_digit c = true) s →
  string_Forall (λ c, is_digit c = true) (pretty_N_go x s).
Proof.
  revert s. induction (N.lt_wf_0 x) as [x _ IH]; intros s Hs.
  destruct (decide (x = 0)%N) as [->|Hx]; [done|].
  rewrite pretty_N_go_step by lia.
  apply IH; [apply N.div_lt; lia|]. split; [|done].
  assert (x `mod` 10 < 10)%N as Hd by (apply N.mod_lt; done).
  revert Hd. generalize (x `mod` 10)%N as d. intros d Hd.
  assert (d = 0 ∨ d = 1 ∨ d = 2 ∨ d = 3 ∨ d = 4 ∨ d = 5 ∨ d = 6 ∨ d = 7 ∨ d = 8 ∨ d = 9)%N
    as Hc by lia.
  by repeat (destruct Hc as [->|Hc]); subst.
Qed.

Lemma to_string_digits z : (0 ≤ z)%Z → string_Forall (λ c, is_digit c = true) (to_string z).
Proof.
  intros Hz. destruct z as [|p|p]; [done| |lia].
  unfold to_string, pretty, pretty_Z, pretty, pretty_N. simpl. by apply pretty_N_go_digits.
Qed.

Lemma is_digit_not_NUL c : is_digit c = true → c ≠ NUL.
Proof. by intros H ->. Qed.

Lemma to_string_no_NUL z : string_Forall (λ c, c ≠ NUL) (to_string z).
Proof.
  assert (∀ p, string_Forall (λ c, c ≠ NUL) (to_string (Z.pos p))) as Hp.
  { intros p. eapply string_Forall_impl; [apply is_digit_not_NUL|].
    by apply to_string_digits. }
  destruct z as [|p|p]; [done|apply Hp|].
  change (to_string (Z.neg p)) with ("-" +:+ to_string (Z.pos p)).
  rewrite string_app_cons, string_app_nil_l. by split.
Qed.
