(* ===== verification/Doubles.v ===== *)
(** * IEEE binary64 as the C and C++ library functions the service calls see it

    Values are [spec_float]s of the Standard Library at precision 53 and maximal
    exponent 1024.  [strtod], the [>>] of a string stream on a [double] (libstdc++
    [num_get]) and the [%.Ng] conversion of [printf] are written out exactly, with
    correct rounding: they decide which amounts the service accepts and how it
    prints them back. *)

From S2P Require Import Prelude.
From Stdlib Require Import SpecFloat.
Open Scope Z_scope.

Abbreviation double := spec_float.
Definition prec : Z := 53.
Definition emax : Z := 1024.

Definition dzero : double := S754_zero false.
Definition dmax (neg : bool) : double := S754_finite neg (2 ^ 53 - 1)%positive 971.

(** The double nearest to the integer [z] ([static_cast<double>]), and [a / b]. *)
Definition double_of_Z (z : Z) : double := binary_normalize prec emax z 0 false.
Definition ddiv (a b : double) : double := SFdiv prec emax a b.
Definition dgt (a b : double) : bool := SFltb b a.

Definition is_inf (d : double) : bool :=
  match d with S754_infinity _ => true | _ => false end.
Definition is_nan (d : double) : bool :=
  match d with S754_nan => true | _ => false end.

(** The double nearest to [m * b ^ e], ties to even; [m] is a natural number and
    [b] a positive base. *)
Definition scale_to_double (neg : bool) (m b e : Z) : double :=
  match m with
  | Zpos p =>
      if 0 <=? e then binary_normalize prec emax (cond_Zopp neg (m * b ^ e)) 0 neg
      else match b ^ (- e) with
           | Zpos q => SFdiv prec emax (S754_finite neg p 0) (S754_finite false q 0)
           | _ => S754_nan
           end
  | _ => S754_zero neg
  end.

(** Whether [d] is exactly [m * b ^ e]. *)
Definition scale_exact (m b e : Z) (d : double) : bool :=
  match d with
  | S754_finite _ p k =>
      Zpos p * 2 ^ Z.max 0 k * b ^ Z.max 0 (- e)
      =? m * b ^ Z.max 0 e * 2 ^ Z.max 0 (- k)
  | S754_zero _ => m =? 0
  | _ => false
  end.

(** [errno == ERANGE] after [strtod]: the result overflowed, or it is tiny and
    inexact. *)
Definition scale_erange (m b e : Z) (d : double) : bool :=
  match d with
  | S754_infinity _ => true
  | S754_zero _ => negb (m =? 0)
  | S754_finite _ p _ => (Zdigits2 (Zpos p) <? prec) && negb (scale_exact m b e d)
  | S754_nan => false
  end.

(** ** Digits *)

Fixpoint digits_value (acc : Z) (s : string) : Z :=
  match s with
  | String c s' => digits_value (acc * 10 + digit_val c) s'
  | EmptyString => acc
  end.

Definition is_xdigit (c : ascii) : bool :=
  let z := code c in
  is_digit c || ((97 <=? z) && (z <=? 102)) || ((65 <=? z) && (z <=? 70)).
Definition xdigit_val (c : ascii) : Z :=
  if is_digit c then digit_val c
  else if 97 <=? code c then code c - 87 else code c - 55.
Fixpoint xdigits_value (acc : Z) (s : string) : Z :=
  match s with
  | String c s' => xdigits_value (acc * 16 + xdigit_val c) s'
  | EmptyString => acc
  end.

(** An optional sign, and the rest. *)
Definition opt_sign (s : string) : bool * string :=
  match s with
  | String c s' =>
      if decide (c = "-"%char) then (true, s')
      else if decide (c = "+"%char) then (false, s') else (false, s)
  | EmptyString => (false, s)
  end.

(** An exponent part introduced by one of [intro]: its value and what follows;
    without a digit after the sign nothing is consumed. *)
Definition opt_exponent (intro : ascii → bool) (s : string) : Z * string :=
  match s with
  | String c s' =>
      if intro c then
        let '(neg, s1) := opt_sign s' in
        match span is_digit s1 with
        | (EmptyString, _) => (0, s)
        | (ds, rest) => ((if neg then - digits_value 0 ds else digits_value 0 ds), rest)
        end
      else (0, s)
  | EmptyString => (0, s)
  end.

Definition is_e (c : ascii) : bool := bool_decide (c = "e"%char ∨ c = "E"%char).
Definition is_p (c : ascii) : bool := bool_decide (c = "p"%char ∨ c = "P"%char).
Definition is_dot (c : ascii) : bool := bool_decide (c = "."%char).

(** Digits, an optional point and more digits: the two runs and the rest. *)
Definition mantissa (f : ascii → bool) (s : string) : string * string * string :=
  let '(ip, s1) := span f s in
  match s1 with
  | String c s2 =>
      if is_dot c then let '(fp, s3) := span f s2 in (ip, fp, s3) else (ip, EmptyString, s1)
  | EmptyString => (ip, EmptyString, s1)
  end.

Definition slen (s : string) : Z := Z.of_nat (String.length s).
Lemma slen_cons c s : slen (String c s) = 1 + slen s.
Proof. unfold slen. cbn [String.length]. lia. Qed.
Lemma slen_app s1 s2 : slen (s1 +:+ s2) = slen s1 + slen s2.
Proof. unfold slen. rewrite string_length_app. lia. Qed.
Lemma slen_nonneg s : 0 ≤ slen s.
Proof. unfold slen. lia. Qed.
Lemma slen_pos s : s ≠ "" → 0 < slen s.
Proof. destruct s as [|c s]; [done|]. rewrite slen_cons. pose proof (slen_nonneg s). lia. Qed.

(** ** strtod

    [strtod s] is the converted value, whether [ERANGE] is reported, and the
    unconverted rest; [None] when no conversion can be performed. *)
Definition strtod_dec (neg : bool) (s : string) : option (double * bool * string) :=
  match mantissa is_digit s with
  | (EmptyString, EmptyString, _) => None
  | (ip, fp, s1) =>
      let m := digits_value (digits_value 0 ip) fp in
      let '(ex, s2) := opt_exponent is_e s1 in
      let e := ex - slen fp in
      let d := scale_to_double neg m 10 e in
      Some (d, scale_erange m 10 e d, s2)
  end.

Definition strtod_hex (neg : bool) (s : string) : option (double * bool * string) :=
  match mantissa is_xdigit s with
  | (EmptyString, EmptyString, _) => None
  | (ip, fp, s1) =>
      let m := xdigits_value (xdigits_value 0 ip) fp in
      let '(ex, s2) := opt_exponent is_p s1 in
      let e := ex - 4 * slen fp in
      let d := scale_to_double neg m 2 e in
      Some (d, scale_erange m 2 e d, s2)
  end.

(** A case-insensitive keyword at the head of [s]. *)
Definition strip_prefix_ci (p s : string) : option string :=
  match strip_prefix p (string_map tolower (String.substring 0 (String.length p) s)) with
  | Some EmptyString => Some (String.substring (String.length p) (String.length s) s)
  | _ => None
  end.

Definition strtod (s : string) : option (double * bool * string) :=
  let '(neg, s1) := opt_sign (snd (span Ascii.is_space s)) in
  match strip_prefix_ci "infinity" s1, strip_prefix_ci "inf" s1, strip_prefix_ci "nan" s1,
        strip_prefix_ci "0x" s1 with
  | Some r, _, _, _ | None, Some r, _, _ => Some (S754_infinity neg, false, r)
  | None, None, Some r, _ => Some (S754_nan, false, r)
  | None, None, None, Some r =>
      match strtod_hex neg r with Some x => Some x | None => strtod_dec neg s1 end
  | None, None, None, None => strtod_dec neg s1
  end.

(** [std::stoi], base 10, and [std::stod]: leading white space, a sign, digits; the rest is
    ignored. *)
Definition stoi (s : string) : result Z :=
  let '(neg, s1) := opt_sign (snd (span Ascii.is_space (c_str s))) in
  match span is_digit s1 with
  | (EmptyString, _) => Throw InvalidArgument
  | (ds, _) =>
      let v := if neg then - digits_value 0 ds else digits_value 0 ds in
      if (v <? int32_min) || (int32_max <? v) then Throw OutOfRange else Ok v
  end.
Definition stod (s : string) : result double :=
  match strtod (c_str s) with
  | None => Throw InvalidArgument
  | Some (d, erange, _) => if erange : bool then Throw OutOfRange else Ok d
  end.

(** ** operator>> on a double

    Stage 2 of [num_get]: the characters accumulated after an optional sign. *)
Fixpoint num_get_accumulate (mant dec sci : bool) (s : string) : string :=
  match s with
  | String c s' =>
      if is_digit c then String c (num_get_accumulate true dec sci s')
      else if is_dot c && negb dec && negb sci then
        String c (num_get_accumulate mant true sci s')
      else if is_e c && negb sci && mant then
        match s' with
        | String d s'' =>
            if bool_decide (d = "+"%char ∨ d = "-"%char)
            then String "e" (String d (num_get_accumulate mant dec true s''))
            else String "e" (num_get_accumulate mant dec true s')
        | EmptyString => String "e" EmptyString
        end
      else EmptyString
  | EmptyString => EmptyString
  end.

Definition num_get_float (s : string) : string :=
  match s with
  | String c s' =>
      if bool_decide (c = "+"%char ∨ c = "-"%char)
      then String c (num_get_accumulate false false false s')
      else num_get_accumulate false false false s
  | EmptyString => EmptyString
  end.

(** Stage 3: the whole accumulated text must convert; an infinite result is
    replaced by the largest finite value; a failure stores 0. *)
Definition stream_get_double (s : string) : double :=
  match strtod (num_get_float (snd (span Ascii.is_space s))) with
  | Some (S754_infinity neg, _, EmptyString) => dmax neg
  | Some (d, _, EmptyString) => d
  | _ => dzero
  end.

(** ** printf "%.Ng" *)

Definition div_half_even (a b : Z) : Z :=
  let q := a / b in
  let r := a mod b in
  match 2 * r ?= b with
  | Lt => q
  | Gt => q + 1
  | Eq => if Z.even q then q else q + 1
  end.

(** The decimal exponent [x] with [10^x <= n/d < 10^(x+1)], for [0 < n], [0 < d]. *)
Definition dec_exponent (n d : Z) : Z :=
  let x := slen (to_string n) - slen (to_string d) in
  if d * 10 ^ Z.max 0 x <=? n * 10 ^ Z.max 0 (- x) then x else x - 1.

(** [n/d] to [p] significant digits: the digits as an integer, and the decimal
    exponent of the first. *)
Definition sig_digits (p n d : Z) : Z * Z :=
  let x := dec_exponent n d in
  let k := p - 1 - x in
  let m := div_half_even (n * 10 ^ Z.max 0 k) (d * 10 ^ Z.max 0 (- k)) in
  if m =? 10 ^ p then (10 ^ (p - 1), x + 1) else (m, x).

Fixpoint strip_zeros (s : string) : string :=
  match s with
  | String c s' =>
      match strip_zeros s' with
      | EmptyString => if decide (c = "0"%char) then EmptyString else String c EmptyString
      | t => String c t
      end
  | EmptyString => EmptyString
  end.

Definition with_fraction (ip fp : string) : string :=
  match strip_zeros fp with
  | EmptyString => ip
  | f => ip +:+ "." +:+ f
  end.

Definition two_digits (z : Z) : string :=
  if z <? 10 then "0" +:+ to_string z else to_string z.

Definition format_g_pos (p n d : Z) : string :=
  let '(m, x) := sig_digits p n d in
  let ds := to_string m in
  if (- 4 <=? x) && (x <? p) then
    if 0 <=? x then
      let k := Z.to_nat (x + 1) in
      with_fraction (String.substring 0 k ds) (String.substring k (String.length ds) ds)
    else with_fraction "0" (string_rep (Z.to_nat (- x - 1)) "0" +:+ ds)
  else
    with_fraction (String.substring 0 1 ds) (String.substring 1 (String.length ds) ds)
    +:+ (if x <? 0 then "e-" +:+ two_digits (- x) else "e+" +:+ two_digits x).

Definition minus_if (neg : bool) (s : string) : string :=
  if neg then String "-" s else s.

Definition format_g (p : Z) (d : double) : string :=
  match d with
  | S754_zero neg => minus_if neg "0"
  | S754_infinity neg => minus_if neg "inf"
  | S754_nan => "nan"
  | S754_finite neg m e =>
      minus_if neg (format_g_pos p (Zpos m * 2 ^ Z.max 0 e) (2 ^ Z.max 0 (- e)))
  end.

(** [printf "%f"]: six digits after the point. *)
Definition format_f (d : double) : string :=
  match d with
  | S754_zero neg => minus_if neg "0.000000"
  | S754_infinity neg => minus_if neg "inf"
  | S754_nan => "nan"
  | S754_finite neg m e =>
      let v := div_half_even (Zpos m * 2 ^ Z.max 0 e * 10 ^ 6) (2 ^ Z.max 0 (- e)) in
      let fr := to_string (v mod 10 ^ 6) in
      minus_if neg (to_string (v / 10 ^ 6) +:+ "." +:+
                    string_rep (6 - String.length fr) "0" +:+ fr)
  end.

(** [DECIMAL_DIG] on the targets with an 80-bit [long double]. *)
Definition DECIMAL_DIG : Z := 21.
