(* ===== verification/JsonRead.v ===== *)
(** * crow/json.h, the reading half

    [rvalue], its accessors, and the parser [load].  The parser's cursor [data]
    is the suffix of the input it points at; the input is followed by the single
    NUL that [load] writes, so the empty suffix reads as NUL.  The in-place
    writes of the parser and of [unescape] stay inside the token they belong to
    and are represented by the token's text and its [has_escaping] byte. *)

From S2P Require Import Prelude Doubles.
Open Scope Z_scope.

(** ** Types *)

Inductive json_type : Type :=
| TNull | TFalse | TTrue | TNumber | TString | TList | TObject | TFunction.

Inductive num_type : Type :=
| Signed_integer | Unsigned_integer | Floating_point | NumNull
| Double_precision_floating_point.

#[export] Instance json_type_eq_dec : EqDecision json_type.
Proof. solve_decision. Defined.
#[export] Instance num_type_eq_dec : EqDecision num_type.
Proof. solve_decision. Defined.

Definition get_type_str (t : json_type) : string :=
  match t with
  | TNumber => "Number" | TFalse => "False" | TTrue => "True" | TList => "List"
  | TString => "String" | TObject => "Object" | TFunction => "Function"
  | TNull => "Unknown"
  end.

(** [std::sort]: the standard promises a sorted permutation and nothing about the
    order of equivalent elements, so the model takes any function with these two
    laws. *)
Class StdSort : Type := {
  std_sort : ∀ {A : Type}, (A → A → bool) → list A → list A;
  std_sort_perm : ∀ {A : Type} (lt : A → A → bool) l, Permutation (std_sort lt l) l;
  std_sort_sorted : ∀ {A : Type} (lt : A → A → bool) l,
    (∀ x, lt x x = false) →
    (∀ x y z, lt x y = true → lt y z = true → lt x z = true) →
    (∀ x y z, lt x y = false → lt y z = false → lt x z = false) →
    StronglySorted (λ x y, lt y x = false) (std_sort lt l);
}.

(** One function that meets these promises. *)
Fixpoint insert_by {A} (lt : A → A → bool) (x : A) (l : list A) : list A :=
  match l with
  | [] => [x]
  | y :: l' => if lt x y then x :: y :: l' else y :: insert_by lt x l'
  end.
Definition insertion_sort {A} (lt : A → A → bool) (l : list A) : list A :=
  fold_right (insert_by lt) [] l.

(** [r_string]'s [operator<]: [std::lexicographical_compare] over signed [char]s. *)
Fixpoint r_string_lt (l r : string) : bool :=
  match l, r with
  | _, EmptyString => false
  | EmptyString, String _ _ => true
  | String a l', String b r' =>
      if schar a <? schar b then true
      else if schar b <? schar a then false
      else r_string_lt l' r'
  end.

(** [rvalue]: [r_range] is the text between [start_] and [end_], [r_escaped] the
    byte before it; a field the constructor leaves unset is [None]. *)
Inductive rvalue : Type := RV {
  r_range : option string;
  r_escaped : bool;
  r_key : option string;
  r_l : list rvalue;
  r_lremain : Z;
  r_t : option json_type;
  r_nt : num_type;
  r_cached : bool;
  r_error : bool;
}.

(** [rvalue()], [rvalue(type)]. *)
Definition rv_error : rvalue := RV None false None [] 0 None NumNull false true.
Definition rv_of_type (t : json_type) : rvalue :=
  RV None false None [] 0 (Some t) NumNull false false.

Fixpoint memchr (c : ascii) (s : string) : bool :=
  match s with
  | String d s' => bool_decide (c = d) || memchr c s'
  | EmptyString => false
  end.

Definition determine_num_type (t : json_type) (tok : string) : num_type :=
  match t with
  | TNumber =>
      let has_minus := memchr "-" tok in
      let has_e := memchr "e" tok || memchr "E" tok in
      let has_dec_sep := memchr "." tok in
      if has_dec_sep || has_e then Floating_point
      else if has_minus then Signed_integer
      else Unsigned_integer
  | _ => NumNull
  end.

(** [rvalue(type, start, end)]. *)
Definition rv_of_range (t : json_type) (tok : string) (escaped : bool) : rvalue :=
  RV (Some tok) escaped None [] 0 (Some t) (determine_num_type t tok) false false.

Definition rv_set_error (v : rvalue) : rvalue :=
  RV (r_range v) (r_escaped v) (r_key v) (r_l v) (r_lremain v) (r_t v) (r_nt v)
     (r_cached v) true.
Definition rv_set_key (k : string) (v : rvalue) : rvalue :=
  RV (r_range v) (r_escaped v) (Some k) (r_l v) (r_lremain v) (r_t v) (r_nt v)
     (r_cached v) (r_error v).
Definition rv_set_l (l : list rvalue) (cached : bool) (v : rvalue) : rvalue :=
  RV (r_range v) (r_escaped v) (r_key v) l (r_lremain v) (r_t v) (r_nt v)
     cached (r_error v).

(** [emplace_back]: the capacity arithmetic is kept ([lsize_] is the length of
    the list, [lremain_] the unused slots, a [uint16_t]).  The sum is an [int] in the
    source, which has room for it up to 2^30 elements. *)
Definition grow_size (lsize : Z) : Z :=
  let new_size := lsize + lsize in
  let new_size := if 60000 <? new_size - lsize then lsize + 60000 else new_size in
  if new_size <? 4 then 4 else new_size.
Definition rv_emplace_back (ret v : rvalue) : rvalue :=
  let lsize := Z.of_nat (length (r_l ret)) in
  let lremain :=
    if r_lremain ret =? 0 then uwrap 16 (grow_size lsize - lsize) else r_lremain ret in
  RV (r_range ret) (r_escaped ret) (r_key ret) (r_l ret ++ [v]) (uwrap 16 (lremain - 1))
     (r_t ret) (r_nt ret) (r_cached ret) (r_error ret).

(** ** Accessors *)

(** [explicit operator bool]. *)
Definition rv_bool (v : rvalue) : bool := negb (r_error v).

Definition rv_t (v : rvalue) : result json_type :=
  if r_error v then Throw (RuntimeError "invalid json object")
  else match r_t v with Some t => Ok t | None => Throw (UB "type never set") end.
Definition rv_nt (v : rvalue) : result num_type :=
  if r_error v then Throw (RuntimeError "invalid json object") else Ok (r_nt v).

Definition rv_text (v : rvalue) : result string :=
  match r_range v with Some s => Ok s | None => Throw (UB "start_ never set") end.

(** [unescape], from [head] to [end_]; the four digits of a unicode escape were checked by the
    parser. *)
Definition from_hex (c : ascii) : Z :=
  if schar "a" <=? schar c then schar c - 97 + 10
  else if schar "A" <=? schar c then schar c - 65 + 10
  else schar c - 48.
Definition utf8_of_code (u : Z) : string :=
  if 0x800 <=? u then
    String (chr (Z.lor 0xE0 (Z.shiftr u 12)))
      (String (chr (Z.lor 0x80 (Z.land (Z.shiftr u 6) 0x3F)))
         (String (chr (Z.lor 0x80 (Z.land u 0x3F))) EmptyString))
  else if 0x80 <=? u then
    String (chr (Z.lor 0xC0 (Z.shiftr u 6)))
      (String (chr (Z.lor 0x80 (Z.land u 0x3F))) EmptyString)
  else String (chr u) EmptyString.
Fixpoint unescape_text (s : string) : string :=
  match s with
  | String c s' =>
      if decide (c = BSL) then
        match s' with
        | String e s'' =>
            if decide (e = "u"%char) then
              match s'' with
              | String h1 (String h2 (String h3 (String h4 r))) =>
                  utf8_of_code (Z.shiftl (from_hex h1) 12 + Z.shiftl (from_hex h2) 8
                                + Z.shiftl (from_hex h3) 4 + from_hex h4)
                  +:+ unescape_text r
              | _ => EmptyString
              end
            else if decide (e = DQ) then String DQ (unescape_text s'')
            else if decide (e = BSL) then String BSL (unescape_text s'')
            else if decide (e = "/"%char) then String "/" (unescape_text s'')
            else if decide (e = "b"%char) then String "008" (unescape_text s'')
            else if decide (e = "f"%char) then String "012" (unescape_text s'')
            else if decide (e = "n"%char) then String "010" (unescape_text s'')
            else if decide (e = "r"%char) then String "013" (unescape_text s'')
            else if decide (e = "t"%char) then String "009" (unescape_text s'')
            else unescape_text s''
        | EmptyString => EmptyString
        end
      else String c (unescape_text s')
  | EmptyString => EmptyString
  end.

Definition rv_s (v : rvalue) : result string :=
  t ← rv_t v;
  if decide (t = TString) then
    s ← rv_text v; Ok (if r_escaped v then unescape_text s else s)
  else Throw (RuntimeError "value is not string").

Definition rv_d (v : rvalue) : result double :=
  t ← rv_t v;
  if decide (t = TNumber) then s ← rv_text v; Ok (stream_get_double s)
  else Throw (RuntimeError "value is not number").

Definition rv_b (v : rvalue) : result bool :=
  t ← rv_t v;
  if decide (t = TTrue ∨ t = TFalse) then Ok (bool_decide (t = TTrue))
  else Throw (RuntimeError "value is not boolean").

(** [lexical_cast<int64_t>] and [lexical_cast<uint64_t>]: [operator>>] on an
    integer, saturating, 0 when there is no digit.  An empty text leaves the
    result unset. *)
Definition stream_get_integer (lo hi : Z) (s : string) : result Z :=
  match snd (span Ascii.is_space s) with
  | EmptyString => Throw (UB "lexical_cast of an empty text")
  | s' =>
      let '(neg, s1) := opt_sign s' in
      let m := digits_value 0 (fst (span is_digit s1)) in
      Ok (if lo <? 0 then Z.max lo (Z.min hi (if neg then - m else m))
          else if hi <? m then hi
          else uwrap 64 (if neg then - m else m))
  end.
Definition rv_i (v : rvalue) : result Z :=
  t ← rv_t v;
  if decide (t = TNumber ∨ t = TString) then
    s ← rv_text v; stream_get_integer int64_min int64_max s
  else Throw (RuntimeError ("expected number, got: " +:+ get_type_str t)).
Definition rv_u (v : rvalue) : result Z :=
  t ← rv_t v;
  if decide (t = TNumber ∨ t = TString) then
    s ← rv_text v; stream_get_integer 0 uint64_max s
  else Throw (RuntimeError ("expected number, got: " +:+ get_type_str t)).

(** [begin()] and [end()] delimit this list. *)
Definition rv_range_l (v : rvalue) : result (list rvalue) :=
  t ← rv_t v;
  if decide (t = TObject ∨ t = TList) then Ok (r_l v)
  else Throw (RuntimeError "value is not a container").

Definition rv_size (v : rvalue) : result Z :=
  t ← rv_t v;
  if decide (t = TString) then s ← rv_s v; Ok (slen s)
  else l ← rv_range_l v; Ok (Z.of_nat (length l)).

(** [operator[](int)]. *)
Definition rv_at (v : rvalue) (index : Z) : result rvalue :=
  t ← rv_t v;
  if decide (t = TList) then
    match (if index <? 0 then None else r_l v !! Z.to_nat index) with
    | Some x => Ok x
    | None => Throw (RuntimeError "list out of bound")
    end
  else Throw (RuntimeError "value is not a list").

(** [explicit operator std::string]. *)
Definition rv_string (v : rvalue) : result string :=
  t ← rv_t v;
  match t with
  | TObject | TList => Throw (RuntimeError "json type container")
  | TString => rv_s v
  | TNull => Ok "null"
  | TTrue => Ok "true"
  | TFalse => Ok "false"
  | _ => rv_text v
  end.

(** ** Object members

    [Pred] compares keys; a key that was never set (an element of a list) is an
    indeterminate pointer pair, so comparing it has no meaning. *)
Definition key_text (v : rvalue) : string := default "" (r_key v).
Definition pred_rr (l r : rvalue) : bool := r_string_lt (key_text l) (key_text r).
Definition pred_rs (l : rvalue) (r : string) : bool := r_string_lt (key_text l) r.
Definition keys_set (l : list rvalue) : bool :=
  forallb (λ v, bool_decide (is_Some (r_key v))) l.

(** [std::lower_bound] on a partitioned range: the first element not below. *)
Fixpoint lower_bound (l : list rvalue) (str : string) : option rvalue :=
  match l with
  | [] => None
  | x :: l' => if pred_rs x str then lower_bound l' str else Some x
  end.

Section Members.
Context `{!StdSort}.

(** The members in the order the lookups leave them: sorted once, then cached. *)
Definition sort_members (v : rvalue) : result rvalue :=
  if r_cached v then Ok v
  else
    l ← rv_range_l v;
    if keys_set l || (length l <=? 1)%nat
    then Ok (rv_set_l (std_sort pred_rr l) true v)
    else Throw (UB "key of a list element").

Definition find_member (v : rvalue) (str : string) : result (option rvalue) :=
  l ← rv_range_l v;
  if keys_set l then
    Ok (match lower_bound l str with
        | Some x => if decide (key_text x = str) then Some x else None
        | None => None
        end)
  else Throw (UB "key of a list element").

(** [has(str)], with the value as the call leaves it. *)
Definition rv_has (v : rvalue) (str : string) : result (bool * rvalue) :=
  v' ← sort_members v;
  m ← find_member v' str;
  Ok (bool_decide (is_Some m), v').

Definition rv_count (v : rvalue) (str : string) : result (Z * rvalue) :=
  p ← rv_has v str; Ok ((if fst p : bool then 1 else 0), snd p).

(** [operator[](const std::string&)]. *)
Definition rv_index (v : rvalue) (str : string) : result (rvalue * rvalue) :=
  t ← rv_t v;
  if decide (t = TObject) then
    v' ← sort_members v;
    m ← find_member v' str;
    match m with
    | Some x => Ok (x, v')
    | None => Throw (RuntimeError ("cannot find key: " +:+ str))
    end
  else Throw (RuntimeError "value is not an object").
End Members.

Definition rv_keys (v : rvalue) : result (list string) :=
  t ← rv_t v;
  if decide (t = TObject) then Ok (key_text <$> r_l v)
  else Throw (RuntimeError "value is not an object").

(** ** The parser *)

Definition max_depth : Z := 10000.

(** [*data]. *)
Definition deref (s : string) : ascii :=
  match s with String c _ => c | EmptyString => NUL end.

Definition consume (c : ascii) (s : string) : option string :=
  match s with
  | String d s' => if decide (d = c) then Some s' else None
  | EmptyString => None
  end.

Definition is_ws (c : ascii) : bool :=
  bool_decide (c = " "%char ∨ c = "009"%char ∨ c = "013"%char ∨ c = "010"%char).
Fixpoint ws_skip (s : string) : string :=
  match s with
  | String c s' => if is_ws c then ws_skip s' else s
  | EmptyString => EmptyString
  end.

Definition check_hex (c : ascii) : bool :=
  let z := schar c in
  ((48 <=? z) && (z <=? 57)) || ((97 <=? z) && (z <=? 102)) || ((65 <=? z) && (z <=? 70)).

(** The characters that may follow a backslash, apart from [u]. *)
Definition is_escape (c : ascii) : bool :=
  bool_decide (c = DQ ∨ c = BSL ∨ c = "/"%char ∨ c = "b"%char ∨ c = "f"%char
               ∨ c = "n"%char ∨ c = "r"%char ∨ c = "t"%char).

(** The loop of [decode_string] after the opening quote: the token's text and
    whether it holds an escape, and the cursor. *)
Definition tok_cons (c : ascii) (esc : bool) (r : option (string * bool) * string)
  : option (string * bool) * string :=
  match r with
  | (Some (t, e), s) => (Some (String c t, esc || e), s)
  | (None, s) => (None, s)
  end.
Fixpoint string_loop (s : string) : option (string * bool) * string :=
  match s with
  | EmptyString => (None, s)
  | String c s' =>
      if decide (c = DQ) then (Some (EmptyString, false), s')
      else if decide (c = BSL) then
        match s' with
        | EmptyString => (None, s')
        | String e s'' =>
            if decide (e = "u"%char) then
              match s'' with
              | String h1 (String h2 (String h3 (String h4 r))) =>
                  if check_hex h1 && check_hex h2 && check_hex h3 && check_hex h4 then
                    tok_cons c true (tok_cons e true (tok_cons h1 true (tok_cons h2 true
                      (tok_cons h3 true (tok_cons h4 true (string_loop r))))))
                  else (None, s')
              | _ => (None, s')
              end
            else if is_escape e then tok_cons c true (tok_cons e true (string_loop s''))
            else (None, s')
        end
      else if decide (c = NUL) then (None, s)
      else tok_cons c false (string_loop s')
  end.
Definition decode_string (s : string) : rvalue * string :=
  match consume DQ s with
  | None => (rv_error, s)
  | Some s' =>
      match string_loop s' with
      | (Some (t, e), r) => (rv_of_range TString t e, r)
      | (None, r) => (rv_error, r)
      end
  end.

(** [decode_number]: the state table indexed by the states' numbers. *)
Inductive NumberParsingState : Type :=
| Minus | AfterMinus | ZeroFirst | Digits | DigitsAfterPoints | E | DigitsAfterE | Invalid.
#[export] Instance nps_eq_dec : EqDecision NumberParsingState.
Proof. solve_decision. Defined.

Definition nps_index (st : NumberParsingState) : nat :=
  match st with
  | Minus => 0 | AfterMinus => 1 | ZeroFirst => 2 | Digits => 3
  | DigitsAfterPoints => 4 | E => 5 | DigitsAfterE => 6 | Invalid => 7
  end%nat.
Definition nps_of_nat (n : nat) : NumberParsingState :=
  match n with
  | 0 => Minus | 1 => AfterMinus | 2 => ZeroFirst | 3 => Digits
  | 4 => DigitsAfterPoints | 5 => E | 6 => DigitsAfterE | _ => Invalid
  end%nat.
Definition next_state (table : list nat) (st : NumberParsingState) : NumberParsingState :=
  nps_of_nat (nth (nps_index st) table 0%nat).
Definition table_0 : list nat := [2; 2; 7; 3; 4; 6; 6]%nat.
Definition table_19 : list nat := [3; 3; 7; 3; 4; 6; 6]%nat.
Definition table_dot : list nat := [7; 7; 4; 4; 7; 7; 7]%nat.
Definition table_minus : list nat := [1; 7; 7; 7; 7; 6; 7]%nat.
Definition table_plus : list nat := [7; 7; 7; 7; 7; 6; 7]%nat.
Definition table_e : list nat := [7; 7; 7; 5; 5; 7; 7]%nat.

Definition accepting (st : NumberParsingState) : bool :=
  bool_decide (st = ZeroFirst ∨ st = Digits ∨ st = DigitsAfterPoints ∨ st = DigitsAfterE).

(** The class of a character: [None] is the [default] label, and the flag tells
    whether the inner loop then runs over the digits that follow. *)
Definition number_char (c : ascii) : option (list nat * bool) :=
  if decide (c = "0"%char) then Some (table_0, false)
  else if is_digit c then Some (table_19, true)
  else if is_dot c then Some (table_dot, false)
  else if decide (c = "-"%char) then Some (table_minus, false)
  else if decide (c = "+"%char) then Some (table_plus, false)
  else if is_e c then Some (table_e, false)
  else None.

(** [number_loop st run s]: the loop in state [st]; [run] while the inner loop of
    a non-zero digit is skipping digits.  The result is the consumed text. *)
Fixpoint number_loop (st : NumberParsingState) (run : bool) (s : string)
  : option string * string :=
  match s with
  | EmptyString => ((if accepting st then Some EmptyString else None), s)
  | String c s' =>
      if run && is_digit c then
        match number_loop st true s' with
        | (Some t, r) => (Some (String c t), r)
        | (None, r) => (None, r)
        end
      else
        match number_char c with
        | None => ((if accepting st then Some EmptyString else None), s)
        | Some (table, run') =>
            let st' := next_state table st in
            if decide (st' = Invalid)
            then (None, if run' then snd (span is_digit s') else s')
            else
              match number_loop st' run' s' with
              | (Some t, r) => (Some (String c t), r)
              | (None, r) => (None, r)
              end
        end
  end.
Definition decode_number (s : string) : rvalue * string :=
  match number_loop Minus false s with
  | (Some t, r) => (rv_of_range TNumber t false, r)
  | (None, r) => (rv_error, r)
  end.

(** The mutually recursive descent; [None] is an exhausted [fuel]. *)
Definition key_of (t : rvalue) : string :=
  match rv_s t with Ok k => k | Throw _ => EmptyString end.

Fixpoint decode_value (fuel : nat) (depth : Z) (s : string) : option (rvalue * string) :=
  match fuel with
  | O => None
  | S fuel' =>
      let c := deref s in
      if decide (c = "["%char) then decode_list fuel' (depth + 1) s
      else if decide (c = "{"%char) then decode_object fuel' (depth + 1) s
      else if decide (c = DQ) then Some (decode_string s)
      else if decide (c = "t"%char) then
        match strip_prefix "true" s with
        | Some r => Some (rv_of_type TTrue, r)
        | None => Some (rv_error, s)
        end
      else if decide (c = "f"%char) then
        match strip_prefix "false" s with
        | Some r => Some (rv_of_type TFalse, r)
        | None => Some (rv_error, s)
        end
      else if decide (c = "n"%char) then
        match strip_prefix "null" s with
        | Some r => Some (rv_of_type TNull, r)
        | None => Some (rv_error, s)
        end
      else Some (decode_number s)
  end
with decode_list (fuel : nat) (depth : Z) (s : string) : option (rvalue * string) :=
  match fuel with
  | O => None
  | S fuel' =>
      let ret := rv_of_type TList in
      match consume "[" s with
      | None => Some (rv_set_error ret, s)
      | Some s1 =>
          if max_depth <? depth then Some (rv_set_error ret, s1)
          else
            let s2 := ws_skip s1 in
            match consume "]" s2 with
            | Some s3 => Some (ret, s3)
            | None => list_loop fuel' depth ret s2
            end
      end
  end
with list_loop (fuel : nat) (depth : Z) (ret : rvalue) (s : string)
  : option (rvalue * string) :=
  match fuel with
  | O => None
  | S fuel' =>
      match decode_value fuel' (depth + 1) s with
      | None => None
      | Some (v, s1) =>
          if negb (rv_bool v) then Some (rv_set_error ret, s1)
          else
            let s2 := ws_skip s1 in
            let ret := rv_emplace_back ret v in
            match consume "]" s2 with
            | Some s3 => Some (ret, s3)
            | None =>
                match consume "," s2 with
                | None => Some (rv_set_error ret, s2)
                | Some s3 => list_loop fuel' depth ret (ws_skip s3)
                end
            end
      end
  end
with decode_object (fuel : nat) (depth : Z) (s : string) : option (rvalue * string) :=
  match fuel with
  | O => None
  | S fuel' =>
      let ret := rv_of_type TObject in
      match consume "{" s with
      | None => Some (rv_set_error ret, s)
      | Some s1 =>
          if max_depth <? depth then Some (rv_set_error ret, s1)
          else
            let s2 := ws_skip s1 in
            match consume "}" s2 with
            | Some s3 => Some (ret, s3)
            | None => object_loop fuel' depth ret s2
            end
      end
  end
with object_loop (fuel : nat) (depth : Z) (ret : rvalue) (s : string)
  : option (rvalue * string) :=
  match fuel with
  | O => None
  | S fuel' =>
      let '(t, s1) := decode_string s in
      if negb (rv_bool t) then Some (rv_set_error ret, s1)
      else
        let s2 := ws_skip s1 in
        match consume ":" s2 with
        | None => Some (rv_set_error ret, s2)
        | Some s3 =>
            let key := key_of t in
            match decode_value fuel' (depth + 1) (ws_skip s3) with
            | None => None
            | Some (v, s5) =>
                if negb (rv_bool v) then Some (rv_set_error ret, s5)
                else
                  let s6 := ws_skip s5 in
                  let ret := rv_emplace_back ret (rv_set_key key v) in
                  match consume "}" s6 with
                  | Some s7 => Some (ret, s7)
                  | None =>
                      match consume "," s6 with
                      | None => Some (rv_set_error ret, s6)
                      | Some s7 => object_loop fuel' depth ret (ws_skip s7)
                      end
                  end
            end
        end
  end.

(** [Parser::parse]. *)
Definition parse (fuel : nat) (s : string) : option rvalue :=
  match decode_value fuel 0 (ws_skip s) with
  | None => None
  | Some (ret, s1) =>
      let s2 := ws_skip s1 in
      Some (if rv_bool ret && bool_decide (deref s2 ≠ NUL) then rv_set_error ret else ret)
  end.

(** Enough for every input (see [parse_total]). *)
Definition load_fuel (s : string) : nat := (3 * String.length s + 1)%nat.

(** [load(const std::string&)]. *)
Definition load (s : string) : rvalue :=
  match parse (load_fuel s) s with Some v => v | None => rv_error end.


(** How deeply containers are nested in a value. *)
Fixpoint rv_nest (v : rvalue) : Z :=
  match r_t v with
  | Some TList | Some TObject => 1 + foldr Z.max 0 (rv_nest <$> r_l v)
  | _ => 0
  end.

(** ** The cursor only moves forward *)

Abbreviation len := String.length (only parsing).

Lemma ws_skip_len s : (len (ws_skip s) ≤ len s)%nat.
Proof. induction s as [|c s IH]; simpl; [lia|]. destruct (is_ws c); simpl; lia. Qed.

Lemma consume_len c s s' : consume c s = Some s' → len s = S (len s').
Proof. destruct s as [|d s]; simpl; [done|]. case_decide; naive_solver. Qed.

Lemma strip_prefix_len p s r : strip_prefix p s = Some r → len s = (len p + len r)%nat.
Proof. intros ->%strip_prefix_Some. apply string_length_app. Qed.

Lemma span_len f s : (len (snd (span f s)) ≤ len s)%nat.
Proof.
  pose proof (span_app f s) as H. destruct (span f s) as [a b].
  rewrite H, string_length_app. simpl. lia.
Qed.

Lemma string_loop_len s : (len (snd (string_loop s)) ≤ len s)%nat.
Proof.
  induction s as [s IH] using (induction_ltof1 _ len). unfold ltof in IH.
  assert (∀ c b r, snd (tok_cons c b r) = snd r) as Ht.
  { intros c b [[[t e]|] s']; done. }
  destruct s as [|c s]; simpl; [lia|].
  repeat case_decide; simpl; try lia.
  - destruct s as [|e s]; simpl; [lia|]. case_decide.
    + destruct s as [|h1 [|h2 [|h3 [|h4 r]]]]; simpl; try lia.
      destruct (_ && _); simpl; [|lia]. rewrite !Ht.
      etrans; [apply IH|]; simpl; lia.
    + destruct (is_escape e); simpl; [|lia]. rewrite !Ht.
      etrans; [apply IH|]; simpl; lia.
  - rewrite Ht. etrans; [apply IH|]; simpl; lia.
Qed.

Lemma number_loop_len st run s : (len (snd (number_loop st run s)) ≤ len s)%nat.
Proof.
  revert st run. induction s as [|c s IH]; intros st run; simpl; [lia|].
  assert (∀ r : option string * string, len (snd r) ≤ len s →
    len (snd match r with (Some t, r') => (Some (String c t), r') | (None, r') => (None, r') end)
      ≤ S (len s))%nat as Hm by (intros [[t|] r]; simpl; lia).
  destruct (run && is_digit c); [by apply Hm|].
  destruct (number_char c) as [[tbl run']|]; simpl; [|lia].
  case_decide; [|by apply Hm]. simpl. destruct run'; [|lia].
  pose proof (span_len is_digit s). lia.
Qed.

Lemma number_loop_Minus_len s t r :
  number_loop Minus false s = (Some t, r) → (len r < len s)%nat.
Proof.
  destruct s as [|c s]; simpl; [done|].
  destruct (number_char c) as [[tbl run']|]; [|done].
  case_decide; [done|].
  pose proof (number_loop_len (next_state tbl Minus) run' s) as Hl.
  destruct (number_loop _ _ s) as [[t'|] r']; simpl in *; intros [= <- <-]; lia.
Qed.

Lemma decode_string_len s v s' :
  decode_string s = (v, s') → (len s' ≤ len s ∧ (rv_bool v = true → len s' < len s))%nat.
Proof.
  unfold decode_string. destruct (consume DQ s) as [s1|] eqn:Hc.
  - apply consume_len in Hc. pose proof (string_loop_len s1) as Hl.
    destruct (string_loop s1) as [[[t e]|] r]; simpl in Hl; intros [= <- <-]; simpl; lia.
  - intros [= <- <-]. simpl. split; [lia|done].
Qed.

Lemma decode_number_len s v s' :
  decode_number s = (v, s') → (len s' ≤ len s ∧ (rv_bool v = true → len s' < len s))%nat.
Proof.
  unfold decode_number. pose proof (number_loop_len Minus false s) as Hl.
  destruct (number_loop Minus false s) as [[t|] r] eqn:Hn; simpl in Hl; intros [= <- <-].
  - apply number_loop_Minus_len in Hn. simpl. lia.
  - split; [done|]. done.
Qed.

Lemma rv_bool_emplace r v : rv_bool (rv_emplace_back r v) = rv_bool r.
Proof. done. Qed.
Lemma rv_bool_set_error r : rv_bool (rv_set_error r) = false.
Proof. done. Qed.

(** A parsing function that never moves back, and moves on when it succeeds. *)
Definition advances (f : string → option (rvalue * string)) : Prop :=
  ∀ s v s', f s = Some (v, s') →
    (len s' ≤ len s ∧ (rv_bool v = true → len s' < len s))%nat.
Definition no_back (f : string → option (rvalue * string)) : Prop :=
  ∀ s v s', f s = Some (v, s') → (len s' ≤ len s)%nat.

(** Collects the length facts about every cursor in the context. *)
Ltac cursor_facts :=
  repeat match goal with
  | H : consume _ _ = Some _ |- _ => apply consume_len in H
  | H : strip_prefix _ _ = Some _ |- _ => apply strip_prefix_len in H; simpl in H
  | H : context [ws_skip ?s] |- _ =>
      lazymatch goal with
      | _ : (String.length (ws_skip s) ≤ String.length s)%nat |- _ => fail
      | _ => pose proof (ws_skip_len s)
      end
  end.

Lemma list_loop_no_back n (IH : ∀ d, advances (decode_value n d))
  (IHl : ∀ d ret, no_back (list_loop n d ret)) d ret : no_back (list_loop (S n) d ret).
Proof.
  intros s v s' H. simpl in H.
  destruct (decode_value n (d + 1) s) as [[x s1]|] eqn:Hv; [|done].
  apply IH in Hv as [Hle _].
  repeat dmatch_in H; simplify_eq; cursor_facts; try lia.
  apply IHl in H. pose proof (ws_skip_len s1). pose proof (ws_skip_len s0). lia.
Qed.

Lemma object_loop_no_back n (IH : ∀ d, advances (decode_value n d))
  (IHo : ∀ d ret, no_back (object_loop n d ret)) d ret : no_back (object_loop (S n) d ret).
Proof.
  intros s v s' H. simpl in H.
  destruct (decode_string s) as [t s1] eqn:Ht. apply decode_string_len in Ht as [Hle _].
  destruct (rv_bool t); simpl in H; [|naive_solver].
  destruct (consume ":" (ws_skip s1)) as [s3|] eqn:Hc; cursor_facts; [|naive_solver lia].
  destruct (decode_value n (d + 1) (ws_skip s3)) as [[x s5]|] eqn:Hv; [|done].
  apply IH in Hv as [Hle2 _]. pose proof (ws_skip_len s3).
  repeat dmatch_in H; simplify_eq; cursor_facts; try lia.
  apply IHo in H. pose proof (ws_skip_len s5). pose proof (ws_skip_len s0). lia.
Qed.

Lemma decode_advances n :
  (∀ d, advances (decode_value n d)) ∧ (∀ d, advances (decode_list n d)) ∧
  (∀ d ret, no_back (list_loop n d ret)) ∧ (∀ d, advances (decode_object n d)) ∧
  (∀ d ret, no_back (object_loop n d ret)).
Proof.
  induction n as [|n (IHv & IHl & IHll & IHo & IHol)]; [by repeat split|].
  split_and!; intros d; [| |by apply list_loop_no_back| |by apply object_loop_no_back].
  - intros s v s' H. simpl in H.
    repeat case_decide; [by eapply IHl|by eapply IHo| | | | |].
    + by eapply decode_string_len; simplify_eq.
    + repeat dmatch_in H; simplify_eq; cursor_facts; simpl; split; (lia || done).
    + repeat dmatch_in H; simplify_eq; cursor_facts; simpl; split; (lia || done).
    + repeat dmatch_in H; simplify_eq; cursor_facts; simpl; split; (lia || done).
    + by eapply decode_number_len; simplify_eq.
  - intros s v s' H. simpl in H.
    repeat dmatch_in H; simplify_eq; cursor_facts; simpl; try (split; (lia || done)).
    apply IHll in H. split; lia.
  - intros s v s' H. simpl in H.
    repeat dmatch_in H; simplify_eq; cursor_facts; simpl; try (split; (lia || done)).
    apply IHol in H. split; lia.
Qed.

(** ** Enough fuel *)

Lemma decode_fuel n :
  (∀ d s, (3 * len s + 1 ≤ n)%nat → is_Some (decode_value n d s)) ∧
  (∀ d s, (3 * len s ≤ n)%nat → (1 ≤ n)%nat → is_Some (decode_list n d s)) ∧
  (∀ d ret s, (3 * len s + 2 ≤ n)%nat → is_Some (list_loop n d ret s)) ∧
  (∀ d s, (3 * len s ≤ n)%nat → (1 ≤ n)%nat → is_Some (decode_object n d s)) ∧
  (∀ d ret s, (3 * len s + 2 ≤ n)%nat → is_Some (object_loop n d ret s)).
Proof.
  induction n as [|n (IHv & IHl & IHll & IHo & IHol)].
  { split_and!; intros; lia. }
  destruct (decode_advances n) as (Av & _ & All & _ & Aol).
  split_and!.
  - intros d s Hn. simpl. repeat case_decide; eauto; try (repeat dmatch; by eauto).
    + destruct s; [done|]. apply IHl; simpl in *; lia.
    + destruct s; [done|]. apply IHo; simpl in *; lia.
  - intros d s Hn _. simpl. repeat dmatch; eauto.
    cursor_facts. pose proof (ws_skip_len s0). apply IHll. lia.
  - intros d ret s Hn. simpl.
    destruct (IHv (d + 1) s) as [[v s1] Hv]; [lia|]. rewrite Hv.
    apply Av in Hv as [Hle Hlt]. destruct (rv_bool v); simpl; [|eauto].
    specialize (Hlt eq_refl). repeat dmatch; eauto.
    cursor_facts. pose proof (ws_skip_len s1). pose proof (ws_skip_len s0). apply IHll. lia.
  - intros d s Hn _. simpl. repeat dmatch; eauto.
    cursor_facts. pose proof (ws_skip_len s0). apply IHol. lia.
  - intros d ret s Hn. simpl.
    destruct (decode_string s) as [t s1] eqn:Ht. apply decode_string_len in Ht as [_ Hlt].
    destruct (rv_bool t); simpl; [|eauto]. specialize (Hlt eq_refl).
    destruct (consume ":" (ws_skip s1)) as [s3|] eqn:Hc; [|eauto].
    apply consume_len in Hc. pose proof (ws_skip_len s1). pose proof (ws_skip_len s3).
    destruct (IHv (d + 1) (ws_skip s3)) as [[v s5] Hv]; [lia|]. rewrite Hv.
    apply Av in Hv as [Hle _]. destruct (rv_bool v); simpl; [|eauto].
    repeat dmatch; eauto. cursor_facts.
    pose proof (ws_skip_len s5). pose proof (ws_skip_len s0). apply IHol. lia.
Qed.

(** ** What the parser builds

    A value without the error bit has its type set, a number or string has its
    text and a number its kind, the members of an object have their keys, the unused capacity fits the
    [uint16_t] that holds it, and all of this holds of the elements. *)
Inductive rv_wf : rvalue → Prop :=
| rv_wf_intro v t :
    r_error v = false →
    r_t v = Some t →
    (t = TNumber ∨ t = TString → is_Some (r_range v)) →
    (t = TNumber → r_nt v ≠ NumNull) →
    (t = TObject → Forall (λ x, is_Some (r_key x)) (r_l v)) →
    Forall rv_wf (r_l v) →
    (0 ≤ r_lremain v < 60000) →
    r_cached v = false →
    rv_wf v.

Definition sound (t : json_type) (v : rvalue) : Prop :=
  r_error v = false → rv_wf v ∧ r_t v = Some t.

Lemma rv_wf_set_key k v : rv_wf v → rv_wf (rv_set_key k v).
Proof. intros [v' t ???????]. by econstructor. Qed.

Lemma emplace_lremain r v :
  0 ≤ r_lremain r < 60000 → 0 ≤ r_lremain (rv_emplace_back r v) < 60000.
Proof.
  intros Hr. simpl. set (n := Z.of_nat (length (r_l r))).
  assert (0 ≤ n) by lia.
  assert (1 ≤ grow_size n - n ≤ 60000) as Hg.
  { unfold grow_size. repeat case_match; lia. }
  unfold uwrap. destruct (Z.eqb_spec (r_lremain r) 0).
  - rewrite (Z.mod_small (grow_size n - n)) by lia. rewrite Z.mod_small by lia. lia.
  - rewrite Z.mod_small by lia. lia.
Qed.

Lemma rv_wf_emplace t r v :
  rv_wf r → r_t r = Some t → rv_wf v → (t = TObject → is_Some (r_key v)) →
  rv_wf (rv_emplace_back r v) ∧ r_t (rv_emplace_back r v) = Some t.
Proof.
  intros [r' t' He Ht Hr Hn Hk Hl Hm Hc] Ht2 Hv Hkv. split; [|done].
  simplify_eq. econstructor; simpl; eauto.
  - intros ->. apply Forall_app; split; [by apply Hk|]. constructor; [by apply Hkv|done].
  - apply Forall_app; split; [done|]. by constructor.
  - by apply (emplace_lremain r' v).
Qed.

Lemma rv_wf_of_type t :
  t ≠ TNumber → t ≠ TString → rv_wf (rv_of_type t) ∧ r_t (rv_of_type t) = Some t.
Proof.
  intros. split; [|done]. apply (rv_wf_intro _ t); try done.
  by intros [?|?].
Qed.

Lemma rv_wf_of_range t s b :
  t ≠ TObject → rv_wf (rv_of_range t s b) ∧ r_t (rv_of_range t s b) = Some t.
Proof.
  intros. split; [|done]. apply (rv_wf_intro _ t); try done.
  intros ->. cbn. by repeat case_match.
Qed.

Lemma decode_string_sound s v s' : decode_string s = (v, s') → sound TString v.
Proof.
  unfold decode_string, sound.
  destruct (consume DQ s) as [s1|]; [|by intros [= <- <-]].
  destruct (string_loop s1) as [[[t e]|] r]; intros [= <- <-]; [|done].
  intros _. by apply rv_wf_of_range.
Qed.

Lemma decode_number_sound s v s' : decode_number s = (v, s') → sound TNumber v.
Proof.
  unfold decode_number, sound. destruct (number_loop Minus false s) as [[t|] r];
    intros [= <- <-]; [|done]. intros _. by apply rv_wf_of_range.
Qed.

Definition yields_wf (f : string → option (rvalue * string)) : Prop :=
  ∀ s v s', f s = Some (v, s') → r_error v = false → rv_wf v.

Lemma decode_wf n :
  (∀ d, yields_wf (decode_value n d)) ∧ (∀ d, yields_wf (decode_list n d)) ∧
  (∀ d ret, rv_wf ret → r_t ret = Some TList → yields_wf (list_loop n d ret)) ∧
  (∀ d, yields_wf (decode_object n d)) ∧
  (∀ d ret, rv_wf ret → r_t ret = Some TObject → yields_wf (object_loop n d ret)).
Proof.
  induction n as [|n (IHv & IHl & IHll & IHo & IHol)]; [by repeat split|].
  assert (∀ v, rv_bool v = true → r_error v = false) as Hb.
  { intros v. unfold rv_bool. by destruct (r_error v). }
  split_and!; intros d.
  - intros s v s' H He. simpl in H.
    repeat case_decide; [by eapply IHl|by eapply IHo| | | | |].
    + assert (decode_string s = (v, s')) as Hs by congruence.
      by apply decode_string_sound in Hs; destruct (Hs He).
    + repeat dmatch_in H; simplify_eq; by apply rv_wf_of_type.
    + repeat dmatch_in H; simplify_eq; by apply rv_wf_of_type.
    + repeat dmatch_in H; simplify_eq; by apply rv_wf_of_type.
    + assert (decode_number s = (v, s')) as Hs by congruence.
      by apply decode_number_sound in Hs; destruct (Hs He).
  - intros s v s' H He. simpl in H.
    repeat dmatch_in H; simplify_eq; try done; try by apply rv_wf_of_type.
    by eapply IHll; [apply rv_wf_of_type|apply rv_wf_of_type|done|].
  - intros ret Hw Ht s v s' H He. simpl in H.
    destruct (decode_value n (d + 1) s) as [[x s1]|] eqn:Hv; [|done].
    destruct (rv_bool x) eqn:Hx; simpl in H; [|by simplify_eq].
    pose proof (IHv _ _ _ _ Hv (Hb _ Hx)) as Hwx.
    destruct (rv_wf_emplace TList ret x) as [Hw' Ht']; [done..|].
    repeat dmatch_in H; simplify_eq; first [done|by eapply IHll].
  - intros s v s' H He. simpl in H.
    repeat dmatch_in H; simplify_eq; try done; try by apply rv_wf_of_type.
    by eapply IHol; [apply rv_wf_of_type|apply rv_wf_of_type|done|].
  - intros ret Hw Ht s v s' H He. simpl in H.
    destruct (decode_string s) as [t s1].
    destruct (rv_bool t); simpl in H; [|simplify_eq; try done].
    destruct (consume ":" (ws_skip s1)) as [s3|]; [|by simplify_eq].
    destruct (decode_value n (d + 1) (ws_skip s3)) as [[x s5]|] eqn:Hv; [|done].
    destruct (rv_bool x) eqn:Hx; simpl in H; [|by simplify_eq].
    pose proof (IHv _ _ _ _ Hv (Hb _ Hx)) as Hwx.
    destruct (rv_wf_emplace TObject ret (rv_set_key (key_of t) x)) as [Hw' Ht'];
      [done|done|by apply rv_wf_set_key|done|].
    repeat dmatch_in H; simplify_eq; first [done|by eapply IHol].
Qed.

(** ** Lookup in an object *)

Lemma schar_inj a b : schar a = schar b → a = b.
Proof.
  unfold schar, swrap. intros H. apply code_inj.
  pose proof (code_range a). pose proof (code_range b).
  change (2 ^ (8 - 1)) with 128 in H. change (2 ^ 8) with 256 in H.
  assert ((code a + 128) mod 256 = (code b + 128) mod 256) as Hm by lia.
  pose proof (Z.div_mod (code a + 128) 256 ltac:(lia)).
  pose proof (Z.div_mod (code b + 128) 256 ltac:(lia)).
  pose proof (Z.mod_pos_bound (code a + 128) 256 ltac:(lia)). lia.
Qed.

Lemma r_string_lt_irrefl s : r_string_lt s s = false.
Proof. induction s as [|c s IH]; simpl; [done|]. by rewrite Z.ltb_irrefl. Qed.

Lemma r_string_lt_trans a b c :
  r_string_lt a b = true → r_string_lt b c = true → r_string_lt a c = true.
Proof.
  revert b c. induction a as [|x a IH]; intros [|y b] [|z c]; simpl; try done.
  destruct (Z.ltb_spec (schar x) (schar y)), (Z.ltb_spec (schar y) (schar x)),
    (Z.ltb_spec (schar y) (schar z)), (Z.ltb_spec (schar z) (schar y)),
    (Z.ltb_spec (schar x) (schar z)), (Z.ltb_spec (schar z) (schar x));
    try done; try lia. apply IH.
Qed.

Lemma r_string_lt_negtrans a b c :
  r_string_lt a b = false → r_string_lt b c = false → r_string_lt a c = false.
Proof.
  revert b c. induction a as [|x a IH]; intros [|y b] [|z c]; simpl; try done.
  destruct (Z.ltb_spec (schar x) (schar y)), (Z.ltb_spec (schar y) (schar x)),
    (Z.ltb_spec (schar y) (schar z)), (Z.ltb_spec (schar z) (schar y)),
    (Z.ltb_spec (schar x) (schar z)), (Z.ltb_spec (schar z) (schar x));
    try done; try lia. apply IH.
Qed.

Lemma r_string_lt_antisym a b :
  r_string_lt a b = false → r_string_lt b a = false → a = b.
Proof.
  revert b. induction a as [|x a IH]; intros [|y b]; simpl; try done.
  destruct (Z.ltb_spec (schar x) (schar y)), (Z.ltb_spec (schar y) (schar x));
    try done. intros H1 H2. rewrite (schar_inj x y) by lia. f_equal. by apply IH.
Qed.

(** Sorted by key, as [std::sort] leaves the members. *)
Definition key_sorted (l : list rvalue) : Prop :=
  StronglySorted (λ x y, pred_rr y x = false) l.

Lemma std_sort_key_sorted `{!StdSort} l : key_sorted (std_sort pred_rr l).
Proof.
  apply std_sort_sorted; unfold pred_rr.
  - intros x. apply r_string_lt_irrefl.
  - intros x y z. apply r_string_lt_trans.
  - intros x y z. apply r_string_lt_negtrans.
Qed.

Lemma lower_bound_spec l str :
  key_sorted l →
  match lower_bound l str with
  | Some x => x ∈ l ∧ (key_text x ≠ str → ∀ y, y ∈ l → key_text y ≠ str)
  | None => ∀ y, y ∈ l → key_text y ≠ str
  end.
Proof.
  intros Hs. induction Hs as [|x l Hs IH Hx]; simpl; [set_solver|].
  destruct (pred_rs x str) eqn:Hp; unfold pred_rs in Hp.
  - assert (key_text x ≠ str) as Hne.
    { intros Heq. rewrite Heq, r_string_lt_irrefl in Hp. done. }
    destruct (lower_bound l str) as [y|]; set_solver.
  - split; [set_solver|]. intros Hne y Hy Heq.
    apply elem_of_cons in Hy as [->|Hy]; [done|].
    rewrite Forall_forall in Hx. specialize (Hx y Hy). unfold pred_rr in Hx.
    rewrite Heq in Hx. apply Hne. by apply r_string_lt_antisym.
Qed.

Lemma keys_set_true l : keys_set l = true ↔ Forall (λ x, is_Some (r_key x)) l.
Proof.
  unfold keys_set. rewrite forallb_forall, Forall_forall.
  split; intros H x Hx; specialize (H x).
  - apply list_elem_of_In in Hx. by apply H in Hx; apply bool_decide_eq_true in Hx.
  - apply bool_decide_eq_true. apply H. by apply list_elem_of_In.
Qed.

(** [o] is an object value whose members may be looked up. *)
Record lookup_ready (o : rvalue) : Prop := {
  lr_error : r_error o = false;
  lr_type : r_t o = Some TObject;
  lr_keys : Forall (λ x, is_Some (r_key x)) (r_l o);
  lr_sorted : r_cached o = true → key_sorted (r_l o);
}.

Lemma rv_wf_lookup_ready o : rv_wf o → r_t o = Some TObject → lookup_ready o.
Proof.
  intros [v t He Ht Hr _ Hk Hl Hm Hc] Ho. assert (t = TObject) as -> by congruence.
  split; [done|done|by apply Hk|by rewrite Hc].
Qed.

Section Lookup.
Context `{!StdSort}.

Lemma sort_members_ready o :
  lookup_ready o →
  ∃ o', sort_members o = Ok o' ∧ lookup_ready o' ∧ r_cached o' = true ∧
    Permutation (r_l o') (r_l o).
Proof.
  intros [He Ht Hk Hs]. unfold sort_members.
  destruct (r_cached o) eqn:Hc.
  - exists o. split_and!; try done. split; auto.
  - assert (rv_range_l o = Ok (r_l o)) as ->.
    { unfold rv_range_l, rv_t. by rewrite He, Ht. }
    simpl. assert (keys_set (r_l o) = true) as -> by by apply keys_set_true. simpl.
    eexists. split_and!; [done| |done|simpl; apply std_sort_perm].
    split; simpl; [done|done| |intros; apply std_sort_key_sorted].
    by rewrite std_sort_perm.
Qed.

Lemma find_member_ready o k :
  lookup_ready o → r_cached o = true →
  ∃ m, find_member o k = Ok m ∧
    match m with
    | Some x => x ∈ r_l o ∧ r_key x = Some k
    | None => ∀ x, x ∈ r_l o → r_key x ≠ Some k
    end.
Proof.
  intros [He Ht Hk Hs] Hc. unfold find_member, rv_range_l, rv_t. rewrite He, Ht. simpl.
  assert (keys_set (r_l o) = true) as -> by by apply keys_set_true.
  pose proof (lower_bound_spec (r_l o) k (Hs Hc)) as Hlb.
  rewrite Forall_forall in Hk.
  assert (∀ x, x ∈ r_l o → (key_text x = k ↔ r_key x = Some k)) as Hkt.
  { intros x Hx. destruct (Hk x Hx) as [k' Hk']. unfold key_text. rewrite Hk'.
    simpl. naive_solver. }
  eexists; split; [done|].
  destruct (lower_bound (r_l o) k) as [x|]; [|naive_solver].
  case_decide as Hd; naive_solver.
Qed.
End Lookup.

(** ** Properties *)

Lemma parse_is_Some s : is_Some (parse (load_fuel s) s).
Proof.
  unfold parse, load_fuel.
  destruct (decode_fuel (3 * len s + 1)) as [Hv _].
  destruct (Hv 0 (ws_skip s)) as [[ret s1] ->]; [pose proof (ws_skip_len s); lia|].
  by eexists.
Qed.

(** More fuel never changes a result. *)
Lemma decode_mono n m : (n ≤ m)%nat →
  (∀ d s r, decode_value n d s = Some r → decode_value m d s = Some r) ∧
  (∀ d s r, decode_list n d s = Some r → decode_list m d s = Some r) ∧
  (∀ d ret s r, list_loop n d ret s = Some r → list_loop m d ret s = Some r) ∧
  (∀ d s r, decode_object n d s = Some r → decode_object m d s = Some r) ∧
  (∀ d ret s r, object_loop n d ret s = Some r → object_loop m d ret s = Some r).
Proof.
  revert m. induction n as [|n IH]; intros m Hm; [by split_and!|].
  destruct m as [|m]; [lia|].
  destruct (IH m ltac:(lia)) as (IHv & IHl & IHll & IHo & IHol).
  split_and!; intros d; intros; simpl in *.
  - repeat case_decide; auto.
  - repeat case_match; auto.
  - destruct (decode_value n (d + 1) s) as [[v s1]|] eqn:Hv; [|done].
    rewrite (IHv _ _ _ Hv). repeat case_match; auto.
  - repeat case_match; auto.
  - destruct (decode_string s) as [t s1]. destruct (negb (rv_bool t)); [done|].
    destruct (consume ":" (ws_skip s1)) as [s3|]; [|done].
    destruct (decode_value n (d + 1) (ws_skip s3)) as [[v s5]|] eqn:Hv; [|done].
    rewrite (IHv _ _ _ Hv). repeat case_match; auto.
Qed.

Lemma load_rv_wf s : r_error (load s) = false → rv_wf (load s).
Proof.
  unfold load. destruct (parse_is_Some s) as [v Hp]. rewrite Hp.
  unfold parse in Hp.
  destruct (decode_value _ 0 (ws_skip s)) as [[ret s1]|] eqn:Hd; [|done].
  apply (proj1 (decode_wf _)) in Hd.
  injection Hp as <-. destruct (rv_bool ret && _); [done|]. exact Hd.
Qed.

(** A member found at nesting [d] of the descent leaves room for its own nesting. *)
Definition nests (b : Z) (f : string → option (rvalue * string)) : Prop :=
  ∀ s v s', f s = Some (v, s') → r_error v = false → rv_nest v = 0 ∨ 2 * rv_nest v ≤ b.

Lemma foldr_max_app l1 l2 : foldr Z.max 0 (l1 ++ l2) =
  Z.max (foldr Z.max 0 l1) (foldr Z.max 0 l2) ∨ foldr Z.max 0 l2 < 0.
Proof.
  induction l1 as [|x l1 IH]; simpl.
  - destruct (Z.le_gt_cases 0 (foldr Z.max 0 l2)); [left; lia|by right].
  - destruct IH as [->|]; [left; lia|by right].
Qed.

Lemma foldr_max_pos l : 0 ≤ foldr Z.max 0 l.
Proof. induction l as [|x l IH]; simpl; lia. Qed.

Lemma rv_nest_pos v : 0 ≤ rv_nest v.
Proof.
  destruct v as [rg es k l lr [[]|] nt c e]; simpl; try lia;
    pose proof (foldr_max_pos (rv_nest <$> l)); lia.
Qed.

Lemma rv_nest_emplace r v : r_t r = Some TList ∨ r_t r = Some TObject →
  rv_nest (rv_emplace_back r v) = Z.max (rv_nest r) (1 + rv_nest v).
Proof.
  destruct r as [rg es k l lr t nt c e]; simpl. intros Ht.
  assert (foldr Z.max 0 (rv_nest <$> l ++ [v])
          = Z.max (foldr Z.max 0 (rv_nest <$> l)) (rv_nest v)) as Hf.
  { rewrite fmap_app. destruct (foldr_max_app (rv_nest <$> l) (rv_nest <$> [v])) as [->|H].
    - simpl. pose proof (rv_nest_pos v). lia.
    - pose proof (foldr_max_pos (rv_nest <$> [v])). lia. }
  destruct Ht as [-> | ->]; rewrite Hf; lia.
Qed.

Lemma rv_nest_set_key k v : rv_nest (rv_set_key k v) = rv_nest v.
Proof. by destruct v. Qed.
Lemma rv_nest_set_error v : rv_nest (rv_set_error v) = rv_nest v.
Proof. by destruct v. Qed.
Lemma rv_nest_of_range t s b : rv_nest (rv_of_range t s b) = 0 ∨ t = TList ∨ t = TObject.
Proof. destruct t; simpl; auto. Qed.

(** Containers that can still grow by elements of nesting [b]. *)
Definition growing (b : Z) (r : rvalue) : Prop :=
  (r_t r = Some TList ∨ r_t r = Some TObject) ∧ 2 * rv_nest r ≤ b + 2.

Lemma growing_emplace b r v :
  0 ≤ b → growing b r → rv_nest v = 0 ∨ 2 * rv_nest v ≤ b → growing b (rv_emplace_back r v).
Proof. intros Hb [Ht Hr] Hv. split; [done|]. rewrite rv_nest_emplace by done. lia. Qed.

Lemma decode_nests n :
  (∀ d, d ≤ 10001 → nests (10001 - d) (decode_value n d)) ∧
  (∀ d, nests (10002 - d) (decode_list n d)) ∧
  (∀ d ret, d ≤ 10000 → growing (10000 - d) ret → nests (10002 - d) (list_loop n d ret)) ∧
  (∀ d, nests (10002 - d) (decode_object n d)) ∧
  (∀ d ret, d ≤ 10000 → growing (10000 - d) ret → nests (10002 - d) (object_loop n d ret)).
Proof.
  induction n as [|n (IHv & IHl & IHll & IHo & IHol)]; [by split_and!|].
  assert (∀ d r, growing (10000 - d) r → rv_nest r = 0 ∨ 2 * rv_nest r ≤ 10002 - d) as Hg.
  { intros d r [_ H]. right. lia. }
  assert (∀ v, rv_bool v = true → r_error v = false) as Hb.
  { intros v. unfold rv_bool. by destruct (r_error v). }
  split_and!; intros d.
  - intros Hd s v s' H He. simpl in H. replace (10001 - d) with (10002 - (d + 1)) by lia.
    repeat case_decide.
    + by eapply IHl.
    + by eapply IHo.
    + unfold decode_string in H. repeat dmatch_in H; simplify_eq; by left.
    + repeat dmatch_in H; simplify_eq; by left.
    + repeat dmatch_in H; simplify_eq; by left.
    + repeat dmatch_in H; simplify_eq; by left.
    + unfold decode_number in H. repeat dmatch_in H; simplify_eq; by left.
  - intros s v s' H He. simpl in H. unfold max_depth in H.
    destruct (consume "[" s) as [s1|]; [|by simplify_eq].
    destruct (Z.ltb_spec 10000 d); [by simplify_eq|].
    assert (growing (10000 - d) (rv_of_type TList)) as Hr by (split; [by left|simpl; lia]).
    destruct (consume "]" (ws_skip s1)); [simplify_eq; by apply Hg|by eapply IHll].
  - intros ret Hd Hr s v s' H He. simpl in H.
    destruct (decode_value n (d + 1) s) as [[x s1]|] eqn:Hv; [|done].
    destruct (rv_bool x) eqn:Hx; simpl in H; [|by simplify_eq].
    apply (IHv (d + 1) ltac:(lia)) in Hv; specialize (Hv (Hb _ Hx)).
    replace (10001 - (d + 1)) with (10000 - d) in Hv by lia.
    pose proof (growing_emplace (10000 - d) _ _ ltac:(lia) Hr Hv) as Hr'.
    repeat dmatch_in H; simplify_eq; first [done|by apply Hg|by eapply IHll].
  - intros s v s' H He. simpl in H. unfold max_depth in H.
    destruct (consume "{" s) as [s1|]; [|by simplify_eq].
    destruct (Z.ltb_spec 10000 d); [by simplify_eq|].
    assert (growing (10000 - d) (rv_of_type TObject)) as Hr by (split; [by right|simpl; lia]).
    destruct (consume "}" (ws_skip s1)); [simplify_eq; by apply Hg|by eapply IHol].
  - intros ret Hd Hr s v s' H He. simpl in H.
    destruct (decode_string s) as [t s1].
    destruct (rv_bool t); simpl in H; [|by simplify_eq].
    destruct (consume ":" (ws_skip s1)) as [s3|]; [|by simplify_eq].
    destruct (decode_value n (d + 1) (ws_skip s3)) as [[x s5]|] eqn:Hv; [|done].
    destruct (rv_bool x) eqn:Hx; simpl in H; [|by simplify_eq].
    apply (IHv (d + 1) ltac:(lia)) in Hv; specialize (Hv (Hb _ Hx)).
    replace (10001 - (d + 1)) with (10000 - d) in Hv by lia.
    rewrite <- (rv_nest_set_key (key_of t)) in Hv.
    pose proof (growing_emplace (10000 - d) _ _ ltac:(lia) Hr Hv) as Hr'.
    repeat dmatch_in H; simplify_eq; first [done|by apply Hg|by eapply IHol].
Qed.

(** C29: the JSON parser terminates on every input, and its result does not depend
    on how the recursion is cut off: with any fuel from [load_fuel] up, the mutually
    recursive descent of [load_nocopy_internal] returns the value of [load]. *)
Theorem parse_total s fuel : (load_fuel s ≤ fuel)%nat → parse fuel s = Some (load s).
Proof.
  intros Hf. unfold load. destruct (parse_is_Some s) as [v Hp]. rewrite Hp. revert Hp.
  unfold parse. destruct (decode_value (load_fuel s) 0 (ws_skip s)) as [r|] eqn:Hd; [|done].
  by rewrite (proj1 (decode_mono _ _ Hf) _ _ _ Hd).
Qed.
Lemma parse_total_witness : (load_fuel "[1]" ≤ 100)%nat ∧ parse 100 "[1]" = Some (load "[1]").
Proof.
  assert (load_fuel "[1]" ≤ 100)%nat as H by (apply Nat.leb_le; reflexivity).
  split; [exact H|exact (parse_total "[1]" 100 H)].
Defined.

(** C30: whatever bytes a client sends, a value that [load] returns without the error
    bit is well formed at every depth (its type is set, numbers and strings have
    their text, numbers their kind, object members have keys, the [uint16_t] capacity counter of
    [emplace_back] has not wrapped), and its containers nest at most 5000 deep: each
    nesting costs two of the [max_depth = 10000] the parser allows. *)
Theorem load_wf s : r_error (load s) = false → rv_wf (load s) ∧ rv_nest (load s) ≤ 5000.
Proof.
  intros He. split; [by apply load_rv_wf|]. revert He.
  unfold load. destruct (parse_is_Some s) as [v Hp]. rewrite Hp.
  unfold parse in Hp.
  destruct (decode_value _ 0 (ws_skip s)) as [[ret s1]|] eqn:Hd; [|done].
  injection Hp as <-. destruct (rv_bool ret && _); [done|]. intros He.
  apply (proj1 (decode_nests _) 0 ltac:(lia)) in Hd; specialize (Hd He); lia.
Qed.
Lemma load_wf_witness : rv_wf (load "[1, [true]]") ∧ rv_nest (load "[1, [true]]") ≤ 5000.
Proof. apply (load_wf "[1, [true]]"). vm_compute. reflexivity. Defined.

Lemma insert_by_perm {A} (lt : A → A → bool) x l : Permutation (insert_by lt x l) (x :: l).
Proof.
  induction l as [|y l IH]; simpl; [done|]. destruct (lt x y); [done|].
  rewrite IH. apply Permutation_swap.
Qed.

Lemma insert_by_sorted {A} (lt : A → A → bool) x l :
  (∀ x, lt x x = false) →
  (∀ x y z, lt x y = true → lt y z = true → lt x z = true) →
  (∀ x y z, lt x y = false → lt y z = false → lt x z = false) →
  StronglySorted (λ x y, lt y x = false) l →
  StronglySorted (λ x y, lt y x = false) (insert_by lt x l).
Proof.
  intros Hirr Htr Hneg Hs. induction Hs as [|y l Hs IH Hy]; simpl.
  { by repeat constructor. }
  rewrite Forall_forall in Hy. destruct (lt x y) eqn:Hxy.
  - assert (lt y x = false) as Hyx.
    { destruct (lt y x) eqn:E; [|done]. rewrite <- (Hirr x). symmetry. by eapply Htr. }
    constructor; [by constructor; [|apply Forall_forall]|].
    constructor; [done|]. apply Forall_forall. intros z Hz. eapply Hneg; [by apply Hy|done].
  - constructor; [done|]. rewrite insert_by_perm. constructor; [done|by apply Forall_forall].
Qed.

#[export] Instance insertion_StdSort : StdSort.
Proof.
  refine {| std_sort := @insertion_sort |}.
  - intros A lt l. induction l as [|x l IH]; simpl; [done|].
    by rewrite insert_by_perm, IH.
  - intros A lt l Hirr Htr Hneg. induction l as [|x l IH]; simpl; [constructor|].
    by apply insert_by_sorted.
Defined.

(** [has] and [operator[]] of a parsed object agree with membership whatever
    permutation [std::sort] chooses: [has(k)] answers whether some member has key
    [k], a following [operator[](k)] returns such a member when there is one and
    throws "cannot find key" otherwise, and no member is lost. *)
Theorem has_index_spec `{!StdSort} o k :
  lookup_ready o →
  ∃ o', Permutation (r_l o') (r_l o) ∧ lookup_ready o' ∧
    ((∃ x, x ∈ r_l o ∧ r_key x = Some k ∧
        rv_has o k = Ok (true, o') ∧ rv_index o' k = Ok (x, o')) ∨
     ((∀ x, x ∈ r_l o → r_key x ≠ Some k) ∧
        rv_has o k = Ok (false, o') ∧
        rv_index o' k = Throw (RuntimeError ("cannot find key: " +:+ k)))).
Proof.
  intros Ho. destruct (sort_members_ready o Ho) as (o' & Hs & Ho' & Hc & Hp).
  destruct (find_member_ready o' k Ho' Hc) as (m & Hf & Hm).
  exists o'. split; [done|]. split; [done|].
  unfold rv_has, rv_index, rv_t. rewrite Hs, (lr_error o' Ho'), (lr_type o' Ho'). simpl.
  assert (sort_members o' = Ok o') as -> by (unfold sort_members; by rewrite Hc).
  simpl. rewrite Hf. simpl. destruct m as [x|].
  - left. exists x. destruct Hm as [Hx Hk]. split_and!; try done. by rewrite <- Hp.
  - right. split; [|done]. intros x Hx. apply Hm. by rewrite Hp.
Qed.

Lemma has_index_spec_witness :
  ∃ o', Permutation (r_l o') (r_l (load "{}")) ∧ lookup_ready o' ∧
    ((∃ x, x ∈ r_l (load "{}") ∧ r_key x = Some "amount" ∧
        rv_has (load "{}") "amount" = Ok (true, o') ∧ rv_index o' "amount" = Ok (x, o')) ∨
     ((∀ x, x ∈ r_l (load "{}") → r_key x ≠ Some "amount") ∧
        rv_has (load "{}") "amount" = Ok (false, o') ∧
        rv_index o' "amount" = Throw (RuntimeError ("cannot find key: " +:+ "amount")))).
Proof.
  apply (has_index_spec (load "{}") "amount").
  apply rv_wf_lookup_ready; [apply load_rv_wf|]; vm_compute; reflexivity.
Defined.
