(* ===== verification/JsonWrite.v ===== *)
(** * crow/json.h, the writing half

    [wvalue] as the tagged union it is, the assignments and subscripts the service
    uses to build a value, and [dump].  An object is an [unordered_map]: the model
    keeps its entries in insertion order and asks the container for its iteration
    order ([UMapIter]). *)

From S2P Require Import Prelude Doubles JsonRead.
Open Scope Z_scope.

(** The iteration order of [std::unordered_map<std::string, _>] is unspecified: some
    permutation of the entries, which depends on the keys and the order they were
    inserted in, not on the mapped values. *)
Class UMapIter : Type := {
  umap_iter : ∀ {A : Type}, list (string * A) → list (string * A);
  umap_iter_perm : ∀ {A : Type} (l : list (string * A)), Permutation (umap_iter l) l;
  umap_iter_fmap : ∀ {A B : Type} (f : A → B) (l : list (string * A)),
    umap_iter (prod_map id f <$> l) = prod_map id f <$> umap_iter l;
}.

(** New nodes at the front of the list, as libstdc++ does while no bucket is shared. *)
#[export, program] Instance rev_UMapIter : UMapIter := {| umap_iter := λ A, @rev (string * A) |}.
Next Obligation. intros A l. symmetry. apply Permutation_rev. Qed.
Next Obligation. intros A B f l. symmetry. apply map_rev. Qed.

(** ** Escaping *)

Definition to_hex (c : Z) : ascii :=
  let c := Z.land c 0xf in
  if c <? 10 then chr (48 + c) else chr (97 + c - 10).

Definition escape_char (c : ascii) : string :=
  if decide (c = DQ) then String BSL (String DQ EmptyString)
  else if decide (c = BSL) then String BSL (String BSL EmptyString)
  else if decide (c = "010"%char) then String BSL "n"
  else if decide (c = "008"%char) then String BSL "b"
  else if decide (c = "012"%char) then String BSL "f"
  else if decide (c = "013"%char) then String BSL "r"
  else if decide (c = "009"%char) then String BSL "t"
  else if (0 <=? schar c) && (schar c <? 0x20) then
    String BSL "u00" +:+ String (to_hex (schar c / 16)) (String (to_hex (schar c mod 16)) EmptyString)
  else String c EmptyString.
Fixpoint escape (s : string) : string :=
  match s with
  | String c s' => escape_char c +:+ escape s'
  | EmptyString => EmptyString
  end.

(** ** wvalue *)

Inductive wvalue : Type :=
| WNull
| WFalse
| WTrue
| WSigned (si : Z)
| WUnsigned (ui : Z)
| WFloat (d : double)
| WDouble (d : double)
| WString (s : string)
| WList (l : list wvalue)
| WObject (o : list (string * wvalue))
| WFunction (f : string → string).

Definition wv_type (v : wvalue) : json_type :=
  match v with
  | WNull => TNull | WFalse => TFalse | WTrue => TTrue
  | WSigned _ | WUnsigned _ | WFloat _ | WDouble _ => TNumber
  | WString _ => TString | WList _ => TList | WObject _ => TObject
  | WFunction _ => TFunction
  end.

Definition wv_bool (b : bool) : wvalue := if b then WTrue else WFalse.

(** The map behind [operator[](const std::string&)]: a value of another type is
    reset to an empty object first. *)
Definition wv_object (v : wvalue) : list (string * wvalue) :=
  match v with WObject o => o | _ => [] end.
Fixpoint slot_update (f : wvalue → wvalue) (k : string) (o : list (string * wvalue))
  : list (string * wvalue) :=
  match o with
  | [] => [(k, f WNull)]
  | (k', x) :: o' =>
      if decide (k' = k) then (k', f x) :: o' else (k', x) :: slot_update f k o'
  end.
(** [f] is what the caller does to the reference [v[k]]. *)
Definition wv_at_key (v : wvalue) (k : string) (f : wvalue → wvalue) : wvalue :=
  WObject (slot_update f k (wv_object v)).
(** [v[k] = x]. *)
Definition wv_set (v : wvalue) (k : string) (x : wvalue) : wvalue :=
  wv_at_key v k (λ _, x).

(** The vector behind [operator[](unsigned)], and [v[index]] handed to [f]. *)
Definition wv_list (v : wvalue) : list wvalue :=
  match v with WList l => l | _ => [] end.
Definition wv_at_index (v : wvalue) (index : Z) (f : wvalue → wvalue) : wvalue :=
  let l := wv_list v in
  let index := uwrap 32 index in
  let need := uwrap 32 (index + 1) in
  let l := if Z.of_nat (length l) <? need
           then l ++ replicate (Z.to_nat need - length l)%nat WNull else l in
  WList (alter f (Z.to_nat index) l).
Definition wv_set_index (v : wvalue) (index : Z) (x : wvalue) : wvalue :=
  wv_at_index v index (λ _, x).

Definition wv_count (v : wvalue) (k : string) : Z :=
  if bool_decide (k ∈ (wv_object v).*1) then 1 else 0.

Definition wv_size (v : wvalue) : Z :=
  match v with WList l => Z.of_nat (length l) | _ => 1 end.

(** [wvalue(const rvalue&)]. *)
Fixpoint emplace_new {A} (k : string) (x : A) (o : list (string * A)) : list (string * A) :=
  match o with
  | [] => [(k, x)]
  | (k', y) :: o' => if decide (k' = k) then o else (k', y) :: emplace_new k x o'
  end.
Fixpoint wv_of_rvalue (r : rvalue) : result wvalue :=
  let elements := fix go (l : list rvalue) : result (list (string * wvalue)) :=
    match l with
    | [] => Ok []
    | x :: l' => v ← wv_of_rvalue x; vs ← go l'; Ok ((key_text x, v) :: vs)
    end in
  t ← rv_t r;
  match t with
  | TNull => Ok WNull
  | TFalse => Ok WFalse
  | TTrue => Ok WTrue
  | TFunction => Ok (WFunction (λ _, EmptyString))
  | TNumber =>
      nt ← rv_nt r;
      match nt with
      | Floating_point => d ← rv_d r; Ok (WFloat d)
      | Double_precision_floating_point => d ← rv_d r; Ok (WDouble d)
      | Signed_integer => z ← rv_i r; Ok (WSigned z)
      | Unsigned_integer | NumNull => z ← rv_u r; Ok (WUnsigned z)
      end
  | TString => s ← rv_s r; Ok (WString s)
  | TList => vs ← elements (r_l r); Ok (WList (vs.*2))
  | TObject =>
      vs ← elements (r_l r);
      Ok (WObject (foldl (λ o kv, emplace_new (fst kv) (snd kv) o) [] vs))
  end.

Fixpoint estimate_length (v : wvalue) : Z :=
  let half (s : string) := 2 + slen s + slen s / 2 in
  match v with
  | WNull => 4 | WFalse => 5 | WTrue => 4
  | WSigned _ | WUnsigned _ | WFloat _ | WDouble _ => 30
  | WString s => half s
  | WList l => foldr (λ x sum, 1 + estimate_length x + sum) 0 l + 2
  | WObject o =>
      foldr (λ kv sum, 2 + half (fst kv) + estimate_length (snd kv) + sum) 0 o + 2
  | WFunction _ => 0
  end.

(** ** dump *)

(** The scan over the printed digits of a double that looks for trailing zeros to
    cut: [pos] is [p], [mark] is [pos_first_trailing_0]. *)
Inductive f_state : Type := f_start | f_decp | f_zero.
Fixpoint trim_scan (st : f_state) (pos : nat) (mark : option nat) (s : string) : option nat :=
  match s with
  | EmptyString => mark
  | String ch s' =>
      match st with
      | f_start =>
          if is_dot ch then
            match s' with
            | String fch s'' =>
                if decide (fch = "0"%char) then trim_scan f_decp (S (S pos)) mark s''
                else trim_scan f_decp (S pos) mark s'
            | EmptyString => trim_scan f_decp (S pos) mark s'
            end
          else trim_scan f_start (S pos) mark s'
      | f_decp =>
          if decide (ch = "0"%char) then trim_scan f_zero (S pos) (Some pos) s'
          else trim_scan f_decp (S pos) mark s'
      | f_zero =>
          if decide (ch = "0"%char) then trim_scan f_zero (S pos) mark s'
          else trim_scan f_decp (S pos) None s'
      end
  end.
Definition trim_zeros (outbuf : string) : string :=
  match trim_scan f_start 0 None outbuf with
  | Some p => String.substring 0 p outbuf
  | None => outbuf
  end.
(** [snprintf] into a buffer of [n] bytes keeps [n - 1] characters. *)
Definition snprintf (n : nat) (s : string) : string := String.substring 0 (n - 1) s.
Definition dump_double (double_precision : bool) (d : double) : string :=
  if is_nan d || is_inf d then "null"
  else trim_zeros (snprintf 128 (if double_precision then format_g DECIMAL_DIG d
                                 else format_f d)).

Definition dump_string (str : string) : string :=
  String DQ (escape str +:+ String DQ EmptyString).

Definition dump_indentation_part (indent : Z) (separator : ascii) (indent_level : Z) : string :=
  String "010" (string_rep (Z.to_nat (indent_level * indent)) separator).

(** The elements with a comma, and the indentation, before each but the first. *)
Fixpoint dump_elements (sep : string) (first : bool) (l : list string) : string :=
  match l with
  | [] => EmptyString
  | x :: l' => (if first then EmptyString else String "," sep) +:+ x +:+ dump_elements sep false l'
  end.

Section Dump.
Context `{!UMapIter}.

Fixpoint dump_internal (v : wvalue) (indent : Z) (separator : ascii) (indent_level : Z)
  : string :=
  let part (lvl : Z) :=
    if 0 <=? indent then dump_indentation_part indent separator lvl else EmptyString in
  match v with
  | WNull => "null"
  | WFalse => "false"
  | WTrue => "true"
  | WFloat d => dump_double false d
  | WDouble d => dump_double true d
  | WSigned si => to_string si
  | WUnsigned ui => to_string ui
  | WString s => dump_string s
  | WList l =>
      "[" +:+ part (indent_level + 1)
      +:+ dump_elements (part (indent_level + 1)) true
            ((λ x, dump_internal x indent separator (indent_level + 1)) <$> l)
      +:+ part indent_level +:+ "]"
  | WObject o =>
      "{" +:+ part (indent_level + 1)
      +:+ dump_elements (part (indent_level + 1)) true
            ((λ kv, dump_string (fst kv) +:+ ":" +:+ (if 0 <=? indent then " " else "")
                    +:+ snd kv)
             <$> umap_iter ((λ kv, (fst kv, dump_internal (snd kv) indent separator
                                              (indent_level + 1))) <$> o))
      +:+ part indent_level +:+ "}"
  | WFunction _ => "custom function"
  end.

Definition DontIndent : Z := -1.

(** [dump()]. *)
Definition dump (v : wvalue) : string := dump_internal v DontIndent " " 0.
End Dump.

(** ** Emplacing *)

Lemma emplace_new_fresh {A} k (x : A) o : k ∉ o.*1 → emplace_new k x o = o ++ [(k, x)].
Proof.
  induction o as [|[k' y] o IH]; [done|]. cbn. intros [Hk Ho]%not_elem_of_cons.
  rewrite decide_False by (by intros ->). by rewrite IH.
Qed.
Lemma emplace_new_all {A} (kvs o : list (string * A)) :
  NoDup (o ++ kvs).*1 → foldl (λ o kv, emplace_new (fst kv) (snd kv) o) o kvs = o ++ kvs.
Proof.
  revert o. induction kvs as [|[k x] kvs IH]; intros o Hnd; [by rewrite app_nil_r|].
  cbn [foldl fst snd]. rewrite emplace_new_fresh.
  - rewrite IH; [by rewrite <- app_assoc|]. by rewrite <- app_assoc.
  - rewrite fmap_app, NoDup_app in Hnd. destruct Hnd as (_ & Hd & _).
    intros Hk. apply (Hd k Hk). by left.
Qed.
