(* ===== verification/JsonRoundTrip.v ===== *)
(** * crow/json.h: what is dumped can be loaded

    A written value without doubles and functions is read back as it was, up to the
    iteration order of its objects: [load] after [dump], through [escape] and the parser's
    string loop, the decimal rendering and the number table, and the two containers. *)

From S2P Require Import Prelude Doubles JsonRead JsonWrite.
Open Scope Z_scope.

(** ** Values that survive *)

(** Numbers within the widths of the union, keys without repetition (the object is a map),
    and neither doubles, whose digits [dump] may cut, nor functions. *)
Fixpoint storable (v : wvalue) : Prop :=
  match v with
  | WNull | WFalse | WTrue | WString _ => True
  | WSigned z => int64_min ≤ z ≤ int64_max
  | WUnsigned z => 0 ≤ z ≤ uint64_max
  | WFloat _ | WDouble _ | WFunction _ => False
  | WList l => foldr (λ x P, storable x ∧ P) True l
  | WObject o => NoDup o.*1 ∧ foldr (λ kv P, storable (snd kv) ∧ P) True o
  end.

Fixpoint wv_nest (v : wvalue) : Z :=
  match v with
  | WList l => 1 + foldr (λ x n, Z.max (wv_nest x) n) 0 l
  | WObject o => 1 + foldr (λ kv n, Z.max (wv_nest (snd kv)) n) 0 o
  | _ => 0
  end.

(** What comes back: a number without a sign is an unsigned one, and an object has its
    members in the order they were written in. *)
Fixpoint reread `{!UMapIter} (v : wvalue) : wvalue :=
  match v with
  | WSigned z => if 0 <=? z then WUnsigned z else v
  | WList l => WList (reread <$> l)
  | WObject o => WObject (umap_iter (prod_map id reread <$> o))
  | _ => v
  end.

Section Induction.
Context (P : wvalue → Prop).
Context (Hleaf : ∀ v, match v with WList _ | WObject _ => True | _ => P v end).
Context (Hlist : ∀ l, Forall P l → P (WList l)).
Context (Hobject : ∀ o, Forall (λ kv, P (snd kv)) o → P (WObject o)).

Lemma wvalue_ind_deep : ∀ v, P v.
Proof using Hleaf Hlist Hobject.
  fix IH 1. intros v. pose proof (Hleaf v) as H. destruct v as [| | | | | | | |l|o|]; try exact H.
  - apply Hlist. induction l as [|x l IHl]; constructor; [apply IH|exact IHl].
  - apply Hobject. induction o as [|kv o IHo]; constructor; [apply IH|exact IHo].
Qed.
End Induction.

Lemma storable_list l : storable (WList l) ↔ Forall storable l.
Proof.
  simpl. induction l as [|x l IH]; simpl; [naive_solver constructor|].
  rewrite list.Forall_cons. tauto.
Qed.
Lemma storable_object o :
  storable (WObject o) ↔ NoDup o.*1 ∧ Forall (λ kv, storable (snd kv)) o.
Proof.
  simpl. enough (foldr (λ kv P, storable (snd kv) ∧ P) True o ↔ Forall (λ kv, storable (snd kv)) o)
    as -> by done.
  induction o as [|x o IH]; simpl; [naive_solver constructor|]. rewrite list.Forall_cons. tauto.
Qed.

Lemma wv_nest_list l d :
  wv_nest (WList l) ≤ d → 1 ≤ d ∧ Forall (λ x, wv_nest x ≤ d - 1) l.
Proof.
  change (wv_nest (WList l)) with (1 + foldr (λ x n, Z.max (wv_nest x) n) 0 l).
  revert d. induction l as [|x l IH]; intros d; cbn [foldr]; [split; [lia|constructor]|].
  intros Hd. destruct (IH d) as [H1 H2]; [lia|]. split; [done|]. constructor; [lia|done].
Qed.
Lemma wv_nest_object o d :
  wv_nest (WObject o) ≤ d → 1 ≤ d ∧ Forall (λ kv, wv_nest (snd kv) ≤ d - 1) o.
Proof.
  change (wv_nest (WObject o)) with (1 + foldr (λ kv n, Z.max (wv_nest (snd kv)) n) 0 o).
  revert d. induction o as [|x o IH]; intros d; cbn [foldr]; [split; [lia|constructor]|].
  intros Hd. destruct (IH d) as [H1 H2]; [lia|]. split; [done|]. constructor; [lia|done].
Qed.

(** ** Strings *)

(** Whether a character is written with a backslash. *)
Definition escapes (c : ascii) : bool :=
  negb (bool_decide (escape_char c = String c EmptyString)).

Lemma string_loop_plain c t :
  c ≠ DQ → c ≠ BSL → c ≠ NUL →
  string_loop (String c t) = tok_cons c false (string_loop t).
Proof. intros. cbn [string_loop]. by rewrite !decide_False. Qed.
Lemma string_loop_pair e t :
  e ≠ "u"%char → is_escape e = true →
  string_loop (String BSL (String e t)) = tok_cons BSL true (tok_cons e true (string_loop t)).
Proof.
  intros Hu He. cbn [string_loop].
  by rewrite decide_False, decide_True, decide_False, He by done.
Qed.
Lemma string_loop_u h1 h2 h3 h4 t :
  check_hex h1 && check_hex h2 && check_hex h3 && check_hex h4 = true →
  string_loop (String BSL (String "u" (String h1 (String h2 (String h3 (String h4 t))))))
  = tok_cons BSL true (tok_cons "u" true (tok_cons h1 true (tok_cons h2 true
      (tok_cons h3 true (tok_cons h4 true (string_loop t)))))).
Proof.
  intros Hh. cbn [string_loop].
  by rewrite decide_False, decide_True, decide_True, Hh by done.
Qed.

(** The two digits of the escape of a control character. *)
Lemma to_hex_checked c :
  check_hex (to_hex (schar c / 16)) && check_hex (to_hex (schar c mod 16)) = true.
Proof. all_ascii c; reflexivity. Qed.

Lemma string_loop_char c t :
  string_loop (escape_char c +:+ t)
  = match string_loop t with
    | (Some (x, e), r) => (Some (escape_char c +:+ x, escapes c || e), r)
    | (None, r) => (None, r)
    end.
Proof.
  unfold escapes, escape_char.
  repeat (destruct (decide _); [subst|]); try (destruct (_ && _) eqn:Hctl); str_norm.
  all: try (rewrite string_loop_pair by done;
            by destruct (string_loop t) as [[[x e]|] r]).
  - pose proof (to_hex_checked c) as Hh.
    rewrite string_loop_u by (by rewrite <- andb_assoc, Hh).
    destruct (string_loop t) as [[[x e]|] r]; [|done].
    rewrite bool_decide_eq_false_2 by done. by str_norm.
  - rewrite string_loop_plain by (try done; by intros ->).
    rewrite bool_decide_eq_true_2 by done. by destruct (string_loop t) as [[[x e]|] r].
Qed.

Lemma escapes_false c : escapes c = false → escape_char c = String c EmptyString.
Proof. unfold escapes. by case_bool_decide. Qed.

Lemma unescape_char c t : unescape_text (escape_char c +:+ t) = String c (unescape_text t).
Proof. all_ascii c; reflexivity. Qed.

Lemma unescape_escape s : unescape_text (escape s) = s.
Proof. induction s as [|c s IH]; [done|]. simpl. by rewrite unescape_char, IH. Qed.

Lemma string_loop_escape s rest :
  ∃ e, string_loop (escape s +:+ String DQ rest) = (Some (escape s, e), rest) ∧
       (e = false → escape s = s).
Proof.
  induction s as [|c s (e & IH & He)].
  - exists false. by split.
  - simpl. rewrite string_app_assoc.
    exists (escapes c || e). rewrite string_loop_char, IH. split; [done|].
    intros [Hc He']%orb_false_iff. rewrite (escapes_false _ Hc), (He He'). done.
Qed.

Lemma decode_dump_string s rest :
  ∃ r, decode_string (dump_string s +:+ rest) = (r, rest) ∧ r_error r = false ∧
       r_t r = Some TString ∧ rv_s r = Ok s.
Proof.
  unfold decode_string, dump_string. rewrite string_app_cons. cbn [consume].
  rewrite decide_True by done. rewrite string_app_assoc, string_app_cons, string_app_nil_l.
  destruct (string_loop_escape s rest) as (e & -> & He).
  eexists. split_and!; [done..|]. unfold rv_s, rv_t. simpl. destruct e; simpl.
  - by rewrite unescape_escape.
  - by rewrite He.
Qed.

(** ** Numbers *)

Lemma digits_value_snoc acc s c :
  digits_value acc (s +:+ String c EmptyString) = digits_value acc s * 10 + digit_val c.
Proof. revert acc. induction s as [|d s IH]; intros acc; [done|]. str_norm. apply IH. Qed.

Lemma pretty_N_char_digit d :
  (d < 10)%N → is_digit (pretty_N_char d) = true ∧ digit_val (pretty_N_char d) = Z.of_N d ∧
    (d ≠ 0%N → pretty_N_char d ≠ "0"%char).
Proof.
  intros Hd.
  assert (d = 0 ∨ d = 1 ∨ d = 2 ∨ d = 3 ∨ d = 4 ∨ d = 5 ∨ d = 6 ∨ d = 7 ∨ d = 8 ∨ d = 9)%N
    as Hc by lia.
  by repeat (destruct Hc as [->|Hc]); subst.
Qed.

(** The decimal digits of a positive number: no leading zero, and its value. *)
Lemma pretty_N_go_value x :
  (0 < x)%N →
  ∃ c ds, (∀ s, pretty_N_go x s = String c ds +:+ s) ∧ is_digit c = true ∧ c ≠ "0"%char ∧
    string_Forall (λ c, is_digit c = true) ds ∧ digits_value 0 (String c ds) = Z.of_N x.
Proof.
  induction (N.lt_wf_0 x) as [x _ IH]. intros Hx.
  destruct (pretty_N_char_digit (x `mod` 10)) as (H1 & H2 & H3); [by apply N.mod_lt|].
  pose proof (N.div_mod x 10 ltac:(done)) as Hdm.
  destruct (decide (x `div` 10 = 0)%N) as [H0|H0].
  - exists (pretty_N_char (x `mod` 10)), EmptyString. split_and!; [|done|apply H3; lia|done|].
    + intros s. rewrite pretty_N_go_step by done. by rewrite H0, pretty_N_go_0.
    + simpl. lia.
  - destruct (IH (x `div` 10)%N) as (c & ds & Hp & Hc & Hc0 & Hds & Hv);
      [by apply N.div_lt|by apply N.neq_0_lt_0|].
    exists c, (ds +:+ String (pretty_N_char (x `mod` 10)) EmptyString). split_and!; try done.
    + intros s. rewrite pretty_N_go_step, Hp by done. by str_norm.
    + apply string_Forall_app. by split.
    + change (digits_value 0 (String c ds +:+ String (pretty_N_char (x `mod` 10)) EmptyString)
        = Z.of_N x). rewrite digits_value_snoc, Hv, H2. lia.
Qed.

Lemma to_string_pos p :
  ∃ c ds, to_string (Z.pos p) = String c ds ∧ is_digit c = true ∧ c ≠ "0"%char ∧
    string_Forall (λ c, is_digit c = true) ds ∧ digits_value 0 (String c ds) = Z.pos p.
Proof.
  destruct (pretty_N_go_value (N.pos p)) as (c & ds & Hp & H); [lia|].
  exists c, ds. split; [|done]. rewrite <- (string_app_nil_r (String c ds)), <- Hp. done.
Qed.

(** What may follow a number. *)
Definition ends_number (rest : string) : Prop :=
  match rest with String c _ => number_char c = None | EmptyString => True end.

Lemma number_char_digit c :
  is_digit c = true → c ≠ "0"%char → number_char c = Some (table_19, true).
Proof. intros Hd H0. unfold number_char. by rewrite decide_False, Hd. Qed.
Lemma number_char_None c : number_char c = None → is_digit c = false.
Proof. unfold number_char. case_decide; [done|]. by destruct (is_digit c). Qed.

Lemma number_loop_digits st s rest :
  accepting st = true → string_Forall (λ c, is_digit c = true) s → ends_number rest →
  number_loop st true (s +:+ rest) = (Some s, rest).
Proof.
  intros Hst Hs Hr. induction s as [|c s IH]; str_norm.
  - destruct rest as [|c rest]; simpl; rewrite ?Hst; [done|]. simpl in Hr.
    by rewrite (number_char_None _ Hr), Hr.
  - destruct Hs as [Hc Hs]. cbn [number_loop]. rewrite Hc. cbn [andb]. by rewrite (IH Hs).
Qed.

Lemma number_loop_zero rest : ends_number rest →
  number_loop Minus false (String "0" rest) = (Some "0"%string, rest).
Proof.
  intros Hr. destruct rest as [|c rest]; [done|]. cbn -[number_char]. simpl in Hr. by rewrite Hr.
Qed.

(** The start of a number, after which only digits follow. *)
Lemma number_loop_start st c ds rest :
  next_state table_19 st = Digits → is_digit c = true → c ≠ "0"%char →
  string_Forall (λ c, is_digit c = true) ds → ends_number rest →
  number_loop st false (String c ds +:+ rest) = (Some (String c ds), rest).
Proof.
  intros Hst Hc H0 Hds Hr. str_norm. cbn [number_loop andb].
  rewrite (number_char_digit c Hc H0), Hst, decide_False by done.
  by rewrite (number_loop_digits Digits ds rest).
Qed.

Lemma number_loop_to_string z rest : ends_number rest →
  number_loop Minus false (to_string z +:+ rest) = (Some (to_string z), rest).
Proof.
  intros Hr. destruct z as [|p|p].
  - by apply number_loop_zero.
  - destruct (to_string_pos p) as (c & ds & -> & Hc & H0 & Hds & _).
    by apply number_loop_start.
  - destruct (to_string_pos p) as (c & ds & Hp & Hc & H0 & Hds & _).
    change (to_string (Z.neg p)) with (String "-" (to_string (Z.pos p))). rewrite Hp.
    rewrite string_app_cons. cbn [number_loop andb].
    change (number_char "-") with (Some (table_minus, false)). cbn iota.
    change (next_state table_minus Minus) with AfterMinus. rewrite decide_False by done.
    by rewrite number_loop_start.
Qed.

Lemma memchr_digits c s :
  is_digit c = false → string_Forall (λ d, is_digit d = true) s → memchr c s = false.
Proof.
  intros Hc. induction s as [|d s IH]; [done|]. intros [Hd Hs]. simpl. rewrite (IH Hs).
  rewrite bool_decide_eq_false_2; [done|]. intros ->. congruence.
Qed.

Lemma digit_not_space c : is_digit c = true → Ascii.is_space c = false.
Proof. all_ascii c; done. Qed.
Lemma digit_not_sign c : is_digit c = true → c ≠ "-"%char ∧ c ≠ "+"%char.
Proof. by intros H; split; intros ->. Qed.

Lemma span_digits ds :
  string_Forall (λ c, is_digit c = true) ds → span is_digit ds = (ds, EmptyString).
Proof. intros H. rewrite <- (string_app_nil_r ds) at 1. by apply span_eq. Qed.

Lemma rv_u_digits c ds z :
  string_Forall (λ c, is_digit c = true) (String c ds) → digits_value 0 (String c ds) = z →
  0 ≤ z ≤ uint64_max →
  stream_get_integer 0 uint64_max (String c ds) = Ok z.
Proof.
  intros Hds Hv Hz. pose proof Hds as [Hc _]. unfold stream_get_integer.
  cbn [span]. rewrite (digit_not_space c Hc). cbn [snd opt_sign].
  destruct (digit_not_sign c Hc). rewrite !decide_False, (span_digits _ Hds) by done.
  cbn [fst]. rewrite Hv. change (0 <? 0) with false. cbn iota.
  unfold uint64_max in *. destruct (Z.ltb_spec (2 ^ 64 - 1) z); [lia|].
  f_equal. unfold uwrap. apply Z.mod_small. lia.
Qed.

Lemma rv_i_minus c ds z :
  string_Forall (λ c, is_digit c = true) (String c ds) → digits_value 0 (String c ds) = - z →
  int64_min ≤ z ≤ int64_max →
  stream_get_integer int64_min int64_max (String "-" (String c ds)) = Ok z.
Proof.
  intros Hds Hv Hz. unfold stream_get_integer.
  change (span Ascii.is_space (String "-" (String c ds)))
    with (EmptyString, String "-" (String c ds)).
  cbn [snd opt_sign]. rewrite decide_True, (span_digits _ Hds) by done. cbn [fst].
  rewrite Hv. change (int64_min <? 0) with true. cbn iota. f_equal. lia.
Qed.

Lemma rv_i_number tok nt :
  rv_i (RV (Some tok) false None [] 0 (Some TNumber) nt false false)
  = stream_get_integer int64_min int64_max tok.
Proof. done. Qed.

(** The values of numbers: written with a sign when negative, read by the sign. *)
Lemma wv_of_number z :
  int64_min ≤ z ≤ uint64_max →
  wv_of_rvalue (rv_of_range TNumber (to_string z) false)
  = Ok (if 0 <=? z then WUnsigned z else WSigned z).
Proof.
  intros Hz. unfold rv_of_range.
  assert (∀ c ds, string_Forall (λ c, is_digit c = true) (String c ds) →
            determine_num_type TNumber (String c ds) = Unsigned_integer ∧
            determine_num_type TNumber (String "-" (String c ds)) = Signed_integer) as Hty.
  { intros c ds H. unfold determine_num_type.
    assert (∀ d, memchr d (String "-" (String c ds))
              = bool_decide (d = "-"%char) || memchr d (String c ds)) as Hm by done.
    rewrite !Hm, !(λ d Hd, memchr_digits d _ Hd H) by done. done. }
  destruct z as [|p|p]; [done| |].
  - destruct (to_string_pos p) as (c & ds & -> & Hc & _ & Hds & Hv).
    destruct (Hty c ds) as [-> _]; [done|]. cbn.
    unfold rv_u, rv_t, rv_text. cbn. by rewrite (rv_u_digits c ds (Z.pos p)).
  - destruct (to_string_pos p) as (c & ds & Hp & Hc & _ & Hds & Hv).
    change (to_string (Z.neg p)) with (String "-" (to_string (Z.pos p))). rewrite Hp.
    destruct (Hty c ds) as [_ ->]; [done|]. cbn -[rv_i].
    rewrite rv_i_number, (rv_i_minus c ds (Z.neg p)); [done..|].
    unfold int64_max. lia.
Qed.

(** ** Containers *)

Lemma wv_of_set_key k r : wv_of_rvalue (rv_set_key k r) = wv_of_rvalue r.
Proof. by destruct r. Qed.

(** The loop of [wvalue(const rvalue&)] over the elements. *)
Fixpoint wv_elements (l : list rvalue) : result (list (string * wvalue)) :=
  match l with
  | [] => Ok []
  | x :: l' => v ← wv_of_rvalue x; vs ← wv_elements l'; Ok ((key_text x, v) :: vs)
  end.
Lemma wv_of_list r :
  r_error r = false → r_t r = Some TList →
  wv_of_rvalue r = (vs ← wv_elements (r_l r); Ok (WList (vs.*2))).
Proof. destruct r; simpl. by intros -> ->. Qed.
Lemma wv_of_object r :
  r_error r = false → r_t r = Some TObject →
  wv_of_rvalue r = (vs ← wv_elements (r_l r);
    Ok (WObject (foldl (λ o kv, emplace_new (fst kv) (snd kv) o) [] vs))).
Proof. destruct r; simpl. by intros -> ->. Qed.

Lemma wv_elements_ok rs kvs :
  Forall2 (λ r kv, key_text r = fst kv ∧ wv_of_rvalue r = Ok (snd kv)) rs kvs →
  wv_elements rs = Ok kvs.
Proof.
  induction 1 as [|r [k v] rs kvs [Hk Hv] _ IH]; [done|]. cbn [wv_elements fst snd] in *.
  by rewrite Hv, IH, Hk.
Qed.

(** The writer's text does not depend on the level when nothing is indented. *)
Section RoundTrip.
Context `{!UMapIter}.

Lemma dump_level v lvl : dump_internal v DontIndent " " lvl = dump v.
Proof.
  unfold dump. revert v lvl.
  apply (wvalue_ind_deep (λ v, ∀ lvl, _ = dump_internal v DontIndent " " 0));
    [by intros []|intros l IH lvl|intros o IH lvl].
  - cbn. rewrite (list_fmap_ext _ (λ x, dump_internal x DontIndent " " (0 + 1)) l); [done|].
    intros i x Hx%list_elem_of_lookup_2. rewrite list.Forall_forall in IH.
    by rewrite (IH x Hx (lvl + 1)), (IH x Hx (0 + 1)).
  - cbn. rewrite (list_fmap_ext _
      (λ kv, (fst kv, dump_internal (snd kv) DontIndent " " (0 + 1))) o); [done|].
    intros i x Hx%list_elem_of_lookup_2. rewrite list.Forall_forall in IH.
    by rewrite (IH x Hx (lvl + 1)), (IH x Hx (0 + 1)).
Qed.

Lemma dump_list l :
  dump (WList l) = String "[" (dump_elements EmptyString true (dump <$> l) +:+ "]").
Proof.
  unfold dump at 1. cbn. rewrite (list_fmap_ext _ dump l); [done|].
  intros. apply dump_level.
Qed.

Definition dump_member (kv : string * wvalue) : string :=
  dump_string (fst kv) +:+ String ":" (dump (snd kv)).
Lemma dump_object o :
  dump (WObject o)
  = String "{" (dump_elements EmptyString true (dump_member <$> umap_iter o) +:+ "}").
Proof.
  unfold dump at 1. cbn.
  rewrite (list_fmap_ext _ (prod_map id dump)); [|intros i [k v] _; cbn; by rewrite dump_level].
  rewrite umap_iter_fmap, <- list_fmap_compose. done.
Qed.

(** A written value starts with a character no container closes with. *)
Definition value_head (s : string) : Prop :=
  match s with
  | String c _ => is_ws c = false ∧ c ≠ "]"%char ∧ c ≠ "}"%char
  | EmptyString => False
  end.
Lemma value_head_app s t : value_head s → value_head (s +:+ t).
Proof. by destruct s. Qed.
Lemma value_head_skip s : value_head s → ws_skip s = s.
Proof. destruct s as [|c s]; [done|]. intros [Hw _]. simpl. by rewrite Hw. Qed.
Lemma value_head_consume c s :
  c = "]"%char ∨ c = "}"%char → value_head s → consume c s = None.
Proof.
  intros Hc. destruct s as [|d s]; [done|]. intros (_ & H1 & H2). simpl.
  rewrite decide_False; [done|]. by destruct Hc as [->| ->].
Qed.

Lemma digit_head c : is_digit c = true → is_ws c = false ∧ c ≠ "]"%char ∧ c ≠ "}"%char.
Proof. intros Hc. split_and!; [by revert Hc; all_ascii c|by intros ->..]. Qed.

Lemma value_head_dump v : storable v → value_head (dump v).
Proof.
  assert (∀ z, value_head (to_string z)) as Hn.
  { intros [|p|p]; [done| |done].
    destruct (to_string_pos p) as (c & ds & -> & Hc & _). by apply digit_head. }
  destruct v as [| | |z|z|d|d|s|l|o|f]; try done; intros _; [apply (Hn z)|apply (Hn z)].
Qed.

(** A value is read back from its text followed by anything that ends a number. *)
Definition reads_back (v : wvalue) (depth : Z) : Prop :=
  ∀ rest, ends_number rest →
  ∃ n r, decode_value n depth (dump v +:+ rest) = Some (r, rest) ∧ r_error r = false ∧
    wv_of_rvalue r = Ok (reread v).

(** What a loop leaves in the container it started with. *)
Definition filled (ret r : rvalue) (rs : list rvalue) : Prop :=
  r_error r = r_error ret ∧ r_t r = r_t ret ∧ r_l r = r_l ret ++ rs.

Lemma filled_emplace ret x r rs :
  filled (rv_emplace_back ret x) r rs → filled ret r (x :: rs).
Proof. intros (He & Ht & Hl). split_and!; [done..|]. rewrite Hl. cbn. by rewrite <- app_assoc. Qed.

Lemma list_loop_more n depth ret s v t :
  decode_value n (depth + 1) s = Some (v, String "," t) → r_error v = false →
  list_loop (S n) depth ret s = list_loop n depth (rv_emplace_back ret v) (ws_skip t).
Proof. intros Hd He. cbn [list_loop]. rewrite Hd. unfold rv_bool. by rewrite He. Qed.
Lemma list_loop_last n depth ret s v t :
  decode_value n (depth + 1) s = Some (v, String "]" t) → r_error v = false →
  list_loop (S n) depth ret s = Some (rv_emplace_back ret v, t).
Proof. intros Hd He. cbn [list_loop]. rewrite Hd. unfold rv_bool. by rewrite He. Qed.

Lemma list_loop_reads x l ret depth rest :
  Forall (λ v, storable v ∧ reads_back v (depth + 1)) (x :: l) →
  ∃ n r rs,
    list_loop n depth ret (dump_elements EmptyString true (dump <$> x :: l) +:+ String "]" rest)
    = Some (r, rest) ∧ filled ret r rs ∧
    Forall2 (λ r v, wv_of_rvalue r = Ok (reread v)) rs (x :: l).
Proof.
  revert x ret. induction l as [|y l IH]; intros x ret [[Hs Hx] Hl]%list.Forall_cons.
  - destruct (Hx (String "]" rest)) as (n & r & Hd & He & Hv); [done|].
    exists (S n), (rv_emplace_back ret r), [r]. split_and!; [|done..|by repeat constructor].
    apply list_loop_last; [|done]. cbn. by str_norm.
  - apply list.Forall_cons in Hl as Hy. destruct Hy as [[Hys _] _].
    set (tail := dump_elements EmptyString true (dump <$> y :: l) +:+ String "]" rest) in *.
    destruct (Hx (String "," tail)) as (n & r & Hd & He & Hv); [done|].
    destruct (IH y (rv_emplace_back ret r) Hl) as (m & r' & rs & Hloop & Hf & Hrs).
    exists (S (n `max` m)), r', (r :: rs). split_and!.
    + replace (dump_elements EmptyString true (dump <$> x :: y :: l) +:+ String "]" rest)
        with (dump x +:+ String "," tail) by (unfold tail; cbn; by str_norm).
      rewrite (list_loop_more _ _ _ _ r tail); [|by apply (decode_mono n); [lia|]|done].
      rewrite (value_head_skip tail).
      * destruct (decode_mono m (n `max` m) ltac:(lia)) as (_ & _ & Hm & _).
        by apply Hm.
      * unfold tail. cbn. str_norm. by apply value_head_app, value_head_dump.
    + by apply filled_emplace.
    + by constructor.
Qed.

Lemma object_loop_value n depth ret s k v s1 s5 :
  decode_string s = (k, String ":" s1) → r_error k = false →
  decode_value n (depth + 1) (ws_skip s1) = Some (v, s5) → r_error v = false →
  object_loop (S n) depth ret s
  = let ret := rv_emplace_back ret (rv_set_key (key_of k) v) in
    match consume "}" (ws_skip s5) with
    | Some s7 => Some (ret, s7)
    | None =>
        match consume "," (ws_skip s5) with
        | None => Some (rv_set_error ret, ws_skip s5)
        | Some s7 => object_loop n depth ret (ws_skip s7)
        end
    end.
Proof.
  intros Hk Hke Hd He. cbn [object_loop]. rewrite Hk. unfold rv_bool. rewrite Hke.
  change (ws_skip (String ":" s1)) with (String ":" s1). cbn [negb consume].
  by rewrite decide_True, Hd, He by done.
Qed.

(** One member: its key, the colon and its value. *)
Lemma member_reads kv depth rest :
  storable (snd kv) → reads_back (snd kv) (depth + 1) → ends_number rest →
  ∃ n k s1 r, decode_string (dump_member kv +:+ rest) = (k, String ":" s1) ∧
    r_error k = false ∧ key_of k = fst kv ∧
    decode_value n (depth + 1) (ws_skip s1) = Some (r, rest) ∧ r_error r = false ∧
    wv_of_rvalue r = Ok (reread (snd kv)).
Proof.
  intros Hs Hr Hrest. destruct (Hr rest Hrest) as (n & r & Hd & He & Hv).
  destruct (decode_dump_string (fst kv) (String ":" (dump (snd kv) +:+ rest)))
    as (k & Hk & Hke & _ & Hks).
  exists n, k, (dump (snd kv) +:+ rest), r. split_and!; try done.
  - unfold dump_member. by str_norm.
  - unfold key_of. by rewrite Hks.
  - by rewrite value_head_skip by (by apply value_head_app, value_head_dump).
Qed.

Lemma object_loop_reads x l ret depth rest :
  Forall (λ kv, storable (snd kv) ∧ reads_back (snd kv) (depth + 1)) (x :: l) →
  ∃ n r rs,
    object_loop n depth ret
      (dump_elements EmptyString true (dump_member <$> x :: l) +:+ String "}" rest)
    = Some (r, rest) ∧ filled ret r rs ∧
    Forall2 (λ r kv, key_text r = fst kv ∧ wv_of_rvalue r = Ok (reread (snd kv))) rs (x :: l).
Proof.
  revert x ret. induction l as [|y l IH]; intros x ret [[Hs Hx] Hl]%list.Forall_cons.
  - destruct (member_reads x depth (String "}" rest))
      as (n & k & s1 & r & Hk & Hke & Hkk & Hd & He & Hv); [done..|].
    exists (S n), (rv_emplace_back ret (rv_set_key (key_of k) r)), [rv_set_key (key_of k) r].
    split_and!; [|done..|].
    + replace (_ +:+ String "}" rest) with (dump_member x +:+ String "}" rest)
        by (cbn [fmap list_fmap dump_elements]; by str_norm).
      by rewrite (object_loop_value _ _ _ _ _ _ _ _ Hk Hke Hd He).
    + constructor; [|done]. by rewrite wv_of_set_key.
  - set (tail := dump_elements EmptyString true (dump_member <$> y :: l) +:+ String "}" rest) in *.
    destruct (member_reads x depth (String "," tail))
      as (n & k & s1 & r & Hk & Hke & Hkk & Hd & He & Hv); [done..|].
    destruct (IH y (rv_emplace_back ret (rv_set_key (key_of k) r)) Hl)
      as (m & r' & rs & Hloop & Hf & Hrs).
    exists (S (n `max` m)), r', (rv_set_key (key_of k) r :: rs). split_and!.
    + replace (_ +:+ String "}" rest) with (dump_member x +:+ String "," tail)
        by (unfold tail; cbn [fmap list_fmap dump_elements]; by str_norm).
      apply (decode_mono n (n `max` m)) in Hd; [|lia].
      rewrite (object_loop_value _ _ _ _ _ _ _ _ Hk Hke Hd He).
      change (object_loop (n `max` m) depth
        (rv_emplace_back ret (rv_set_key (key_of k) r)) (ws_skip tail) = Some (r', rest)).
      change (ws_skip tail) with tail. by apply (decode_mono m); [lia|].
    + by apply filled_emplace.
    + constructor; [|done]. by rewrite wv_of_set_key.
Qed.

Lemma Forall2_elements_list rs l :
  Forall2 (λ r v, wv_of_rvalue r = Ok (reread v)) rs l →
  (vs ← wv_elements rs; Ok (WList (vs.*2))) = Ok (WList (reread <$> l)).
Proof.
  intros Hrs. enough (∃ kvs, wv_elements rs = Ok kvs ∧ kvs.*2 = reread <$> l) as (kvs & -> & Hk).
  { cbn. by rewrite Hk. }
  induction Hrs as [|r v rs l Hv _ (kvs & IH & Hk)]; [by exists []|].
  exists ((key_text r, reread v) :: kvs). cbn [wv_elements]. rewrite Hv, IH. cbn.
  by rewrite Hk.
Qed.

Lemma Forall2_elements_object rs (o : list (string * wvalue)) :
  NoDup o.*1 →
  Forall2 (λ r kv, key_text r = fst kv ∧ wv_of_rvalue r = Ok (reread (snd kv))) rs o →
  (vs ← wv_elements rs;
   Ok (WObject (foldl (λ o kv, emplace_new (fst kv) (snd kv) o) [] vs)))
  = Ok (WObject (prod_map id reread <$> o)).
Proof.
  intros Hnd Hrs. rewrite (wv_elements_ok rs (prod_map id reread <$> o)).
  - cbn. rewrite emplace_new_all; [done|]. cbn. by rewrite <- list_fmap_compose.
  - by apply Forall2_fmap_r.
Qed.

Lemma reads_back_const v r s (depth : Z) :
  dump v = s → (∀ rest, decode_value 1 depth (s +:+ rest) = Some (r, rest)) →
  r_error r = false → wv_of_rvalue r = Ok (reread v) → reads_back v depth.
Proof. intros <- Hd He Hv rest _. by exists 1%nat, r. Qed.

Lemma reads_back_number z depth :
  int64_min ≤ z ≤ uint64_max → ∀ rest, ends_number rest →
  ∃ n r, decode_value n depth (to_string z +:+ rest) = Some (r, rest) ∧ r_error r = false ∧
    wv_of_rvalue r = Ok (if 0 <=? z then WUnsigned z else WSigned z).
Proof.
  intros Hz rest Hr. exists 1%nat, (rv_of_range TNumber (to_string z) false).
  split_and!; [|done|by apply wv_of_number].
  transitivity (Some (decode_number (to_string z +:+ rest))).
  - assert (∃ c s, to_string z = String c s ∧ (is_digit c = true ∨ c = "-"%char)) as (c & s & -> & Hc).
    { destruct z as [|p|p]; [by eauto| |by eauto].
      destruct (to_string_pos p) as (c & ds & -> & Hc & _). by eauto. }
    str_norm. cbn [decode_value deref].
    by rewrite !decide_False by (destruct Hc as [Hc|Hc]; by intros ->).
  - unfold decode_number. by rewrite number_loop_to_string.
Qed.

Lemma reads_back_list l depth :
  depth + 1 ≤ max_depth → Forall (λ v, storable v ∧ reads_back v (depth + 2)) l →
  reads_back (WList l) depth.
Proof.
  intros Hd Hl rest _. rewrite dump_list. destruct l as [|x l].
  - exists 2%nat, (rv_of_type TList). split_and!; [|done..].
    cbn. destruct (Z.ltb_spec max_depth (depth + 1)); [lia|done].
  - destruct (list_loop_reads x l (rv_of_type TList) (depth + 1) rest) as (n & r & rs & Hr & Hf & Hrs).
    { by replace (depth + 1 + 1) with (depth + 2) by lia. }
    destruct Hf as (He & Ht & Hrl). exists (S (S n)), r. split_and!; [|done|].
    + set (body := dump_elements EmptyString true (dump <$> x :: l) +:+ String "]" rest) in *.
      replace (String "[" _ +:+ rest) with (String "[" body) by (unfold body; by str_norm).
      assert (value_head body) as Hb.
      { unfold body. apply list.Forall_cons in Hl as [[Hs _] _]. cbn. str_norm.
        by apply value_head_app, value_head_dump. }
      change (decode_value (S (S n)) depth (String "[" body))
        with (decode_list (S n) (depth + 1) (String "[" body)). cbn [decode_list consume].
      rewrite decide_True by done. destruct (Z.ltb_spec max_depth (depth + 1)); [lia|].
      rewrite (value_head_skip body Hb), (value_head_consume "]" body) by (try done; by left).
      done.
    + rewrite (wv_of_list r He Ht), Hrl. by apply Forall2_elements_list.
Qed.

(** An object is read into its members, in the order they were written in. *)
Lemma object_reads o depth rest :
  depth + 1 ≤ max_depth →
  Forall (λ kv, storable (snd kv) ∧ reads_back (snd kv) (depth + 2)) o →
  ∃ n r, decode_value n depth (dump (WObject o) +:+ rest) = Some (r, rest) ∧
    r_error r = false ∧ r_t r = Some TObject ∧
    Forall2 (λ r kv, key_text r = fst kv ∧ wv_of_rvalue r = Ok (reread (snd kv))) (r_l r) (umap_iter o).
Proof.
  intros Hd Ho. rewrite dump_object. rewrite <- (umap_iter_perm o) in Ho.
  destruct (umap_iter o) as [|x l].
  - exists 2%nat, (rv_of_type TObject). split_and!; [|done..|constructor].
    cbn. destruct (Z.ltb_spec max_depth (depth + 1)); [lia|done].
  - destruct (object_loop_reads x l (rv_of_type TObject) (depth + 1) rest)
      as (n & r & rs & Hr & Hf & Hrs).
    { by replace (depth + 1 + 1) with (depth + 2) by lia. }
    destruct Hf as (He & Ht & Hrl). exists (S (S n)), r. split_and!; [|done|done|by rewrite Hrl].
    set (body := dump_elements EmptyString true (dump_member <$> x :: l) +:+ String "}" rest) in *.
    replace (String "{" _ +:+ rest) with (String "{" body) by (unfold body; by str_norm).
    change (decode_value (S (S n)) depth (String "{" body))
      with (decode_object (S n) (depth + 1) (String "{" body)). cbn [decode_object consume].
    rewrite decide_True by done. destruct (Z.ltb_spec max_depth (depth + 1)); [lia|]. done.
Qed.
Lemma reads_back_object o depth :
  depth + 1 ≤ max_depth → NoDup o.*1 →
  Forall (λ kv, storable (snd kv) ∧ reads_back (snd kv) (depth + 2)) o →
  reads_back (WObject o) depth.
Proof.
  intros Hd Hnd Ho rest _. destruct (object_reads o depth rest Hd Ho) as (n & r & Hr & He & Ht & Hrs).
  exists n, r. split_and!; [done..|]. cbn [reread]. rewrite umap_iter_fmap.
  rewrite <- (umap_iter_perm o) in Hnd. rewrite (wv_of_object r He Ht). by apply Forall2_elements_object.
Qed.

Lemma reads_back_all v :
  storable v → ∀ depth, 0 ≤ depth → depth + 2 * wv_nest v ≤ max_depth + 1 → reads_back v depth.
Proof.
  revert v. apply (wvalue_ind_deep (λ v, storable v → ∀ depth, _ → _ → reads_back v depth)).
  - intros [| | |z|z|d|d|s|l|o|f]; try done; intros Hs depth _ _.
    + by eapply reads_back_const.
    + by eapply reads_back_const.
    + by eapply reads_back_const.
    + cbn in Hs. intros rest Hr.
      destruct (reads_back_number z depth ltac:(unfold int64_max, uint64_max in *; lia) rest Hr)
        as (n & r & H1 & H2 & H3). by exists n, r.
    + cbn in Hs. intros rest Hr.
      destruct (reads_back_number z depth ltac:(unfold int64_min in *; lia) rest Hr)
        as (n & r & H1 & H2 & H3). exists n, r. split_and!; [done..|]. rewrite H3.
      by destruct (Z.leb_spec 0 z); [|lia].
    + intros rest _. destruct (decode_dump_string s rest) as (r & Hd & He & Ht & Hs').
      exists 1%nat, r. split_and!; [|done|].
      * change (decode_value 1 depth (dump (WString s) +:+ rest))
          with (Some (decode_string (dump_string s +:+ rest))). by rewrite Hd.
      * destruct r. cbn in He, Ht. subst. cbn -[rv_s]. by rewrite Hs'.
  - intros l IH Hs depth Hd Hn.
    destruct (wv_nest_list l (wv_nest (WList l)) ltac:(lia)) as [H1 Hl].
    apply storable_list in Hs. apply reads_back_list; [unfold max_depth in *; lia|].
    rewrite list.Forall_forall in *. intros x Hx. split; [by apply Hs|].
    specialize (Hl x Hx). cbn beta in Hl. apply IH; auto; lia.
  - intros o IH Hs depth Hd Hn.
    destruct (wv_nest_object o (wv_nest (WObject o)) ltac:(lia)) as [H1 Ho].
    apply storable_object in Hs as [Hnd Hs].
    apply reads_back_object; [unfold max_depth in *; lia|done|].
    rewrite list.Forall_forall in *. intros x Hx. split; [by apply Hs|].
    specialize (Ho x Hx). cbn beta in Ho. apply IH; auto; lia.
Qed.

(** White space may follow. *)
Lemma load_reads v rest n r : storable v → ws_skip rest = "" →
  decode_value n 0 (dump v +:+ rest) = Some (r, rest) → load (dump v +:+ rest) = r.
Proof.
  intros Hs Hws Hd.
  unfold load. destruct (parse_is_Some (dump v +:+ rest)) as [r' Hp]. rewrite Hp. unfold parse in Hp.
  rewrite value_head_skip in Hp by (by apply value_head_app, value_head_dump).
  destruct (decode_value (load_fuel (dump v +:+ rest)) 0 (dump v +:+ rest)) as [[r1 s1]|] eqn:Hd1; [|done].
  apply (decode_mono n (n `max` load_fuel (dump v +:+ rest))) in Hd; [|lia].
  apply (decode_mono _ (n `max` load_fuel (dump v +:+ rest))) in Hd1; [|lia].
  rewrite Hd in Hd1. simplify_eq. rewrite Hws. cbn. by rewrite andb_false_r.
Qed.
(** The text of a flat object. *)
Lemma load_object o rest : NoDup o.*1 → Forall (λ kv, storable (snd kv) ∧ wv_nest (snd kv) ≤ 0) o →
  ws_skip rest = "" →
  let r := load (dump (WObject o) +:+ rest) in
  r_error r = false ∧ r_t r = Some TObject ∧
  Forall2 (λ r kv, key_text r = fst kv ∧ wv_of_rvalue r = Ok (reread (snd kv))) (r_l r) (umap_iter o).
Proof.
  intros Hnd Ho Hws. destruct (object_reads o 0 rest) as (n & r & Hd & Hr); [by unfold max_depth; lia| |].
  - eapply list.Forall_impl; [exact Ho|]. intros kv [Hs Hn]. split; [done|].
    apply reads_back_all; [done|lia|unfold max_depth; lia].
  - cbn zeta. rewrite (load_reads (WObject o) rest n r); [exact Hr| |done|done].
    apply storable_object. split; [done|]. eapply list.Forall_impl; [exact Ho|]. by intros kv [].
Qed.

(** C8: what the service writes it can read: for any value of integers within their
    widths, strings of any bytes, lists and objects with distinct keys, nested at most
    5000 deep, [load] parses the text of [dump] without an error into the same value,
    whatever the iteration order of the maps (a number without a sign comes back
    unsigned, and the members of an object in the order they were written in). *)
Theorem load_dump v :
  storable v → wv_nest v ≤ 5000 →
  r_error (load (dump v)) = false ∧ wv_of_rvalue (load (dump v)) = Ok (reread v).
Proof.
  intros Hs Hn. rewrite <- (string_app_nil_r (dump v)).
  destruct (reads_back_all v Hs 0 ltac:(lia) ltac:(unfold max_depth; lia) "" ltac:(done))
    as (n & r & Hd & He & Hv).
  by rewrite (load_reads v "" n r).
Qed.
End RoundTrip.

(** An order document with every kind of value the service writes. *)
Definition sample_document : wvalue :=
  WObject [("id", WUnsigned 7); ("delta", WSigned (-3)); ("paid", WFalse); ("note", WString (String DQ (String "010" "a")));
           ("items", WList [WNull; WTrue; WList []])].
Lemma load_dump_witness :
  r_error (load (dump sample_document)) = false ∧
  wv_of_rvalue (load (dump sample_document)) = Ok (reread sample_document).
Proof.
  apply (load_dump sample_document).
  - cbn. unfold int64_min, int64_max, uint64_max.
    split; [apply (bool_decide_unpack _); reflexivity|]. split_and!; lia.
  - apply Z.leb_le. reflexivity.
Defined.
