(* ===== verification/Text.v ===== *)
(** * Positions in a [std::string]

    [find], [substr] and [erase] with the positions they take: [npos] is [None] where a
    function returns it or takes it as a length, and wraps around where it is added to. *)

From S2P Require Import Prelude.

Fixpoint stake (n : nat) (s : string) : string :=
  match n, s with S n', String c s' => String c (stake n' s') | _, _ => EmptyString end.
Fixpoint sdrop (n : nat) (s : string) : string :=
  match n, s with S n', String _ s' => sdrop n' s' | _, _ => s end.

(** [s.find(pat)]. *)
Fixpoint find (pat s : string) : option nat :=
  match strip_prefix pat s with
  | Some _ => Some O
  | None => match s with String _ s' => S <$> find pat s' | EmptyString => None end
  end.
(** [s.find(pat, pos)]; a position past the end finds nothing but the empty text. *)
Definition find_from (pat : string) (pos : nat) (s : string) : option nat :=
  if (String.length s <? pos)%nat then None else Nat.add pos <$> find pat (sdrop pos s).
(** [found + k], for [0 < k]. *)
Definition past (found : option nat) (k : nat) : nat :=
  match found with Some i => i + k | None => k - 1 end.
(** [s.length() - k], as a length. *)
Definition but_last (s : string) (k : nat) : option nat :=
  if (String.length s <? k)%nat then None else Some (String.length s - k).
Definition substr (s : string) (pos : nat) (n : option nat) : result string :=
  if (String.length s <? pos)%nat then Throw OutOfRange
  else Ok (match n with Some n => stake n (sdrop pos s) | None => sdrop pos s end).
(** [s.erase(0, n)]. *)
Definition erase (s : string) (n : nat) : string := sdrop n s.

(** ** Taking and dropping *)

Lemma stake_app a b : stake (String.length a) (a +:+ b) = a.
Proof. induction a as [|c a IH]; [done|]. rewrite string_app_cons. cbn. by rewrite IH. Qed.
Lemma sdrop_app a b : sdrop (String.length a) (a +:+ b) = b.
Proof. by induction a. Qed.
Lemma sdrop_app_add a b k : sdrop (String.length a + k) (a +:+ b) = sdrop k b.
Proof. by induction a. Qed.
Lemma stake_sdrop n s : stake n s +:+ sdrop n s = s.
Proof.
  revert s. induction n as [|n IH]; intros s; [done|]. destruct s as [|c s]; [done|].
  cbn. by rewrite string_app_cons, IH.
Qed.
Lemma sdrop_length n s : String.length (sdrop n s) = String.length s - n.
Proof. revert s. induction n as [|n IH]; intros [|c s]; cbn; [done..|apply IH]. Qed.
Lemma stake_length n s : String.length (stake n s) = Nat.min n (String.length s).
Proof. revert s. induction n as [|n IH]; intros [|c s]; cbn; [done..|by rewrite IH]. Qed.
Lemma stake_all n s : String.length s ≤ n → stake n s = s.
Proof.
  revert s. induction n as [|n IH]; intros [|c s] H; cbn in *; try done; [lia|].
  rewrite IH by lia. done.
Qed.
Lemma sdrop_0 s : sdrop 0 s = s.
Proof. done. Qed.
Lemma sdrop_all n s : String.length s ≤ n → sdrop n s = "".
Proof. revert s. induction n as [|n IH]; intros [|c s] H; cbn in *; try done; [lia|]. apply IH. lia. Qed.

Lemma substr_0 s n : substr s 0 (Some n) = Ok (stake n s).
Proof. done. Qed.
Lemma substr_ok s pos n : pos ≤ String.length s → substr s pos n =
  Ok (match n with Some n => stake n (sdrop pos s) | None => sdrop pos s end).
Proof. intros H. unfold substr. by rewrite (proj2 (Nat.ltb_ge _ _)) by lia. Qed.
Lemma substr_shorter s pos n r : substr s pos n = Ok r → String.length r ≤ String.length s.
Proof.
  unfold substr. destruct (_ <? _); [done|]. intros [= <-].
  destruct n; rewrite ?stake_length, sdrop_length; lia.
Qed.
Lemma substr_app a b : substr (a +:+ b) (String.length a) None = Ok b.
Proof. rewrite substr_ok by (rewrite string_length_app; lia). by rewrite sdrop_app. Qed.
Lemma substr_Throw s pos n e : substr s pos n = Throw e → e = OutOfRange ∧ String.length s < pos.
Proof. unfold substr. destruct (Nat.ltb_spec (String.length s) pos); [|done]. by intros [= <-]. Qed.

(** ** Finding *)

Lemma strip_prefix_app_inv p a b r : strip_prefix p (a +:+ b) = Some r →
  (∃ r', a = p +:+ r') ∨ (∃ q, p = a +:+ q).
Proof.
  revert p. induction a as [|c a IH]; intros p H; [right; by exists p|].
  destruct p as [|d p]; [left; by eexists|]. rewrite string_app_cons in H. cbn in H.
  case_decide; [|done]. subst. destruct (IH _ H) as [[r' ->]|[q ->]].
  - left. by exists r'.
  - right. by exists q.
Qed.

Lemma find_here pat s : find pat (pat +:+ s) = Some O.
Proof.
  destruct pat as [|c pat]; [by destruct s|]. rewrite string_app_cons. cbn.
  rewrite decide_True by done. by rewrite strip_prefix_app.
Qed.
Lemma find_String pat c s : strip_prefix pat (String c s) = None → find pat (String c s) = S <$> find pat s.
Proof. intros H. cbn [find]. by rewrite H. Qed.
Lemma find_None_cons pat c s : find pat (String c s) = None →
  strip_prefix pat (String c s) = None ∧ find pat s = None.
Proof.
  cbn [find]. destruct (strip_prefix _ _); [done|]. intros H. split; [done|].
  by destruct (find pat s).
Qed.
(** What is found is there. *)
Lemma find_Some pat s n : find pat s = Some n →
  s = stake n s +:+ pat +:+ sdrop (n + String.length pat) s ∧ n + String.length pat ≤ String.length s.
Proof.
  revert n. induction s as [|c s IH]; intros n H.
  - cbn in H. destruct (strip_prefix pat "") as [r|] eqn:E; [|done]. injection H as <-.
    apply strip_prefix_Some in E.
    destruct pat; [by split; [|cbn; lia]|by rewrite string_app_cons in E].
  - cbn [find] in H. destruct (strip_prefix pat (String c s)) as [r|] eqn:E.
    + injection H as <-. apply strip_prefix_Some in E. rewrite E. cbn [stake Nat.add].
      rewrite string_app_nil_l, sdrop_app. split; [done|]. rewrite string_length_app. lia.
    + destruct (find pat s) as [m|]; [|done]. injection H as <-.
      destruct (IH m eq_refl) as [IH1 IH2]. cbn. rewrite string_app_cons. split; [congruence|lia].
Qed.

(** Nothing of [a] begins an occurrence. *)
Lemma find_skip pat a rest :
  (∀ x y, a = x +:+ y → y ≠ "" → strip_prefix pat (y +:+ rest) = None) →
  find pat (a +:+ rest) = Nat.add (String.length a) <$> find pat rest.
Proof.
  intros H. induction a as [|c a IH].
  { rewrite string_app_nil_l. by destruct (find pat rest). }
  rewrite string_app_cons, find_String; [|by apply (H "" (String c a))].
  rewrite IH; [by destruct (find pat rest)|].
  intros x y -> Hy. by apply (H (String c x) y).
Qed.
Lemma string_Forall_suffix P x y : string_Forall P (x +:+ y) → string_Forall P y.
Proof. by intros [_ H]%string_Forall_app. Qed.
Lemma find_skip_char c pat a rest : string_Forall (λ d, d ≠ c) a →
  find (String c pat) (a +:+ rest) = Nat.add (String.length a) <$> find (String c pat) rest.
Proof.
  intros Ha. apply find_skip. intros x y -> Hy. apply string_Forall_suffix in Ha.
  destruct y as [|d y]; [done|]. destruct Ha as [Hd _]. rewrite string_app_cons. cbn.
  by rewrite decide_False by congruence.
Qed.
Lemma find_char c a rest : string_Forall (λ d, d ≠ c) a →
  find (String c "") (a +:+ String c rest) = Some (String.length a).
Proof.
  intros Ha. rewrite find_skip_char by done. change (String c rest) with (String c "" +:+ rest).
  rewrite find_here. cbn. by rewrite Nat.add_0_r.
Qed.
Lemma find_char_None c a : string_Forall (λ d, d ≠ c) a → ∀ pat, find (String c pat) a = None.
Proof.
  intros Ha pat. rewrite <- (string_app_nil_r a), find_skip_char by done. done.
Qed.
(** Two different characters: no occurrence lies across the end of [a]. *)
Lemma find_two c d a rest : c ≠ d → find (String c (String d "")) a = None →
  find (String c (String d "")) (a +:+ String c (String d rest)) = Some (String.length a).
Proof.
  intros Hcd. induction a as [|x a IH]; intros Ha.
  { rewrite string_app_nil_l. change (String c (String d rest)) with (String c (String d "") +:+ rest).
    apply find_here. }
  apply find_None_cons in Ha as [Hx Ha]. rewrite string_app_cons, find_String; [by rewrite IH|].
  cbn in Hx |- *. case_decide; [|done]. destruct a as [|y a]; [by rewrite string_app_nil_l; cbn; rewrite decide_False by congruence|].
  rewrite string_app_cons. case_decide; [|done]. by destruct a.
Qed.
Lemma strip_prefix_ext p a b r : strip_prefix p a = Some r → strip_prefix p (a +:+ b) = Some (r +:+ b).
Proof. rewrite !strip_prefix_Some. intros ->. apply string_app_assoc. Qed.
(** A text that ends in a character that is not in [pat]. *)
Lemma find_sealed c pat a rest : pat ≠ "" → string_Forall (λ d, d ≠ c) pat → find pat (a +:+ String c "") = None →
  find pat ((a +:+ String c "") +:+ pat +:+ rest) = Some (String.length (a +:+ String c "")).
Proof.
  intros Hne Hp. induction a as [|x a IH]; intros Ha.
  - rewrite string_app_nil_l in *. rewrite string_app_cons, string_app_nil_l, find_String.
    + by rewrite find_here.
    + destruct pat as [|d pat]; [done|]. cbn. destruct Hp as [Hd _]. by rewrite decide_False.
  - rewrite !string_app_cons in *. apply find_None_cons in Ha as [Hx Ha].
    rewrite find_String; [by rewrite IH|].
    apply eq_None_not_Some. intros [r E].
    change (String x ((a +:+ String c "") +:+ pat +:+ rest))
      with ((String x (a +:+ String c "")) +:+ (pat +:+ rest)) in E.
    destruct (strip_prefix_app_inv _ _ _ _ E) as [[r' Hr]|[q ->]].
    + rewrite Hr, strip_prefix_app in Hx. done.
    + rewrite string_app_cons in Hp. destruct Hp as [_ Hp]. rewrite string_app_assoc in Hp.
      apply string_Forall_app in Hp as [_ Hp]. rewrite string_app_cons in Hp. by destruct Hp.
Qed.
Lemma find_from_0 pat s : find_from pat 0 s = find pat s.
Proof. unfold find_from. cbn. by destruct (find pat s). Qed.
Lemma find_from_app pat a b : find_from pat (String.length a) (a +:+ b) = Nat.add (String.length a) <$> find pat b.
Proof.
  unfold find_from. rewrite string_length_app, (proj2 (Nat.ltb_ge _ _)) by lia. by rewrite sdrop_app.
Qed.
