(* ===== verification/Utility.v ===== *)
(** * crow/utility.h: the string helpers and the route tags

    Case-insensitive comparison, base64, file name sanitising, trimming and splitting,
    and the compile-time and run-time scanners of route patterns. *)

From S2P Require Import Prelude.
Open Scope Z_scope.

(** ** Comparison, trimming, splitting *)

Fixpoint string_equals_from (case_sensitive : bool) (l r : string) : bool :=
  match l, r with
  | String a l', String b r' =>
      if (if case_sensitive then bool_decide (a ≠ b) else bool_decide (toupper a ≠ toupper b))
      then false else string_equals_from case_sensitive l' r'
  | _, _ => true
  end.
Definition string_equals (l r : string) (case_sensitive : bool) : bool :=
  if bool_decide (String.length l ≠ String.length r) then false
  else string_equals_from case_sensitive l r.

(** [std::isspace] on a (signed) [char]: bytes from 0x80 up are outside its domain. *)
Definition isspace (c : ascii) : bool := bool_decide (code c = 32) || ((9 <=? code c) && (code c <=? 13)).

Fixpoint trim_left (v : string) : string :=
  match v with
  | String c v' => if isspace c then trim_left v' else v
  | EmptyString => EmptyString
  end.
Fixpoint trim_right (v : string) : string :=
  match v with
  | String c v' =>
      match trim_right v' with
      | EmptyString => if isspace c then EmptyString else String c EmptyString
      | w => String c w
      end
  | EmptyString => EmptyString
  end.
Definition trim (v : string) : string := trim_right (trim_left v).

(** [v.find(separator)] from the head of [v]: what is before the match and after it. *)
Fixpoint split_at (separator v : string) : option (string * string) :=
  match strip_prefix separator v with
  | Some r => Some (EmptyString, r)
  | None =>
      match v with
      | String c v' =>
          match split_at separator v' with
          | Some (a, b) => Some (String c a, b)
          | None => None
          end
      | EmptyString => None
      end
  end.
(** The loop does not end on an empty separator; [None] is a loop still running
    after [fuel] pieces. *)
Fixpoint split_loop (fuel : nat) (v separator : string) : option (list string) :=
  match fuel with
  | O => None
  | S fuel' =>
      match split_at separator v with
      | Some (a, b) => rest ← split_loop fuel' b separator; Some (a :: rest)
      | None => Some [v]
      end
  end.
Definition split (v separator : string) : option (list string) :=
  split_loop (S (String.length v)) v separator.

(** ** base64 *)

Definition base64_key : string :=
  "ABCDEFGHIJKLMNOPQRSTUVWXYZabcdefghijklmnopqrstuvwxyz0123456789+/".
Definition base64_key_urlsafe : string :=
  "ABCDEFGHIJKLMNOPQRSTUVWXYZabcdefghijklmnopqrstuvwxyz0123456789-_".
(** [key[i]] for an index below 64. *)
Definition key_at (key : string) (i : Z) : ascii :=
  default NUL (String.get (Z.to_nat i) key).

Fixpoint base64encode (key data : string) : string :=
  match data with
  | String a (String b (String c data')) =>
      String (key_at key (Z.shiftr (Z.land (code a) 0xFC) 2))
        (String (key_at key (Z.lor (Z.shiftl (Z.land (code a) 0x03) 4)
                               (Z.shiftr (Z.land (code b) 0xF0) 4)))
           (String (key_at key (Z.lor (Z.shiftl (Z.land (code b) 0x0F) 2)
                                  (Z.shiftr (Z.land (code c) 0xC0) 6)))
              (String (key_at key (Z.land (code c) 0x3F)) (base64encode key data'))))
  | String a (String b EmptyString) =>
      String (key_at key (Z.shiftr (Z.land (code a) 0xFC) 2))
        (String (key_at key (Z.lor (Z.shiftl (Z.land (code a) 0x03) 4)
                               (Z.shiftr (Z.land (code b) 0xF0) 4)))
           (String (key_at key (Z.shiftl (Z.land (code b) 0x0F) 2)) "="))
  | String a EmptyString =>
      String (key_at key (Z.shiftr (Z.land (code a) 0xFC) 2))
        (String (key_at key (Z.shiftl (Z.land (code a) 0x03) 4)) "==")
  | EmptyString => EmptyString
  end.

Definition base64_value (c : ascii) : Z :=
  let z := schar c in
  if (65 <=? z) && (z <=? 90) then z - 65
  else if (97 <=? z) && (z <=? 122) then z - 97 + 26
  else if (48 <=? z) && (z <=? 57) then z - 48 + 52
  else if bool_decide (c = "+"%char ∨ c = "-"%char) then 62
  else if bool_decide (c = "/"%char ∨ c = "_"%char) then 63
  else 0.

(** [data[i]] where the decoder reads inside the input. *)
Definition char_at (data : string) (i : nat) : ascii := default NUL (String.get i data).

Definition base64_decoded_size (data : string) : nat :=
  let size := String.length data in
  (if bool_decide (size mod 4 = 2) then size / 4 * 3 + 1
   else if bool_decide (size mod 4 = 3) then size / 4 * 3 + 2
   else if (2 <=? size) && bool_decide (char_at data (size - 2) = "="%char) then size / 4 * 3 - 2
   else if (1 <=? size) && bool_decide (char_at data (size - 1) = "="%char) then size / 4 * 3 - 1
   else size / 4 * 3)%nat.

Definition b64_first (odd even : Z) : ascii :=
  chr (Z.lor (Z.shiftl odd 2) (Z.shiftr (Z.land even 0x30) 4)).
Definition b64_second (even odd : Z) : ascii :=
  chr (Z.lor (Z.shiftl (Z.land even 0x0F) 4) (Z.shiftr (Z.land odd 0x3C) 2)).
Definition b64_third (odd even : Z) : ascii :=
  chr (Z.lor (Z.shiftl (Z.land odd 0x03) 6) even).

(** The loop with the remaining output [size] and the rest of the input. *)
Fixpoint base64decode_loop (data : string) (size : nat) : string :=
  match size with
  | O => EmptyString
  | 1%nat =>
      let v0 := base64_value (char_at data 0) in
      let v1 := base64_value (char_at data 1) in
      String (b64_first v0 v1) EmptyString
  | 2%nat =>
      let v0 := base64_value (char_at data 0) in
      let v1 := base64_value (char_at data 1) in
      let v2 := base64_value (char_at data 2) in
      String (b64_first v0 v1) (String (b64_second v1 v2) EmptyString)
  | S (S (S size')) =>
      match data with
      | String c0 (String c1 (String c2 (String c3 data'))) =>
          let v0 := base64_value c0 in
          let v1 := base64_value c1 in
          let v2 := base64_value c2 in
          let v3 := base64_value c3 in
          String (b64_first v0 v1)
            (String (b64_second v1 v2)
               (String (b64_third v2 v3) (base64decode_loop data' size')))
      | _ => EmptyString
      end
  end.
Definition base64decode (data : string) : string :=
  base64decode_loop data (base64_decoded_size data).

(** ** Paths *)

Definition normalize_path (directoryPath : string) : string :=
  let p := string_map (λ c, if decide (c = BSL) then "/"%char else c) directoryPath in
  match String.get (String.length p - 1) p with
  | Some c => if decide (c = "/"%char) then p else p +:+ "/"
  | None => p
  end.

(** [std::string(1, ...)]: the characters that end the name of a device. *)
Definition ends_device (c : ascii) : bool :=
  bool_decide (c = "."%char ∨ c = ":"%char ∨ c = "/"%char ∨ c = BSL).
(** What follows [pattern] at the head of [source], compared in upper case. *)
Fixpoint match_upper (pattern source : string) : option string :=
  match pattern, source with
  | EmptyString, _ => Some source
  | String p pattern', String c source' =>
      if decide (toupper c = p) then match_upper pattern' source' else None
  | String _ _, EmptyString => None
  end.
(** [sanitizeSpecialFile] at the head of [source]. *)
Definition sanitizeSpecialFile (source pattern : string) (includeNumber : bool)
  (replacement : ascii) : string :=
  let rest := s ← match_upper pattern source;
    if includeNumber then
      match s with
      | String c s' => if (49 <=? code c) && (code c <=? 57) then Some s' else None
      | EmptyString => None
      end
    else Some s in
  match rest with
  | Some EmptyString => String replacement EmptyString
  | Some (String c s) => if ends_device c then String replacement (String c s) else source
  | None => source
  end.
Definition sanitize_special (data : string) (replacement : ascii) : string :=
  match data with
  | EmptyString => data
  | String c _ =>
      let c := toupper c in
      if decide (c = "A"%char) then sanitizeSpecialFile data "AUX" false replacement
      else if decide (c = "C"%char) then
        sanitizeSpecialFile (sanitizeSpecialFile data "CON" false replacement) "COM" true replacement
      else if decide (c = "L"%char) then sanitizeSpecialFile data "LPT" true replacement
      else if decide (c = "N"%char) then sanitizeSpecialFile data "NUL" false replacement
      else if decide (c = "P"%char) then sanitizeSpecialFile data "PRN" false replacement
      else if decide (c = "."%char) then sanitizeSpecialFile data ".." false replacement
      else data
  end.

Definition forbidden (c : ascii) : bool :=
  (code c <? 32) || ((0x80 <=? code c) && (code c <=? 0x9F))
  || bool_decide (c ∈ ["?"; "<"; ">"; ":"; "*"; "|"; DQ]%char).
Definition is_slash (c : ascii) : bool := bool_decide (c = "/"%char ∨ c = BSL).

(** The loop from index [i] on; [data] is what is left of the string, [first] says that
    [i] is 0.  Each turn leaves at most [fuel] characters. *)
Fixpoint sanitize_loop (fuel : nat) (first checkForSpecialEntries : bool) (data : string)
  (replacement : ascii) : string :=
  match fuel with
  | O => data
  | S fuel' =>
      let data := match data with
                  | EmptyString => data
                  | _ => if checkForSpecialEntries then sanitize_special data replacement else data
                  end in
      match data with
      | EmptyString => EmptyString
      | String c data' =>
          if forbidden c then String replacement (sanitize_loop fuel' false false data' replacement)
          else if is_slash c then
            if first then String replacement (sanitize_loop fuel' false false data' replacement)
            else String c (sanitize_loop fuel' false true data' replacement)
          else String c (sanitize_loop fuel' false false data' replacement)
      end
  end.
Definition sanitize_filename (data : string) (replacement : ascii) : string :=
  let data := if (255 <? String.length data)%nat then String.substring 0 255 data else data in
  sanitize_loop (String.length data) true true data replacement.

(** [std::filesystem::path(path) / fname] of POSIX. *)
Fixpoint ends_in_slash (s : string) : bool :=
  match s with
  | EmptyString => false
  | String c EmptyString => bool_decide (c = "/"%char)
  | String _ s' => ends_in_slash s'
  end.
Definition join_path (path fname : string) : string :=
  if bool_decide (is_Some (strip_prefix "/" fname)) then fname
  else if bool_decide (path = "") || ends_in_slash path then path +:+ fname
  else path +:+ "/" +:+ fname.

(** ** Route tags *)

(** [is_equ_n(a, ai, b, 0, n)] with [n] the size of [b], on the rest of [a]. *)
Definition is_equ_n (a b : string) : bool := match strip_prefix b a with Some _ => true | None => false end.
Definition is_int (s : string) : bool := is_equ_n s "<int>".
Definition is_uint (s : string) : bool := is_equ_n s "<uint>".
Definition is_float (s : string) : bool := is_equ_n s "<float>" || is_equ_n s "<double>".
Definition is_str (s : string) : bool := is_equ_n s "<str>" || is_equ_n s "<string>".
Definition is_path (s : string) : bool := is_equ_n s "<path>".

(** [is_valid]: [f] counts the open tags. *)
Fixpoint is_valid (s : string) (f : Z) : bool :=
  match s with
  | EmptyString => f =? 0
  | String c s' =>
      if (f <? 0) || (2 <=? f) then false
      else if decide (c = "<"%char) then is_valid s' (f + 1)
      else if decide (c = ">"%char) then is_valid s' (f - 1)
      else is_valid s' f
  end.

(** The tag of the parameter at the head of [s]. *)
Definition head_tag (s : string) : option Z :=
  if is_int s then Some 1 else if is_uint s then Some 2 else if is_float s then Some 3
  else if is_str s then Some 4 else if is_path s then Some 5 else None.
(** [get_parameter_tag] and [get_parameter_tag_runtime]: base-6 digits, the first
    parameter the lowest, as a [uint64_t].  After a parameter the scan goes on at its [>],
    like after any other character: what is between is no [<]. *)
Fixpoint get_parameter_tag (s : string) : result Z :=
  match s with
  | EmptyString => Ok 0
  | String c s' =>
      if decide (c = "<"%char) then
        match head_tag s with
        | Some tag => t ← get_parameter_tag s'; Ok (uwrap 64 (t * 6 + tag))
        | None => Throw (RuntimeError "invalid parameter type")
        end
      else get_parameter_tag s'
  end.

(** The types a handler's parameters have. *)
Inductive arg_type : Type := ArgInt | ArgUint | ArgDouble | ArgString | ArgOther.
Definition parameter_tag (t : arg_type) : Z :=
  match t with ArgInt => 1 | ArgUint => 2 | ArgDouble => 3 | ArgString => 4 | ArgOther => 0 end.
Fixpoint compute_parameter_tag_from_args_list (args : list arg_type) : Z :=
  match args with
  | [] => 0
  | a :: args' =>
      let sub_value := compute_parameter_tag_from_args_list args' in
      if parameter_tag a =? 0 then sub_value else sub_value * 6 + parameter_tag a
  end.

(** The recursion divides by 6; 64-bit arguments need at most 25 turns. *)
Fixpoint is_parameter_tag_compatible (fuel : nat) (a b : Z) : bool :=
  match fuel with
  | O => false
  | S fuel' =>
      if a =? 0 then b =? 0
      else if b =? 0 then a =? 0
      else
        let sa := a mod 6 in
        let sb := a mod 6 in
        let sa := if sa =? 5 then 4 else sa in
        let sb := if sb =? 5 then 4 else sb in
        if negb (sa =? sb) then false
        else is_parameter_tag_compatible fuel' (a / 6) (b / 6)
  end.

(** ** Sanitised names *)

(** The components of a path, on either kind of slash. *)
Fixpoint path_components (s : string) : list string :=
  match s with
  | EmptyString => [EmptyString]
  | String c s' =>
      if is_slash c then EmptyString :: path_components s'
      else match path_components s' with
           | h :: t => String c h :: t
           | [] => [String c EmptyString]
           end
  end.

(** The first component is [..]. *)
Definition dotdot_head (s : string) : Prop :=
  match strip_prefix ".." s with
  | Some EmptyString => True
  | Some (String c _) => is_slash c = true
  | None => False
  end.

Definition replacement_ok (r : ascii) : Prop :=
  forbidden r = false ∧ is_slash r = false ∧ r ≠ "."%char.

Lemma path_components_cons s : ∃ h t, path_components s = h :: t.
Proof.
  destruct s as [|c s]; simpl; [eauto|]. destruct (is_slash c); [eauto|].
  destruct (path_components s); eauto.
Qed.

Lemma path_components_head s d h :
  head (path_components s) = Some (String d h) →
  ∃ s', s = String d s' ∧ head (path_components s') = Some h.
Proof.
  destruct s as [|c s]; simpl; [done|]. destruct (is_slash c); [done|].
  destruct (path_components_cons s) as (h' & t & E). rewrite E. simpl.
  intros [= -> ->]. exists s. by rewrite E.
Qed.

Lemma dotdot_head_spec s : head (path_components s) = Some ".." → dotdot_head s.
Proof.
  intros (s1 & -> & (s2 & -> & H)%path_components_head)%path_components_head.
  unfold dotdot_head. simpl. destruct s2 as [|c s2]; [done|]. simpl in H.
  destruct (is_slash c); [done|]. by destruct (path_components_cons s2) as (h & t & E); rewrite E in H.
Qed.

Lemma match_upper_length p s r :
  match_upper p s = Some r → (String.length r + String.length p = String.length s)%nat.
Proof.
  revert s. induction p as [|c p IH]; intros s; simpl; [intros [= ->]; lia|].
  destruct s as [|d s]; [done|]. case_decide; [|done]. intros Hm%IH. simpl. lia.
Qed.

Lemma sanitizeSpecialFile_length s p n r :
  (0 < String.length p)%nat →
  (String.length (sanitizeSpecialFile s p n r) ≤ String.length s)%nat.
Proof.
  intros Hp. unfold sanitizeSpecialFile.
  destruct (match_upper p s) as [t|] eqn:E; simpl; [|done].
  apply match_upper_length in E. destruct n.
  - destruct t as [|d t]; [done|]. destruct (_ && _); [|done].
    destruct t as [|d' t]; simpl in *; [lia|]. destruct (ends_device d'); simpl; lia.
  - destruct t as [|d t]; simpl in *; [lia|]. destruct (ends_device d); simpl; lia.
Qed.

Lemma sanitize_special_length s r :
  (String.length (sanitize_special s r) ≤ String.length s)%nat.
Proof.
  unfold sanitize_special. destruct s as [|c s]; [done|].
  repeat case_decide; try apply sanitizeSpecialFile_length; simpl; try lia.
  etrans; apply sanitizeSpecialFile_length; simpl; lia.
Qed.

(** The head of [sanitizeSpecialFile] is the one it had, or the replacement. *)
Lemma sanitizeSpecialFile_cases s p n r :
  sanitizeSpecialFile s p n r = s ∨ ∃ t, sanitizeSpecialFile s p n r = String r t.
Proof.
  unfold sanitizeSpecialFile. destruct (_ ← _; _) as [[|d t]|]; [right; eauto| |by left].
  destruct (ends_device d); eauto.
Qed.

Lemma dotdot_head_cons r t : r ≠ "."%char → ¬ dotdot_head (String r t).
Proof. intros Hr H. unfold dotdot_head in H. simpl in H. case_decide; congruence || done. Qed.

Lemma sanitize_special_dotdot s r : replacement_ok r → ¬ dotdot_head (sanitize_special s r).
Proof.
  intros (_ & _ & Hr). unfold sanitize_special. destruct s as [|c s]; [by intros []|].
  assert (∀ x p n, ¬ dotdot_head x → ¬ dotdot_head (sanitizeSpecialFile x p n r)) as Hkeep.
  { intros x p n Hx. destruct (sanitizeSpecialFile_cases x p n r) as [->|[t ->]]; [done|].
    by apply dotdot_head_cons. }
  destruct (decide (c = "."%char)) as [->|Hc]; [|repeat case_decide; repeat apply Hkeep; by apply dotdot_head_cons].
  change (¬ dotdot_head (sanitizeSpecialFile (String "." s) ".." false r)).
  unfold sanitizeSpecialFile. simpl.
  destruct s as [|d s]; simpl; [by intros []|].
  case_decide as Hd; simpl.
  - destruct s as [|e s]; [by apply dotdot_head_cons|].
    destruct (ends_device e) eqn:He; [by apply dotdot_head_cons|].
    intros H2. unfold dotdot_head in H2. simpl in H2. case_decide; [|done].
    apply bool_decide_eq_false in He. apply bool_decide_eq_true in H2. naive_solver.
  - intros H2. unfold dotdot_head in H2. simpl in H2. case_decide; [|done]. subst. by apply Hd.
Qed.

(** One turn of the loop without the special check. *)
Lemma sanitize_loop_cons fuel first c s r :
  replacement_ok r →
  ∃ c' chk, sanitize_loop (S fuel) first false (String c s) r
            = String c' (sanitize_loop fuel false chk s r) ∧
    (c' = c ∧ forbidden c = false ∧ chk = is_slash c ∨ c' = r ∧ chk = false).
Proof.
  intros _. cbn [sanitize_loop]. destruct (forbidden c) eqn:Hf; [eexists _, _; by eauto|].
  destruct (is_slash c) eqn:Hs; [|eexists _, _; by eauto].
  destruct first; eexists _, _; by eauto.
Qed.

Lemma sanitize_loop_nil fuel first chk r : sanitize_loop fuel first chk "" r = "".
Proof. by destruct fuel, first, chk. Qed.

(** Without the check the loop makes no component [..] at the head. *)
Lemma sanitize_loop_dotdot fuel first s r :
  replacement_ok r → (String.length s ≤ fuel)%nat →
  dotdot_head (sanitize_loop fuel first false s r) → dotdot_head s.
Proof.
  intros Hr Hl. pose proof Hr as (_ & Hrs & Hrd).
  destruct fuel as [|fuel]; [by destruct s|].
  destruct s as [|c s]; [by rewrite sanitize_loop_nil|].
  destruct (sanitize_loop_cons fuel first c s r Hr) as (c1 & k1 & -> & H1).
  destruct (decide (c1 = "."%char)) as [->|]; [|by intros ?%dotdot_head_cons].
  destruct H1 as [(<- & _ & ->)|[? _]]; [|congruence].
  change (is_slash "."%char) with false.
  destruct s as [|d s]; [by rewrite sanitize_loop_nil|].
  destruct fuel as [|fuel]; [simpl in Hl; lia|].
  destruct (sanitize_loop_cons fuel false d s r Hr) as (c2 & k2 & -> & H2).
  unfold dotdot_head. simpl. case_decide as Hd; [|done]. subst c2.
  destruct H2 as [(<- & _ & ->)|[? _]]; [|congruence].
  change (is_slash "."%char) with false. rewrite decide_True by done.
  destruct s as [|e s]; [by rewrite sanitize_loop_nil|].
  destruct fuel as [|fuel]; [simpl in Hl; lia|].
  destruct (sanitize_loop_cons fuel false e s r Hr) as (c3 & k3 & -> & H3).
  destruct H3 as [(-> & _ & _)|[-> _]]; [done|congruence].
Qed.

Lemma sanitize_loop_components fuel first chk s r :
  replacement_ok r → (String.length s ≤ fuel)%nat →
  (".." ∉ tail (path_components (sanitize_loop fuel first chk s r))) ∧
  (chk = true → head (path_components (sanitize_loop fuel first chk s r)) ≠ Some "..").
Proof.
  intros Hr. revert first chk s. induction fuel as [|fuel IH]; intros first chk s Hl.
  { destruct s; [|simpl in Hl; lia]. simpl. split; [|done]. by intros ?%elem_of_nil. }
  destruct s as [|c s].
  { rewrite sanitize_loop_nil. simpl. split; [|done]. by intros ?%elem_of_nil. }
  set (s1 := if chk then sanitize_special (String c s) r else String c s).
  assert (sanitize_loop (S fuel) first chk (String c s) r
          = sanitize_loop (S fuel) first false s1 r) as ->.
  { unfold s1. destruct chk; [|done]. cbn [sanitize_loop].
    by destruct (sanitize_special (String c s) r). }
  assert (String.length s1 ≤ S fuel)%nat as Hl1.
  { unfold s1. destruct chk; [|done]. etrans; [apply sanitize_special_length|done]. }
  split.
  - destruct s1 as [|d s1]; [rewrite sanitize_loop_nil; simpl; by intros ?%elem_of_nil|].
    destruct (sanitize_loop_cons fuel first d s1 r Hr) as (c' & k & -> & H).
    simpl in Hl1. destruct (IH false k s1) as [Ht Hh]; [lia|]. simpl.
    destruct (path_components_cons (sanitize_loop fuel false k s1 r)) as (h & t & E).
    rewrite E in *. destruct (is_slash c') eqn:Hs; [|done]. simpl in *.
    intros [<-|Hin]%elem_of_cons; [|done]. apply Hh; [|done].
    destruct H as [(-> & _ & ->)|[-> ->]]; [done|].
    destruct Hr as (_ & Hr & _). congruence.
  - intros -> Hh%dotdot_head_spec. apply sanitize_loop_dotdot in Hh; [|done|done].
    by apply (sanitize_special_dotdot (String c s) r).
Qed.

Lemma sanitize_loop_chars fuel first chk s r :
  replacement_ok r → (String.length s ≤ fuel)%nat →
  (String.length (sanitize_loop fuel first chk s r) ≤ String.length s)%nat ∧
  string_Forall (λ c, forbidden c = false) (sanitize_loop fuel first chk s r) ∧
  (first = true →
    (if sanitize_loop fuel first chk s r is String c _ then is_slash c = false else True)).
Proof.
  intros Hr. revert first chk s. induction fuel as [|fuel IH]; intros first chk s Hl.
  { destruct s; [|simpl in Hl; lia]. by split_and!. }
  destruct s as [|c s]; [rewrite sanitize_loop_nil; by split_and!|].
  set (s1 := if chk then sanitize_special (String c s) r else String c s).
  assert (sanitize_loop (S fuel) first chk (String c s) r
          = sanitize_loop (S fuel) first false s1 r) as ->.
  { unfold s1. destruct chk; [|done]. cbn [sanitize_loop].
    by destruct (sanitize_special (String c s) r). }
  assert (String.length s1 ≤ String.length (String c s))%nat as Hl1.
  { unfold s1. destruct chk; [apply sanitize_special_length|done]. }
  destruct s1 as [|d s1]; [rewrite sanitize_loop_nil; split_and!; [simpl; lia|done|done]|].
  pose proof Hr as (Hf & Hs & _). simpl in Hl, Hl1. cbn [sanitize_loop].
  destruct (forbidden d) eqn:Hd; [|destruct (is_slash d) eqn:Hds; [destruct first|]];
    edestruct IH as (HL & HF & _); try (split_and!; [|split; [|exact HF]|]);
    simpl in *; by lia || done.
Qed.

(** C31: no path traversal.  Whatever the part of the URL the static file handler is given,
    the file name made of it is relative, at most 255 characters long, without control or
    forbidden characters, and none of its components is [..]. *)
Theorem sanitize_filename_safe (data : string) (r : ascii) :
  replacement_ok r →
  let f := sanitize_filename data r in
  (String.length f ≤ 255)%nat ∧
  string_Forall (λ c, forbidden c = false) f ∧
  (if f is String c _ then is_slash c = false else True) ∧
  ".." ∉ path_components f.
Proof.
  intros Hr f. unfold sanitize_filename in f.
  set (d := if (255 <? String.length data)%nat then String.substring 0 255 data else data) in f.
  assert (String.length d ≤ 255)%nat as Hd.
  { unfold d. destruct (Nat.ltb_spec 255 (String.length data)); [|lia].
    clear. generalize 255%nat as n. induction data as [|c data IH]; intros [|n]; simpl; try lia.
    specialize (IH n). lia. }
  destruct (sanitize_loop_chars (String.length d) true true d r Hr) as (HL & HF & HS); [done|].
  destruct (sanitize_loop_components (String.length d) true true d r Hr) as [HT HH]; [done|].
  fold f in HL, HF, HS, HT, HH. split_and!; [lia|done|by apply HS|].
  destruct (path_components_cons f) as (h & t & E). rewrite E in *. simpl in *.
  intros [<-|Hin]%elem_of_cons; [by apply HH|done].
Qed.

Lemma sanitize_filename_safe_witness :
  replacement_ok "_" ∧ sanitize_filename "../..\etc" "_" = "_/_\etc" ∧
  ".." ∉ path_components (sanitize_filename "../..\etc" "_").
Proof.
  assert (replacement_ok "_") as H by by split_and!.
  split_and!; [exact H|by vm_compute|]. by apply (sanitize_filename_safe "../..\etc" "_" H).
Defined.

(** ** Base64 round trip *)

(** A property of all bytes, and of all pairs of bytes, by evaluation. *)
Definition bytes : list Z := Z.of_nat <$> seq 0 256.
Lemma elem_of_bytes c : code c ∈ bytes.
Proof.
  pose proof (code_range c). apply list_elem_of_fmap. exists (Z.to_nat (code c)).
  split; [lia|]. apply elem_of_seq. lia.
Qed.
Lemma forall_bytes (P : Z → bool) : forallb P bytes = true → ∀ c, P (code c) = true.
Proof.
  intros H c. rewrite forallb_forall in H. apply H, list_elem_of_In, elem_of_bytes.
Qed.
Lemma forall_bytes2 (P : Z → Z → bool) :
  forallb (λ a, forallb (P a) bytes) bytes = true → ∀ c d, P (code c) (code d) = true.
Proof. intros H c d. apply forall_bytes. by apply (forall_bytes (λ a, forallb (P a) bytes)). Qed.

Definition sextet1 (a : Z) : Z := Z.shiftr (Z.land a 0xFC) 2.
Definition sextet2 (a b : Z) : Z := Z.lor (Z.shiftl (Z.land a 0x03) 4) (Z.shiftr (Z.land b 0xF0) 4).
Definition sextet3 (b c : Z) : Z := Z.lor (Z.shiftl (Z.land b 0x0F) 2) (Z.shiftr (Z.land c 0xC0) 6).
Definition sextet4 (c : Z) : Z := Z.land c 0x3F.

Definition key_ok (key : string) : Prop :=
  ∀ i, 0 ≤ i < 64 → base64_value (key_at key i) = i ∧ key_at key i ≠ "="%char.

Lemma key_ok_forallb key :
  forallb (λ i, (base64_value (key_at key i) =? i) && bool_decide (key_at key i ≠ "="%char))
    (Z.of_nat <$> seq 0 64) = true → key_ok key.
Proof.
  intros H i Hi. rewrite forallb_forall in H.
  specialize (H i). rewrite andb_true_iff, bool_decide_eq_true, Z.eqb_eq in H. apply H.
  apply list_elem_of_In, list_elem_of_fmap. exists (Z.to_nat i). split; [lia|].
  apply elem_of_seq. lia.
Qed.

Lemma base64_keys_ok : key_ok base64_key ∧ key_ok base64_key_urlsafe.
Proof. split; apply key_ok_forallb; by vm_compute. Qed.

Definition in_sextet (v : Z) : bool := (0 <=? v) && (v <? 64).
Lemma in_sextet_spec v : in_sextet v = true → 0 ≤ v < 64.
Proof. unfold in_sextet. rewrite andb_true_iff, Z.leb_le, Z.ltb_lt. lia. Qed.

Lemma sextets_range a b :
  in_sextet (sextet1 (code a)) = true ∧ in_sextet (sextet2 (code a) (code b)) = true ∧
  in_sextet (sextet3 (code a) (code b)) = true ∧ in_sextet (sextet4 (code a)) = true.
Proof.
  split_and!.
  - apply (forall_bytes (λ a, in_sextet (sextet1 a))). by vm_compute.
  - apply (forall_bytes2 (λ a b, in_sextet (sextet2 a b))). by vm_compute.
  - apply (forall_bytes2 (λ a b, in_sextet (sextet3 a b))). by vm_compute.
  - apply (forall_bytes (λ a, in_sextet (sextet4 a))). by vm_compute.
Qed.

Lemma sextets_bytes a b :
  b64_first (sextet1 (code a)) (sextet2 (code a) (code b)) = a ∧
  b64_first (sextet1 (code a)) (Z.shiftl (Z.land (code a) 0x03) 4) = a.
Proof.
  split.
  - apply code_inj, Z.eqb_eq.
    apply (forall_bytes2 (λ a b, code (b64_first (sextet1 a) (sextet2 a b)) =? a)). by vm_compute.
  - apply code_inj, Z.eqb_eq.
    apply (forall_bytes (λ a, code (b64_first (sextet1 a) (Z.shiftl (Z.land a 0x03) 4)) =? a)).
    by vm_compute.
Qed.

Lemma sextets_second a b c :
  b64_second (sextet2 (code a) (code b)) (sextet3 (code b) (code c)) = b ∧
  b64_second (sextet2 (code a) (code b)) (Z.shiftl (Z.land (code b) 0x0F) 2) = b.
Proof.
  assert (Z.land (sextet2 (code a) (code b)) 0x0F = Z.shiftr (code b) 4) as H1.
  { apply Z.eqb_eq.
    apply (forall_bytes2 (λ a b, Z.land (sextet2 a b) 0x0F =? Z.shiftr b 4)). by vm_compute. }
  assert (Z.shiftr (Z.land (sextet3 (code b) (code c)) 0x3C) 2 = Z.land (code b) 0x0F) as H2.
  { apply Z.eqb_eq.
    apply (forall_bytes2 (λ b c, Z.shiftr (Z.land (sextet3 b c) 0x3C) 2 =? Z.land b 0x0F)).
    by vm_compute. }
  assert (Z.shiftr (Z.land (Z.shiftl (Z.land (code b) 0x0F) 2) 0x3C) 2 = Z.land (code b) 0x0F) as H3.
  { apply Z.eqb_eq. apply (forall_bytes (λ b,
      Z.shiftr (Z.land (Z.shiftl (Z.land b 0x0F) 2) 0x3C) 2 =? Z.land b 0x0F)). by vm_compute. }
  assert (chr (Z.lor (Z.shiftl (Z.shiftr (code b) 4) 4) (Z.land (code b) 0x0F)) = b) as H4.
  { apply code_inj, Z.eqb_eq. apply (forall_bytes (λ b,
      code (chr (Z.lor (Z.shiftl (Z.shiftr b 4) 4) (Z.land b 0x0F))) =? b)). by vm_compute. }
  unfold b64_second. by rewrite H1, H2, H3, H4.
Qed.

Lemma sextets_third b c : b64_third (sextet3 (code b) (code c)) (sextet4 (code c)) = c.
Proof.
  assert (Z.land (sextet3 (code b) (code c)) 0x03 = Z.shiftr (code c) 6) as H1.
  { apply Z.eqb_eq.
    apply (forall_bytes2 (λ b c, Z.land (sextet3 b c) 0x03 =? Z.shiftr c 6)). by vm_compute. }
  unfold b64_third. rewrite H1. apply code_inj, Z.eqb_eq. apply (forall_bytes (λ c,
    code (chr (Z.lor (Z.shiftl (Z.shiftr c 6) 6) (sextet4 c))) =? c)). by vm_compute.
Qed.

Lemma sextets_last a :
  in_sextet (Z.shiftl (Z.land (code a) 0x03) 4) = true ∧
  in_sextet (Z.shiftl (Z.land (code a) 0x0F) 2) = true.
Proof.
  split.
  - apply (forall_bytes (λ a, in_sextet (Z.shiftl (Z.land a 0x03) 4))). by vm_compute.
  - apply (forall_bytes (λ a, in_sextet (Z.shiftl (Z.land a 0x0F) 2))). by vm_compute.
Qed.

Lemma string_ind3 (P : string → Prop) :
  P "" → (∀ a, P (String a "")) → (∀ a b, P (String a (String b ""))) →
  (∀ a b c s, P s → P (String a (String b (String c s)))) → ∀ s, P s.
Proof.
  intros H0 H1 H2 H3 s.
  assert (P s ∧ (∀ a, P (String a s)) ∧ (∀ a b, P (String a (String b s)))) as [? _]; [|done].
  induction s as [|c s (IH0 & IH1 & IH2)]; [done|].
  split; [apply IH1|]. split; [intros a; apply IH2|]. intros a b. by apply H3.
Qed.

Lemma base64encode_length key d :
  (String.length (base64encode key d) mod 4 = 0)%nat ∧
  (d ≠ "" → 4 ≤ String.length (base64encode key d))%nat.
Proof.
  induction d as [|a|a b|a b c d [IH _]] using string_ind3; [done..|].
  cbn [base64encode String.length]. split; [|lia].
  replace (S (S (S (S (String.length (base64encode key d))))))
    with (String.length (base64encode key d) + 1 * 4)%nat by lia.
  by rewrite Nat.Div0.mod_add.
Qed.

Lemma base64_decoded_size_block c0 c1 c2 c3 e :
  (String.length e mod 4 = 0)%nat → (4 ≤ String.length e)%nat →
  base64_decoded_size (String c0 (String c1 (String c2 (String c3 e))))
  = (3 + base64_decoded_size e)%nat.
Proof.
  intros Hm Hl. unfold base64_decoded_size. cbn [String.length].
  set (n := String.length e) in *.
  assert (S (S (S (S n))) mod 4 = 0)%nat as Hm4.
  { replace (S (S (S (S n)))) with (n + 1 * 4)%nat by lia. by rewrite Nat.Div0.mod_add. }
  assert (S (S (S (S n))) / 4 = n / 4 + 1)%nat as Hd4.
  { replace (S (S (S (S n)))) with (n + 1 * 4)%nat by lia. by rewrite Nat.div_add. }
  assert (1 ≤ n / 4)%nat as Hq by (apply Nat.div_le_lower_bound; lia).
  rewrite Hm4, Hd4, Hm.
  assert (∀ k, (k < 4)%nat → char_at (String c0 (String c1 (String c2 (String c3 e)))) (S (S (S (S n))) - k)
            = char_at e (n - k)) as Hc.
  { intros k Hk. unfold char_at. replace (S (S (S (S n))) - k)%nat with (S (S (S (S (n - k))))) by lia.
    done. }
  rewrite !Hc by lia.
  repeat match goal with |- context [(?a <=? ?b)%nat] => rewrite (proj2 (Nat.leb_le a b)) by lia end.
  destruct (bool_decide (char_at e (n - 2) = "="%char)), (bool_decide (char_at e (n - 1) = "="%char));
    change (bool_decide (0 = 2)%nat) with false; change (bool_decide (0 = 3)%nat) with false;
    cbn [andb]; lia.
Qed.

Lemma key_at_ok key v : key_ok key → in_sextet v = true →
  base64_value (key_at key v) = v ∧ key_at key v ≠ "="%char.
Proof. intros Hk Hv%in_sextet_spec. by apply Hk. Qed.

Lemma base64_size key d : key_ok key → base64_decoded_size (base64encode key d) = String.length d.
Proof.
  intros Hk. induction d as [|a|a b|a b c d IH] using string_ind3; [done| | |].
  - unfold base64_decoded_size. done.
  - destruct (sextets_last b) as [_ Hs]. destruct (key_at_ok _ _ Hk Hs) as [_ Hn].
    unfold base64_decoded_size, char_at. simpl. rewrite bool_decide_false by done. done.
  - destruct d as [|e d].
    + destruct (sextets_range b c) as (_ & _ & H3 & _). destruct (sextets_range c c) as (_ & _ & _ & H4).
      destruct (key_at_ok _ _ Hk H3) as [_ N3]. destruct (key_at_ok _ _ Hk H4) as [_ N4].
      unfold base64_decoded_size, char_at. simpl. unfold sextet3, sextet4 in *.
      rewrite !bool_decide_false by done. done.
    + destruct (base64encode_length key (String e d)) as [Hm Hl].
      change (base64encode key (String a (String b (String c (String e d))))) with
        (String (key_at key (sextet1 (code a))) (String (key_at key (sextet2 (code a) (code b)))
          (String (key_at key (sextet3 (code b) (code c))) (String (key_at key (sextet4 (code c)))
            (base64encode key (String e d)))))).
      rewrite base64_decoded_size_block by auto. by rewrite IH.
Qed.

(** Base64 round trip.  Decoding the encoding of any bytes, with either alphabet,
    gives the bytes back. *)
Theorem base64_roundtrip (data : string) :
  base64decode (base64encode base64_key data) = data ∧
  base64decode (base64encode base64_key_urlsafe data) = data.
Proof.
  assert (∀ key, key_ok key → base64decode (base64encode key data) = data) as H;
    [|split; apply H; apply base64_keys_ok].
  intros key Hk. unfold base64decode. rewrite base64_size by done.
  induction data as [|a|a b|a b c d IH] using string_ind3; [done| | |].
  - destruct (sextets_range a a) as (H1 & _ & _). destruct (sextets_last a) as [H2 _].
    cbn. unfold char_at; simpl. fold (sextet1 (code a)).
    rewrite (proj1 (key_at_ok _ _ Hk H1)), (proj1 (key_at_ok _ _ Hk H2)).
    by rewrite (proj2 (sextets_bytes a a)).
  - destruct (sextets_range a b) as (H1 & H2 & _). destruct (sextets_last b) as [_ H3].
    cbn. unfold char_at; simpl. fold (sextet1 (code a)) (sextet2 (code a) (code b)).
    rewrite (proj1 (key_at_ok _ _ Hk H1)), (proj1 (key_at_ok _ _ Hk H2)),
      (proj1 (key_at_ok _ _ Hk H3)).
    by rewrite (proj1 (sextets_bytes a b)), (proj2 (sextets_second a b b)).
  - destruct (sextets_range a b) as (H1 & H2 & _). destruct (sextets_range b c) as (_ & _ & H3 & _).
    destruct (sextets_range c c) as (_ & _ & _ & H4).
    cbn [base64encode String.length base64decode_loop].
    fold (sextet1 (code a)) (sextet2 (code a) (code b)) (sextet3 (code b) (code c)) (sextet4 (code c)).
    rewrite (proj1 (key_at_ok _ _ Hk H1)), (proj1 (key_at_ok _ _ Hk H2)),
      (proj1 (key_at_ok _ _ Hk H3)), (proj1 (key_at_ok _ _ Hk H4)).
    by rewrite (proj1 (sextets_bytes a b)), (proj1 (sextets_second a b c)), sextets_third, IH.
Qed.

(** ** The run-time check of handler types *)

Fixpoint count_tags (url : string) : nat :=
  match url with
  | EmptyString => 0
  | String c url' => (if decide (c = "<"%char) then 1 else 0) + count_tags url'
  end%nat.
Definition from_digits (ds : list Z) : Z := foldr (λ d t, t * 6 + d) 0 ds.
Definition tag_digits (ds : list Z) : Prop := Forall (λ d, 1 ≤ d ≤ 5) ds.

Lemma from_digits_range ds : tag_digits ds →
  0 ≤ from_digits ds < 6 ^ Z.of_nat (length ds) ∧ (ds ≠ [] → from_digits ds ≠ 0).
Proof.
  induction 1 as [|d ds Hd _ [IH _]]; simpl from_digits; [by split|].
  cbn [length]. rewrite Nat2Z.inj_succ, Z.pow_succ_r by lia. split; lia.
Qed.

Lemma compatible_digits fuel da db :
  tag_digits da → tag_digits db → (length da < fuel)%nat →
  is_parameter_tag_compatible fuel (from_digits da) (from_digits db)
  = bool_decide (length da = length db).
Proof.
  intros Ha. revert db fuel. induction Ha as [|d da Hd Ha IH]; intros db fuel Hb Hf;
    (destruct fuel as [|fuel]; [simpl in Hf; lia|]); cbn [is_parameter_tag_compatible].
  - destruct Hb as [|e db He Hb]; [done|].
    destruct (from_digits_range (e :: db)) as [_ Hn]; [by constructor|].
    rewrite (proj2 (Z.eqb_neq (from_digits (e :: db)) 0)) by by apply Hn. done.
  - destruct (from_digits_range (d :: da)) as [_ Hn]; [by constructor|].
    rewrite (proj2 (Z.eqb_neq (from_digits (d :: da)) 0)) by by apply Hn.
    destruct Hb as [|e db He Hb]; [done|].
    destruct (from_digits_range (e :: db)) as [_ Hn']; [by constructor|].
    rewrite (proj2 (Z.eqb_neq (from_digits (e :: db)) 0)) by by apply Hn'.
    rewrite Z.eqb_refl. cbn [negb]. simpl from_digits.
    rewrite !Z.div_add_l, !Z.div_small, !Z.add_0_r by lia.
    rewrite IH by (done || simpl in Hf; lia). cbn [length].
    apply bool_decide_ext. lia.
Qed.

Lemma get_parameter_tag_digits url t :
  get_parameter_tag url = Ok t → (count_tags url ≤ 24)%nat →
  ∃ ds, tag_digits ds ∧ length ds = count_tags url ∧ t = from_digits ds.
Proof.
  revert t. induction url as [|c url IH]; intros t; cbn [get_parameter_tag count_tags].
  { intros [= <-] _. exists []. split_and!; [constructor|done|done]. }
  case_decide as Hc; [|apply IH].
  destruct (head_tag _) as [tag|] eqn:Htag; [|done].
  destruct (get_parameter_tag url) as [t'|e] eqn:Ht; [|done]. intros [= <-] Hn.
  destruct (IH t') as (ds & Hds & Hl & ->); [done|lia|].
  assert (1 ≤ tag ≤ 5) as Hr.
  { unfold head_tag in Htag. repeat case_match; try done; injection Htag as <-; lia. }
  exists (tag :: ds). split_and!; [by constructor|simpl; lia|].
  destruct (from_digits_range (tag :: ds)) as [H01 _]; [by constructor|].
  change (from_digits (tag :: ds)) with (from_digits ds * 6 + tag) in *.
  assert (6 ^ Z.of_nat (length (tag :: ds)) ≤ 2 ^ 64).
  { transitivity (6 ^ 24); [apply Z.pow_le_mono_r; simpl; lia|by vm_compute]. }
  unfold uwrap. rewrite Z.mod_small; [reflexivity|lia].
Qed.

Lemma args_digits args : ArgOther ∉ args →
  tag_digits (parameter_tag <$> args) ∧
  compute_parameter_tag_from_args_list args = from_digits (parameter_tag <$> args).
Proof.
  induction args as [|a args IH]; [split; [constructor|done]|]. intros Ha.
  assert (a ≠ ArgOther ∧ ArgOther ∉ args) as [Hne Hn] by set_solver.
  destruct (IH Hn) as [Hd He]. assert (1 ≤ parameter_tag a ≤ 4) as Hr by (destruct a; simpl; try lia; congruence).
  split; [constructor; [lia|done]|]. simpl.
  rewrite (proj2 (Z.eqb_neq _ _)) by lia. by rewrite He.
Qed.

(** The run-time check of a dynamic route compares the number of parameters and not
    their types: a handler passes exactly if it takes as many parameters as the pattern
    has tags, whatever the tags are. *)
Theorem tag_check_counts_parameters (url : string) (t : Z) (args : list arg_type) :
  get_parameter_tag url = Ok t → (count_tags url ≤ 24)%nat → ArgOther ∉ args →
  is_parameter_tag_compatible 25 t (compute_parameter_tag_from_args_list args)
  = bool_decide (count_tags url = length args).
Proof.
  intros Ht Hn Ha. destruct (get_parameter_tag_digits _ _ Ht Hn) as (ds & Hds & Hl & ->).
  destruct (args_digits args Ha) as [Hd ->].
  rewrite compatible_digits by (done || lia). by rewrite length_fmap, Hl.
Qed.

Lemma tag_check_counts_parameters_witness :
  get_parameter_tag "/a/<int>/<float>" = Ok 19 ∧
  is_parameter_tag_compatible 25 19
    (compute_parameter_tag_from_args_list [ArgString; ArgUint]) = true.
Proof.
  assert (get_parameter_tag "/a/<int>/<float>" = Ok 19) as H by by vm_compute.
  split; [exact H|].
  rewrite (tag_check_counts_parameters "/a/<int>/<float>" 19 [ArgString; ArgUint] H);
    [done|simpl; lia|set_solver].
Defined.
