(* ===== verification/Mustache.v ===== *)
(** * Templates: crow/mustache.h

    A template is compiled to fragments, the texts between its tags as positions in the body, and
    actions, what the tags do, and rendered against a stack of contexts whose top is the head of
    a list.  Positions are those of bodies shorter than 2^31 bytes.  The loader is an argument. *)

From S2P Require Import Prelude JsonRead JsonWrite Utility Text.
Local Open Scope nat_scope.

(** ** Compiled templates *)

Inductive ActionType : Type :=
| Ignore | Tag | UnescapeTag | OpenBlock | CloseBlock | ElseBlock | Partial.
#[export] Instance ActionType_eq_dec : EqDecision ActionType.
Proof. solve_decision. Defined.
Record Action : Type := Action_ {
  has_end_match : bool;
  tag_char : ascii;
  start : nat;
  end_ : nat;
  pos : nat;
  act_t : ActionType;
}.
Definition action_new (c : ascii) (t : ActionType) (start end_ pos : nat) : Action :=
  Action_ false c start end_ pos t.
Definition missing_end_pair (a : Action) : bool :=
  match act_t a with OpenBlock | ElseBlock => negb (has_end_match a) | _ => false end.
Definition set_match (p : nat) (a : Action) : Action :=
  Action_ true (tag_char a) (start a) (end_ a) p (act_t a).
Definition set_pos (p : nat) (a : Action) : Action :=
  Action_ (has_end_match a) (tag_char a) (start a) (end_ a) p (act_t a).
Record template_t : Type := Template {
  fragments_ : list (nat * nat);
  actions_ : list Action;
  body_ : string;
}.

(** [body.substr(from, to - from)], where a negative length is one past everything. *)
Definition piece (body : string) (from to : nat) : result string :=
  substr body from (if (to <? from)%nat then None else Some (to - from)%nat).
Definition tag_name (t : template_t) (a : Action) : result string := piece (body_ t) (start a) (end_ a).

(** ** Compilation *)

Definition is_space (c : ascii) : bool := bool_decide (c = " "%char).
(** [while (body_[idx] == ' ') idx++], and [while (body_[endIdx - 1] == ' ') endIdx--]. *)
Definition past_spaces (body : string) (idx : nat) : nat :=
  idx + String.length (fst (span is_space (sdrop idx body))).
Fixpoint before_spaces (body : string) (endIdx : nat) : nat :=
  match endIdx with
  | O => O
  | S n => if is_space (char_at body n) then before_spaces body n else endIdx
  end.
Definition invalid {A} (msg : string) : result A := Throw (InvalidTemplate ("crow::mustache error: " +:+ msg)).

(** The two delimiters, the open blocks (the last one first), where the search goes on, and the
    actions. *)
Record parsing : Type := Parsing {
  tag_open : string;
  tag_close : string;
  blockPositions : list nat;
  current : nat;
  actions : list Action;
}.
Definition add_action (a : Action) (s : parsing) : parsing :=
  Parsing (tag_open s) (tag_close s) (blockPositions s) (current s) (actions s ++ [a]).
Definition add_block (s : parsing) : parsing :=
  Parsing (tag_open s) (tag_close s) (length (actions s) :: blockPositions s) (current s) (actions s).
Definition set_current (n : nat) (s : parsing) : parsing :=
  Parsing (tag_open s) (tag_close s) (blockPositions s) n (actions s).
Definition set_delimiters (o c : string) (s : parsing) : parsing :=
  Parsing o c (blockPositions s) (current s) (actions s).

Section Parse.
Variable body : string.

(** The name of a tag, without the spaces around it. *)
Definition named (c : ascii) (t : ActionType) (idx endIdx pos : nat) : Action :=
  action_new c t (past_spaces body idx) (before_spaces body endIdx) pos.
Definition close_block (c : ascii) (idx endIdx : nat) (s : parsing) : result parsing :=
  let a := named c CloseBlock idx endIdx 0 in
  name ← piece body (start a) (end_ a);
  match blockPositions s with
  | [] => invalid ("unexpected closing tag: " +:+ name)
  | b :: bs =>
      match actions s !! b with
      | None => Throw (UB "index out of actions_")
      | Some matched =>
          opened ← piece body (start matched) (end_ matched);
          if bool_decide (name = opened) then
            Ok (Parsing (tag_open s) (tag_close s) bs (current s)
                  (alter (set_match (length (actions s))) b (actions s) ++ [set_pos b a]))
          else invalid ("not matched {{" +:+ String (tag_char matched) ("{{/ pair: " +:+ opened +:+ ", " +:+ name))
      end
  end.
(** The first space from [i] on, before [endIdx]. *)
Fixpoint find_space (n i : nat) : option nat :=
  match n with
  | O => None
  | S n' => if is_space (char_at body i) then Some i else find_space n' (S i)
  end.
Definition set_tags (c : ascii) (idx endIdx : nat) (s : parsing) : result parsing :=
  let s := add_action (action_new c Ignore idx endIdx 0) s in
  let endIdx := endIdx - 1 in
  if negb (bool_decide (char_at body endIdx = "="%char))
  then (t ← piece body idx endIdx; invalid ("{{=: not matching = tag: " +:+ t))
  else
    let idx := past_spaces body idx in
    let endIdx := before_spaces body endIdx in
    match find_space (endIdx - idx) idx with
    | None => invalid "{{=: cannot find space between new open/close tags"
    | Some i =>
        o ← piece body idx i;
        c ← piece body (past_spaces body i) endIdx;
        if bool_decide (o = "") then invalid "{{=: empty open tag" else
        if bool_decide (c = "") then invalid "{{=: empty close tag" else
        if bool_decide (is_Some (find " " c)) then invalid ("{{=: invalid open/close tag: " +:+ o +:+ " " +:+ c) else
        Ok (set_delimiters o c s)
    end.
(** The switch on the first character of a tag. *)
Definition parse_tag (idx endIdx : nat) (s : parsing) : result parsing :=
  let c := char_at body idx in
  if bool_decide (c = "#"%char) then
    Ok (add_action (named c OpenBlock (S idx) endIdx 0) (add_block s))
  else if bool_decide (c = "/"%char) then close_block c (S idx) endIdx s
  else if bool_decide (c = "^"%char) then
    Ok (add_action (named c ElseBlock (S idx) endIdx 0) (add_block s))
  else if bool_decide (c = "!"%char) then Ok (add_action (action_new c Ignore (S idx) endIdx 0) s)
  else if bool_decide (c = ">"%char) then Ok (add_action (named c Partial (S idx) endIdx 0) s)
  else if bool_decide (c = "{"%char) then
    if negb (bool_decide (tag_open s = "{{") && bool_decide (tag_close s = "}}"))
    then invalid "cannot use triple mustache when delimiter changed"
    else if negb (bool_decide (char_at body (endIdx + 2) = "}"%char)) then invalid "{{{: }} not matched"
    else Ok (set_current (S (current s)) (add_action (named c UnescapeTag (S idx) endIdx 0) s))
  else if bool_decide (c = "&"%char) then Ok (add_action (named c UnescapeTag (S idx) endIdx 0) s)
  else if bool_decide (c = "="%char) then set_tags c (S idx) endIdx s
  else Ok (add_action (named c Tag idx endIdx 0) s).
Definition running : exn := UB "the loop is still running".
Fixpoint parse_loop (fuel : nat) (fragments : list (nat * nat)) (s : parsing)
  : result (list (nat * nat) * list Action) :=
  match fuel with
  | O => Throw running
  | S fuel' =>
      match find_from (tag_open s) (current s) body with
      | None => Ok (fragments ++ [(current s, String.length body)],
                    actions s ++ [action_new "!" Ignore 0 0 0])
      | Some found =>
          let idx := found + String.length (tag_open s) in
          match find_from (tag_close s) idx body with
          | None => invalid "not matched opening tag"
          | Some endIdx =>
              if bool_decide (endIdx = idx) then invalid "empty tag is not allowed"
              else
                s' ← parse_tag idx endIdx (set_current (endIdx + String.length (tag_close s)) s);
                parse_loop fuel' (fragments ++ [(current s, found)]) s'
          end
      end
  end.

(** [for (j = second - 1; j >= first; j--)], giving [j + 1], and the loop that follows. *)
Fixpoint spaces_from (first second : nat) : nat :=
  match second with
  | O => O
  | S j => if (j <? first)%nat then second else if is_space (char_at body j) then spaces_from first j else second
  end.
Fixpoint spaces_to (n k : nat) : nat :=
  match n with
  | O => k
  | S n' => if is_space (char_at body k) then spaces_to n' (S k) else k
  end.
(** The tag of action [i] with the line it stands alone on. *)
Definition standalone (i : nat) (fa : list (nat * nat) * list Action) : list (nat * nat) * list Action :=
  let '(fragments, actions) := fa in
  match actions !! i, fragments !! i, fragments !! S i with
  | Some a, Some (first1, second1), Some (first2, second2) =>
      if bool_decide (act_t a = Tag ∨ act_t a = UnescapeTag) then fa
      else
        let is_last_action := (i =? length actions - 2)%nat in
        let j1 := spaces_from first1 second1 in
        let all_space_before := (j1 <=? first1)%nat in
        if all_space_before && (0 <? i)%nat then fa
        else if negb all_space_before && negb (bool_decide (char_at body (j1 - 1) = "010"%char)) then fa
        else
          let last := Nat.min second2 (String.length body) in
          let k := spaces_to (last - first2) first2 in
          let all_space_after := (last <=? k)%nat in
          if all_space_after && negb is_last_action then fa
          else
            let newline := bool_decide (char_at body k = "010"%char) in
            if negb all_space_after
               && negb (newline || bool_decide (char_at body k = "013"%char) && (k + 1 <? String.length body)%nat
                                   && bool_decide (char_at body (k + 1) = "010"%char)) then fa
            else
              let actions := if bool_decide (act_t a = Partial) then alter (set_pos (second1 - j1)) i actions
                             else actions in
              let fragments := <[i := (first1, j1)]> fragments in
              (if all_space_after then fragments
               else <[S i := (if newline then k + 1 else k + 2, second2)]> fragments, actions)
  | _, _, _ => fa
  end.
(** From [n - 1] down to 0. *)
Fixpoint standalones (n : nat) (fa : list (nat * nat) * list Action) : list (nat * nat) * list Action :=
  match n with O => fa | S i => standalones i (standalone i fa) end.
Fixpoint check_pairs (l : list Action) : result unit :=
  match l with
  | [] => Ok tt
  | a :: l' =>
      if missing_end_pair a
      then (name ← piece body (start a) (end_ a);
            invalid ("open tag has no matching end tag {{" +:+ String (tag_char a) (" {{/ pair: " +:+ name)))
      else check_pairs l'
  end.
End Parse.

(** [template_t(body)]; each turn of the loop takes at least one character. *)
Definition parsing_new : parsing := Parsing "{{" "}}" [] 0 [].
Definition compile (body : string) : result template_t :=
  fa ← parse_loop body (S (String.length body)) [] parsing_new;
  _ ← check_pairs body (snd fa);
  let '(fragments, actions) := standalones body (length (snd fa) - 1) fa in
  Ok (Template fragments actions body).

(** ** Rendering *)

Fixpoint html_escape (s : string) : string :=
  match s with
  | EmptyString => EmptyString
  | String c s' =>
      (if bool_decide (c = "&"%char) then "&amp;" else
       if bool_decide (c = "<"%char) then "&lt;" else
       if bool_decide (c = ">"%char) then "&gt;" else
       if bool_decide (c = DQ) then "&quot;" else
       if bool_decide (c = "'"%char) then "&#39;" else
       if bool_decide (c = "/"%char) then "&#x2F;" else
       if bool_decide (c = "`"%char) then "&#x60;" else
       if bool_decide (c = "="%char) then "&#x3D;" else String c "") +:+ html_escape s'
  end.
(** [count(name)] and then [operator[](name)]. *)
Definition member_of (v : wvalue) (name : string) : option wvalue :=
  snd <$> head (filter (λ kv, fst kv = name) (wv_object v)).
(** The names between the dots. *)
Fixpoint split_dots (s : string) : list string :=
  match s with
  | EmptyString => [""]
  | String c s' =>
      if bool_decide (c = "."%char) then "" :: split_dots s'
      else match split_dots s' with x :: l => String c x :: l | [] => [String c ""] end
  end.
Fixpoint walk (v : wvalue) (names : list string) : option wvalue :=
  match names with [] => Some v | n :: names' => x ← member_of v n; walk x names' end.
Fixpoint walk_stack (stack : list wvalue) (names : list string) (only_first : bool) : option wvalue :=
  match stack with
  | [] => None
  | v :: stack' =>
      match walk v names with
      | Some x => Some x
      | None => if only_first then None else walk_stack stack' names only_first
      end
  end.
(** [None] is a pair of [false] and an empty string. *)
Definition find_context (name : string) (stack : list wvalue) (only_first : bool) : result (option wvalue) :=
  if bool_decide (name = ".") then
    match stack with v :: _ => Ok (Some v) | [] => Throw (UB "back of an empty stack") end
  else
    match find "." name with
    | None => Ok (walk_stack stack [name] false)
    | Some _ => Ok (walk_stack stack (split_dots name) only_first)
    end.
Definition is_object (v : wvalue) : bool := bool_decide (wv_type v = TObject).
(** The loop from the action before [current] down. *)
Fixpoint inside_block (before : list Action) (openedBlock : Z) (stack : list wvalue) : result bool :=
  match before with
  | [] => Ok false
  | a :: before' =>
      match act_t a with
      | OpenBlock =>
          if (openedBlock =? 0)%Z then
            match stack with
            | v :: _ => if is_object v then Ok true else inside_block before' (openedBlock - 1) stack
            | [] => Throw (UB "back of an empty stack")
            end
          else inside_block before' (openedBlock - 1) stack
      | CloseBlock => inside_block before' (openedBlock + 1) stack
      | _ => inside_block before' openedBlock stack
      end
  end.
Definition isTagInsideObjectBlock (t : template_t) (current : nat) (stack : list wvalue) : result bool :=
  inside_block (rev (take current (actions_ t))) 0 stack.
Definition spaces (n : nat) : string := string_rep n " ".
Fixpoint indented (at_end : bool) (indent : nat) (s : string) : string :=
  match s with
  | EmptyString => EmptyString
  | String c s' =>
      String c ((if bool_decide (c = "010"%char) && negb (at_end && bool_decide (s' = ""))
                 then spaces indent else "") +:+ indented at_end indent s')
  end.
Definition render_fragment (t : template_t) (fragment : nat * nat) (indent : nat) : result string :=
  if (indent =? 0)%nat then piece (body_ t) (fst fragment) (snd fragment)
  else Ok (indented (snd fragment =? String.length (body_ t))%nat indent
             (stake (snd fragment - fst fragment) (sdrop (fst fragment) (body_ t)))).
Definition type_number (t : json_type) : Z :=
  match t with
  | TNull => 0 | TFalse => 1 | TTrue => 2 | TNumber => 3 | TString => 4 | TList => 5 | TObject => 6
  | TFunction => 7
  end.

Section Render.
Context `{ui : !UMapIter} (loader : string → string).

Definition load_text (filename : string) : string := loader (sanitize_filename filename "_").
Definition load_text_unsafe (filename : string) : string := loader filename.
Definition load_template (filename : string) : result template_t := compile (load_text filename).
Definition load_template_unsafe (filename : string) : result template_t := compile (load_text_unsafe filename).

(** What follows the tag: the stack, the text of the tag, and the action the loop is at. *)
Definition after_tag : Type := (list wvalue * string * nat)%type.
Definition else_block (name : string) (p current : nat) (stack : list wvalue) : result after_tag :=
  ctx ← find_context name stack false;
  match ctx with
  | None => Ok (WNull :: stack, "", current)
  | Some (WList (_ :: _)) => Ok (stack, "", p)
  | Some (WList []) | Some WFalse | Some WNull => Ok (WNull :: stack, "", current)
  | Some _ => Ok (stack, "", p)
  end.
(** [each] renders the block for the values of a list. *)
Definition open_block (each : list wvalue → result (list wvalue * string)) (name : string)
    (p current : nat) (stack : list wvalue) : result after_tag :=
  ctx ← find_context name stack false;
  match ctx with
  | None => Ok (stack, "", p)
  | Some v =>
      match wv_type v with
      | TList => '(stack, s) ← each (match v with WList l => l | _ => [] end); Ok (stack, s, p)
      | TNumber | TString | TObject | TTrue => Ok (v :: stack, "", current)
      | TFalse | TNull => Ok (stack, "", p)
      | TFunction => Throw (RuntimeError ("{{#: not implemented context type: " +:+ to_string (type_number (wv_type v))))
      end
  end.
(** [plug] renders what a function returns for as long as it has tags. *)
Definition tag_text (plug : string → result string) (escaped : bool) (v : wvalue) : result string :=
  match v with
  | WFalse | WTrue | WFloat _ | WDouble _ | WSigned _ | WUnsigned _ => Ok (dump v)
  | WString s => Ok (if escaped then html_escape s else s)
  | WFunction f => s ← plug (f ""); Ok (if escaped then html_escape s else s)
  | _ => Throw (RuntimeError ("not implemented tag type" +:+ to_string (type_number (wv_type v))))
  end.
Definition pop (stack : list wvalue) : result (list wvalue) :=
  match stack with _ :: stack' => Ok stack' | [] => Throw (UB "pop of an empty stack") end.

Definition each_item (one : list wvalue → result (list wvalue * string))
  : list wvalue → list wvalue → result (list wvalue * string) :=
  fix each (l : list wvalue) (stack : list wvalue) : result (list wvalue * string) :=
    match l with
    | [] => Ok (stack, "")
    | x :: l' =>
        '(stack, s) ← one (x :: stack);
        stack ← pop stack;
        '(stack, s') ← each l' stack;
        Ok (stack, s +:+ s')
    end.
Definition plug_all (one : template_t → result string) : nat → string → result string :=
  fix plug (n : nat) (s : string) : result string :=
    match n with
    | O => Throw running
    | S n' =>
        if bool_decide (is_Some (find "{{" s)) then
          result_plug ← compile s;
          s ← one result_plug;
          plug n' s
        else Ok s
    end.
(** The switch of [render_internal], which is called with a template, where to begin and to end,
    the stack and the indentation. *)
Definition do_action (render_internal : template_t → nat → nat → list wvalue → nat → result (list wvalue * string))
    (fuel : nat) (t : template_t) (action : Action) (current : nat) (stack : list wvalue) (indent : nat)
  : result after_tag :=
  let whole t stack indent := render_internal t 0 (length (fragments_ t) - 1) stack indent in
  match act_t action with
  | Ignore => Ok (stack, "", current)
  | Partial =>
      name ← tag_name t action;
      partial ← load_template name;
      '(stack, s) ← whole partial stack (if (pos action =? 0)%nat then 0 else indent + pos action)%nat;
      Ok (stack, s, current)
  | UnescapeTag | Tag =>
      only_first ← isTagInsideObjectBlock t current stack;
      name ← tag_name t action;
      ctx ← find_context name stack only_first;
      let one result_plug :=
        match last stack with
        | Some bottom => '(_, s) ← whole result_plug [bottom] 0; Ok s
        | None => Throw (UB "front of an empty stack")
        end in
      s ← tag_text (plug_all one fuel) (bool_decide (act_t action = Tag)) (default (WString "") ctx);
      Ok (stack, s, current)
  | ElseBlock => name ← tag_name t action; else_block name (pos action) current stack
  | OpenBlock =>
      name ← tag_name t action;
      let one stack := render_internal t (S current) (pos action) stack indent in
      open_block (λ l, each_item one l stack) name (pos action) current stack
  | CloseBlock => stack ← pop stack; Ok (stack, "", current)
  end.
(** The loop of [render_internal], which starts with [indent] spaces. *)
Fixpoint render_loop (fuel : nat) (t : template_t) (current actionEnd : nat) (stack : list wvalue)
    (indent : nat) : result (list wvalue * string) :=
  match fuel with
  | O => Throw running
  | S fuel' =>
      let render_internal t begin end_ stack indent :=
        '(stack, s) ← render_loop fuel' t begin end_ stack indent; Ok (stack, spaces indent +:+ s) in
      if (actionEnd <=? current)%nat then
        match fragments_ t !! actionEnd with
        | Some fragment => text ← render_fragment t fragment indent; Ok (stack, text)
        | None => Throw (UB "index out of fragments_")
        end
      else
        match fragments_ t !! current, actions_ t !! current with
        | Some fragment, Some action =>
            text ← render_fragment t fragment indent;
            '(stack, s, current) ← do_action render_internal fuel' t action current stack indent;
            '(stack, rest) ← render_loop fuel' t (S current) actionEnd stack indent;
            Ok (stack, text +:+ s +:+ rest)
        | _, _ => Throw (UB "index out of fragments_")
        end
  end.
Definition render_string (fuel : nat) (t : template_t) (ctx : wvalue) : result string :=
  '(_, s) ← render_loop fuel t 0 (length (fragments_ t) - 1) [ctx] 0; Ok s.
End Render.

(** A rendered template is what a handler returns. *)
Record rendered_template : Type := Rendered { content_type : string; rendered_body : string }.
Definition render `{ui : !UMapIter} (loader : string → string) (fuel : nat) (t : template_t) (ctx : wvalue)
  : result rendered_template :=
  s ← render_string loader fuel t ctx; Ok (Rendered "text/html" s).

(** ** Where templates come from *)

Definition base_directory : string := "templates".
Definition last_char (s : string) : ascii := char_at s (String.length s - 1).
Definition set_base (path : string) : result string :=
  if bool_decide (path = "") then Throw (UB "the last of no characters")
  else Ok (if bool_decide (last_char path = "\"%char) || bool_decide (last_char path = "/"%char)
           then path else path +:+ "/").
Definition default_loader (files : gmap string string) (base filename : string) : string :=
  default "" (files !! c_str (join_path base filename)).
