(* ===== verification/MustacheSpec.v ===== *)
(** * Templates: what a template means

    A template as a tree, the text it is written as, and its meaning against a stack of contexts;
    what mustache.h compiles the text to and renders it as is this meaning. *)

From S2P Require Import Prelude JsonRead JsonWrite Utility Text Mustache.
Local Open Scope nat_scope.

(** ** Templates as trees *)

(** A text, what follows it, and the rest. *)
Inductive interpolation : Type := Escaped | Triple | Ampersand.
Inductive tmpl : Type :=
| Last (text : string)
| Value (text : string) (how : interpolation) (name : string) (rest : tmpl)
| Comment (text comment : string) (rest : tmpl)
| Block (text : string) (inverted : bool) (name : string) (inner rest : tmpl).

Definition open_text (inverted : bool) (name : string) : string :=
  "{{" +:+ (if inverted then "^" else "#") +:+ name +:+ "}}".
Definition close_text (name : string) : string := "{{/" +:+ name +:+ "}}".
Definition value_text (how : interpolation) (name : string) : string :=
  match how with
  | Escaped => "{{" +:+ name +:+ "}}"
  | Triple => "{{{" +:+ name +:+ "}}}"
  | Ampersand => "{{&" +:+ name +:+ "}}"
  end.
Fixpoint print (T : tmpl) : string :=
  match T with
  | Last s => s
  | Value s how name rest => s +:+ value_text how name +:+ print rest
  | Comment s c rest => s +:+ ("{{!" +:+ c +:+ "}}") +:+ print rest
  | Block s inv name inner rest =>
      s +:+ open_text inv name +:+ print inner +:+ close_text name +:+ print rest
  end.

(** The number of tags, and the texts at the two ends. *)
Fixpoint tags (T : tmpl) : nat :=
  match T with
  | Last _ => 0
  | Value _ _ _ rest | Comment _ _ rest => S (tags rest)
  | Block _ _ _ inner rest => S (tags inner + S (tags rest))
  end.
Fixpoint last_text (T : tmpl) : string :=
  match T with
  | Last s => s
  | Value _ _ _ rest | Comment _ _ rest | Block _ _ _ _ rest => last_text rest
  end.
Definition first_text (T : tmpl) : string :=
  match T with Last s | Value s _ _ _ | Comment s _ _ | Block s _ _ _ _ => s end.

(** ** The meaning *)

(** The innermost context that has the name. *)
Fixpoint resolve (name : string) (stack : list wvalue) : option wvalue :=
  match stack with
  | [] => None
  | v :: stack' => match member_of v name with Some x => Some x | None => resolve name stack' end
  end.
Definition context_of (name : string) (stack : list wvalue) : option wvalue :=
  if bool_decide (name = ".") then head stack else resolve name stack.

Section Meaning.
Context `{ui : !UMapIter}.

Definition shown (escaped : bool) (v : wvalue) : result string :=
  match v with
  | WFalse | WTrue | WFloat _ | WDouble _ | WSigned _ | WUnsigned _ => Ok (dump v)
  | WString s => Ok (if escaped then html_escape s else s)
  | _ => Throw (RuntimeError ("not implemented tag type" +:+ to_string (type_number (wv_type v))))
  end.
(** A block is shown once in each of the contexts of this list. *)
Definition contexts (inverted : bool) (v : option wvalue) : list wvalue :=
  match inverted, v with
  | false, Some (WList l) => l
  | false, (Some (WFalse | WNull) | None) => []
  | false, Some v => [v]
  | true, (Some (WList [] | WFalse | WNull) | None) => [WNull]
  | true, Some _ => []
  end.
Definition in_turn (f : wvalue → result string) : list wvalue → result string :=
  fix go (l : list wvalue) : result string :=
    match l with [] => Ok "" | v :: l' => s ← f v; s' ← go l'; Ok (s +:+ s') end.
(** All but the last text. *)
Fixpoint meaning (T : tmpl) (stack : list wvalue) : result string :=
  match T with
  | Last _ => Ok ""
  | Value s how name rest =>
      v ← shown (match how with Escaped => true | _ => false end)
            (default (WString "") (context_of name stack));
      r ← meaning rest stack; Ok (s +:+ v +:+ r)
  | Comment s _ rest => r ← meaning rest stack; Ok (s +:+ r)
  | Block s inv name inner rest =>
      b ← in_turn (λ v, m ← meaning inner (v :: stack); Ok (m +:+ last_text inner))
            (contexts inv (context_of name stack));
      r ← meaning rest stack; Ok (s +:+ b +:+ r)
  end.
Definition denote (T : tmpl) (ctx : wvalue) : result string :=
  m ← meaning T [ctx]; Ok (m +:+ last_text T).

(** ** Rendering *)

(** No functions: what a function returns is a template again. *)
Fixpoint function_free (v : wvalue) : Prop :=
  match v with
  | WFunction _ => False
  | WList l => foldr (λ x P, function_free x ∧ P) True l
  | WObject o => foldr (λ kv P, function_free (snd kv) ∧ P) True o
  | _ => True
  end.
Lemma function_free_list l : function_free (WList l) ↔ List.Forall function_free l.
Proof. induction l as [|x l IH]; cbn; [by split; [constructor|]|]. by rewrite IH, list.Forall_cons. Qed.
Lemma function_free_member v name x : function_free v → member_of v name = Some x → function_free x.
Proof.
  unfold member_of. destruct v as [| | | | | | | | |o|]; try done. cbn [wv_object].
  induction o as [|[k y] o IH]; [done|]. intros [Hy Ho].
  rewrite list_basics.list.filter_cons. case_decide as Hk; [intros [= <-]; done|]. by apply IH.
Qed.
Lemma function_free_resolve stack name x : List.Forall function_free stack →
  resolve name stack = Some x → function_free x.
Proof.
  induction 1 as [|v stack Hv _ IH]; [done|]. cbn. destruct (member_of v name) eqn:E; [|done].
  intros [= <-]. by eapply function_free_member.
Qed.
Lemma function_free_context stack name x : List.Forall function_free stack →
  context_of name stack = Some x → function_free x.
Proof.
  intros H. unfold context_of. case_bool_decide; [|by apply function_free_resolve].
  destruct H as [|v stack Hv _]; [done|]. by intros [= <-].
Qed.

(** Names without dots are looked up in the same way wherever the tag is. *)
Definition plain_name (name : string) : Prop := name = "." ∨ string_Forall (λ c, c ≠ "."%char) name.
Lemma find_context_plain name stack only_first : plain_name name → stack ≠ [] →
  find_context name stack only_first = Ok (context_of name stack).
Proof.
  intros Hn Hs. unfold find_context, context_of. case_bool_decide as Hd; [by destruct stack|].
  destruct Hn as [|Hn]; [done|]. rewrite find_char_None by done. f_equal. clear Hs.
  induction stack as [|v stack IH]; [done|]. cbn. destruct (member_of v name); [done|]. apply IH.
Qed.
Lemma inside_block_Ok before n stack : stack ≠ [] → ∃ b, inside_block before n stack = Ok b.
Proof.
  intros Hs. revert n. induction before as [|a before IH]; intros n; [by exists false|].
  cbn. destruct (act_t a); try apply IH. case_match; [|apply IH].
  destruct stack as [|v stack]; [done|]. case_match; [by exists true|apply IH].
Qed.

(** A template is compiled so that its tree is found from action [b] on. *)
Definition text_at (t : template_t) (i : nat) (s : string) : Prop :=
  ∃ fr, fragments_ t !! i = Some fr ∧ piece (body_ t) (fst fr) (snd fr) = Ok s.
Definition action_at (t : template_t) (i : nat) (P : Action → Prop) : Prop :=
  ∃ a, actions_ t !! i = Some a ∧ P a.
Definition tag_at (t : template_t) (i : nat) (ty : ActionType) (name : string) (p : nat) : Prop :=
  action_at t i (λ a, act_t a = ty ∧ tag_name t a = Ok name ∧ pos a = p).
Definition value_type (how : interpolation) : ActionType :=
  match how with Escaped => Tag | _ => UnescapeTag end.
Fixpoint shows (t : template_t) (b : nat) (T : tmpl) : Prop :=
  match T with
  | Last s => text_at t b s
  | Value s how name rest => text_at t b s ∧ tag_at t b (value_type how) name 0 ∧ shows t (S b) rest
  | Comment s _ rest => text_at t b s ∧ action_at t b (λ a, act_t a = Ignore) ∧ shows t (S b) rest
  | Block s inv name inner rest =>
      let p := S b + tags inner in
      text_at t b s ∧ tag_at t b (if inv then ElseBlock else OpenBlock) name p ∧ shows t (S b) inner ∧
      action_at t p (λ a, act_t a = CloseBlock) ∧ shows t (S p) rest
  end.
Fixpoint plain_names (T : tmpl) : Prop :=
  match T with
  | Last _ => True
  | Value _ _ name rest => plain_name name ∧ plain_names rest
  | Comment _ _ rest => plain_names rest
  | Block _ _ name inner rest => plain_name name ∧ plain_names inner ∧ plain_names rest
  end.
Lemma shows_last t T b : shows t b T → text_at t (b + tags T) (last_text T).
Proof.
  revert b. induction T as [s|s how name rest IH|s c rest IH|s inv name inner _ rest IH]; intros b; cbn.
  - by rewrite Nat.add_0_r.
  - intros (_ & _ & H). rewrite Nat.add_succ_r. by apply (IH (S b)).
  - intros (_ & _ & H). rewrite Nat.add_succ_r. by apply (IH (S b)).
  - intros (_ & _ & _ & _ & H). apply IH in H.
    replace (b + S (tags inner + S (tags rest))) with (S (S b + tags inner) + tags rest) by lia. done.
Qed.

Section Loop.
Context (loader : string → string) (t : template_t).
Implicit Types (T : tmpl) (stack : list wvalue) (K : result (list wvalue * string)).

(** A result with a text before it. *)
Definition prefixed (s : string) K : result (list wvalue * string) := '(st, r) ← K; Ok (st, s +:+ r).
Lemma prefixed_app s s' K : prefixed s (prefixed s' K) = prefixed (s +:+ s') K.
Proof. destruct K as [[st r]|]; [|done]. cbn. by rewrite string_app_assoc. Qed.
Arguments prefixed : simpl never.
Lemma loop_end fuel e stack s : text_at t e s → render_loop loader (S fuel) t e e stack 0 = Ok (stack, s).
Proof.
  intros (fr & Hfr & Hp). cbn [render_loop]. rewrite (proj2 (Nat.leb_le _ _)) by lia. rewrite Hfr.
  unfold render_fragment. cbn. by rewrite Hp.
Qed.
(** One turn of the loop. *)
Lemma loop_turn fuel b e stack s : text_at t b s → b < e →
  render_loop loader (S fuel) t b e stack 0 =
  match actions_ t !! b with
  | Some action =>
      '(stack, s', current) ← do_action loader (λ t begin end_ stack indent,
          '(stack, s) ← render_loop loader fuel t begin end_ stack indent; Ok (stack, spaces indent +:+ s))
        fuel t action b stack 0;
      prefixed (s +:+ s') (render_loop loader fuel t (S current) e stack 0)
  | None => Throw (UB "index out of fragments_")
  end.
Proof.
  intros (fr & Hfr & Hp) Hb. cbn [render_loop]. rewrite (proj2 (Nat.leb_gt _ _)) by lia. rewrite Hfr.
  destruct (actions_ t !! b) as [a|]; [|done]. unfold render_fragment at 1. cbn [Nat.eqb]. rewrite Hp.
  cbn [mbind result_bind]. destruct (do_action _ _ _ _ _ _ _ _) as [[[st s'] c]|]; [|done].
  cbn [mbind result_bind]. unfold prefixed. destruct (render_loop _ _ _ _ _ _ _) as [[st' r]|]; [|done].
  cbn. by rewrite string_app_assoc.
Qed.

Lemma tag_text_shown plug escaped v : function_free v → tag_text plug escaped v = shown escaped v.
Proof. by destruct v. Qed.
Lemma each_in_turn one f l stack :
  List.Forall (λ x, one (x :: stack) = (s ← f x; Ok (x :: stack, s))) l →
  each_item one l stack = (s ← in_turn f l; Ok (stack, s)).
Proof.
  induction 1 as [|x l Hx _ IH]; [done|].
  change (each_item one (x :: l) stack) with
    ('(stack, s) ← one (x :: stack); stack ← pop stack; '(stack, s') ← each_item one l stack; Ok (stack, s +:+ s')).
  change (in_turn f (x :: l)) with (s ← f x; s' ← in_turn f l; Ok (s +:+ s')).
  rewrite Hx. destruct (f x) as [s|]; [|done]. cbn [mbind result_bind pop]. rewrite IH.
  by destruct (in_turn f l).
Qed.
(** One block, its parts as they are rendered. *)
Lemma block_turn b e stack s (inv : bool) name inner KR : let p := S b + tags inner in
  text_at t b s → tag_at t b (if inv then ElseBlock else OpenBlock) name p → plain_name name →
  p < e → stack ≠ [] → List.Forall function_free stack →
  (∀ fuel, e - S p < fuel → render_loop loader fuel t (S p) e stack 0 = KR) →
  (∀ v fuel, function_free v → e - S b < fuel → render_loop loader fuel t (S b) e (v :: stack) 0 =
     (m ← meaning inner (v :: stack); prefixed m (prefixed (last_text inner) KR))) →
  (∀ v fuel, function_free v → p - S b < fuel → render_loop loader fuel t (S b) p (v :: stack) 0 =
     (m ← meaning inner (v :: stack); Ok (v :: stack, m +:+ last_text inner))) →
  ∀ fuel, e - b < fuel → render_loop loader fuel t b e stack 0 =
    (m ← in_turn (λ v, m ← meaning inner (v :: stack); Ok (m +:+ last_text inner))
           (contexts inv (context_of name stack)); prefixed (s +:+ m) KR).
Proof.
  intros p Hs (a & Ha & Hty & Hname & Hpos) Hn Hp Hst Hff Hskip Hpush Hone fuel Hfuel.
  assert (S b ≤ p) by (unfold p; lia).
  destruct fuel as [|fuel]; [lia|]. rewrite (loop_turn _ _ _ _ s) by (done || lia). rewrite Ha.
  assert (prefixed s KR = prefixed (s +:+ "") KR) as Hnil by by rewrite string_app_nil_r.
  assert (∀ v, function_free v → prefixed (s +:+ "") (render_loop loader fuel t (S b) e (v :: stack) 0) =
    (m ← in_turn (λ v, m ← meaning inner (v :: stack); Ok (m +:+ last_text inner)) [v]; prefixed (s +:+ m) KR)) as Hone'.
  { intros v Hv. rewrite Hpush by (done || lia). cbn. destruct (meaning inner (v :: stack)) as [m|]; [|done].
    cbn. rewrite !prefixed_app. f_equal.
    rewrite !string_app_nil_r, ?string_app_assoc. done. }
  assert (function_free WNull) as Hnull by done.
  unfold do_action. rewrite Hty. destruct inv.
  - rewrite Hname. cbn [mbind result_bind]. unfold else_block. rewrite find_context_plain by done.
    cbn [mbind result_bind]. rewrite Hpos.
    destruct (context_of name stack) as [[| | | | | | |str|[|x l]|o|f]|]; cbn [contexts];
      try apply (Hone' WNull Hnull); cbn; rewrite Hskip by lia; done.
  - rewrite Hname. cbn [mbind result_bind]. unfold open_block. rewrite find_context_plain by done.
    cbn [mbind result_bind]. rewrite Hpos.
    destruct (context_of name stack) as [v|] eqn:Hv; [|cbn; rewrite Hskip by lia; done].
    pose proof (function_free_context _ _ _ Hff Hv) as Hvf.
    destruct v as [| | | | | | |str|l|o|f]; cbn [wv_type contexts];
      try (by apply (Hone' _ Hvf)); try done; try (cbn; rewrite Hskip by lia; done).
    rewrite (each_in_turn _ (λ v, m ← meaning inner (v :: stack); Ok (m +:+ last_text inner))).
    + destruct (in_turn _ l) as [m|]; [|done]. cbn. by rewrite Hskip by lia.
    + apply function_free_list in Hvf. eapply list.Forall_impl; [exact Hvf|]. intros x Hx.
      rewrite Hone by (done || lia). by destruct (meaning inner (x :: stack)).
Qed.
Lemma render_meaning T : ∀ b e stack K, shows t b T → plain_names T → b + tags T ≤ e →
  stack ≠ [] → List.Forall function_free stack →
  (∀ fuel, e - (b + tags T) < fuel → render_loop loader fuel t (b + tags T) e stack 0 = K) →
  ∀ fuel, e - b < fuel → render_loop loader fuel t b e stack 0 = (m ← meaning T stack; prefixed m K).
Proof.
  induction T as [s|s how name rest IH|s c rest IH|s inv name inner IHi rest IHr];
    intros b e stack K Hshow Hn He Hst Hff HK fuel Hfuel; cbn [tags] in *.
  - rewrite Nat.add_0_r in HK. rewrite HK by done. cbn. unfold prefixed. by destruct K as [[]|].
  - destruct Hshow as (Hs & (a & Ha & Hty & Hname & _) & Hshow). destruct Hn as [Hn Hns].
    destruct fuel as [|fuel]; [lia|]. rewrite (loop_turn _ _ _ _ s) by (done || lia). rewrite Ha.
    destruct (inside_block_Ok (rev (take b (actions_ t))) 0 stack Hst) as [only Honly].
    rewrite Nat.add_succ_r in HK. specialize (IH (S b) e stack K Hshow Hns ltac:(lia) Hst Hff HK fuel ltac:(lia)).
    assert (function_free (default (WString "") (context_of name stack))) as Hv.
    { destruct (context_of name stack) eqn:E; [by eapply function_free_context|done]. }
    assert (∀ plug, tag_text plug (bool_decide (act_t a = Tag)) (default (WString "") (context_of name stack))
      = shown (match how with Escaped => true | _ => false end) (default (WString "") (context_of name stack))) as Ht.
    { intros plug. rewrite tag_text_shown by done. rewrite Hty. by destruct how. }
    unfold do_action. rewrite Hty in Ht |- *. unfold isTagInsideObjectBlock. rewrite Honly, Hname.
    cbn [mbind result_bind]. rewrite find_context_plain by done. cbn [mbind result_bind].
    destruct how; cbn [value_type] in *; rewrite Ht; cbn [meaning];
      (destruct (shown _ _) as [v|]; [|done]; cbn [mbind result_bind]; rewrite IH;
       destruct (meaning rest stack) as [r|]; [|done]; cbn; rewrite prefixed_app; by str_norm).
  - destruct Hshow as (Hs & (a & Ha & Hty) & Hshow).
    destruct fuel as [|fuel]; [lia|]. rewrite (loop_turn _ _ _ _ s) by (done || lia). rewrite Ha.
    rewrite Nat.add_succ_r in HK. specialize (IH (S b) e stack K Hshow Hn ltac:(lia) Hst Hff HK fuel ltac:(lia)).
    unfold do_action. rewrite Hty. cbn. rewrite IH. destruct (meaning rest stack) as [r|]; [|done]. cbn.
    rewrite prefixed_app. by str_norm.
  - destruct Hshow as (Hs & Htag & Hi & (a & Ha & Hty) & Hr). destruct Hn as (Hn & Hni & Hnr).
    set (p := S b + tags inner) in *. replace (b + S (tags inner + S (tags rest))) with (S p + tags rest) in HK, He
      by (unfold p; lia).
    assert (∀ fuel, e - S p < fuel → render_loop loader fuel t (S p) e stack 0 =
      (m ← meaning rest stack; prefixed m K)) as Hskip by by apply IHr.
    rewrite (block_turn b e stack s inv name inner (m ← meaning rest stack; prefixed m K)); try done; try lia.
    + cbn [meaning]. destruct (in_turn _ _) as [m|]; [|done]. cbn. destruct (meaning rest stack) as [r|]; [|done].
      cbn. rewrite prefixed_app. by str_norm.
    + intros v fuel' Hv Hfuel'. apply (IHi (S b) e (v :: stack)); try done; [unfold p in *; lia|by constructor|].
      intros fuel'' Hf. destruct fuel'' as [|fuel'']; [lia|].
      rewrite (loop_turn _ _ _ _ (last_text inner)); [|by apply shows_last|unfold p in *; lia].
      fold p. rewrite Ha. unfold do_action. rewrite Hty. cbn. rewrite Hskip by (unfold p in *; lia). by rewrite string_app_nil_r.
    + intros v fuel' Hv Hfuel'. rewrite (IHi (S b) p (v :: stack) (Ok (v :: stack, last_text inner)));
        try done; [by constructor|].
      intros fuel'' Hf. destruct fuel'' as [|fuel'']; [lia|]. apply loop_end. by apply shows_last.
Qed.
End Loop.
End Meaning.

(** ** Compilation *)

(** What the body holds from a position on. *)
Definition at_ (body : string) (i : nat) (x : string) : Prop := i ≤ String.length body ∧ sdrop i body = x.
Section At.
Context (body : string).
Lemma sdrop_add i j s : sdrop (i + j) s = sdrop j (sdrop i s).
Proof. revert s. induction i as [|i IH]; intros [|c s]; cbn; try done. by destruct j. Qed.
Lemma at_app i a b : at_ body i (a +:+ b) → at_ body (i + String.length a) b.
Proof.
  intros [Hi H]. split.
  - pose proof (sdrop_length i body) as Hl. rewrite H, string_length_app in Hl. lia.
  - by rewrite sdrop_add, H, sdrop_app.
Qed.
Lemma at_find pat i x : at_ body i x → find_from pat i body = Nat.add i <$> find pat x.
Proof. intros [Hi H]. unfold find_from. by rewrite (proj2 (Nat.ltb_ge _ _)), H by lia. Qed.
Lemma get_sdrop i k s : String.get (i + k) s = String.get k (sdrop i s).
Proof. revert s. induction i as [|i IH]; intros [|c s]; cbn; done. Qed.
Lemma at_char i k x : at_ body i x → char_at body (i + k) = char_at x k.
Proof. intros [_ H]. unfold char_at. by rewrite get_sdrop, H. Qed.
Lemma char_at_app a b k : k < String.length a → char_at (a +:+ b) k = char_at a k.
Proof.
  unfold char_at. revert k. induction a as [|c a IH]; intros k Hk; cbn in Hk; [lia|].
  rewrite string_app_cons. destruct k as [|k]; [done|]. cbn. apply IH. lia.
Qed.
Lemma at_piece i a b : at_ body i (a +:+ b) → piece body i (i + String.length a) = Ok a.
Proof.
  intros [Hi H]. unfold piece. rewrite (proj2 (Nat.ltb_ge _ _)), substr_ok, H by lia.
  replace (i + String.length a - i) with (String.length a) by lia. by rewrite stake_app.
Qed.

(** The first [cc] after a text in which there is none, also at its end. *)
Lemma find_None_suffix pat x y : find pat (x +:+ y) = None → find pat y = None.
Proof. induction x as [|c x IH]; [done|]. rewrite string_app_cons. intros [_ H]%find_None_cons. by apply IH. Qed.
Lemma find_doubled c s rest : find (String c (String c "")) (s +:+ String c "") = None →
  find (String c (String c "")) (s +:+ String c (String c rest)) = Some (String.length s).
Proof.
  intros H. rewrite find_skip.
  - change (String c (String c rest)) with (String c (String c "") +:+ rest). rewrite find_here. cbn.
    by rewrite Nat.add_0_r.
  - intros x y -> Hy. rewrite string_app_assoc in H. apply find_None_suffix in H.
    destruct y as [|d y]; [done|]. rewrite string_app_cons in H |- *. apply find_None_cons in H as [H _].
    cbn in H |- *. case_decide; [|done]. destruct y as [|e y]; [rewrite string_app_nil_l in *|rewrite string_app_cons in *].
    + by rewrite decide_True in H.
    + case_decide; [|done]. done.
Qed.

(** Names without spaces around them. *)
Record tag_name_ok (n : string) : Prop := {
  tn_closes : find "}}" (n +:+ "}") = None;
  tn_first : char_at n 0 ≠ " "%char;
  tn_last : char_at n (String.length n - 1) ≠ " "%char;
  tn_ne : n ≠ "";
}.
Lemma tag_named c ty i n x p : tag_name_ok n → at_ body i (n +:+ x) →
  named body c ty i (i + String.length n) p = action_new c ty i (i + String.length n) p.
Proof.
  intros [_ Hf Hl Hne] Hat. unfold named. f_equal.
  - unfold past_spaces. destruct Hat as [_ ->]. destruct n as [|d n]; [done|]. cbn in Hf |- *.
    rewrite string_app_cons. cbn [span]. unfold is_space at 1. rewrite bool_decide_eq_false_2 by done. cbn. lia.
  - assert (0 < String.length n) by (destruct n; [done|cbn; lia]).
    destruct (i + String.length n) as [|k] eqn:E; [lia|]. cbn [before_spaces].
    replace k with (i + (String.length n - 1)) by lia. rewrite (at_char _ _ _ Hat), char_at_app by lia.
    unfold is_space. by rewrite bool_decide_eq_false_2.
Qed.
End At.

(** Texts and comments without delimiters, also where they end. *)
Definition text_ok (s : string) : Prop := find "{{" (s +:+ "{") = None.
Definition comment_ok (c : string) : Prop := find "}}" (c +:+ "}") = None.
(** A name that no kind of tag begins with. *)
Definition value_name_ok (n : string) : Prop :=
  char_at n 0 ∉ ["#"%char; "/"%char; "^"%char; "!"%char; ">"%char; "{"%char; "&"%char; "="%char].
Fixpoint tmpl_ok (T : tmpl) : Prop :=
  match T with
  | Last s => text_ok s
  | Value s how name rest =>
      text_ok s ∧ tag_name_ok name ∧ (match how with Escaped => value_name_ok name | _ => True end) ∧ tmpl_ok rest
  | Comment s c rest => text_ok s ∧ comment_ok c ∧ tmpl_ok rest
  | Block s _ name inner rest => text_ok s ∧ tag_name_ok name ∧ tmpl_ok inner ∧ tmpl_ok rest
  end.

(** The text up to the last one. *)
Fixpoint lead (T : tmpl) : string :=
  match T with
  | Last _ => ""
  | Value s how name rest => s +:+ value_text how name +:+ lead rest
  | Comment s c rest => s +:+ ("{{!" +:+ c +:+ "}}") +:+ lead rest
  | Block s inv name inner rest =>
      s +:+ open_text inv name +:+ lead inner +:+ last_text inner +:+ close_text name +:+ lead rest
  end.
Lemma print_lead T : print T = lead T +:+ last_text T.
Proof.
  induction T as [s|s how name rest IH|s c rest IH|s inv name inner IHi rest IHr]; cbn [print lead last_text];
    rewrite ?IH, ?IHi, ?IHr, ?string_app_assoc; done.
Qed.

(** The fragments and the actions of a tree whose text begins at [o], and whose first action has
    the number [b]. *)
Definition value_action (at_tag : nat) (how : interpolation) (name : string) : Action :=
  let k := match how with Escaped => at_tag + 2 | _ => at_tag + 3 end in
  action_new (match how with Escaped => char_at name 0 | Triple => "{"%char | Ampersand => "&"%char end)
    (value_type how) k (k + String.length name) 0.
Definition open_action (at_tag : nat) (inv : bool) (name : string) : Action :=
  action_new (if inv then "^"%char else "#"%char) (if inv then ElseBlock else OpenBlock)
    (at_tag + 3) (at_tag + 3 + String.length name) 0.
Definition close_action (at_tag : nat) (name : string) (b : nat) : Action :=
  action_new "/" CloseBlock (at_tag + 3) (at_tag + 3 + String.length name) b.
Definition comment_action (at_tag : nat) (c : string) : Action :=
  action_new "!" Ignore (at_tag + 3) (at_tag + 3 + String.length c) 0.
Definition inner_at (o : nat) (s : string) (inv : bool) (name : string) : nat :=
  o + String.length s + String.length (open_text inv name).
Definition close_at (o : nat) (inner : tmpl) : nat :=
  o + String.length (lead inner) + String.length (last_text inner).
Definition rest_at (o : nat) (inner : tmpl) (name : string) : nat :=
  close_at o inner + String.length (close_text name).
Fixpoint lead_fragments (o : nat) (T : tmpl) : list (nat * nat) :=
  match T with
  | Last _ => []
  | Value s how name rest =>
      (o, o + String.length s) :: lead_fragments (o + String.length s + String.length (value_text how name)) rest
  | Comment s c rest =>
      (o, o + String.length s) :: lead_fragments (o + String.length s + String.length ("{{!" +:+ c +:+ "}}")) rest
  | Block s inv name inner rest =>
      let i := inner_at o s inv name in
      (o, o + String.length s) :: lead_fragments i inner
        ++ (i + String.length (lead inner), close_at i inner) :: lead_fragments (rest_at i inner name) rest
  end.
Fixpoint tree_actions (o b : nat) (T : tmpl) : list Action :=
  match T with
  | Last _ => []
  | Value s how name rest =>
      value_action (o + String.length s) how name
      :: tree_actions (o + String.length s + String.length (value_text how name)) (S b) rest
  | Comment s c rest =>
      comment_action (o + String.length s) c
      :: tree_actions (o + String.length s + String.length ("{{!" +:+ c +:+ "}}")) (S b) rest
  | Block s inv name inner rest =>
      let i := inner_at o s inv name in
      let p := S b + tags inner in
      set_match p (open_action (o + String.length s) inv name) :: tree_actions i (S b) inner
        ++ close_action (close_at i inner) name b :: tree_actions (rest_at i inner name) (S p) rest
  end.
Lemma tree_actions_length T : ∀ o b, length (tree_actions o b T) = tags T.
Proof.
  induction T as [s|s how name rest IH|s c rest IH|s inv name inner IHi rest IHr]; intros o b; cbn;
    rewrite ?length_app, ?IH, ?IHi; cbn; rewrite ?IHr; done.
Qed.
Lemma lead_fragments_length T : ∀ o, length (lead_fragments o T) = tags T.
Proof.
  induction T as [s|s how name rest IH|s c rest IH|s inv name inner IHi rest IHr]; intros o; cbn;
    rewrite ?length_app, ?IH, ?IHi; cbn; rewrite ?IHr; done.
Qed.

(** A line before a tag, and after it: [first] and [last] say what there is when the text has no
    line break. *)
Fixpoint blank_before (first : bool) (s : string) : bool :=
  match s with
  | EmptyString => first
  | String c s' =>
      if bool_decide (c = "010"%char) then blank_before true s'
      else if bool_decide (c = " "%char) then blank_before first s' else blank_before false s'
  end.
Fixpoint blank_after (last : bool) (s : string) : bool :=
  match s with
  | EmptyString => last
  | String c s' =>
      if bool_decide (c = " "%char) then blank_after last s'
      else bool_decide (c = "010"%char)
           || bool_decide (c = "013"%char) && bool_decide (String.get 0 s' = Some "010"%char)
  end.
(** The texts of a tree, and which of its tags are values. *)
Fixpoint texts (T : tmpl) : list string :=
  match T with
  | Last s => [s]
  | Value s _ _ rest | Comment s _ rest => s :: texts rest
  | Block s _ _ inner rest => s :: texts inner ++ texts rest
  end.
Fixpoint values (T : tmpl) : list bool :=
  match T with
  | Last _ => []
  | Value _ _ _ rest => true :: values rest
  | Comment _ _ rest => false :: values rest
  | Block _ _ _ inner rest => false :: values inner ++ false :: values rest
  end.
(** A tag that is not a value and has a line of its own takes the line with it: the spaces before
    it, and the spaces and the line break after it. *)
Fixpoint all_blank (s : string) : bool :=
  match s with EmptyString => true | String c s' => bool_decide (c = " "%char) && all_blank s' end.
Fixpoint trim_end (s : string) : string :=
  match s with EmptyString => EmptyString | String c s' => if all_blank s then "" else String c (trim_end s') end.
Fixpoint drop_line (s : string) : string :=
  match s with
  | EmptyString => EmptyString
  | String c s' =>
      if bool_decide (c = " "%char) then drop_line s'
      else if bool_decide (c = "010"%char) then s'
      else match s' with String _ s'' => s'' | EmptyString => EmptyString end
  end.
Definition take_line (vs : list bool) (i : nat) (ts : list string) : list string :=
  match vs !! i, ts !! i, ts !! S i with
  | Some v, Some before, Some after =>
      if negb v && (blank_before (i =? 0) before && blank_after (i =? length vs - 1) after)
      then <[S i := if all_blank after then after else drop_line after]> (<[i := trim_end before]> ts)
      else ts
  | _, _, _ => ts
  end.
(** From the last tag to the first. *)
Fixpoint take_lines (vs : list bool) (n : nat) (ts : list string) : list string :=
  match n with O => ts | S i => take_lines vs i (take_line vs i ts) end.
(** The tree with other texts. *)
Fixpoint retext (T : tmpl) (ts : list string) : tmpl :=
  match T, ts with
  | Last _, s :: _ => Last s
  | Value _ how name rest, s :: ts => Value s how name (retext rest ts)
  | Comment _ c rest, s :: ts => Comment s c (retext rest ts)
  | Block _ inv name inner rest, s :: ts =>
      Block s inv name (retext inner (take (S (tags inner)) ts)) (retext rest (drop (S (tags inner)) ts))
  | _, [] => T
  end.
Definition standalone_lines (T : tmpl) : tmpl := retext T (take_lines (values T) (tags T) (texts T)).
Lemma texts_length T : length (texts T) = S (tags T).
Proof.
  induction T as [s|s how name rest IH|s c rest IH|s inv name inner IHi rest IHr]; cbn;
    rewrite ?length_app, ?IH, ?IHi, ?IHr; lia.
Qed.
Lemma blank_before_snoc first s c : blank_before first (s +:+ String c "") =
  if bool_decide (c = "010"%char) then true else if bool_decide (c = " "%char) then blank_before first s else false.
Proof.
  revert first. induction s as [|d s IH]; intros first.
  - rewrite string_app_nil_l. cbn [blank_before]. done.
  - rewrite string_app_cons. cbn [blank_before]. rewrite !IH. by repeat case_bool_decide.
Qed.
Lemma all_blank_snoc s c : all_blank (s +:+ String c "") = all_blank s && bool_decide (c = " "%char).
Proof.
  induction s as [|d s IH]; [by rewrite string_app_nil_l; cbn; rewrite andb_true_r|].
  rewrite string_app_cons. cbn [all_blank]. by rewrite IH, andb_assoc.
Qed.
Lemma trim_end_snoc s c : trim_end (s +:+ String c "") = if bool_decide (c = " "%char) then trim_end s else s +:+ String c "".
Proof.
  induction s as [|d s IH].
  { rewrite string_app_nil_l. cbn. rewrite andb_true_r. by case_bool_decide. }
  rewrite string_app_cons. cbn [trim_end]. rewrite <- string_app_cons, all_blank_snoc, string_app_cons, IH.
  case_bool_decide; [by rewrite andb_true_r|by rewrite andb_false_r].
Qed.

Section Compile.
Context (body : string).
Definition defaults (bs : list nat) (o : nat) (A : list Action) : parsing := Parsing "{{" "}}" bs o A.

(** One tag. *)
Lemma parse_turn o s inner rest fuel fr bs A :
  at_ body o (s +:+ "{{" +:+ inner +:+ "}}" +:+ rest) → text_ok s → comment_ok inner → inner ≠ "" →
  let idx := o + String.length s + 2 in
  let endIdx := idx + String.length inner in
  parse_loop body (S fuel) fr (defaults bs o A) =
  (s' ← parse_tag body idx endIdx (defaults bs (endIdx + 2) A); parse_loop body fuel (fr ++ [(o, o + String.length s)]) s').
Proof.
  intros Hat Hs Hi Hne idx endIdx. cbn [parse_loop].
  change (tag_open (defaults bs o A)) with "{{". change (tag_close (defaults bs o A)) with "}}".
  change (current (defaults bs o A)) with o.
  rewrite (at_find _ _ _ _ Hat). change ("{{" +:+ inner +:+ "}}" +:+ rest) with
    (String "{" (String "{" (inner +:+ "}}" +:+ rest))) in Hat |- *.
  rewrite find_doubled by done. cbn [fmap option_fmap option_map].
  apply at_app in Hat as Hat1. change (String "{" (String "{" (inner +:+ "}}" +:+ rest))) with
    ("{{" +:+ (inner +:+ "}}" +:+ rest)) in Hat1. apply at_app in Hat1. cbn [String.length] in Hat1 |- *.
  fold idx in Hat1 |- *. rewrite (at_find _ _ _ _ Hat1).
  change (inner +:+ "}}" +:+ rest) with (inner +:+ String "}" (String "}" rest)).
  rewrite find_doubled by done. cbn [fmap option_fmap option_map]. fold endIdx.
  rewrite bool_decide_eq_false_2; [done|]. unfold endIdx. destruct inner; [done|]. cbn. lia.
Qed.

(** The kinds of tags. *)
Lemma at_String i c x : at_ body i (String c x) → at_ body (S i) x.
Proof. intros H. replace (S i) with (i + String.length (String c "")) by (cbn; lia). by apply at_app. Qed.
Lemma at_tag o s inner x : at_ body o (s +:+ "{{" +:+ inner +:+ x) →
  at_ body (o + String.length s + 2) (inner +:+ x).
Proof. intros H%at_app. by apply (at_app _ _ "{{") in H. Qed.
Lemma first_char idx c x : at_ body idx (String c x) → char_at body idx = c.
Proof. intros H. rewrite <- (Nat.add_0_r idx). by rewrite (at_char _ _ _ _ H). Qed.
Lemma comment_ok_cons d n : d ≠ "}"%char → comment_ok n → comment_ok (String d n).
Proof.
  unfold comment_ok. intros Hd H. rewrite string_app_cons, find_String, H; [done|].
  cbn. by rewrite decide_False by congruence.
Qed.

(** A tag that begins with a character of its own. *)
Lemma parse_turn_char o s c inner rest fuel fr bs A :
  at_ body o (s +:+ "{{" +:+ String c inner +:+ "}}" +:+ rest) → text_ok s → c ≠ "}"%char → comment_ok inner →
  let idx := o + String.length s + 2 in
  let endIdx := S idx + String.length inner in
  char_at body idx = c ∧ at_ body (S idx) (inner +:+ "}}" +:+ rest) ∧
  parse_loop body (S fuel) fr (defaults bs o A) =
  (s' ← parse_tag body idx endIdx (defaults bs (endIdx + 2) A); parse_loop body fuel (fr ++ [(o, o + String.length s)]) s').
Proof.
  intros Hat Hs Hc Hi idx endIdx. pose proof Hat as Hat1. apply at_tag in Hat1. fold idx in Hat1.
  rewrite string_app_cons in Hat1.
  split; [by eapply first_char|]. split; [by eapply at_String|].
  rewrite (parse_turn o s (String c inner) rest) by (done || by apply comment_ok_cons). fold idx.
  replace (idx + String.length (String c inner)) with endIdx by (unfold endIdx; cbn; lia). done.
Qed.

Lemma turn_value o s how name rest fuel fr bs A :
  at_ body o (s +:+ value_text how name +:+ rest) → text_ok s → tag_name_ok name →
  match how with Escaped => value_name_ok name | _ => True end →
  parse_loop body (S fuel) fr (defaults bs o A) =
  parse_loop body fuel (fr ++ [(o, o + String.length s)])
    (defaults bs (o + String.length s + String.length (value_text how name)) (A ++ [value_action (o + String.length s) how name])).
Proof.
  intros Hat Hs Hn Hv. pose proof Hn as [Hc _ _ Hne]. destruct how; cbn [value_text] in Hat |- *.
  - rewrite !string_app_assoc in Hat. rewrite (parse_turn o s name rest) by done.
    apply at_tag in Hat. set (idx := o + String.length s + 2) in *. unfold parse_tag.
    destruct name as [|c n]; [done|]. rewrite string_app_cons in Hat. rewrite (first_char _ _ _ Hat).
    unfold value_name_ok in Hv. change (char_at (String c n) 0) with c in Hv.
    rewrite !bool_decide_eq_false_2 by (intros ->; apply Hv; set_solver). cbn [mbind result_bind].
    rewrite <- string_app_cons in Hat. rewrite (tag_named _ _ _ _ _ _ _ Hn Hat).
    unfold add_action, defaults. cbn [tag_open tag_close blockPositions current actions].
    do 2 f_equal. unfold idx. rewrite !string_length_app. cbn. lia.
  - change ("{{{" +:+ name +:+ "}}}") with ("{{" +:+ String "{" (name +:+ ("}}" +:+ "}"))) in Hat.
    rewrite <- (string_app_cons "{" name), !string_app_assoc in Hat.
    destruct (parse_turn_char o s "{" name ("}" +:+ rest) fuel fr bs A) as (H0 & H1 & ->); [done..|].
    set (idx := o + String.length s + 2) in *. unfold parse_tag. rewrite H0.
    rewrite (bool_decide_eq_true_2 ("{"%char = "{"%char)), !(bool_decide_eq_false_2 ("{"%char = _)) by done.
    rewrite (tag_named _ _ _ _ _ _ _ Hn H1). apply at_app, (at_app _ _ "}}") in H1. cbn [String.length] in H1.
    rewrite (first_char _ _ _ H1). rewrite !bool_decide_eq_true_2 by done. cbn -[String.length].
    unfold value_action, defaults, set_current, add_action. cbn -[String.length Nat.add].
    do 2 f_equal; [unfold idx; rewrite !string_length_app; cbn; lia|].
    do 2 f_equal. unfold action_new. f_equal; unfold idx; lia.
  - change ("{{&" +:+ name +:+ "}}") with ("{{" +:+ String "&" (name +:+ "}}")) in Hat.
    rewrite <- (string_app_cons "&" name), !string_app_assoc in Hat.
    destruct (parse_turn_char o s "&" name rest fuel fr bs A) as (H0 & H1 & ->); [done..|].
    set (idx := o + String.length s + 2) in *. unfold parse_tag. rewrite H0.
    rewrite (bool_decide_eq_true_2 ("&"%char = "&"%char)), !(bool_decide_eq_false_2 ("&"%char = _)) by done.
    rewrite (tag_named _ _ _ _ _ _ _ Hn H1). unfold value_action, defaults, add_action. cbn -[String.length Nat.add].
    do 2 f_equal; [unfold idx; rewrite !string_length_app; cbn; lia|].
    do 2 f_equal. unfold action_new. f_equal; unfold idx; lia.
Qed.
Lemma turn_comment o s c rest fuel fr bs A :
  at_ body o (s +:+ ("{{!" +:+ c +:+ "}}") +:+ rest) → text_ok s → comment_ok c →
  parse_loop body (S fuel) fr (defaults bs o A) =
  parse_loop body fuel (fr ++ [(o, o + String.length s)])
    (defaults bs (o + String.length s + String.length ("{{!" +:+ c +:+ "}}")) (A ++ [comment_action (o + String.length s) c])).
Proof.
  intros Hat Hs Hc. change ("{{!" +:+ c +:+ "}}") with ("{{" +:+ String "!" (c +:+ "}}")) in Hat.
  rewrite <- (string_app_cons "!" c), !string_app_assoc in Hat.
  destruct (parse_turn_char o s "!" c rest fuel fr bs A) as (H0 & H1 & ->); [done..|].
  set (idx := o + String.length s + 2) in *. unfold parse_tag. rewrite H0.
  rewrite (bool_decide_eq_true_2 ("!"%char = "!"%char)), !(bool_decide_eq_false_2 ("!"%char = _)) by done.
  unfold comment_action, defaults, add_action. cbn -[String.length Nat.add].
  do 2 f_equal; [unfold idx; rewrite !string_length_app; cbn; lia|].
  do 2 f_equal. unfold action_new. f_equal; unfold idx; lia.
Qed.
Lemma turn_open o s inv name rest fuel fr bs A :
  at_ body o (s +:+ open_text inv name +:+ rest) → text_ok s → tag_name_ok name →
  parse_loop body (S fuel) fr (defaults bs o A) =
  parse_loop body fuel (fr ++ [(o, o + String.length s)])
    (defaults (length A :: bs) (inner_at o s inv name) (A ++ [open_action (o + String.length s) inv name])) ∧
  at_ body (start (open_action (o + String.length s) inv name)) (name +:+ "}}" +:+ rest).
Proof.
  intros Hat Hs Hn. pose proof Hn as [Hc _ _ Hne]. unfold inner_at.
  set (ch := if inv then "^"%char else "#"%char).
  assert (open_text inv name = "{{" +:+ String ch name +:+ "}}") as Ho by by destruct inv.
  rewrite Ho in Hat |- *. rewrite !string_app_assoc in Hat.
  destruct (parse_turn_char o s ch name rest fuel fr bs A) as (H0 & H1 & ->); [done|done|by destruct inv|done|].
  set (idx := o + String.length s + 2) in *. split.
  - unfold parse_tag. rewrite H0. unfold ch. destruct inv.
    all: rewrite ?(bool_decide_eq_true_2 ("^"%char = "^"%char)), ?(bool_decide_eq_true_2 ("#"%char = "#"%char)),
      ?(bool_decide_eq_false_2 ("^"%char = _)) by done.
    all: rewrite (tag_named _ _ _ _ _ _ _ Hn H1).
    all: unfold open_action, defaults, add_action, add_block; cbn -[String.length Nat.add].
    all: do 2 f_equal; [unfold idx; rewrite !string_length_app; cbn; lia|].
    all: do 2 f_equal; unfold action_new; f_equal; unfold idx; lia.
  - replace (start (open_action (o + String.length s) inv name)) with (S idx); [done|].
    unfold idx. cbn. lia.
Qed.
Lemma turn_close o s name rest fuel fr bs (A : list Action) opened B x :
  at_ body o (s +:+ close_text name +:+ rest) → text_ok s → tag_name_ok name →
  at_ body (start opened) (name +:+ x) → end_ opened = start opened + String.length name →
  parse_loop body (S fuel) fr (defaults (length A :: bs) o (A ++ opened :: B)) =
  parse_loop body fuel (fr ++ [(o, o + String.length s)])
    (defaults bs (o + String.length s + String.length (close_text name))
       (A ++ set_match (length (A ++ opened :: B)) opened :: B ++ [close_action (o + String.length s) name (length A)])).
Proof.
  intros Hat Hs Hn Hopen Hend. pose proof Hn as [Hc _ _ Hne].
  change (close_text name) with ("{{" +:+ String "/" (name +:+ "}}")) in Hat.
  rewrite <- (string_app_cons "/" name), !string_app_assoc in Hat.
  destruct (parse_turn_char o s "/" name rest fuel fr (length A :: bs) (A ++ opened :: B)) as (H0 & H1 & ->); [done..|].
  set (idx := o + String.length s + 2) in *. unfold parse_tag. rewrite H0.
  rewrite (bool_decide_eq_true_2 ("/"%char = "/"%char)), !(bool_decide_eq_false_2 ("/"%char = _)) by done.
  unfold close_block. rewrite (tag_named _ _ _ _ _ _ _ Hn H1). cbn [start end_ action_new].
  rewrite (at_piece _ _ _ _ H1). cbn [mbind result_bind blockPositions actions defaults].
  rewrite list_lookup_middle by done. rewrite Hend, (at_piece _ _ _ _ Hopen). cbn [mbind result_bind].
  rewrite bool_decide_eq_true_2 by done. unfold defaults, set_pos, close_action, action_new. cbn -[String.length Nat.add].
  rewrite <- (Nat.add_0_r (length A)) at 1. rewrite alter_app_r. cbn -[String.length Nat.add].
  rewrite <- app_assoc. cbn -[String.length Nat.add].
  do 2 f_equal; [unfold idx, close_text; rewrite !string_length_app; cbn; lia|].
  do 4 f_equal. unfold idx. f_equal; [lia|f_equal; lia].
Qed.

(** All the tags of a tree. *)
Lemma parse_tree T : ∀ o post fuel fr bs A, tmpl_ok T → at_ body o (print T +:+ post) →
  parse_loop body (tags T + fuel) fr (defaults bs o A) =
  parse_loop body fuel (fr ++ lead_fragments o T)
    (defaults bs (o + String.length (lead T)) (A ++ tree_actions o (length A) T)).
Proof.
  induction T as [s|s how name rest IH|s c rest IH|s inv name inner IHi rest IHr];
    intros o post fuel fr bs A Hok Hat; cbn [tags lead_fragments tree_actions lead print] in *.
  - cbn. by rewrite Nat.add_0_r, !app_nil_r.
  - destruct Hok as (Hs & Hn & Hv & Hok). rewrite !string_app_assoc in Hat.
    cbn [Nat.add]. rewrite (turn_value _ _ _ _ _ _ _ _ _ Hat) by done.
    apply at_app, at_app in Hat. rewrite (IH _ post) by done. rewrite <- !app_assoc, length_app. cbn [length app].
    rewrite Nat.add_1_r. do 2 f_equal. rewrite !string_length_app. lia.
  - destruct Hok as (Hs & Hc & Hok). rewrite !(string_app_assoc s), !(string_app_assoc ("{{!" +:+ c +:+ "}}")) in Hat.
    cbn [Nat.add]. rewrite (turn_comment _ _ _ _ _ _ _ _ Hat) by done.
    apply at_app, at_app in Hat. rewrite (IH _ post) by done. rewrite <- !app_assoc, length_app. cbn [length app].
    rewrite Nat.add_1_r. do 2 f_equal. rewrite !string_length_app. lia.
  - destruct Hok as (Hs & Hn & Hoki & Hokr). rewrite !string_app_assoc in Hat.
    replace (S (tags inner + S (tags rest)) + fuel) with (S (tags inner + S (tags rest + fuel))) by lia.
    destruct (turn_open _ _ _ _ _ (tags inner + S (tags rest + fuel)) fr bs A Hat Hs Hn) as [-> Hname].
    apply at_app, at_app in Hat. fold (inner_at o s inv name) in Hat. set (i := inner_at o s inv name) in *.
    rewrite (IHi _ (close_text name +:+ print rest +:+ post)) by (done || by rewrite ?string_app_assoc).
    rewrite print_lead, !string_app_assoc in Hat. apply at_app in Hat.
    rewrite <- (app_assoc A). cbn [app].
    assert (text_ok (last_text inner)) as Hlast.
    { clear -Hoki. induction inner as [s|s how name rest IH|s c rest IH|s inv name inner _ rest IH]; cbn in *; tauto. }
    erewrite (turn_close _ _ _ _ _ _ _ A); [|exact Hat|done|done|exact Hname|done].
    apply at_app, at_app in Hat. fold (close_at i inner) in Hat. fold (rest_at i inner name) in Hat.
    fold (close_at i inner). fold (rest_at i inner name).
    rewrite (IHr _ post) by done. rewrite !length_app. cbn [length]. rewrite !length_app, tree_actions_length.
    rewrite <- !app_assoc. cbn [length app]. rewrite <- !app_assoc. cbn [app].
    replace (length A + S (tags inner + 1)) with (S (S (length A + tags inner))) by lia.
    replace (length A + 1) with (S (length A)) by lia.
    replace (length A + S (tags inner)) with (S (length A + tags inner)) by lia.
    do 2 f_equal. unfold rest_at, close_at, i, inner_at. rewrite !string_length_app. lia.
Qed.

(** Lines. *)
Definition text_of (fr : nat * nat) : string := stake (snd fr - fst fr) (sdrop (fst fr) body).
Lemma text_of_snoc f e : f ≤ e → e < String.length body →
  text_of (f, S e) = text_of (f, e) +:+ String (char_at body e) "".
Proof.
  unfold text_of. cbn. intros Hf He. replace (S e - f) with (S (e - f)) by lia.
  replace (char_at body e) with (char_at (sdrop f body) (e - f)).
  2: { unfold char_at. rewrite <- get_sdrop. do 2 f_equal. lia. }
  assert (e - f < String.length (sdrop f body)) as Hl by (rewrite sdrop_length; lia).
  revert Hl. generalize (e - f) (sdrop f body). intros n. induction n as [|n IH]; intros [|c s] Hl; cbn in Hl; try lia; [done|].
  cbn [stake]. rewrite string_app_cons, <- IH by lia. done.
Qed.
Lemma text_of_cons k e : k < e → e ≤ String.length body →
  text_of (k, e) = String (char_at body k) (text_of (S k, e)).
Proof.
  intros Hk He. unfold text_of. cbn [fst snd]. replace (e - k) with (S (e - S k)) by lia.
  destruct (sdrop k body) as [|c s] eqn:E.
  { pose proof (sdrop_length k body) as Hl. rewrite E in Hl. cbn in Hl. lia. }
  cbn [stake]. f_equal.
  - unfold char_at. rewrite <- (Nat.add_0_r k) at 1. by rewrite get_sdrop, E.
  - replace (sdrop (S k) body) with (sdrop (k + 1) body) by (f_equal; lia). by rewrite sdrop_add, E.
Qed.
Lemma spaces_from_blank first f e : f ≤ e → e ≤ String.length body →
  blank_before first (text_of (f, e)) =
  if spaces_from body f e <=? f then first else bool_decide (char_at body (spaces_from body f e - 1) = "010"%char).
Proof.
  intros Hf. induction e as [|e IH]; intros He.
  - assert (f = 0) as -> by lia. done.
  - cbn [spaces_from]. destruct (Nat.ltb_spec e f) as [Hlt|Hge].
    + assert (f = S e) as -> by lia. unfold text_of. cbn [fst snd]. rewrite Nat.sub_diag, Nat.leb_refl. done.
    + rewrite text_of_snoc, blank_before_snoc by lia. unfold is_space.
      destruct (decide (char_at body e = "010"%char)) as [Hn|Hn].
      * rewrite (bool_decide_eq_true_2 (char_at body e = "010"%char)) by done.
        rewrite (bool_decide_eq_false_2 (char_at body e = " "%char)) by (by rewrite Hn).
        rewrite (proj2 (Nat.leb_gt _ _)) by lia. cbn. rewrite Nat.sub_0_r. rewrite bool_decide_eq_true_2 by done. done.
      * rewrite (bool_decide_eq_false_2 (char_at body e = "010"%char)) by done.
        destruct (decide (char_at body e = " "%char)) as [Hs|Hs].
        { rewrite (bool_decide_eq_true_2 (char_at body e = " "%char)) by done. rewrite IH by lia. done. }
        rewrite (bool_decide_eq_false_2 (char_at body e = " "%char)) by done.
        rewrite (proj2 (Nat.leb_gt _ _)) by lia. cbn. rewrite Nat.sub_0_r. rewrite bool_decide_eq_false_2 by done. done.
Qed.
Lemma spaces_to_blank last n k : k + n ≤ String.length body →
  (k + n < String.length body → char_at body (k + n) ≠ "010"%char) →
  let k' := spaces_to body n k in
  blank_after last (text_of (k, k + n)) =
  if k + n <=? k' then last
  else bool_decide (char_at body k' = "010"%char)
       || bool_decide (char_at body k' = "013"%char) && (k' + 1 <? String.length body)
          && bool_decide (char_at body (k' + 1) = "010"%char).
Proof.
  revert k. induction n as [|n IH]; intros k Hk Hend; cbn [spaces_to].
  - rewrite Nat.add_0_r, Nat.leb_refl. unfold text_of. cbn [fst snd]. by rewrite Nat.sub_diag.
  - rewrite text_of_cons by lia. cbn [blank_after]. unfold is_space.
    replace (k + S n) with (S k + n) in * by lia.
    case_bool_decide as Hs; [by apply IH|].
    rewrite (proj2 (Nat.leb_gt _ _)) by lia. f_equal. rewrite <- andb_assoc. f_equal.
    rewrite Nat.add_1_r. destruct (Nat.ltb_spec (S k) (String.length body)) as [Hlt|Hge].
    + cbn [andb]. destruct n as [|n].
      * rewrite Nat.add_0_r in *. unfold text_of. cbn [fst snd]. rewrite Nat.sub_diag.
        rewrite !bool_decide_eq_false_2; [done|by apply Hend|done].
      * rewrite (text_of_cons (S k)) by lia. cbn. apply bool_decide_ext. split; [by intros [= ->]|by intros ->].
    + assert (n = 0) as -> by lia. rewrite Nat.add_0_r. unfold text_of. cbn [fst snd]. by rewrite Nat.sub_diag.
Qed.

Lemma spaces_from_text f e : f ≤ e → e ≤ String.length body →
  f ≤ spaces_from body f e ≤ e ∧ text_of (f, spaces_from body f e) = trim_end (text_of (f, e)) ∧
  (spaces_from body f e < e → char_at body (spaces_from body f e) = " "%char).
Proof.
  intros Hf. induction e as [|e IH]; intros He.
  - assert (f = 0) as -> by lia. split; [cbn; lia|]. split; [done|]. cbn. lia.
  - cbn [spaces_from]. destruct (Nat.ltb_spec e f) as [Hlt|Hge].
    { assert (f = S e) as -> by lia. split; [lia|]. split; [|lia]. unfold text_of. cbn [fst snd]. by rewrite Nat.sub_diag. }
    rewrite text_of_snoc, trim_end_snoc by lia. unfold is_space. case_bool_decide as Hs.
    + destruct (IH ltac:(lia) ltac:(lia)) as (H1 & H2 & H3). split; [lia|]. split; [done|]. intros _.
      destruct (decide (spaces_from body f e = e)) as [E|E]; [by rewrite E|]. apply H3. lia.
    + split; [lia|]. split; [by rewrite text_of_snoc by lia|lia].
Qed.
Lemma spaces_to_text n k : k + n ≤ String.length body → let k' := spaces_to body n k in
  k ≤ k' ≤ k + n ∧ (k + n <=? k') = all_blank (text_of (k, k + n)) ∧
  (k' < k + n → char_at body k' = "010"%char → drop_line (text_of (k, k + n)) = text_of (k' + 1, k + n)) ∧
  (k' + 1 < k + n → char_at body k' = "013"%char → drop_line (text_of (k, k + n)) = text_of (k' + 2, k + n)).
Proof.
  revert k. induction n as [|n IH]; intros k Hk; cbn [spaces_to].
  { rewrite Nat.add_0_r. split; [lia|]. split; [|split; lia]. rewrite Nat.leb_refl. unfold text_of. cbn [fst snd].
    by rewrite Nat.sub_diag. }
  rewrite (text_of_cons k) by lia. cbn [all_blank drop_line]. unfold is_space.
  replace (k + S n) with (S k + n) in * by lia. case_bool_decide as Hs.
  - destruct (IH (S k) ltac:(lia)) as (H1 & H2 & H3 & H4). split; [lia|]. done.
  - split; [lia|]. split; [apply Nat.leb_gt; lia|]. split.
    + intros _ Hn. rewrite bool_decide_eq_true_2 by done. by rewrite Nat.add_1_r.
    + intros Hlt Hr. rewrite bool_decide_eq_false_2 by (rewrite Hr; done).
      rewrite (text_of_cons (S k)) by lia. by replace (k + 2) with (S (S k)) by lia.
Qed.

(** The fragments of a tree are its texts. *)
Definition fits (fr : nat * nat) (s : string) : Prop :=
  fst fr ≤ snd fr ≤ String.length body ∧ text_of fr = s ∧
  (snd fr < String.length body → char_at body (snd fr) ≠ "010"%char).
Lemma fits_piece fr s : fits fr s → piece body (fst fr) (snd fr) = Ok s.
Proof.
  intros (H & <- & _). unfold piece, text_of. rewrite (proj2 (Nat.ltb_ge _ _)), substr_ok by lia. done.
Qed.
Lemma standalone_step i F A ts vs : Forall2 fits F ts → length A = S (length vs) → length F = S (length vs) →
  i < length vs →
  (∀ a v, A !! i = Some a → vs !! i = Some v → act_t a ≠ Partial ∧ (v = true ↔ act_t a = Tag ∨ act_t a = UnescapeTag)) →
  ∃ F', standalone body i (F, A) = (F', A) ∧ Forall2 fits F' (take_line vs i ts).
Proof.
  intros HF HA HlF Hi Hv. unfold standalone, take_line. rewrite HA.
  destruct (lookup_lt_is_Some_2 A i ltac:(lia)) as [a Ha]. rewrite Ha.
  destruct (lookup_lt_is_Some_2 vs i Hi) as [v Hvs]. rewrite Hvs.
  destruct (lookup_lt_is_Some_2 F i ltac:(lia)) as [[f1 e1] H1]. rewrite H1.
  destruct (lookup_lt_is_Some_2 F (S i) ltac:(lia)) as [[f2 e2] H2]. rewrite H2.
  destruct (Forall2_lookup_l _ _ _ _ _ HF H1) as (s1 & -> & (L1 & <- & N1)).
  destruct (Forall2_lookup_l _ _ _ _ _ HF H2) as (s2 & -> & (L2 & <- & N2)). cbn [fst snd] in *.
  destruct (Hv a v Ha Hvs) as [Hpart Hval].
  case_bool_decide as Hc.
  { exists F. split; [done|]. destruct Hval as [_ Hval]. rewrite (Hval Hc). done. }
  destruct v; [exfalso; by apply Hc, Hval|]. cbn [negb andb].
  rewrite Nat.min_l by lia. replace (S (length vs) - 2) with (length vs - 1) by lia.
  rewrite (spaces_from_blank _ f1 e1) by lia.
  assert (f2 + (e2 - f2) = e2) as He2 by lia.
  pose proof (spaces_to_blank (i =? length vs - 1) (e2 - f2) f2) as Hb. cbn zeta in Hb. rewrite He2 in Hb.
  rewrite Hb by (lia || done). clear Hb.
  destruct (spaces_from_text f1 e1) as (J1 & J2 & J3); [lia..|].
  pose proof (spaces_to_text (e2 - f2) f2) as Hk. cbn zeta in Hk. rewrite He2 in Hk. specialize (Hk ltac:(lia)).
  set (j1 := spaces_from body f1 e1) in *. set (k := spaces_to body (e2 - f2) f2) in *.
  destruct Hk as (K1 & K2 & K3 & K4). rewrite <- K2.
  (* the fragment before, when it is cut *)
  assert (fits (f1, j1) (trim_end (text_of (f1, e1)))) as Hcut.
  { split; [cbn; lia|]. split; [done|]. cbn [snd]. intros Hl. destruct (decide (j1 = e1)) as [->|]; [by apply N1|].
    rewrite J3 by lia. done. }
  rewrite (bool_decide_eq_false_2 (act_t a = Partial)) by done.
  set (blank1 := if j1 <=? f1 then i =? 0 else _).
  assert ((j1 <=? f1) && (0 <? i) = false ∧ negb (j1 <=? f1) && negb (bool_decide (char_at body (j1 - 1) = "010"%char)) = false
    ↔ blank1 = true) as Hblank.
  { unfold blank1. destruct (j1 <=? f1); cbn [andb negb].
    - destruct (Nat.eqb_spec i 0) as [->|]; [done|]. rewrite (proj2 (Nat.ltb_lt 0 i)) by lia. naive_solver.
    - case_bool_decide; cbn; naive_solver. }
  destruct ((j1 <=? f1) && (0 <? i)).
  { exists F. split; [done|]. destruct blank1; [|done]. by destruct (proj2 Hblank eq_refl). }
  destruct (negb (j1 <=? f1) && negb _).
  { exists F. split; [done|]. destruct blank1; [|done]. by destruct (proj2 Hblank eq_refl). }
  rewrite (proj1 Hblank) by done. cbn [andb]. clear Hblank.
  destruct (e2 <=? k) eqn:Ek; cbn [negb andb].
  - destruct (i =? length vs - 1); [|by exists F]. cbn [negb]. eexists. split; [done|].
    rewrite (list_insert_id (<[i := _]> ts)); [by apply Forall2_insert|].
    rewrite list_lookup_insert_ne by lia. destruct (Forall2_lookup_l _ _ _ _ _ HF H2) as (s2 & -> & (_ & <- & _)). done.
  - apply Nat.leb_gt in Ek. destruct (bool_decide (char_at body k = "010"%char)) eqn:En; cbn [orb negb].
    + apply bool_decide_eq_true in En. eexists. split; [done|]. apply Forall2_insert; [by apply Forall2_insert|].
      rewrite K3 by (lia || done). split; [cbn; lia|]. split; [done|done].
    + destruct (_ && _) eqn:Er; cbn [negb]; [|by exists F].
      apply andb_true_iff in Er as [[Er1 Er2]%andb_true_iff Er3].
      apply bool_decide_eq_true in Er1, Er3. apply Nat.ltb_lt in Er2.
      assert (k + 1 ≠ e2) by (intros E; apply (N2 ltac:(lia)); by rewrite <- E).
      eexists. split; [done|]. apply Forall2_insert; [by apply Forall2_insert|].
      rewrite K4 by (lia || done). split; [cbn; lia|]. split; [done|done].
Qed.
Definition tag_or_end (x : string) : Prop := x = "" ∨ ∃ r, x = String "{" r.
Lemma fits_at o s x : at_ body o (s +:+ x) → tag_or_end x → fits (o, o + String.length s) s.
Proof.
  intros Hat Hx. pose proof (at_app _ _ _ _ Hat) as [H1 H2]. unfold fits. cbn [fst snd]. split_and!.
  - lia.
  - done.
  - unfold text_of. cbn [fst snd]. destruct Hat as [_ ->]. replace (o + String.length s - o) with (String.length s) by lia.
    by rewrite stake_app.
  - intros Hlt. destruct Hx as [->|[r ->]].
    + pose proof (sdrop_length (o + String.length s) body) as Hl. rewrite H2 in Hl. cbn in Hl. lia.
    + by rewrite (first_char _ _ _ (conj H1 H2)).
Qed.
Lemma tag_begins how name x : tag_or_end (value_text how name +:+ x).
Proof. right. destruct how; by eexists. Qed.
Lemma tree_fragments T : ∀ o post, at_ body o (print T +:+ post) → tag_or_end post →
  Forall2 fits (lead_fragments o T ++ [(o + String.length (lead T), o + String.length (print T))]) (texts T).
Proof.
  induction T as [s|s how name rest IH|s c rest IH|s inv name inner IHi rest IHr];
    intros o post Hat Hpost; cbn [lead_fragments texts lead print app] in *.
  - constructor; [|constructor]. rewrite Nat.add_0_r. by eapply fits_at.
  - rewrite !string_app_assoc in Hat. constructor; [eapply fits_at; [exact Hat|apply tag_begins]|].
    apply at_app, at_app in Hat. apply IH in Hat; [|done]. rewrite !string_length_app, !Nat.add_assoc. done.
  - rewrite !(string_app_assoc s), !(string_app_assoc ("{{!" +:+ c +:+ "}}")) in Hat.
    constructor; [eapply fits_at; [exact Hat|right; by eexists]|].
    apply at_app, at_app in Hat. apply IH in Hat; [|done].
    rewrite (string_length_app s), (string_length_app ("{{!" +:+ c +:+ "}}") (lead rest)), (string_length_app s),
      (string_length_app ("{{!" +:+ c +:+ "}}") (print rest)), !Nat.add_assoc. done.
  - rewrite !string_app_assoc in Hat. constructor; [eapply fits_at; [exact Hat|right; by eexists]|].
    apply at_app, at_app in Hat. fold (inner_at o s inv name) in Hat. set (i := inner_at o s inv name) in *.
    pose proof Hat as Hi. apply IHi in Hi; [|right; by eexists].
    apply at_app, at_app in Hat. replace (i + String.length (print inner)) with (close_at i inner) in Hat, Hi
      by (unfold close_at; rewrite print_lead, string_length_app; lia).
    fold (rest_at i inner name) in Hat. apply IHr in Hat; [|done].
    rewrite <- app_assoc. cbn [app]. rewrite cons_middle, app_assoc. apply Forall2_app; [done|].
    replace (o + _) with (rest_at i inner name + String.length (lead rest))
      by (unfold rest_at, close_at, i, inner_at; rewrite !string_length_app; lia).
    replace (o + _) with (rest_at i inner name + String.length (print rest)); [done|].
    unfold rest_at, close_at, i, inner_at. rewrite (print_lead inner), !string_length_app. lia.
Qed.
Definition is_value (a : Action) : Prop := act_t a = Tag ∨ act_t a = UnescapeTag.
Lemma tree_values T : ∀ o b, Forall2 (λ a (v : bool), act_t a ≠ Partial ∧ (v = true ↔ is_value a))
  (tree_actions o b T) (values T).
Proof.
  assert (∀ a (v : bool), act_t a ≠ Partial → (v = true ↔ is_value a) → act_t a ≠ Partial ∧ (v = true ↔ is_value a)) as H by done.
  assert (∀ p a, act_t (set_match p a) = act_t a) as Hm by done.
  induction T as [s|s how name rest IH|s c rest IH|s inv name inner IHi rest IHr]; intros o b; cbn [tree_actions values].
  - constructor.
  - constructor; [|done]. unfold is_value. destruct how; cbn; split; try done; tauto.
  - constructor; [|done]. unfold is_value. cbn. split; [done|]. split; [done|]. by intros [|].
  - constructor; [unfold is_value; destruct inv; cbn; (split; [done|]); (split; [done|]); by intros [|]|].
    apply Forall2_app; [done|]. constructor; [|done]. unfold is_value. cbn. split; [done|]. split; [done|]. by intros [|].
Qed.
Lemma take_line_length vs i ts : length (take_line vs i ts) = length ts.
Proof. unfold take_line. repeat case_match; by rewrite ?length_insert. Qed.
Lemma take_lines_length vs n ts : length (take_lines vs n ts) = length ts.
Proof. revert ts. induction n as [|n IH]; intros ts; [done|]. cbn [take_lines]. rewrite IH. apply take_line_length. Qed.
Lemma standalones_step vs A n : length A = S (length vs) → n ≤ length vs →
  (∀ i a v, A !! i = Some a → vs !! i = Some v → act_t a ≠ Partial ∧ (v = true ↔ is_value a)) →
  ∀ F ts, Forall2 fits F ts → length ts = S (length vs) →
  ∃ F', standalones body n (F, A) = (F', A) ∧ Forall2 fits F' (take_lines vs n ts).
Proof.
  intros HA Hn Hv. induction n as [|n IH]; intros F ts HF Hl; cbn [standalones take_lines]; [by exists F|].
  pose proof (Forall2_length _ _ _ HF) as HlF.
  destruct (standalone_step n F A ts vs HF HA) as (F' & -> & HF'); [lia|lia|by apply Hv|].
  apply (IH ltac:(lia) F' _ HF'). by rewrite take_line_length.
Qed.
Lemma tree_pairs T : ∀ o b, List.Forall (λ a, missing_end_pair a = false) (tree_actions o b T).
Proof.
  induction T as [s|s how name rest IH|s c rest IH|s inv name inner IHi rest IHr]; intros o b; cbn [tree_actions].
  - constructor.
  - constructor; [by destruct how|done].
  - constructor; [done|done].
  - constructor; [by destruct inv|]. apply list.Forall_app. split; [done|]. constructor; [done|done].
Qed.
Lemma check_pairs_none l : List.Forall (λ a, missing_end_pair a = false) l → check_pairs body l = Ok tt.
Proof. induction 1 as [|a l Ha _ IH]; [done|]. cbn. by rewrite Ha. Qed.
End Compile.

Lemma find_None_prefix c p x y : find (String c p) (x +:+ y) = None → find (String c p) x = None.
Proof.
  induction x as [|d x IH]; [done|]. rewrite string_app_cons. intros [H1 H2]%find_None_cons.
  rewrite find_String; [by rewrite IH|]. apply eq_None_not_Some. intros [r Hr].
  apply (strip_prefix_ext _ _ y) in Hr. rewrite string_app_cons in Hr. congruence.
Qed.
Lemma last_text_ok T : tmpl_ok T → text_ok (last_text T).
Proof. induction T as [s|s how name rest IH|s c rest IH|s inv name inner _ rest IH]; cbn; tauto. Qed.
Lemma tags_short T : tags T ≤ String.length (print T).
Proof.
  induction T as [s|s how name rest IH|s c rest IH|s inv name inner IHi rest IHr]; cbn [tags print]; [lia|..].
  - destruct how; cbn [value_text]; rewrite !string_length_app; cbn; lia.
  - rewrite !string_length_app. cbn. lia.
  - unfold open_text, close_text. rewrite !string_length_app. cbn. lia.
Qed.
Lemma at_start s : at_ s 0 (s +:+ "").
Proof. split; [lia|]. by rewrite string_app_nil_r. Qed.
Lemma values_length T : length (values T) = tags T.
Proof.
  induction T as [s|s how name rest IH|s c rest IH|s inv name inner IHi rest IHr]; cbn;
    rewrite ?length_app, ?IH, ?IHi; cbn; rewrite ?IHr; lia.
Qed.
Lemma compile_print T : tmpl_ok T → ∃ F,
  compile (print T) = Ok (Template F (tree_actions 0 0 T ++ [action_new "!" Ignore 0 0 0]) (print T)) ∧
  Forall2 (fits (print T)) F (take_lines (values T) (tags T) (texts T)).
Proof.
  intros Hok. unfold compile. pose proof (tags_short T) as Hlen.
  replace (S (String.length (print T))) with (tags T + S (String.length (print T) - tags T)) by lia.
  change parsing_new with (defaults [] 0 []). rewrite (parse_tree _ T 0 "") by (done || apply at_start).
  cbn [app length Nat.add]. cbn [parse_loop].
  change (tag_open (defaults ?bs ?o ?A)) with "{{". change (current (defaults ?bs ?o ?A)) with o.
  assert (at_ (print T) (String.length (lead T)) (last_text T)) as Hat.
  { pose proof (at_start (print T)) as H. rewrite string_app_nil_r in H. rewrite print_lead in H at 2.
    by apply at_app in H. }
  rewrite (at_find _ _ _ _ Hat). rewrite (find_None_prefix _ _ _ "{") by by apply last_text_ok.
  cbn [fmap option_fmap option_map mbind result_bind snd actions defaults].
  set (A := tree_actions 0 0 T ++ [action_new "!" Ignore 0 0 0]).
  assert (length A = S (tags T)) as HA by (unfold A; rewrite length_app, tree_actions_length; cbn; lia).
  rewrite check_pairs_none.
  2: { apply list.Forall_app. split; [apply tree_pairs|]. by repeat constructor. }
  cbn [mbind result_bind]. replace (length A - 1) with (tags T) by lia.
  destruct (standalones_step (print T) (values T) A (tags T)) with
    (F := lead_fragments 0 T ++ [(String.length (lead T), String.length (print T))]) (ts := texts T)
    as (F & HF & Hfits).
  - by rewrite values_length.
  - by rewrite values_length.
  - intros i a v Ha Hv. unfold A in Ha.
    rewrite lookup_app_l in Ha by (rewrite tree_actions_length, <- values_length; by eapply lookup_lt_Some).
    destruct (Forall2_lookup_l _ _ _ _ _ (tree_values T 0 0) Ha) as (v' & Hv' & H). by simplify_eq.
  - apply (tree_fragments (print T) T 0 ""); [apply at_start|by left].
  - by rewrite texts_length, values_length.
  - exists F. by rewrite HF.
Qed.

(** The compiled tree is found in the template. *)
Lemma lookup_S {A} (x : A) l n : (x :: l) !! S n = l !! n.
Proof. done. Qed.
Lemma retext_tags T : ∀ ts, length ts = S (tags T) → tags (retext T ts) = tags T.
Proof.
  induction T as [s|s how name rest IH|s c rest IH|s inv name inner IHi rest IHr]; intros [|x ts] H; try done;
    cbn in *; rewrite ?IH by lia; try done.
  rewrite IHi, IHr; [done|rewrite length_drop; lia|]. rewrite firstn_length_le by lia. done.
Qed.
Lemma retext_names T : ∀ ts, plain_names T → plain_names (retext T ts).
Proof.
  induction T as [s|s how name rest IH|s c rest IH|s inv name inner IHi rest IHr]; intros [|x ts] H; try done; cbn in *.
  - destruct H. split; [done|by apply IH].
  - by apply IH.
  - destruct H as (? & ? & ?). split; [done|]. split; [by apply IHi|by apply IHr].
Qed.
Lemma compiled_shows T t : ∀ o b post ts, at_ (body_ t) o (print T +:+ post) → tmpl_ok T →
  length ts = S (tags T) → (∀ i s, ts !! i = Some s → text_at t (b + i) s) →
  (∀ i a, tree_actions o b T !! i = Some a → actions_ t !! (b + i) = Some a) → shows t b (retext T ts).
Proof.
  induction T as [s|s how name rest IH|s c rest IH|s inv name inner IHi rest IHr];
    intros o b post [|x ts] Hat Hok Hts Htext Hact; try done; cbn [tree_actions tags shows print length retext] in *;
    (assert (text_at t b x) as Hx by (rewrite <- (Nat.add_0_r b); by apply Htext)); [done|..];
    (split; [done|]).
  - destruct Hok as (_ & Hn & _ & Hok). rewrite !string_app_assoc in Hat. split.
    + exists (value_action (o + String.length s) how name). split; [rewrite <- (Nat.add_0_r b); by apply Hact|].
      split; [by destruct how|]. split; [|done]. apply at_app in Hat. unfold tag_name, value_action.
      destruct how; cbn [start end_ action_new value_text] in *; rewrite !string_app_assoc in Hat.
      * apply (at_app _ _ "{{") in Hat. by eapply at_piece.
      * apply (at_app _ _ "{{{") in Hat. by eapply at_piece.
      * apply (at_app _ _ "{{&") in Hat. by eapply at_piece.
    + apply at_app, at_app in Hat. apply (IH _ _ post ts Hat Hok); [lia|..].
      * intros i s' H. replace (S b + i) with (b + S i) by lia. by apply Htext.
      * intros i a H. replace (S b + i) with (b + S i) by lia. by apply Hact.
  - destruct Hok as (_ & Hc & Hok). rewrite !(string_app_assoc s), !(string_app_assoc ("{{!" +:+ c +:+ "}}")) in Hat. split.
    + exists (comment_action (o + String.length s) c). split; [rewrite <- (Nat.add_0_r b); by apply Hact|done].
    + apply at_app, at_app in Hat. apply (IH _ _ post ts Hat Hok); [lia|..].
      * intros i s' H. replace (S b + i) with (b + S i) by lia. by apply Htext.
      * intros i a H. replace (S b + i) with (b + S i) by lia. by apply Hact.
  - destruct Hok as (_ & Hn & Hoki & Hokr). rewrite !string_app_assoc in Hat.
    rewrite retext_tags by (rewrite length_take; lia). split_and!.
    + exists (set_match (S b + tags inner) (open_action (o + String.length s) inv name)).
      split; [rewrite <- (Nat.add_0_r b) at 1; by apply Hact|]. split; [by destruct inv|]. split; [|done].
      apply at_app in Hat. unfold open_text in Hat. rewrite !string_app_assoc in Hat.
      apply (at_app _ _ "{{") in Hat. assert (at_ (body_ t) (o + String.length s + 3) (name +:+ "}}" +:+ print inner +:+ close_text name +:+ print rest +:+ post)) as H.
      { replace (o + String.length s + 3) with (o + String.length s + String.length "{{" + 1) by (cbn; lia).
        destruct inv; [by apply (at_app _ _ "^") in Hat|by apply (at_app _ _ "#") in Hat]. }
      by apply at_piece in H.
    + apply at_app, at_app in Hat. apply (IHi _ _ _ (take (S (tags inner)) ts) Hat Hoki).
      * rewrite length_take. lia.
      * intros i s' [H _]%lookup_take_Some. replace (S b + i) with (b + S i) by lia. by apply Htext.
      * intros i a H. replace (S b + i) with (b + S i) by lia. apply Hact. rewrite lookup_S. by apply lookup_app_l_Some.
    + exists (close_action (close_at (inner_at o s inv name) inner) name b). split; [|done].
      replace (S b + tags inner) with (b + S (tags inner)) by lia. apply Hact.
      rewrite lookup_S, lookup_app_r by (by rewrite tree_actions_length). by rewrite tree_actions_length, Nat.sub_diag.
    + apply at_app, at_app in Hat. fold (inner_at o s inv name) in Hat. set (p := inner_at o s inv name) in *.
      apply at_app, at_app in Hat. replace (p + String.length (print inner)) with (close_at p inner) in Hat
        by (unfold close_at; rewrite print_lead, string_length_app; lia).
      apply (IHr _ _ post (drop (S (tags inner)) ts) Hat Hokr).
      * rewrite length_drop. lia.
      * intros i s'. rewrite lookup_drop. intros H.
        replace (S (S b + tags inner) + i) with (b + S (S (tags inner) + i)) by lia. by apply Htext.
      * intros i a H. replace (S (S b + tags inner) + i) with (b + S (tags inner + S i)) by lia.
        apply Hact. rewrite lookup_S, lookup_app_r by (rewrite tree_actions_length; lia).
        rewrite tree_actions_length. by replace (tags inner + S i - tags inner) with (S i) by lia.
Qed.

(** C11: a template renders to what it means.  For a template of texts, values of the three kinds,
    comments, sections and inverted sections, with names without dots, written out in the one
    way there is: compiling the text gives a template, and rendering that, with any context
    without functions and any loader, gives exactly the meaning of the template without the
    lines that hold nothing but one of its other tags, or throws exactly what that meaning
    throws, in a number of turns that is the number of its tags. *)
Theorem renders_as_meant `{ui : !UMapIter} (T : tmpl) (ctx : wvalue) (loader : string → string) :
  tmpl_ok T → plain_names T → function_free ctx →
  ∃ t, compile (print T) = Ok t ∧
    ∀ fuel, tags T < fuel → render_string loader fuel t ctx = denote (standalone_lines T) ctx.
Proof.
  intros Hok Hn Hf. destruct (compile_print T Hok) as (F & Hc & HF). eexists. split; [exact Hc|].
  set (t := Template F _ _). set (ts := take_lines (values T) (tags T) (texts T)) in *. intros fuel Hfuel.
  assert (length ts = S (tags T)) as Hts.
  { rewrite <- texts_length. apply take_lines_length. }
  assert (tags (standalone_lines T) = tags T) as Htags by by apply retext_tags.
  assert (shows t 0 (standalone_lines T)) as Hshow.
  { apply (compiled_shows T t 0 0 "" ts (at_start _) Hok Hts).
    - intros i s Hs. destruct (Forall2_lookup_r _ _ _ _ _ HF Hs) as (fr & Hfr & Hfit).
      exists fr. split; [done|]. by apply fits_piece.
    - intros i a Ha. by apply lookup_app_l_Some. }
  unfold render_string, denote.
  assert (length (fragments_ t) - 1 = tags T) as ->.
  { cbn [t fragments_]. rewrite (Forall2_length _ _ _ HF). fold ts. lia. }
  rewrite (render_meaning loader t (standalone_lines T) 0 (tags T) [ctx] (Ok ([ctx], last_text (standalone_lines T))));
    try done; try lia; [|by apply retext_names|by repeat constructor|].
  - by destruct (meaning _ [ctx]).
  - rewrite Htags. intros fuel' Hf'. destruct fuel' as [|fuel']; [lia|]. apply loop_end.
    rewrite <- Htags. by apply (shows_last _ _ 0).
Qed.
