(* ===== verification/MustacheSafe.v ===== *)
(** * Templates: any text

    What holds of every text, template or not: it compiles or is refused, and a template that was
    compiled nests its blocks, so that rendering it reads no index that is not there and never
    takes from an empty stack. *)

From S2P Require Import Prelude JsonRead JsonWrite Utility Text Mustache.
Local Open Scope nat_scope.

(** ** Blocks nest *)

Definition simple (a : Action) : Prop := act_t a ∉ [OpenBlock; ElseBlock; CloseBlock].
(** The actions from [b] on and before [e]. *)
Inductive balanced (A : list Action) : nat → nat → Prop :=
| bal_nil b : balanced A b b
| bal_simple b e a : A !! b = Some a → simple a → balanced A (S b) e → balanced A b e
| bal_block b p e a c : A !! b = Some a → act_t a ∈ [OpenBlock; ElseBlock] → pos a = p → balanced A (S b) p →
    A !! p = Some c → act_t c = CloseBlock → balanced A (S p) e → balanced A b e.
Lemma balanced_le A b e : balanced A b e → b ≤ e.
Proof. induction 1; lia. Qed.
Lemma balanced_trans A b m e : balanced A b m → balanced A m e → balanced A b e.
Proof. induction 1; intros He; [done| |]; [by eapply bal_simple; eauto|by eapply bal_block; eauto]. Qed.
Lemma balanced_ext A A' b e : balanced A b e → (∀ i, b ≤ i < e → A' !! i = A !! i) → balanced A' b e.
Proof.
  induction 1 as [b|b e a Ha Hs Hb IH|b p e a c Ha Ho Hp Hb1 IH1 Hc Hcl Hb2 IH2]; intros H; [constructor| |].
  - pose proof (balanced_le _ _ _ Hb). apply (bal_simple _ _ _ a); [by rewrite H by lia|done|].
    apply IH. intros i Hi. apply H. lia.
  - pose proof (balanced_le _ _ _ Hb1). pose proof (balanced_le _ _ _ Hb2).
    apply (bal_block _ _ p _ a c); [by rewrite H by lia|done|done| |by rewrite H by lia|done|].
    + apply IH1. intros i Hi. apply H. lia.
    + apply IH2. intros i Hi. apply H. lia.
Qed.
(** While it is parsed: the open blocks, the last one first. *)
Inductive nesting (A : list Action) : list nat → nat → Prop :=
| nest_top n : balanced A 0 n → nesting A [] n
| nest_open b bs n a : nesting A bs b → A !! b = Some a → act_t a ∈ [OpenBlock; ElseBlock] →
    has_end_match a = false → balanced A (S b) n → nesting A (b :: bs) n.
Lemma nesting_le A bs n : nesting A bs n → ∀ b, b ∈ bs → b < n.
Proof.
  induction 1 as [|b bs n a Hn IH Ha Ho Hm Hb]; [set_solver|].
  intros b' [->|Hb']%elem_of_cons; apply balanced_le in Hb; [lia|]. apply IH in Hb'. lia.
Qed.
Lemma nesting_ext A A' bs n : nesting A bs n → (∀ i, i < n → A' !! i = A !! i) → nesting A' bs n.
Proof.
  induction 1 as [n Hb|b bs n a Hn IH Ha Ho Hm Hb]; intros H.
  - constructor. eapply balanced_ext; [done|]. intros i Hi. apply H. lia.
  - pose proof (balanced_le _ _ _ Hb). apply (nest_open _ b bs n a); [|by rewrite H by lia|done|done|].
    + apply IH. intros i Hi. apply H. lia.
    + eapply balanced_ext; [done|]. intros i Hi. apply H. lia.
Qed.
Lemma nesting_more A bs n m : nesting A bs n → balanced A n m → nesting A bs m.
Proof.
  intros [n' Hb|b bs' n' a Hn Ha Ho Hm Hb] H; [constructor|eapply nest_open; try done]; by eapply balanced_trans.
Qed.
(** ** Compiling *)

(** What a part of the compiler throws. *)
Definition stated {A} (r : result A) : Prop :=
  match r with Throw (UB w) => False | Throw _ | Ok _ => True end.
Lemma stated_piece body i j : stated (piece body i j).
Proof. unfold piece, substr. by repeat case_match. Qed.
Definition nested (s : parsing) : Prop := nesting (actions s) (blockPositions s) (length (actions s)).
(** What a tag does to the state of the parser. *)
Inductive tag_step (s : parsing) : parsing → Prop :=
| step_simple a o c n : act_t a ∉ [OpenBlock; ElseBlock; CloseBlock] → current s ≤ n →
    tag_step s (Parsing o c (blockPositions s) n (actions s ++ [a]))
| step_open a : act_t a ∈ [OpenBlock; ElseBlock] → has_end_match a = false →
    tag_step s (Parsing (tag_open s) (tag_close s) (length (actions s) :: blockPositions s) (current s) (actions s ++ [a]))
| step_close b bs a : blockPositions s = b :: bs → act_t a = CloseBlock →
    tag_step s (Parsing (tag_open s) (tag_close s) bs (current s)
      (alter (set_match (length (actions s))) b (actions s) ++ [a])).
Lemma tag_step_length s s' : tag_step s s' → length (actions s') = S (length (actions s)).
Proof. destruct 1; cbn [actions]; rewrite length_app, ?length_alter; cbn; lia. Qed.
Lemma tag_step_nested s s' : nested s → tag_step s s' → nested s'.
Proof.
  unfold nested. intros Hn [a o c n Ha _|a Ha Hm|b bs a Hb Ha]; cbn [actions blockPositions] in *.
  - rewrite length_app. cbn. rewrite Nat.add_1_r.
    apply (nesting_more _ _ (length (actions s))); [eapply nesting_ext; [exact Hn|]|].
    + intros i Hi. by rewrite lookup_app_l.
    + eapply bal_simple; [by rewrite list_lookup_middle|done|constructor].
  - rewrite length_app. cbn. rewrite Nat.add_1_r. apply (nest_open _ _ _ _ a); try done; [|by rewrite list_lookup_middle|constructor].
    eapply nesting_ext; [exact Hn|]. intros i Hi. by rewrite lookup_app_l.
  - rewrite Hb in Hn. inversion Hn as [|b' bs' n a0 Hn' Ha0 Ho Hm0 Hbal]; subst.
    rewrite length_app, length_alter. cbn. rewrite Nat.add_1_r. pose proof (balanced_le _ _ _ Hbal) as Hle.
    apply (nesting_more _ _ b).
    + eapply nesting_ext; [exact Hn'|]. intros i Hi.
      rewrite lookup_app_l by (rewrite length_alter; lia). by rewrite list_lookup_alter_ne by lia.
    + apply (bal_block _ _ (length (actions s)) _ (set_match (length (actions s)) a0) a); try done; [| | |constructor].
      * rewrite lookup_app_l by (rewrite length_alter; lia). by rewrite list_lookup_alter_eq, Ha0.
      * eapply balanced_ext; [exact Hbal|]. intros i Hi.
        rewrite lookup_app_l by (rewrite length_alter; lia). by rewrite list_lookup_alter_ne by lia.
      * apply list_lookup_middle. by rewrite length_alter.
Qed.

Section Tags.
Context (body : string).
Definition tag_result (s : parsing) (r : result parsing) : Prop :=
  match r with Ok s' => tag_step s s' | Throw (UB _) => False | Throw _ => True end.
Lemma tag_result_bind {A} s (r : result A) f : stated r → (∀ x, tag_result s (f x)) → tag_result s (x ← r; f x).
Proof. destruct r as [x|[]]; try done. intros _ H. apply H. Qed.
Lemma tag_result_add s a : act_t a ∉ [OpenBlock; ElseBlock; CloseBlock] → tag_result s (Ok (add_action a s)).
Proof. intros Ha. by apply (step_simple s a (tag_open s) (tag_close s)). Qed.
Lemma close_block_step c idx endIdx s : nested s → tag_result s (close_block body c idx endIdx s).
Proof.
  intros Hn. unfold close_block. apply tag_result_bind; [apply stated_piece|]. intros name.
  destruct (blockPositions s) as [|b bs] eqn:Hb; [done|]. 
  assert (is_Some (actions s !! b)) as [matched ->].
  { apply lookup_lt_is_Some. apply (nesting_le _ _ _ Hn). rewrite Hb. by left. }
  apply tag_result_bind; [apply stated_piece|]. intros opened. case_bool_decide; [|done].
  by apply (step_close s b bs).
Qed.
Lemma set_tags_step c idx endIdx s : tag_result s (set_tags body c idx endIdx s).
Proof.
  unfold set_tags. case_match; [by apply tag_result_bind; [apply stated_piece|]|].
  destruct (find_space _ _ _) as [i|]; [|done]. apply tag_result_bind; [apply stated_piece|]. intros o.
  apply tag_result_bind; [apply stated_piece|]. intros c'. repeat case_bool_decide; try done.
  apply (step_simple s (action_new c Ignore idx endIdx 0) o c' (current s)); [set_solver|lia].
Qed.
Lemma parse_tag_step idx endIdx s : nested s → tag_result s (parse_tag body idx endIdx s).
Proof.
  intros Hn. assert (∀ c t i j, t ∉ [OpenBlock; ElseBlock; CloseBlock] →
    tag_result s (Ok (add_action (named body c t i j 0) s))) as Hadd by (intros; by apply tag_result_add).
  unfold parse_tag.
  case_bool_decide; [by apply (step_open s); [set_solver|]|].
  case_bool_decide; [by apply close_block_step|].
  case_bool_decide; [by apply (step_open s); [set_solver|]|].
  case_bool_decide; [apply tag_result_add; set_solver|].
  case_bool_decide; [apply Hadd; set_solver|].
  case_bool_decide.
  { case_match; [done|]. case_match; [done|].
    apply (step_simple s _ (tag_open s) (tag_close s) (S (current s))); [set_solver|lia]. }
  case_bool_decide; [apply Hadd; set_solver|].
  case_bool_decide; [apply set_tags_step|apply Hadd; set_solver].
Qed.

(** Each turn of the loop begins further on. *)
Lemma find_from_bounds pat n s i : find_from pat n s = Some i → n ≤ i ∧ i + String.length pat ≤ String.length s.
Proof.
  unfold find_from. destruct (Nat.ltb_spec (String.length s) n); [done|].
  destruct (find pat (sdrop n s)) as [k|] eqn:E; [|done]. intros [= <-].
  apply find_Some in E as [_ E]. rewrite sdrop_length in E. lia.
Qed.
Lemma tag_step_current s s' : tag_step s s' → current s ≤ current s'.
Proof. by destruct 1; cbn. Qed.
(** The actions nest, but for the blocks that are still open. *)
Definition loop_result (r : result (list (nat * nat) * list Action)) : Prop :=
  match r with
  | Ok (fr, A) => ∃ bs, length fr = length A ∧ 0 < length A ∧ nesting A bs (length A - 1)
  | Throw (UB _) => False
  | Throw _ => True
  end.
Lemma parse_loop_result fuel : ∀ fr s, String.length body - current s < fuel → nested s →
  length fr = length (actions s) → loop_result (parse_loop body fuel fr s).
Proof.
  induction fuel as [|fuel IH]; intros fr s Hf Hn Hl; [lia|]. cbn [parse_loop].
  destruct (find_from (tag_open s) (current s) body) as [found|] eqn:E1.
  - destruct (find_from (tag_close s) _ body) as [endIdx|] eqn:E2; [|done].
    case_bool_decide as Hne; [done|]. apply find_from_bounds in E1, E2.
    set (s1 := set_current _ s).
    pose proof (parse_tag_step (found + String.length (tag_open s)) endIdx s1 Hn) as Hstep.
    destruct (parse_tag _ _ _ _) as [s'|[]]; try done. cbn [mbind result_bind tag_result] in *.
    pose proof (tag_step_current _ _ Hstep). cbn [current s1 set_current] in *.
    apply IH; [lia|by apply (tag_step_nested s1)|].
    rewrite (tag_step_length _ _ Hstep), length_app, Hl. cbn. lia.
  - exists (blockPositions s). rewrite !length_app, Hl. cbn. split_and!; [lia|lia|].
    replace (length (actions s) + 1 - 1) with (length (actions s)) by lia.
    eapply nesting_ext; [exact Hn|]. intros i Hi. by rewrite lookup_app_l.
Qed.
End Tags.

(** ** Compiled templates *)

Definition well_nested (t : template_t) : Prop :=
  length (fragments_ t) = length (actions_ t) ∧ 0 < length (actions_ t) ∧
  balanced (actions_ t) 0 (length (actions_ t) - 1).
Lemma balanced_set_pos A i a p b e : A !! i = Some a → act_t a = Partial →
  balanced A b e → balanced (alter (set_pos p) i A) b e.
Proof.
  intros Hi Hp.
  assert (∀ j c, A !! j = Some c → act_t c ≠ Partial → alter (set_pos p) i A !! j = Some c) as Hne.
  { intros j c Hj Hc. rewrite list_lookup_alter_ne; [done|]. intros ->. congruence. }
  induction 1 as [b|b e a' Ha Hs Hb IH|b q e a' c Ha Ho Hq Hb1 IH1 Hc Hcl Hb2 IH2]; [constructor| |].
  - destruct (decide (i = b)) as [->|Hib].
    + eapply bal_simple; [by rewrite list_lookup_alter_eq, Ha| |done]. done.
    + by eapply bal_simple; [rewrite list_lookup_alter_ne|..].
  - eapply bal_block; [| | |done| | |done]; [apply Hne; [done|]|done|done|apply Hne; [done|]|done].
    + intros E. rewrite E in Ho. set_solver.
    + by rewrite Hcl.
Qed.
Lemma standalone_shape body i fr A : let fa := standalone body i (fr, A) in
  length (fst fa) = length fr ∧ length (snd fa) = length A ∧ ∀ b e, balanced A b e → balanced (snd fa) b e.
Proof.
  assert (∀ a p, A !! i = Some a → act_t a = Partial → length (alter (set_pos p) i A) = length A ∧
    ∀ b e, balanced A b e → balanced (alter (set_pos p) i A) b e) as Hset.
  { intros a p Ha Hp. split; [apply length_alter|]. intros b e. by apply (balanced_set_pos _ _ a). }
  unfold standalone. destruct (A !! i) as [a|] eqn:Ha; [|done].
  destruct (fr !! i) as [[f1 s1]|]; [|done]. destruct (fr !! S i) as [[f2 s2]|]; [|done].
  case_bool_decide; [done|]. do 4 (case_match; [done|]).
  split; [by case_match; cbn [fst]; rewrite !length_insert|]. cbn [snd].
  destruct (decide (act_t a = Partial)) as [Hp|Hp];
    [rewrite (bool_decide_eq_true_2 (act_t a = Partial)) by done; by eapply Hset|].
  by rewrite (bool_decide_eq_false_2 (act_t a = Partial)) by done.
Qed.
Lemma standalones_shape body n : ∀ fr A, let fa := standalones body n (fr, A) in
  length (fst fa) = length fr ∧ length (snd fa) = length A ∧ ∀ b e, balanced A b e → balanced (snd fa) b e.
Proof.
  induction n as [|n IH]; intros fr A; [done|]. cbn [standalones].
  pose proof (standalone_shape body n fr A) as (H1 & H2 & H3). destruct (standalone _ _ _) as [fr' A'].
  destruct (IH fr' A') as (H4 & H5 & H6). cbn [fst snd] in *. split_and!; [congruence|congruence|]. eauto.
Qed.
Lemma check_pairs_result body l :
  match check_pairs body l with
  | Ok _ => List.Forall (λ a, missing_end_pair a = false) l
  | Throw (UB _) => False
  | Throw _ => True
  end.
Proof.
  induction l as [|a l IH]; [by constructor|]. cbn. destruct (missing_end_pair a) eqn:Ha.
  - pose proof (stated_piece body (start a) (end_ a)) as Hs. by destruct (piece body _ _) as [|[]].
  - destruct (check_pairs body l) as [|[]]; try done. by constructor.
Qed.
Lemma nesting_closed A bs n : nesting A bs n → List.Forall (λ a, missing_end_pair a = false) A → balanced A 0 n.
Proof.
  intros [n' Hb|b bs' n' a Hn Ha Ho Hm Hb] HA; [done|]. exfalso.
  rewrite list.Forall_lookup in HA. specialize (HA _ _ Ha). unfold missing_end_pair in HA. rewrite Hm in HA.
  destruct (act_t a); set_solver.
Qed.
(** Every text is a well-nested template or is refused with an error that is meant. *)
Lemma compile_result body :
  match compile body with Ok t => well_nested t ∧ body_ t = body | Throw (UB _) => False | Throw _ => True end.
Proof.
  unfold compile.
  assert (loop_result (parse_loop body (S (String.length body)) [] parsing_new)) as Hp
    by (apply parse_loop_result; [unfold parsing_new; cbn [current]; lia|by constructor; constructor|done]).
  destruct (parse_loop body _ _ _) as [[fr A]|[]]; try done. cbn [mbind result_bind snd].
  destruct Hp as (bs & Hl & Hpos & Hn).
  pose proof (check_pairs_result body A) as Hc. destruct (check_pairs body A) as [|[]]; try done.
  cbn [mbind result_bind]. pose proof (standalones_shape body (length A - 1) fr A) as (H1 & H2 & H3).
  destruct (standalones _ _ _) as [fr' A']. cbn [fst snd] in *. split; [|done]. unfold well_nested.
  cbn [fragments_ actions_]. rewrite H1, H2. split_and!; [done..|]. apply H3. by eapply nesting_closed.
Qed.

(** ** Rendering *)

(** A result of [P], an error that is meant, or no fuel left. *)
Definition safe {A} (P : A → Prop) (r : result A) : Prop :=
  match r with Ok x => P x | Throw (UB w) => UB w = running | Throw _ => True end.
Lemma safe_bind {A B} (P : A → Prop) (Q : B → Prop) (r : result A) f :
  safe P r → (∀ x, P x → safe Q (f x)) → safe Q (x ← r; f x).
Proof. destruct r as [x|[]]; cbn; auto. Qed.
Lemma safe_piece body i j : safe (λ _, True) (piece body i j).
Proof. unfold piece, substr. by repeat case_match. Qed.
Lemma safe_name {B} t a (f : string → result B) Q : (∀ x, safe Q (f x)) → safe Q (name ← tag_name t a; f name).
Proof. intros H. by eapply safe_bind; [apply safe_piece|]. Qed.
Lemma safe_fragment t p n : safe (λ _, True) (render_fragment t p n).
Proof. unfold render_fragment. case_match; [apply safe_piece|done]. Qed.
Lemma safe_find_context name stack only_first : stack ≠ [] → safe (λ _, True) (find_context name stack only_first).
Proof. intros H. unfold find_context. case_bool_decide; [by destruct stack|]. by case_match. Qed.
Lemma safe_inside t n stack : stack ≠ [] → safe (λ _, True) (isTagInsideObjectBlock t n stack).
Proof.
  intros H. unfold isTagInsideObjectBlock. generalize 0%Z.
  induction (rev _) as [|a l IH]; intros z; [done|]. cbn [inside_block].
  destruct stack as [|v stack]; [done|]. by repeat case_match.
Qed.
Lemma safe_compile body : safe well_nested (compile body).
Proof. pose proof (compile_result body) as H. by destruct (compile body) as [|[]]; [apply H|..]. Qed.

Section Render.
Context `{ui : !UMapIter} (loader : string → string).

Definition kept (stack : list wvalue) : list wvalue * string → Prop := λ x, fst x = stack.
Lemma safe_each one stack l : (∀ x, safe (kept (x :: stack)) (one (x :: stack))) →
  safe (kept stack) (each_item one l stack).
Proof.
  intros H. induction l as [|x l IH]; [done|]. cbn [each_item].
  eapply safe_bind; [apply H|]. intros [? s] [= ->]. cbn.
  eapply safe_bind; [exact IH|]. by intros [? s'] [= ->].
Qed.
Lemma safe_plug one n : (∀ t, well_nested t → safe (λ _, True) (one t)) →
  ∀ s, safe (λ _, True) (plug_all one n s).
Proof.
  intros H. induction n as [|n IH]; intros s; [done|]. cbn [plug_all]. case_bool_decide; [|done].
  eapply safe_bind; [apply safe_compile|]. intros t Ht. eapply safe_bind; [by apply H|]. intros s' _. apply IH.
Qed.
Lemma safe_text plug escaped v : (∀ s, safe (λ _, True) (plug s)) → safe (λ _, True) (tag_text plug escaped v).
Proof. intros H. destruct v; try done; eapply (safe_bind (λ _, True)); auto; by destruct escaped. Qed.

(** How the rendering of an internal range may be called. *)
Definition whole_safe (ri : template_t → nat → nat → list wvalue → nat → result (list wvalue * string)) : Prop :=
  ∀ t b e stack n, well_nested t → stack ≠ [] → balanced (actions_ t) b e → e < length (fragments_ t) →
    safe (kept stack) (ri t b e stack n).
Lemma safe_whole ri t stack n : whole_safe ri → well_nested t → stack ≠ [] →
  safe (kept stack) (ri t 0 (length (fragments_ t) - 1) stack n).
Proof. intros H Ht Hs. pose proof Ht as (Hl & Hp & Hb). apply H; rewrite ?Hl; try done. lia. Qed.
Lemma safe_simple ri fuel t a i stack n : whole_safe ri → stack ≠ [] → simple a →
  safe (λ x, fst x = (stack, snd (fst x)) ∧ snd x = i) (do_action loader ri fuel t a i stack n).
Proof.
  intros Hri Hs Ha. unfold do_action. unfold simple in Ha.
  assert (safe (λ x : after_tag, fst x = (stack, snd (fst x)) ∧ snd x = i) (
      only_first ← isTagInsideObjectBlock t i stack;
      name ← tag_name t a;
      ctx ← find_context name stack only_first;
      s ← tag_text (plug_all (λ result_plug, match last stack with
        | Some bottom => '(_, s) ← ri result_plug 0 (length (fragments_ result_plug) - 1) [bottom] 0; Ok s
        | None => Throw (UB "front of an empty stack")
        end) fuel) (bool_decide (act_t a = Tag)) (default (WString "") ctx);
      Ok (stack, s, i))) as Htag.
  { eapply safe_bind; [by apply safe_inside|]. intros only_first _. apply safe_name. intros name.
    eapply safe_bind; [by apply safe_find_context|]. intros ctx _.
    eapply safe_bind; [apply safe_text, safe_plug|by intros s _].
    intros t' Ht'. destruct (last stack) as [bottom|] eqn:E; [|by apply last_None in E].
    eapply safe_bind; [by apply safe_whole|]. by intros [? s] _. }
  destruct (act_t a); [done|exact Htag|exact Htag|set_solver..|].
  apply safe_name. intros name. eapply safe_bind; [apply safe_compile|]. intros t' Ht'.
  eapply safe_bind; [by apply safe_whole|]. by intros [? s] [= ->].
Qed.
(** What the opening tag of the block from [i] to [p] does: on to its end, or into it. *)
Definition past_or_into (stack : list wvalue) (i p : nat) (x : after_tag) : Prop :=
  fst (fst x) = stack ∧ snd x = p ∨ ∃ v, fst (fst x) = v :: stack ∧ snd x = i.
Lemma safe_open ri fuel t a i stack n : whole_safe ri → well_nested t → stack ≠ [] →
  act_t a ∈ [OpenBlock; ElseBlock] → balanced (actions_ t) (S i) (pos a) → pos a < length (fragments_ t) →
  safe (past_or_into stack i (pos a)) (do_action loader ri fuel t a i stack n).
Proof.
  intros Hri Ht Hs Ha Hb Hp.
  assert (∀ s, past_or_into stack i (pos a) (stack, s, pos a)) as Hpast by by left.
  assert (∀ v s, past_or_into stack i (pos a) (v :: stack, s, i)) as Hinto by by right; eexists.
  unfold do_action. apply elem_of_cons in Ha as [->|[->|[]%elem_of_nil]%elem_of_cons];
    apply safe_name; intros name; [unfold open_block|unfold else_block];
    (eapply safe_bind; [by apply safe_find_context|]); intros [v|] _; cbn; auto.
  - destruct v; cbn; auto. apply (safe_bind (kept stack)); [|by intros [? s] [= ->]; apply Hpast].
    apply safe_each. intros x. by apply Hri.
  - destruct v as [| | | | | | | |[]| |]; cbn; auto.
Qed.
Definition internal (fuel : nat) : template_t → nat → nat → list wvalue → nat → result (list wvalue * string) :=
  λ t begin end_ stack n, '(stack, s) ← render_loop loader fuel t begin end_ stack n; Ok (stack, spaces n +:+ s).
(** From [b] on, when it is so from [m] on. *)
Definition loop_safe (fuel : nat) : Prop := ∀ t b m e stack n out, well_nested t → stack ≠ [] →
  balanced (actions_ t) b m → m ≤ e → e < length (fragments_ t) →
  (∀ fuel', fuel' ≤ fuel → safe (kept out) (render_loop loader fuel' t m e stack n)) →
  safe (kept out) (render_loop loader fuel t b e stack n).
Lemma safe_at_end fuel t e stack n : e < length (fragments_ t) →
  safe (kept stack) (render_loop loader fuel t e e stack n).
Proof.
  intros He. destruct fuel as [|fuel]; [done|]. cbn [render_loop]. rewrite (proj2 (Nat.leb_le e e)) by lia.
  destruct (lookup_lt_is_Some_2 (fragments_ t) e) as [fr ->]; [done|].
  eapply safe_bind; [apply safe_fragment|]. by intros text _.
Qed.
Lemma whole_safe_internal fuel : loop_safe fuel → whole_safe (internal fuel).
Proof.
  intros H t b e stack n Ht Hs Hb He. unfold internal.
  eapply (safe_bind (kept stack)); [|by intros [? s] [= ->]].
  apply (H t b e e stack n stack); auto using safe_at_end.
Qed.
(** One turn of the loop. *)
Lemma safe_turn fuel t b e stack n out a (P : after_tag → Prop) : actions_ t !! b = Some a → b < e →
  e < length (fragments_ t) →
  safe P (do_action loader (internal fuel) fuel t a b stack n) →
  (∀ stack s i, P (stack, s, i) → safe (kept out) (render_loop loader fuel t (S i) e stack n)) →
  safe (kept out) (render_loop loader (S fuel) t b e stack n).
Proof.
  intros Ha Hb He HP Hk. cbn [render_loop]. rewrite (proj2 (Nat.leb_gt e b)) by lia.
  destruct (lookup_lt_is_Some_2 (fragments_ t) b) as [fr ->]; [lia|]. rewrite Ha.
  eapply safe_bind; [apply safe_fragment|]. intros text _.
  eapply safe_bind; [exact HP|]. intros [[st s] i] Hi.
  eapply safe_bind; [by eapply Hk|]. by intros [? rest] [= ->].
Qed.
Lemma render_loop_safe fuel : loop_safe fuel.
Proof.
  induction fuel as [fuel IH] using lt_wf_ind. intros t b m e stack n out Ht Hs Hb Hme He Hk.
  destruct Hb as [b|b m a Ha Hsim Hb|b p m a c Ha Ho Hp Hb1 Hc Hcl Hb2]; [by apply Hk| |];
    (destruct fuel as [|fuel]; [done|]).
  - pose proof (balanced_le _ _ _ Hb). eapply safe_turn; [done|lia|done|..].
    + by apply safe_simple; [apply whole_safe_internal, IH; lia|..].
    + intros st s i [[= ->] [= ->]]. apply (IH fuel ltac:(lia) t (S b) m); auto.
  - pose proof (balanced_le _ _ _ Hb1). pose proof (balanced_le _ _ _ Hb2). subst p.
    assert (∀ f, f ≤ fuel → safe (kept out) (render_loop loader f t (S (pos a)) e stack n)) as Hrest.
    { intros f Hf. apply (IH f ltac:(lia) t _ m); auto with lia. }
    eapply safe_turn; [done|lia|done|..].
    + apply safe_open; try done; [apply whole_safe_internal, IH; lia|lia].
    + intros st s i [[[= ->] [= ->]]|(v & [= ->] & [= ->])]; [by apply Hrest|].
      apply (IH fuel ltac:(lia) t (S b) (pos a)); try done; [lia|].
      intros [|f] Hf; [done|]. eapply (safe_turn f t (pos a) e _ _ _ c (λ x, fst (fst x) = stack ∧ snd x = pos a));
        [done|lia|done|by unfold do_action; rewrite Hcl|].
      intros st s' i [[= ->] [= ->]]. apply Hrest. lia.
Qed.
End Render.

(** C13: any text is either compiled or refused with an error that is meant, so compiling it ends;
    and rendering what was compiled, against any context, with any loader and with functions in
    the context, never reads an action or a fragment that is not there and never takes from or
    looks at an empty stack of contexts, however long it goes on. *)
Theorem render_safe `{ui : !UMapIter} (loader : string → string) body ctx fuel :
  match compile body with Throw (UB _) => False | _ => True end ∧
  match (t ← compile body; render_string loader fuel t ctx) with
  | Throw (UB w) => UB w = running
  | _ => True
  end.
Proof.
  pose proof (compile_result body) as H. destruct (compile body) as [t|[]]; try done.
  destruct H as [(Hl & Hp & Hb) _]. split; [done|]. change (safe (λ _, True) (render_string loader fuel t ctx)).
  eapply (safe_bind (kept [ctx])); [|by intros [? s] _].
  apply (render_loop_safe loader fuel t 0 (length (actions_ t) - 1) _ [ctx] 0 [ctx]); try done; [lia|lia|].
  intros fuel' _. rewrite Hl. apply safe_at_end. lia.
Qed.
