(* ===== verification/MustacheExamples.v ===== *)
(** * Templates: examples

    The theorems of MustacheSpec.v at a template of several lines, and what the compiler and the
    renderer do with some texts that the theorems leave out. *)

From S2P Require Import Prelude JsonRead JsonWrite Utility Text Mustache MustacheSpec.
Local Open Scope nat_scope.

Definition NL : string := String "010" "".
(** Render [body], or say that it was not compiled. *)
Definition rendered (body : string) (ctx : wvalue) : result string :=
  t ← compile body; render_string (λ _, "") 100 t ctx.

(** A list of orders, a comment, and what is shown when there is none. *)
Definition orders_template : tmpl :=
  Value "Orders of " Escaped "user"
  (Block (":" +:+ NL) false "orders"
    (Value (NL +:+ "- ") Escaped "item"
    (Value ": " Triple "price" (Last NL)))
  (Comment NL " no orders " (Block NL true "orders" (Last ("none" +:+ NL)) (Last (NL +:+ "."))))).
Definition order_value (item : string) (price : Z) : wvalue :=
  WObject [("item", WString item); ("price", WSigned price)].
Definition orders_value : wvalue :=
  WObject [("user", WString "<Ann>"); ("orders", WList [order_value "tea" 3; order_value "bread" 2])].
Lemma renders_as_meant_witness :
  denote (standalone_lines orders_template) orders_value
  = Ok ("Orders of &lt;Ann&gt;:" +:+ NL +:+ "- tea: 3" +:+ NL +:+ "- bread: 2" +:+ NL +:+ ".") ∧
  ∃ t, compile (print orders_template) = Ok t ∧
    ∀ fuel, tags orders_template < fuel →
      render_string (λ _, "") fuel t orders_value = denote (standalone_lines orders_template) orders_value.
Proof.
  split; [vm_compute; reflexivity|]. apply (renders_as_meant orders_template orders_value (λ _, "")).
  - cbn [tmpl_ok orders_template]. repeat split; try (vm_compute; reflexivity); vm_compute; set_solver.
  - cbn [plain_names orders_template]. repeat split; right; by repeat constructor.
  - cbn. tauto.
Defined.

(** A partial that stands alone on its line is indented as its tag is. *)
Example partial_indented :
  (t ← compile ("a" +:+ NL +:+ "  {{>p}}" +:+ NL +:+ "b"); render_string (λ _, "x" +:+ NL +:+ "y" +:+ NL) 10 t WNull)
  = Ok ("a" +:+ NL +:+ "  x" +:+ NL +:+ "  y" +:+ NL +:+ "b").
Proof. vm_compute. reflexivity. Qed.
(** What a function returns is a template again. *)
Example function_plugged :
  rendered "{{f}}" (WObject [("f", WFunction (λ _, "{{a}}!")); ("a", WString "1")]) = Ok "1!".
Proof. vm_compute. reflexivity. Qed.
(** Other delimiters. *)
Example delimiters_changed :
  rendered "{{=<% %>=}}<%a%>{{a}}" (WObject [("a", WSigned 7)]) = Ok "7{{a}}".
Proof. vm_compute. reflexivity. Qed.
(** Blocks that do not match are refused. *)
Example crossed_blocks :
  compile "{{#a}}{{#b}}{{/a}}{{/b}}" = invalid "not matched {{#{{/ pair: b, a" ∧
  compile "{{/a}}" = invalid "unexpected closing tag: a".
Proof. by vm_compute. Qed.
(** The name of a tag of spaces is all of the text that follows it. *)
Example blank_name : compile "{{# }} text" = invalid "open tag has no matching end tag {{# {{/ pair: }} text".
Proof. vm_compute. reflexivity. Qed.
(** In a section of an object a name with dots is not looked for outside, but after an inverted
    section it is. *)
Example inverted_section_uncounted :
  let ctx := WObject [("o", WObject [("k", WTrue)]); ("p", WObject [("q", WString "outer")])] in
  rendered "{{#o}}{{p.q}}{{/o}}" ctx = Ok "" ∧
  rendered "{{#o}}{{^k}}{{/k}}{{p.q}}{{/o}}" ctx = Ok "outer".
Proof. by vm_compute. Qed.
