(* ===== verification/Sha1.v ===== *)
(** * SHA-1: crow/TinySHA1.hpp

    The class [SHA1] as it takes its message, a byte at a time into a block of 64, and the
    function of FIPS 180-4 on whole messages, which it computes. *)

From Stdlib Require Import ZifyNat.
From S2P Require Import Prelude.
Open Scope Z_scope.

(** ** The class *)

Definition u32 (z : Z) : Z := uwrap 32 z.
Definition LeftRotate (value count : Z) : Z :=
  Z.lxor (u32 (Z.shiftl value count)) (Z.shiftr value (32 - count)).

Record digest32 : Type := Digest { h0 : Z; h1 : Z; h2 : Z; h3 : Z; h4 : Z }.
(** [m_block] is not initialised: it holds what the memory holds. *)
Record SHA1 : Type := Sha1 {
  m_digest : digest32;
  m_block : list Z;
  m_blockByteIndex : nat;
  m_byteCount : Z;
}.
Definition reset (memory : list Z) : SHA1 :=
  Sha1 (Digest 0x67452301 0xEFCDAB89 0x98BADCFE 0x10325476 0xC3D2E1F0) memory 0 0.

(** The words [w[0]] to [w[15]], and the loop for the others. *)
Definition block_word (block : list Z) (i : nat) : Z :=
  Z.lor (Z.lor (Z.lor (u32 (Z.shiftl (block !!! (i * 4 + 0)%nat) 24))
                      (u32 (Z.shiftl (block !!! (i * 4 + 1)%nat) 16)))
               (u32 (Z.shiftl (block !!! (i * 4 + 2)%nat) 8)))
        (block !!! (i * 4 + 3)%nat).
Definition extend_word (w : list Z) (i : nat) : list Z :=
  w ++ [LeftRotate (Z.lxor (Z.lxor (Z.lxor (w !!! (i - 3)%nat) (w !!! (i - 8)%nat))
                              (w !!! (i - 14)%nat)) (w !!! (i - 16)%nat)) 1].
Definition block_words (block : list Z) : list Z :=
  foldl extend_word (block_word block <$> seq 0 16) (seq 16 64).

(** One turn of the loop of [processBlock]. *)
Definition block_round (w : list Z) (s : digest32) (i : nat) : digest32 :=
  let '(Digest a b c d e) := s in
  let '(f, k) :=
    if (i <? 20)%nat then (Z.lor (Z.land b c) (Z.land (u32 (Z.lnot b)) d), 0x5A827999)
    else if (i <? 40)%nat then (Z.lxor (Z.lxor b c) d, 0x6ED9EBA1)
    else if (i <? 60)%nat then
      (Z.lor (Z.lor (Z.land b c) (Z.land b d)) (Z.land c d), 0x8F1BBCDC)
    else (Z.lxor (Z.lxor b c) d, 0xCA62C1D6) in
  let temp := u32 (LeftRotate a 5 + f + e + k + (w !!! i)) in
  Digest temp a (LeftRotate b 30) c d.
Definition digest_add (x y : digest32) : digest32 :=
  Digest (u32 (h0 x + h0 y)) (u32 (h1 x + h1 y)) (u32 (h2 x + h2 y)) (u32 (h3 x + h3 y))
         (u32 (h4 x + h4 y)).
Definition processBlock (s : SHA1) : SHA1 :=
  let w := block_words (m_block s) in
  Sha1 (digest_add (m_digest s) (foldl (block_round w) (m_digest s) (seq 0 80)))
       (m_block s) (m_blockByteIndex s) (m_byteCount s).

Definition processByte (s : SHA1) (octet : Z) : SHA1 :=
  let s1 := Sha1 (m_digest s) (<[m_blockByteIndex s := octet]> (m_block s))
                 (S (m_blockByteIndex s)) (uwrap 64 (m_byteCount s + 1)) in
  if (m_blockByteIndex s1 =? 64)%nat
  then processBlock (Sha1 (m_digest s1) (m_block s1) 0 (m_byteCount s1))
  else s1.
Definition processBytes (s : SHA1) (data : list Z) : SHA1 := foldl processByte s data.

(** [while (go(m_blockByteIndex)) processByte(0)]. *)
Fixpoint fill_while (fuel : nat) (go : nat → bool) (s : SHA1) : SHA1 :=
  match fuel with
  | O => s
  | S fuel' => if go (m_blockByteIndex s) then fill_while fuel' go (processByte s 0) else s
  end.
Definition getDigest (s : SHA1) : digest32 :=
  let bitCount := uwrap 64 (m_byteCount s * 8) in
  let s := processByte s 0x80 in
  let s :=
    if (56 <? m_blockByteIndex s)%nat
    then fill_while 64 (λ i, i <? 56)%nat (fill_while 64 (λ i, negb (i =? 0))%nat s)
    else fill_while 64 (λ i, i <? 56)%nat s in
  let s := processBytes s [0; 0; 0; 0] in
  let s := processByte s (Z.land (Z.shiftr bitCount 24) 0xFF) in
  let s := processByte s (Z.land (Z.shiftr bitCount 16) 0xFF) in
  let s := processByte s (Z.land (Z.shiftr bitCount 8) 0xFF) in
  let s := processByte s (Z.land bitCount 0xFF) in
  m_digest s.
Definition word_bytes (d : Z) : list Z :=
  [Z.land (Z.shiftr d 24) 0xFF; Z.land (Z.shiftr d 16) 0xFF; Z.land (Z.shiftr d 8) 0xFF;
   Z.land d 0xFF].
Definition getDigestBytes (s : SHA1) : list Z :=
  let d32 := getDigest s in
  word_bytes (h0 d32) ++ word_bytes (h1 d32) ++ word_bytes (h2 d32) ++ word_bytes (h3 d32)
  ++ word_bytes (h4 d32).

(** ** The standard *)

Module Fips.
Definition word_size : Z := 2 ^ 32.
Definition ROTL (n x : Z) : Z := Z.lor (Z.shiftl x n mod word_size) (Z.shiftr x (32 - n)).
Definition Ch (x y z : Z) : Z := Z.lxor (Z.land x y) (Z.land (Z.lxor x (word_size - 1)) z).
Definition Parity (x y z : Z) : Z := Z.lxor x (Z.lxor y z).
Definition Maj (x y z : Z) : Z := Z.lxor (Z.land x y) (Z.lxor (Z.land x z) (Z.land y z)).
Definition f (t : nat) : Z → Z → Z → Z :=
  if (t <? 20)%nat then Ch else if (t <? 40)%nat then Parity
  else if (t <? 60)%nat then Maj else Parity.
Definition K (t : nat) : Z :=
  if (t <? 20)%nat then 0x5A827999 else if (t <? 40)%nat then 0x6ED9EBA1
  else if (t <? 60)%nat then 0x8F1BBCDC else 0xCA62C1D6.

(** The message schedule of a block of bytes. *)
Definition M (block : list Z) (t : nat) : Z :=
  foldl (λ acc b, acc * 256 + b) 0 (take 4 (drop (4 * t) block)).
Definition W_next (w : list Z) (t : nat) : list Z :=
  w ++ [ROTL 1 (Z.lxor (w !!! (t - 3)%nat) (Z.lxor (w !!! (t - 8)%nat)
                  (Z.lxor (w !!! (t - 14)%nat) (w !!! (t - 16)%nat))))].
Definition W (block : list Z) : list Z := foldl W_next (M block <$> seq 0 16) (seq 16 64).

Definition round (w : list Z) (s : digest32) (t : nat) : digest32 :=
  let '(Digest a b c d e) := s in
  Digest ((ROTL 5 a + f t b c d + e + K t + (w !!! t)) mod word_size) a (ROTL 30 b) c d.
Definition compress (H : digest32) (block : list Z) : digest32 :=
  let s := foldl (round (W block)) H (seq 0 80) in
  Digest ((h0 H + h0 s) mod word_size) ((h1 H + h1 s) mod word_size)
         ((h2 H + h2 s) mod word_size) ((h3 H + h3 s) mod word_size)
         ((h4 H + h4 s) mod word_size).
Definition H0 : digest32 := Digest 0x67452301 0xEFCDAB89 0x98BADCFE 0x10325476 0xC3D2E1F0.

(** The message, a one bit, zeros, and its length in bits. *)
Definition big_endian (n : nat) (z : Z) : list Z :=
  (λ i, z / 256 ^ Z.of_nat i mod 256) <$> reverse (seq 0 n).
Definition pad (msg : list Z) : list Z :=
  let len := Z.of_nat (length msg) in
  msg ++ 0x80 :: replicate (Z.to_nat ((55 - len) mod 64)) 0 ++ big_endian 8 (8 * len).
Fixpoint hash (n : nat) (H : digest32) (blocks : list Z) : digest32 :=
  match n with
  | O => H
  | S n' => hash n' (compress H (take 64 blocks)) (drop 64 blocks)
  end.
Definition sha1 (msg : list Z) : list Z :=
  let H := hash (length (pad msg) / 64) H0 (pad msg) in
  [h0 H; h1 H; h2 H; h3 H; h4 H] ≫= big_endian 4.
End Fips.
Import Fips.

Definition bytes (l : list Z) : Prop := Forall (λ b, 0 ≤ b < 256) l.
Definition text_bytes (s : string) : list Z := code <$> String.list_ascii_of_string s.

(** The standard's own example. *)
Example sha1_abc : sha1 (text_bytes "abc")
  = [0xa9; 0x99; 0x3e; 0x36; 0x47; 0x06; 0x81; 0x6a; 0xba; 0x3e; 0x25; 0x71; 0x78; 0x50; 0xc2;
     0x6c; 0x9c; 0xd0; 0xd8; 0x9d].
Proof. by vm_compute. Qed.
Example getDigestBytes_abc :
  getDigestBytes (processBytes (reset (replicate 64 0)) (text_bytes "abc"))
  = sha1 (text_bytes "abc").
Proof. by vm_compute. Qed.

(** ** Words *)

Definition word (x : Z) : Prop := 0 ≤ x < 2 ^ 32.

Lemma word_bits x i : word x → 32 ≤ i → Z.testbit x i = false.
Proof. intros Hx Hi. by apply (bits_above 32). Qed.
Lemma word_mod x : word (x mod 2 ^ 32).
Proof. by apply Z.mod_pos_bound. Qed.
Lemma word_lxor x y : word x → word y → word (Z.lxor x y).
Proof. by apply (lxor_range 32). Qed.
Lemma word_lor x y : word x → word y → word (Z.lor x y).
Proof. by apply (lor_range 32). Qed.
Lemma word_shiftr x n : 0 ≤ n → word x → word (Z.shiftr x n).
Proof.
  intros Hn Hx. apply (above_bits 32); [done|apply Z.shiftr_nonneg, Hx|].
  intros i Hi. rewrite Z.shiftr_spec by lia. apply word_bits; [done|lia].
Qed.
#[local] Hint Resolve word_mod word_lxor word_lor : core.

(** The two parts of a rotation have no bit in common. *)
Lemma LeftRotate_ROTL x n : 0 < n < 32 → word x → LeftRotate x n = ROTL n x ∧ word (ROTL n x).
Proof.
  intros Hn Hx. unfold LeftRotate, ROTL, u32, uwrap, word_size. split.
  - apply Z.lxor_lor, Z.bits_inj'. intros i Hi. rewrite Z.land_spec, Z.bits_0, Z.shiftr_spec by done.
    destruct (Z.lt_ge_cases i n).
    + rewrite Z.mod_pow2_bits_low, Z.shiftl_spec, Z.testbit_neg_r by lia. done.
    + rewrite (word_bits x _ Hx) by lia. apply andb_false_r.
  - apply word_lor; [auto|]. apply word_shiftr; [lia|done].
Qed.

(** Bit by bit, on the bits of a word. *)
Ltac by_bits i Hi :=
  apply Z.bits_inj'; intros i Hi;
  rewrite ?Z.lor_spec, ?Z.lxor_spec, ?Z.land_spec, ?Z.lor_spec, ?Z.lxor_spec, ?Z.land_spec.
Lemma u32_lnot x i : word x → 0 ≤ i →
  Z.testbit (u32 (Z.lnot x)) i = Z.testbit (Z.lxor x (word_size - 1)) i.
Proof.
  intros Hx Hi. unfold u32, uwrap, word_size. rewrite Z.lxor_spec.
  replace (2 ^ 32 - 1) with (Z.ones 32) by done. destruct (Z.lt_ge_cases i 32).
  - rewrite Z.mod_pow2_bits_low, Z.lnot_spec, Z.ones_spec_low by lia. by destruct (Z.testbit x i).
  - rewrite Z.mod_pow2_bits_high, Z.ones_spec_high, word_bits by (done || lia). done.
Qed.
Lemma choose_Ch b c d : word b →
  Z.lor (Z.land b c) (Z.land (u32 (Z.lnot b)) d) = Ch b c d.
Proof.
  intros Hb. unfold Ch. by_bits i Hi. rewrite u32_lnot by done. rewrite Z.lxor_spec.
  destruct (Z.lt_ge_cases i 32).
  - replace (word_size - 1) with (Z.ones 32) by done. rewrite Z.ones_spec_low by lia.
    by destruct (Z.testbit b i), (Z.testbit c i), (Z.testbit d i).
  - replace (word_size - 1) with (Z.ones 32) by done. rewrite Z.ones_spec_high by lia.
    rewrite (word_bits b) by done. done.
Qed.
Lemma majority_Maj b c d :
  Z.lor (Z.lor (Z.land b c) (Z.land b d)) (Z.land c d) = Maj b c d.
Proof.
  unfold Maj. by_bits i Hi. by destruct (Z.testbit b i), (Z.testbit c i), (Z.testbit d i).
Qed.

(** ** The schedule and the rounds *)

Lemma words_lookup w i : Forall word w → word (w !!! i).
Proof.
  intros Hw. rewrite list_lookup_total_alt. destruct (w !! i) as [x|] eqn:E; [|done].
  by apply (Forall_lookup_1 _ _ _ _ Hw E).
Qed.

(** Big-endian words of four bytes. *)
Lemma lor_bytes a b c d :
  0 ≤ a < 256 → 0 ≤ b < 256 → 0 ≤ c < 256 → 0 ≤ d < 256 →
  Z.lor (Z.lor (Z.lor (u32 (Z.shiftl a 24)) (u32 (Z.shiftl b 16))) (u32 (Z.shiftl c 8))) d
  = ((a * 256 + b) * 256 + c) * 256 + d.
Proof.
  intros Ha Hb Hc Hd. unfold u32, uwrap.
  rewrite !Z.mod_small by (rewrite Z.shiftl_mul_pow2; lia).
  replace 24 with (8 + 16) by done. rewrite <- Z.shiftl_shiftl by done.
  rewrite <- Z.shiftl_lor, (lor_shift a b 8) by lia.
  replace 16 with (8 + 8) by done. rewrite <- Z.shiftl_shiftl by done.
  rewrite <- Z.shiftl_lor, (lor_shift _ c 8), (lor_shift _ d 8) by lia. lia.
Qed.
Lemma block_word_M block t :
  bytes block → length block = 64%nat → (t < 16)%nat →
  block_word block t = M block t ∧ word (M block t).
Proof.
  intros Hb Hl Ht. unfold M. rewrite (Nat.mul_comm 4 t).
  assert (∃ a b c d, take 4 (drop (t * 4) block) = [a; b; c; d]) as (a & b & c & d & E).
  { assert (length (take 4 (drop (t * 4) block)) = 4%nat) as H.
    { rewrite length_take, length_drop. lia. }
    destruct (take 4 _) as [|a [|b [|c [|d [|e l]]]]]; simplify_eq/=. eauto. }
  assert (∀ i x, (i < 4)%nat → [a; b; c; d] !! i = Some x →
    block !!! (t * 4 + i)%nat = x ∧ 0 ≤ x < 256) as Hx.
  { intros i x Hi Hx. rewrite <- E, lookup_take_lt, lookup_drop in Hx by done.
    split; [by apply list_lookup_total_correct|by apply (Forall_lookup_1 _ _ _ _ Hb Hx)]. }
  destruct (Hx 0 a)%nat as [E0 H0], (Hx 1 b)%nat as [E1 H1], (Hx 2 c)%nat as [E2 H2],
    (Hx 3 d)%nat as [E3 H3]; try (done || lia).
  unfold block_word. rewrite E0, E1, E2, E3, E, lor_bytes by done. cbn [foldl].
  split; [lia|unfold word; lia].
Qed.

Lemma extend_words l w : Forall word w →
  foldl extend_word w l = foldl W_next w l ∧ Forall word (foldl W_next w l).
Proof.
  revert w. induction l as [|t l IH]; intros w Hw; [done|]. cbn [foldl].
  assert (Forall word (W_next w t) ∧ extend_word w t = W_next w t) as [H ->]; [|].
  - unfold extend_word, W_next. rewrite !Z.lxor_assoc.
    match goal with |- context [LeftRotate ?x 1] =>
      destruct (LeftRotate_ROTL x 1) as [-> H]; [lia|auto using words_lookup|] end.
    split; [|done]. by apply Forall_app; split; [|constructor].
  - by apply IH.
Qed.
Lemma block_words_W block : bytes block → length block = 64%nat →
  block_words block = W block ∧ Forall word (W block).
Proof.
  intros Hb Hl. unfold block_words, W.
  assert (block_word block <$> seq 0 16 = M block <$> seq 0 16) as ->.
  { apply list_fmap_ext. intros i x Hx. apply lookup_seq in Hx as [-> Hi].
    by apply block_word_M. }
  apply extend_words, Forall_fmap, Forall_forall. intros t Ht%elem_of_seq.
  apply block_word_M; [done|done|lia].
Qed.

Definition words (s : digest32) : Prop :=
  word (h0 s) ∧ word (h1 s) ∧ word (h2 s) ∧ word (h3 s) ∧ word (h4 s).
Lemma block_round_round w s t : Forall word w → words s →
  block_round w s t = round w s t ∧ words (round w s t).
Proof.
  intros Hw. destruct s as [a b c d e]. intros (Ha & Hb & Hc & Hd & He). cbn in Ha, Hb, Hc, Hd, He.
  unfold block_round, round.
  destruct (LeftRotate_ROTL a 5) as [E5 _]; [lia|done|].
  destruct (LeftRotate_ROTL b 30) as [E30 H30]; [lia|done|]. rewrite E5, E30.
  split; [|split_and!; cbn; auto; apply word_mod].
  unfold f, K, Parity. rewrite choose_Ch, majority_Maj, !Z.lxor_assoc by done.
  by repeat (destruct (_ <? _)%nat; [done|]).
Qed.
Lemma block_rounds w l s : Forall word w → words s →
  foldl (block_round w) s l = foldl (round w) s l ∧ words (foldl (round w) s l).
Proof.
  intros Hw. revert s. induction l as [|t l IH]; intros s Hs; [done|]. cbn [foldl].
  destruct (block_round_round w s t Hw Hs) as [-> H]. by apply IH.
Qed.

(** A block is processed as the standard says. *)
Lemma processBlock_compress s : bytes (m_block s) → length (m_block s) = 64%nat →
  words (m_digest s) →
  m_digest (processBlock s) = compress (m_digest s) (m_block s) ∧
  words (compress (m_digest s) (m_block s)).
Proof.
  intros Hb Hl Hd. unfold processBlock, compress. cbn [m_digest].
  destruct (block_words_W _ Hb Hl) as [-> Hw].
  destruct (block_rounds _ (seq 0 80) _ Hw Hd) as [-> _]. split; [done|].
  split_and!; apply word_mod.
Qed.

(** ** Taking a message *)

Lemma hash_app n H l k : (64 * n ≤ length l)%nat → hash n H (l ++ k) = hash n H l.
Proof.
  revert H l. induction n as [|n IH]; intros H l Hl; [done|]. cbn [hash].
  rewrite take_app_le, drop_app_le by lia. apply IH. rewrite length_drop. lia.
Qed.
Lemma hash_snoc n H l : hash (S n) H l = compress (hash n H l) (take 64 (drop (64 * n) l)).
Proof.
  revert H l. induction n as [|n IH]; intros H l; [done|].
  change (hash (S (S n)) H l) with (hash (S n) (compress H (take 64 l)) (drop 64 l)).
  rewrite IH, drop_drop. replace (64 + 64 * n)%nat with (64 * S n)%nat by lia. reflexivity.
Qed.

(** [s] has taken [msg]: the blocks are in the digest, the rest in the block. *)
Record taken (msg : list Z) (s : SHA1) : Prop := {
  tk_bytes : bytes (m_block s);
  tk_length : length (m_block s) = 64%nat;
  tk_index : m_blockByteIndex s = (length msg mod 64)%nat;
  tk_count : m_byteCount s = uwrap 64 (Z.of_nat (length msg));
  tk_block : take (length msg mod 64) (m_block s) = drop (64 * (length msg / 64)) msg;
  tk_digest : m_digest s = hash (length msg / 64) H0 msg;
  tk_words : words (m_digest s);
}.

Lemma taken_reset memory : bytes memory → length memory = 64%nat → taken [] (reset memory).
Proof. intros Hb Hl. split; [exact Hb|exact Hl|reflexivity..|]. split_and!; done. Qed.

Lemma taken_byte msg s b : taken msg s → 0 ≤ b < 256 → taken (msg ++ [b]) (processByte s b).
Proof.
  intros [Hb Hl Hi Hc Hbl Hd Hw] Hr. set (n := length msg) in *.
  pose proof (Nat.div_mod_eq n 64) as Hdm. pose proof (Nat.mod_upper_bound n 64 ltac:(done)) as Hm.
  set (block := <[(n mod 64)%nat := b]> (m_block s)).
  assert (bytes block) as Hb' by (by apply Forall_insert).
  assert (length block = 64%nat) as Hl' by (by unfold block; rewrite length_insert).
  assert (take (S (n mod 64)) block = drop (64 * (n / 64)) (msg ++ [b])) as Hbl'.
  { rewrite drop_app_le by (fold n; lia). rewrite <- Hbl.
    rewrite (take_S_r _ _ b) by (by apply list_lookup_insert_eq; lia).
    unfold block. by rewrite take_insert_ge by lia. }
  assert (uwrap 64 (m_byteCount s + 1) = uwrap 64 (Z.of_nat (length (msg ++ [b])))) as Hc'.
  { rewrite Hc, length_app. unfold uwrap. rewrite Zplus_mod_idemp_l. f_equal. simpl. lia. }
  assert (length (msg ++ [b]) = S n) as Hlen by (rewrite length_app; simpl; fold n; lia).
  unfold processByte. cbn [m_blockByteIndex m_digest m_block m_byteCount]. rewrite Hi.
  fold block. destruct (Nat.eqb_spec (S (n mod 64)) 64) as [Hfull|Hpart].
  - assert (S n mod 64 = 0 ∧ S n / 64 = S (n / 64))%nat as [Hmod Hdiv].
    { assert (S n = S (n / 64) * 64)%nat as -> by lia.
      by rewrite Nat.Div0.mod_mul, Nat.div_mul. }
    rewrite Hfull, take_ge in Hbl' by lia.
    destruct (processBlock_compress (Sha1 (m_digest s) block 0 (uwrap 64 (m_byteCount s + 1))))
      as [Hdg Hwd]; [done..|]. cbn [m_digest m_block] in Hdg, Hwd.
    split; try done.
    + by rewrite Hlen, Hmod.
    + rewrite Hlen, Hmod, Hdiv. rewrite drop_ge by lia. done.
    + rewrite Hdg, Hd, Hlen, Hdiv, hash_snoc, hash_app by lia. rewrite <- Hbl'.
      by rewrite take_ge by lia.
    + by rewrite Hdg.
  - assert (S n mod 64 = S (n mod 64) ∧ S n / 64 = n / 64)%nat as [Hmod Hdiv].
    { split; symmetry.
      - apply (Nat.mod_unique _ _ (n / 64)); lia.
      - apply (Nat.div_unique _ _ _ (S (n mod 64))); lia. }
    split; cbn [m_blockByteIndex m_digest m_block m_byteCount]; rewrite ?Hlen, ?Hmod, ?Hdiv; try done.
    + by rewrite Hc', Hlen.
    + rewrite hash_app by lia. done.
Qed.

Lemma taken_bytes msg data s : taken msg s → bytes data → taken (msg ++ data) (processBytes s data).
Proof.
  intros Hs Hd. revert msg s Hs. induction Hd as [|b data Hb Hd IH]; intros msg s Hs.
  - by rewrite app_nil_r.
  - rewrite cons_middle, app_assoc. apply IH. by apply taken_byte.
Qed.

Lemma taken_fill fuel go msg s : taken msg s →
  ∃ k, (k ≤ fuel)%nat ∧ taken (msg ++ replicate k 0) (fill_while fuel go s) ∧
    (∀ j, (j < k)%nat → go ((length msg + j) mod 64)%nat = true) ∧
    (k = fuel ∨ go ((length msg + k) mod 64)%nat = false).
Proof.
  revert msg s. induction fuel as [|fuel IH]; intros msg s Hs.
  - exists O. rewrite app_nil_r. split_and!; [lia|done|lia|by left].
  - cbn [fill_while]. rewrite (tk_index _ _ Hs). destruct (go (length msg mod 64)%nat) eqn:E.
    + destruct (IH _ _ (taken_byte _ _ 0 Hs ltac:(done))) as (k & Hk & Ht & Hj & Hend).
      rewrite length_app in Hj, Hend. exists (S k). split_and!.
      * lia.
      * by rewrite <- app_assoc in Ht.
      * intros [|j] Hlt; [by rewrite Nat.add_0_r|]. rewrite <- (Hj j) by lia. do 2 f_equal. simpl. lia.
      * destruct Hend as [->|Hend]; [by left|right]. rewrite <- Hend. do 2 f_equal. simpl. lia.
    + exists O. rewrite app_nil_r, Nat.add_0_r. split_and!; [lia|done|lia|by right].
Qed.

(** Arithmetic with [div] and [mod]. *)
Ltac mod_lia := zify; Z.to_euclidean_division_equations; lia.

(** The two loops fill up to the place of the length. *)
Lemma taken_padded msg s : taken msg s →
  let s1 := processByte s 0x80 in
  let s2 :=
    if (56 <? m_blockByteIndex s1)%nat
    then fill_while 64 (λ i, i <? 56)%nat (fill_while 64 (λ i, negb (i =? 0))%nat s1)
    else fill_while 64 (λ i, i <? 56)%nat s1 in
  taken (msg ++ 0x80 :: replicate (Z.to_nat ((55 - Z.of_nat (length msg)) mod 64)) 0) s2.
Proof.
  intros Hs s1. assert (taken (msg ++ [0x80]) s1) as H1 by (by apply taken_byte).
  pose proof (tk_index _ _ H1) as Hi. set (n := length (msg ++ [0x80])) in *.
  assert (length msg = (n - 1)%nat ∧ (1 ≤ n)%nat) as [-> Hn].
  { unfold n. rewrite length_app. simpl. lia. }
  assert (∀ msg' s' k, taken ((msg ++ [0x80]) ++ replicate k 0) s' → msg' = msg →
    k = Z.to_nat ((55 - Z.of_nat (n - 1)) mod 64) →
    taken (msg' ++ 0x80 :: replicate (Z.to_nat ((55 - Z.of_nat (n - 1)) mod 64)) 0) s') as Hdone.
  { intros msg' s' k Ht -> <-. by rewrite <- app_assoc in Ht. }
  rewrite Hi. destruct (Nat.ltb_spec 56 (n mod 64)) as [Hlt|Hle]; cbv zeta.
  - destruct (taken_fill 64 (λ i, negb (i =? 0))%nat _ _ H1) as (k1 & Hk1 & H2 & Hj1 & He1).
    fold n in Hj1, He1.
    destruct (taken_fill 64 (λ i, i <? 56)%nat _ _ H2) as (k2 & Hk2 & H3 & Hj2 & He2).
    rewrite <- app_assoc, <- replicate_add in H3. eapply Hdone; [exact H3|done|].
    rewrite length_app, length_replicate in Hj2, He2. fold n in Hj2, He2.
    assert (k1 = 64 - n mod 64)%nat as ->.
    { destruct (Nat.lt_trichotomy k1 (64 - n mod 64)) as [H|[H|H]]; [|done|].
      - destruct He1 as [->|He1]; [lia|]. apply negb_false_iff, Nat.eqb_eq in He1.
        mod_lia.
      - specialize (Hj1 (64 - n mod 64)%nat H). apply negb_true_iff, Nat.eqb_neq in Hj1.
        mod_lia. }
    assert (k2 = 56)%nat as ->; [|mod_lia].
    destruct (Nat.lt_trichotomy k2 56) as [H|[H|H]]; [|done|].
    + destruct He2 as [->|He2]; [lia|]. apply Nat.ltb_ge in He2.
      mod_lia.
    + specialize (Hj2 56%nat H). apply Nat.ltb_lt in Hj2. mod_lia.
  - destruct (taken_fill 64 (λ i, i <? 56)%nat _ _ H1) as (k & Hk & H2 & Hj & He). fold n in Hj, He.
    eapply Hdone; [exact H2|done|].
    assert (k = 56 - n mod 64)%nat as ->; [|mod_lia].
    destruct (Nat.lt_trichotomy k (56 - n mod 64)) as [H|[H|H]]; [|done|].
    + destruct He as [->|He]; [lia|]. apply Nat.ltb_ge in He. mod_lia.
    + specialize (Hj (56 - n mod 64)%nat H). apply Nat.ltb_lt in Hj.
      mod_lia.
Qed.

Lemma word_bytes_big_endian d : word_bytes d = big_endian 4 d.
Proof.
  unfold word_bytes. rewrite !high_byte, low_byte by done. cbn. by rewrite Z.div_1_r.
Qed.
Lemma length_big_endian n z : length (big_endian n z) = n.
Proof. unfold big_endian. by rewrite length_fmap, length_reverse, length_seq. Qed.
Lemma big_endian_8 z : 0 ≤ z < 2 ^ 32 →
  big_endian 8 z = [0; 0; 0; 0] ++ big_endian 4 z.
Proof.
  intros Hz. cbn. by rewrite !(Z.div_small z) by lia.
Qed.
Lemma pad_length msg : (length (pad msg) mod 64 = 0)%nat.
Proof.
  unfold pad. rewrite length_app. cbn [length]. rewrite length_app, length_replicate, length_big_endian.
  mod_lia.
Qed.
Lemma big_endian_bytes n z : bytes (big_endian n z).
Proof. apply Forall_fmap, Forall_forall. intros i _. by apply Z.mod_pos_bound. Qed.

Lemma getDigest_hash msg s : taken msg s → 8 * Z.of_nat (length msg) < 2 ^ 32 →
  getDigest s = hash (length (pad msg) / 64) H0 (pad msg).
Proof.
  intros Hs Hlen. unfold getDigest. rewrite (tk_count _ _ Hs). unfold uwrap.
  rewrite Zmult_mod_idemp_l, (Z.mod_small _ (2 ^ 64)) by lia.
  pose proof (taken_padded msg s Hs) as H. cbv zeta in H |- *.
  match type of H with taken ?m ?s2 =>
    assert (taken (m ++ big_endian 8 (8 * Z.of_nat (length msg)))
      (processBytes s2 (big_endian 8 (8 * Z.of_nat (length msg))))) as Hp
      by (apply taken_bytes; [exact H|apply big_endian_bytes]) end.
  rewrite <- app_assoc in Hp. change ((0x80 :: ?l) ++ ?k) with (0x80 :: l ++ k) in Hp.
  fold (pad msg) in Hp. rewrite <- (tk_digest _ _ Hp).
  rewrite big_endian_8 by lia. unfold processBytes. rewrite foldl_app.
  rewrite <- word_bytes_big_endian. unfold word_bytes. cbn [foldl].
  by rewrite (Z.mul_comm 8).
Qed.

(** The digest of a message in portions. *)
Lemma digest_sha1 (memory : list Z) (portions : list (list Z)) :
  bytes memory → length memory = 64%nat → Forall bytes portions →
  8 * Z.of_nat (length (concat portions)) < 2 ^ 32 →
  getDigestBytes (foldl processBytes (reset memory) portions) = sha1 (concat portions).
Proof.
  intros Hm Hl Hp Hlen.
  assert (∀ msg s, taken msg s → taken (msg ++ concat portions) (foldl processBytes s portions))
    as Htaken.
  { clear Hlen. induction Hp as [|l ls Hb _ IH]; intros msg s Hs; [by rewrite app_nil_r|].
    cbn [concat foldl]. rewrite app_assoc. apply IH. by apply taken_bytes. }
  unfold getDigestBytes, sha1.
  rewrite (getDigest_hash _ _ (Htaken [] _ (taken_reset _ Hm Hl)) Hlen), !word_bytes_big_endian.
  cbn [app mbind list_bind]. by rewrite app_nil_r.
Qed.

(** ** Property *)

(** C39: the class computes SHA-1.  Whatever its block holds at first, and in whatever portions
    the message is handed to it, the digest is the one FIPS 180-4 defines for the whole
    message, up to half a gigabyte (the code keeps 32 bits of the length). *)
Theorem sha1_equivalent (memory : list Z) (portions : list (list Z)) :
  bytes memory → length memory = 64%nat → Forall bytes portions →
  8 * Z.of_nat (length (concat portions)) < 2 ^ 32 →
  getDigestBytes (foldl processBytes (reset memory) portions) = sha1 (concat portions).
Proof. apply digest_sha1. Qed.
Lemma sha1_equivalent_witness :
  getDigestBytes (foldl processBytes (reset (replicate 64 7)) [text_bytes "a"; []; text_bytes "bc"])
  = sha1 (text_bytes "abc").
Proof.
  assert (∀ s, bytes (text_bytes s)) as Hs.
  { intros s. apply Forall_fmap, Forall_forall. intros c _. apply code_range. }
  apply (sha1_equivalent (replicate 64 7) [text_bytes "a"; []; text_bytes "bc"]).
  - by apply Forall_replicate.
  - reflexivity.
  - apply Forall_cons_2; [apply Hs|]. apply Forall_cons_2; [constructor|].
    apply Forall_cons_2; [apply Hs|constructor].
  - reflexivity.
Defined.
