(* ===== verification/QueryString.v ===== *)
(** * crow/query_string.h

    [qs_parse] works in place: the pairs are pointers into the copy of the URL and
    the values are decoded over their encoded text.  The model keeps that buffer as a
    list of bytes, without the final NUL of [std::string], and a pointer as an
    offset; a byte read at or after the end of the list is that NUL. *)

From S2P Require Import Prelude.
Open Scope Z_scope.

Abbreviation buffer := (list ascii).

Definition buffer_of (s : string) : buffer := String.list_ascii_of_string s.

(** The C string at the head of [l]; [cstr_at b p] is the one at offset [p]. *)
Fixpoint cstr (l : buffer) : string :=
  match l with
  | [] => EmptyString
  | c :: l' => if decide (c = NUL) then EmptyString else String c (cstr l')
  end.
Definition cstr_at (b : buffer) (p : nat) : string := cstr (drop p b).

Definition byte_at (b : buffer) (p : nat) : ascii := default NUL (b !! p).

(** [strcspn]: the bytes before the first that is NUL or in [reject]. *)
Fixpoint strcspn (l : buffer) (reject : list ascii) : nat :=
  match l with
  | [] => O
  | c :: l' => if decide (c = NUL ∨ c ∈ reject) then O else S (strcspn l' reject)
  end.

(** ** The character macros *)

Definition CROW_QS_ISHEX (c : ascii) : bool :=
  let x := code c in
  ((48 <=? x) && (x <=? 57)) || ((65 <=? x) && (x <=? 70)) || ((97 <=? x) && (x <=? 102)).
Definition CROW_QS_HEX2DEC (c : ascii) : Z :=
  let x := code c in
  if (48 <=? x) && (x <=? 57) then x - 48
  else if (65 <=? x) && (x <=? 70) then x - 55
  else if (97 <=? x) && (x <=? 102) then x - 87
  else 0.
Definition CROW_QS_ISQSCHR (c : ascii) : bool :=
  negb (bool_decide (c = "="%char ∨ c = "#"%char ∨ c = "&"%char ∨ c = NUL)).

(** ** qs_strncmp *)

Definition hd_byte (l : buffer) : ascii := default NUL (head l).

(** One character of either side, decoded, and the rest. *)
Definition qs_next (l : buffer) : ascii * buffer :=
  let u := hd_byte l in
  let l := tail l in
  let u := if CROW_QS_ISQSCHR u then u else NUL in
  let u := if decide (u = "+"%char) then " "%char else u in
  if decide (u = "%"%char) then
    let unyb := hd_byte l in
    let l := tail l in
    let lnyb := hd_byte l in
    let l := tail l in
    (if CROW_QS_ISHEX unyb && CROW_QS_ISHEX lnyb
     then chr (CROW_QS_HEX2DEC unyb * 16 + CROW_QS_HEX2DEC lnyb) else NUL, l)
  else (u, l).

Fixpoint qs_strncmp (s qs : buffer) (n : nat) : Z :=
  match n with
  | O => if CROW_QS_ISQSCHR (hd_byte qs) then -1 else 0
  | S n' =>
      let u1 := qs_next s in
      let u2 := qs_next qs in
      if decide (fst u1 ≠ fst u2) then code (fst u1) - code (fst u2)
      else if decide (fst u1 = NUL) then 0
      else qs_strncmp (snd u1) (snd u2) n'
  end.

(** ** qs_decode and qs_parse *)

(** The loop over the read position [j] and the write position [i], both absolute. *)
Fixpoint qs_decode_loop (fuel : nat) (b : buffer) (i j : nat) : buffer :=
  match fuel with
  | O => b
  | S fuel' =>
      let c := byte_at b j in
      if CROW_QS_ISQSCHR c then
        if decide (c = "+"%char) then qs_decode_loop fuel' (<[i := " "%char]> b) (S i) (S j)
        else if decide (c = "%"%char) then
          let h := byte_at b (j + 1) in
          let l := byte_at b (j + 2) in
          if negb (CROW_QS_ISHEX h) || negb (CROW_QS_ISHEX l) then <[i := NUL]> b
          else qs_decode_loop fuel'
                 (<[i := chr (CROW_QS_HEX2DEC h * 16 + CROW_QS_HEX2DEC l)]> b) (S i) (j + 3)
        else qs_decode_loop fuel' (<[i := c]> b) (S i) (S j)
      else <[i := NUL]> b
  end.
Definition qs_decode (b : buffer) (qs : nat) : buffer :=
  qs_decode_loop (S (length b)) b qs qs.

(** The loop that records where the pairs start. *)
Fixpoint qs_pairs (b : buffer) (substr_ptr : nat) (qs_kv_size : nat) : list nat :=
  match qs_kv_size with
  | O => []
  | S n =>
      let j := strcspn (drop substr_ptr b) ["&"%char] in
      if decide (byte_at b (substr_ptr + j) = NUL) then [substr_ptr]
      else substr_ptr :: qs_pairs b (substr_ptr + j + 1) n
  end.

Definition qs_decode_pair (b : buffer) (kv : nat) : buffer :=
  let p := (kv + strcspn (drop kv b) ["="%char; "&"%char; "#"%char])%nat in
  if decide (byte_at b p = "&"%char ∨ byte_at b p = NUL) then <[p := NUL]> b
  else qs_decode b (S p).

Definition qs_parse (qs : buffer) (qs_kv_size : nat) (parse_url : bool) : buffer * list nat :=
  let start := if parse_url then strcspn qs ["?"%char; "#"%char] else O in
  if parse_url && bool_decide (byte_at qs start = NUL) then (qs, [])
  else
    let kv := qs_pairs qs (if parse_url then S start else start) qs_kv_size in
    (foldl qs_decode_pair qs kv, kv).

(** ** query_string *)

Record query_string : Type := QueryString {
  url_ : buffer;
  key_value_pairs_ : list nat;
}.
Definition MAX_KEY_VALUE_PAIRS_COUNT : nat := Z.to_nat 256.

Definition qs_empty : query_string := QueryString [] [].
(** [query_string(params, url)]. *)
Definition query_string_of (params : string) (url : bool) : query_string :=
  match params with
  | EmptyString => qs_empty
  | _ =>
      let r := qs_parse (buffer_of params) MAX_KEY_VALUE_PAIRS_COUNT url in
      QueryString (fst r) (snd r)
  end.

(** [qs_k2v]: a pointer to the value of the [nth] match. *)
Definition qs_value_ptr (b : buffer) (kv : nat) : nat :=
  let skip := strcspn (drop kv b) ["="%char] in
  if decide (byte_at b (kv + skip) = "="%char) then (kv + skip + 1)%nat else (kv + skip)%nat.
Fixpoint qs_k2v (b : buffer) (key : string) (qs_kv : list nat) (nth : nat) : option nat :=
  match qs_kv with
  | [] => None
  | kv :: rest =>
      if qs_strncmp (buffer_of key) (drop kv b) (String.length key) =? 0 then
        match nth with
        | O => Some (qs_value_ptr b kv)
        | S nth' => qs_k2v b key rest nth'
        end
      else qs_k2v b key rest nth
  end.

(** The pointer returned by [get], and the C string it points at. *)
Definition qs_get_ptr (q : query_string) (name : string) : option nat :=
  qs_k2v (url_ q) (c_str name) (key_value_pairs_ q) 0.
Definition qs_get (q : query_string) (name : string) : option string :=
  cstr_at (url_ q) <$> qs_get_ptr q name.

(** Remove the first pair whose text satisfies [f], or all of them. *)
Fixpoint erase_first (f : string → bool) (b : buffer) (l : list nat) : list nat :=
  match l with
  | [] => []
  | p :: l' => if f (cstr_at b p) then l' else p :: erase_first f b l'
  end.
Definition erase_all (f : string → bool) (b : buffer) (l : list nat) : list nat :=
  filter (λ p, f (cstr_at b p) = false) l.

Definition starts_with (p s : string) : bool := bool_decide (is_Some (strip_prefix p s)).

Definition qs_pop (q : query_string) (name : string) : option nat * query_string :=
  match qs_get_ptr q name with
  | None => (None, q)
  | Some ret =>
      (Some ret, QueryString (url_ q)
                   (erase_first (starts_with (name +:+ "=")) (url_ q) (key_value_pairs_ q)))
  end.

(** [get_list]: the matches one after the other, until there is none. *)
Fixpoint qs_get_all (fuel : nat) (b : buffer) (key : string) (kvs : list nat) (count : nat)
  : list nat :=
  match fuel with
  | O => []
  | S fuel' =>
      match qs_k2v b key kvs count with
      | None => []
      | Some e => e :: qs_get_all fuel' b key kvs (S count)
      end
  end.
Definition qs_get_list (q : query_string) (name : string) (use_brackets : bool) : list nat :=
  let plus := name +:+ (if use_brackets then "[]" else "") in
  qs_get_all (S (length (key_value_pairs_ q))) (url_ q) (c_str plus) (key_value_pairs_ q) 0.

Definition qs_pop_list (q : query_string) (name : string) (use_brackets : bool)
  : list nat * query_string :=
  let ret := qs_get_list q name use_brackets in
  match ret with
  | [] => (ret, q)
  | _ =>
      (ret, QueryString (url_ q)
              (erase_all (starts_with (name +:+ (if use_brackets then "[]=" else "=")))
                 (url_ q) (key_value_pairs_ q)))
  end.

Definition qs_keys (q : query_string) : list string :=
  (λ p, fst (span (λ c, negb (bool_decide (c = "="%char))) (cstr_at (url_ q) p)))
  <$> key_value_pairs_ q.

(** [qs_dict_name2kv]: [nth] is an [int] that also counts down, below zero, past a pair
    whose brackets are in the wrong order. *)
Definition qs_dict_split (b : buffer) (kv : nat) : nat * nat * nat :=
  let l := drop kv b in
  let eq := strcspn l ["="%char] in
  let bo := strcspn l ["["%char] in
  let bc := strcspn l ["]"%char] in
  (if decide (byte_at b (kv + eq) = "="%char) then S eq else eq,
   if decide (byte_at b (kv + bo) = "["%char) then S bo else bo,
   bc).
Fixpoint qs_dict_name2kv (b : buffer) (dict_name : string) (qs_kv : list nat) (nth : Z)
  : option (string * string) :=
  match qs_kv with
  | [] => None
  | kv :: rest =>
      if starts_with dict_name (cstr_at b kv) then
        let '(skip_to_eq, open, close) := qs_dict_split b kv in
        if (open <=? close)%nat && (0 <? open)%nat && (0 <? close)%nat && (nth =? 0) then
          Some (String.string_of_list_ascii (take (close - open) (drop (kv + open) b)),
                cstr_at b (kv + skip_to_eq))
        else qs_dict_name2kv b dict_name rest (nth - 1)
      else qs_dict_name2kv b dict_name rest nth
  end.
Fixpoint qs_dict_all (fuel : nat) (b : buffer) (name : string) (kvs : list nat) (count : Z)
  (ret : gmap string string) : gmap string string :=
  match fuel with
  | O => ret
  | S fuel' =>
      match qs_dict_name2kv b name kvs count with
      | None => ret
      | Some (k, v) =>
          qs_dict_all fuel' b name kvs (count + 1)
            (match ret !! k with Some _ => ret | None => <[k := v]> ret end)
      end
  end.
Definition qs_get_dict (q : query_string) (name : string) : gmap string string :=
  qs_dict_all (S (length (key_value_pairs_ q))) (url_ q) (c_str name) (key_value_pairs_ q) 0 ∅.
Definition qs_pop_dict (q : query_string) (name : string)
  : gmap string string * query_string :=
  let ret := qs_get_dict q name in
  if decide (ret = ∅) then (ret, q)
  else (ret, QueryString (url_ q)
               (erase_all (starts_with (name +:+ "[")) (url_ q) (key_value_pairs_ q))).

Definition qs_clear (q : query_string) : query_string := qs_empty.
