(* ===== verification/Http.v ===== *)
(** * crow/common.h, ci_map.h, http_request.h, http_response.h

    Methods and status codes, the case-insensitive header multimap, requests and
    responses.  A response's completion handler is a closure of the connection; here
    it is a tag in the response, and the code that installs it says what the tag
    means. *)

From S2P Require Import Prelude Doubles JsonRead JsonWrite Utility QueryString MimeTypes.
Open Scope Z_scope.

Definition crlf : string := String "013" (String "010" "").

(** ** Methods *)

Inductive HTTPMethod : Type :=
| Delete | Get | Head | Post | Put
| Connect | Options | Trace
| Patch | Purge
| Copy | Lock | MkCol | Move | Propfind | Proppatch | Search | Unlock | Bind | Rebind
| Unbind | Acl
| Report | MkActivity | Checkout | Merge
| MSearch | Notify | Subscribe | Unsubscribe
| MkCalendar
| Link | Unlink
| Source.

#[export] Instance HTTPMethod_eq_dec : EqDecision HTTPMethod.
Proof. solve_decision. Defined.

Definition all_methods : list HTTPMethod :=
  [Delete; Get; Head; Post; Put; Connect; Options; Trace; Patch; Purge; Copy; Lock; MkCol;
   Move; Propfind; Proppatch; Search; Unlock; Bind; Rebind; Unbind; Acl; Report; MkActivity;
   Checkout; Merge; MSearch; Notify; Subscribe; Unsubscribe; MkCalendar; Link; Unlink; Source].
Definition InternalMethodCount : nat := 34.

(** [static_cast<int>(method)] and back. *)
Definition method_index (m : HTTPMethod) : nat :=
  match m with
  | Delete => 0 | Get => 1 | Head => 2 | Post => 3 | Put => 4
  | Connect => 5 | Options => 6 | Trace => 7 | Patch => 8 | Purge => 9
  | Copy => 10 | Lock => 11 | MkCol => 12 | Move => 13 | Propfind => 14 | Proppatch => 15
  | Search => 16 | Unlock => 17 | Bind => 18 | Rebind => 19 | Unbind => 20 | Acl => 21
  | Report => 22 | MkActivity => 23 | Checkout => 24 | Merge => 25
  | MSearch => 26 | Notify => 27 | Subscribe => 28 | Unsubscribe => 29
  | MkCalendar => 30 | Link => 31 | Unlink => 32 | Source => 33
  end%nat.

Definition method_strings : list string :=
  ["DELETE"; "GET"; "HEAD"; "POST"; "PUT"; "CONNECT"; "OPTIONS"; "TRACE"; "PATCH"; "PURGE";
   "COPY"; "LOCK"; "MKCOL"; "MOVE"; "PROPFIND"; "PROPPATCH"; "SEARCH"; "UNLOCK"; "BIND";
   "REBIND"; "UNBIND"; "ACL"; "REPORT"; "MKACTIVITY"; "CHECKOUT"; "MERGE"; "M-SEARCH";
   "NOTIFY"; "SUBSCRIBE"; "UNSUBSCRIBE"; "MKCALENDAR"; "LINK"; "UNLINK"; "SOURCE"].
Definition method_name (m : HTTPMethod) : string :=
  default "invalid" (method_strings !! method_index m).

(** [is_equ_p]: [a] and [b] are C strings. *)
Fixpoint is_equ_p (a b : string) (n : nat) : bool :=
  match a, b with
  | EmptyString, EmptyString => bool_decide (n = O)
  | EmptyString, String _ _ | String _ _, EmptyString => false
  | String c a', String d b' =>
      match n with
      | O => true
      | S n' => if decide (c ≠ d) then false else is_equ_p a' b' n'
      end
  end.
Definition method_table : list (string * nat * HTTPMethod) :=
  [("GET", 3%nat, Get); ("DELETE", 6%nat, Delete); ("HEAD", 4%nat, Head);
   ("POST", 4%nat, Post); ("PUT", 3%nat, Put);
   ("OPTIONS", 7%nat, Options); ("CONNECT", 7%nat, Connect); ("TRACE", 5%nat, Trace);
   ("PATCH", 5%nat, Patch); ("PURGE", 5%nat, Purge); ("COPY", 4%nat, Copy);
   ("LOCK", 4%nat, Lock); ("MKCOL", 5%nat, MkCol); ("MOVE", 4%nat, Move);
   ("PROPFIND", 8%nat, Propfind); ("PROPPATCH", 9%nat, Proppatch);
   ("SEARCH", 6%nat, Search); ("UNLOCK", 6%nat, Unlock); ("BIND", 4%nat, Bind);
   ("REBIND", 6%nat, Rebind); ("UNBIND", 6%nat, Unbind); ("ACL", 3%nat, Acl);
   ("REPORT", 6%nat, Report); ("MKACTIVITY", 10%nat, MkActivity);
   ("CHECKOUT", 8%nat, Checkout); ("MERGE", 5%nat, Merge);
   ("MSEARCH", 7%nat, MSearch); ("NOTIFY", 6%nat, Notify);
   ("SUBSCRIBE", 9%nat, Subscribe); ("UNSUBSCRIBE", 11%nat, Unsubscribe);
   ("MKCALENDAR", 10%nat, MkCalendar);
   ("LINK", 4%nat, Link); ("UNLINK", 6%nat, Unlink); ("SOURCE", 6%nat, Source)].
Fixpoint method_lookup (str : string) (l : list (string * nat * HTTPMethod)) : result HTTPMethod :=
  match l with
  | [] => Throw (RuntimeError "invalid http method")
  | (name, n, m) :: l' => if is_equ_p str name n then Ok m else method_lookup str l'
  end.
Definition method_from_string (str : string) : result HTTPMethod :=
  method_lookup (c_str str) method_table.

(** ** Headers

    [unordered_multimap] with case-insensitive keys.  Entries are kept newest first:
    equivalent keys stay adjacent in the container and [find] returns one of them;
    libstdc++ puts a new node before the ones with an equivalent key, so [find]
    returns the newest. *)
Definition ci_map : Type := list (string * string).

Definition ci_key_eq (l r : string) : bool := string_equals l r false.

(** Writing [c] for [std::toupper c], the fold of [ci_hash] over a 64-bit seed, with the
    standard library's [std::hash<char>] as a parameter. *)
Definition hash_combine (hasher : ascii → Z) (seed : Z) (v : ascii) : Z :=
  Z.lxor seed
    (uwrap 64 (hasher v + 0x9e3779b9 + uwrap 64 (Z.shiftl seed 6) + Z.shiftr seed 2)).
Fixpoint ci_hash_from (hasher : ascii → Z) (seed : Z) (key : string) : Z :=
  match key with
  | String c key' => ci_hash_from hasher (hash_combine hasher seed (toupper c)) key'
  | EmptyString => seed
  end.
Definition ci_hash (hasher : ascii → Z) (key : string) : Z := ci_hash_from hasher 0 key.

Definition ci_count (h : ci_map) (key : string) : nat :=
  length (filter (λ kv, ci_key_eq (fst kv) key = true) h).
Definition ci_find (h : ci_map) (key : string) : option string :=
  snd <$> head (filter (λ kv, ci_key_eq (fst kv) key = true) h).
Definition ci_emplace (h : ci_map) (key value : string) : ci_map := (key, value) :: h.
Definition ci_erase (h : ci_map) (key : string) : ci_map :=
  filter (λ kv, ci_key_eq (fst kv) key = false) h.

Definition get_header_value (h : ci_map) (key : string) : string :=
  if bool_decide (ci_count h key ≠ 0%nat) then default "" (ci_find h key) else "".

(** ** Requests *)

Record request : Type := Request {
  req_method : HTTPMethod;
  req_raw_url : string;
  req_url : string;
  req_url_params : query_string;
  req_headers : ci_map;
  req_body : string;
  req_remote_ip_address : string;
  req_http_ver_major : Z;
  req_http_ver_minor : Z;
  req_keep_alive : bool;
  req_close_connection : bool;
  req_upgrade : bool;
}.
(** [request()]: the version and the flags are left unset; every reader runs after
    [set_connection_parameters], except on the path of [handle_url], which does not
    read them. *)
Definition request_empty : request :=
  Request Get "" "" qs_empty [] "" "" 0 0 false false false.

Definition req_add_header (r : request) (key value : string) : request :=
  Request (req_method r) (req_raw_url r) (req_url r) (req_url_params r)
    (ci_emplace (req_headers r) key value) (req_body r) (req_remote_ip_address r)
    (req_http_ver_major r) (req_http_ver_minor r) (req_keep_alive r)
    (req_close_connection r) (req_upgrade r).
Definition req_get_header_value (r : request) (key : string) : string :=
  get_header_value (req_headers r) key.
Definition check_version (r : request) (major minor : Z) : bool :=
  (req_http_ver_major r =? major) && (req_http_ver_minor r =? minor).
Definition get_body_params (r : request) : query_string := query_string_of (req_body r) false.

(** ** Responses *)

(** [static_file_info]: [statResult] is set with the path. *)
Record static_file_info : Type := StaticFile { sf_path : string; sf_statResult : Z }.
Definition no_static_file : static_file_info := StaticFile "" 0.

(** [complete_request_handler_]: null; the connection's [complete_request]; the empty
    closure and the one around local middlewares that [handle_rule] installs. *)
Inductive completion_handler : Type :=
| no_handler | connection_handler | empty_handler | rule_handler.
#[export] Instance completion_handler_eq_dec : EqDecision completion_handler.
Proof. solve_decision. Defined.

Record response : Type := Response {
  code_ : Z;
  body : string;
  headers : ci_map;
  skip_body : bool;
  manual_length_header : bool;
  completed_ : bool;
  complete_request_handler_ : completion_handler;
  is_alive_set : bool;         (* [is_alive_helper_] is not null *)
  file_info : static_file_info;
}.

Definition response_new (code : Z) (body : string) (headers : ci_map) : response :=
  Response code body headers false false false no_handler false no_static_file.
(** [response()], [response(code)], [response(body)], [response(code, body)]. *)
Definition response_default : response := response_new 200 "" [].
Definition response_code (code : Z) : response := response_new code "" [].
Definition response_body (b : string) : response := response_new 200 b [].
Definition response_code_body (code : Z) (b : string) : response := response_new code b [].

Definition set_code (c : Z) (r : response) : response :=
  Response c (body r) (headers r) (skip_body r) (manual_length_header r) (completed_ r)
    (complete_request_handler_ r) (is_alive_set r) (file_info r).
Definition set_body (b : string) (r : response) : response :=
  Response (code_ r) b (headers r) (skip_body r) (manual_length_header r) (completed_ r)
    (complete_request_handler_ r) (is_alive_set r) (file_info r).
Definition set_headers (h : ci_map) (r : response) : response :=
  Response (code_ r) (body r) h (skip_body r) (manual_length_header r) (completed_ r)
    (complete_request_handler_ r) (is_alive_set r) (file_info r).
Definition set_skip_body (b : bool) (r : response) : response :=
  Response (code_ r) (body r) (headers r) b (manual_length_header r) (completed_ r)
    (complete_request_handler_ r) (is_alive_set r) (file_info r).
Definition set_manual_length (b : bool) (r : response) : response :=
  Response (code_ r) (body r) (headers r) (skip_body r) b (completed_ r)
    (complete_request_handler_ r) (is_alive_set r) (file_info r).
Definition set_completed (b : bool) (r : response) : response :=
  Response (code_ r) (body r) (headers r) (skip_body r) (manual_length_header r) b
    (complete_request_handler_ r) (is_alive_set r) (file_info r).
Definition set_handlers (h : completion_handler) (a : bool) (r : response) : response :=
  Response (code_ r) (body r) (headers r) (skip_body r) (manual_length_header r)
    (completed_ r) h a (file_info r).
Definition set_file_info (f : static_file_info) (r : response) : response :=
  Response (code_ r) (body r) (headers r) (skip_body r) (manual_length_header r)
    (completed_ r) (complete_request_handler_ r) (is_alive_set r) f.

Definition set_header (key value : string) (r : response) : response :=
  set_headers (ci_emplace (ci_erase (headers r) key) key value) r.
Definition add_header (key value : string) (r : response) : response :=
  set_headers (ci_emplace (headers r) key value) r.
Definition res_get_header_value (r : response) (key : string) : string :=
  get_header_value (headers r) key.
Definition write (body_part : string) (r : response) : response :=
  set_body (body r +:+ body_part) r.

(** [response(returnable&)] and [response(code, returnable&)] on a [json::wvalue], whose
    [content_type] is [application/json]. *)
Definition response_json `{!UMapIter} (code : Z) (v : wvalue) : response :=
  set_header "Content-Type" "application/json" (response_code_body code (dump v)).

(** [operator=(response&&)]: [skip_body], [manual_length_header] and the two closures
    stay those of the target. *)
Definition move_assign (res r : response) : response :=
  Response (code_ r) (body r) (headers r) (skip_body res) (manual_length_header res)
    (completed_ r) (complete_request_handler_ res) (is_alive_set res) (file_info r).

Definition res_clear (r : response) : response :=
  Response 200 "" [] (skip_body r) (manual_length_header r) false (complete_request_handler_ r)
    (is_alive_set r) no_static_file.

Definition is_completed (r : response) : bool := completed_ r.
Definition is_static_type (r : response) : bool := negb (bool_decide (sf_path (file_info r) = "")).

Definition redirect_to (c : Z) (location : string) (r : response) : response :=
  set_header "Location" location (set_code c r).
Definition redirect : string → response → response := redirect_to 307.
Definition redirect_perm : string → response → response := redirect_to 308.
Definition moved : string → response → response := redirect_to 302.
Definition moved_perm : string → response → response := redirect_to 301.

(** What [end()] does before it calls the completion handler: [None] when the response
    is already complete. *)
Definition res_end_start (r : response) : option response :=
  if completed_ r then None
  else
    let r := set_completed true r in
    Some (if skip_body r then
            set_manual_length true
              (set_body "" (set_header "Content-Length"
                              (to_string (Z.of_nat (String.length (body r)))) r))
          else r).
(** What it does after the handler returned. *)
Definition res_end_finish (r : response) : response :=
  set_skip_body false (set_manual_length false r).
(** [end()] when no completion handler is installed. *)
Definition res_end_plain (r : response) : response :=
  match res_end_start r with Some r' => r' | None => r end.

(** ** Content types *)

Definition valid_parent_types : list string :=
  ["application/"; "audio/"; "font/"; "example/"; "image/"; "message/"; "model/";
   "multipart/"; "text/"; "video/"].
Definition validate_mime_type (candidate : string) : bool :=
  existsb (λ parent,
    if bool_decide (String.length candidate ≤ String.length parent)%nat then false
    else starts_with parent candidate) valid_parent_types.
Definition get_mime_type (contentType : string) : string :=
  match mime_type_of contentType with
  | Some t => t
  | None => if validate_mime_type contentType then contentType else "text/plain"
  end.
(** What is sent is always a content type. *)
Lemma get_mime_type_valid contentType : validate_mime_type (get_mime_type contentType) = true.
Proof.
  unfold get_mime_type. destruct (mime_type_of contentType) as [t|] eqn:E.
  - assert (forallb (λ kv, validate_mime_type kv.2) mime_types = true) as H by by vm_compute.
    rewrite forallb_forall in H. apply (H (contentType, t)). apply list_elem_of_In.
    by apply mime_type_of_elem.
  - by destruct (validate_mime_type contentType) eqn:Hv.
Qed.
Definition response_typed (code : Z) (contentType b : string) : response :=
  set_header "Content-Type" (get_mime_type contentType) (response_code_body code b).

(** ** Static files *)

(** [stat]: whether the path is a regular file, and its size; nothing if there is no such
    file.  [fs_read]: what [std::ifstream] reads. *)
Class FileSystem : Type := {
  fs_stat : string → option (bool * Z);
  fs_read : string → string;
}.

(** What follows the last [.] of a path; all of it when there is none. *)
Fixpoint extension_of (path : string) : option string :=
  match path with
  | EmptyString => None
  | String c path' =>
      match extension_of path' with
      | Some e => Some e
      | None => if decide (c = "."%char) then Some path' else None
      end
  end.
Definition set_static_file_info_unsafe `{!FileSystem} (path : string) (r : response) : response :=
  let missing st := set_code 404 (set_file_info (StaticFile "" st) r) in
  match fs_stat (c_str path) with
  | Some (regular, size) =>
      if (regular : bool) then
        let r := set_code 200 (set_file_info (StaticFile path 0) r) in
        let r := add_header "Content-Length" (to_string size) r in
        let extension := default path (extension_of path) in
        if decide (extension = "") then r
        else add_header "Content-Type" (get_mime_type extension) r
      else missing 0
  | None => missing (-1)
  end.
Definition set_static_file_info `{!FileSystem} (path : string) (r : response) : response :=
  set_static_file_info_unsafe (sanitize_filename path "_") r.
