(* ===== verification/Multipart.v ===== *)
(** * Multipart bodies: crow/multipart.h and multipart_view.h

    A message with its parts, how it is written, and how it is read from a request.  The two
    headers have the same functions on [std::string] and on [std::string_view]: the one cuts
    the front of a text off with [erase], the other with [substr]; a view is the text it
    refers to.  A multimap keeps its newest entry first, as in Http.v; the order in which a
    container is iterated over is [UMapIter]. *)

From S2P Require Import Prelude Doubles JsonRead JsonWrite Text Utility QueryString Http.

(** ** Data *)

Definition dd : string := "--".
Record header : Type := Header {
  value : string;
  params : list (string * string);
}.
Record part : Type := Part {
  part_headers : list (string * header);
  part_body : string;
}.
Record message : Type := Message {
  msg_headers : ci_map;
  boundary : string;
  parts : list part;
  part_map : list (string * part);
  content_type : string;
}.
Record message_view : Type := MessageView {
  view_headers : ci_map;
  view_boundary : string;
  view_parts : list part;
  view_part_map : list (string * part);
}.

Definition header_empty : header := Header "" [].
Definition part_empty : part := Part [] "".
(** [find] of a multimap with [ci_key_eq]. *)
Definition mm_find {A} (m : list (string * A)) (key : string) : option A :=
  snd <$> head (filter (λ kv, ci_key_eq (fst kv) key = true) m).
Definition get_header_object (headers : list (string * header)) (key : string) : header :=
  default header_empty (mm_find headers key).
Definition get_part_by_name (m : message) (name : string) : part :=
  default part_empty (mm_find (part_map m) name).
Definition view_get_part_by_name (m : message_view) (name : string) : part :=
  default part_empty (mm_find (view_part_map m) name).

(** The conversions to numbers; [from_chars] leaves 0 where it fails. *)
Definition header_int (h : header) : result Z := stoi (value h).
Definition header_double (h : header) : result double := stod (value h).
Definition part_int (p : part) : result Z := stoi (part_body p).
Definition part_double (p : part) : result double := stod (part_body p).
Definition from_chars (s : string) : Z :=
  let '(neg, s1) := match s with String "-" s' => (true, s') | _ => (false, s) end in
  match span is_digit s1 with
  | (EmptyString, _) => 0
  | (ds, _) =>
      let v := if neg : bool then - digits_value 0 ds else digits_value 0 ds in
      if (v <? int32_min) || (int32_max <? v) then 0 else v
  end%Z.
Definition view_header_int (h : header) : Z := from_chars (value h).
Definition view_part_int (p : part) : Z := from_chars (part_body p).

(** [find("name")->second], which reads the end of the map when there is no name. *)
Definition unnamed : exn := UB "the end of params is dereferenced".
Definition part_name (p : part) : result string :=
  match filter (λ kv, fst kv = "name") (params (get_header_object (part_headers p) "Content-Disposition")) with
  | (_, n) :: _ => Ok n
  | [] => Throw unnamed
  end.
(** The constructors from parts. *)
Fixpoint name_parts (l : list part) (m : list (string * part)) : result (list (string * part)) :=
  match l with
  | p :: l' => n ← part_name p; name_parts l' ((n, p) :: m)
  | [] => Ok m
  end.
Definition default_content_type : string := "multipart/form-data; boundary=CROW-BOUNDARY".
Definition content_type_of (boundary : string) : string :=
  if bool_decide (boundary = "") then default_content_type
  else "multipart/form-data; boundary=" +:+ boundary.
Definition message_of (headers : ci_map) (boundary : string) (sections : list part) : result message :=
  m ← name_parts sections [];
  Ok (Message headers boundary sections m (content_type_of boundary)).
Definition message_view_of (headers : ci_map) (boundary : string) (sections : list part)
  : result message_view :=
  m ← name_parts sections []; Ok (MessageView headers boundary sections m).

(** ** Writing *)

Definition pad (s : string) : string := String DQ (s +:+ String DQ EmptyString).
Definition trim (s : string) : string :=
  if bool_decide (1 < String.length s)%nat && bool_decide (char_at s 0 = DQ)
     && bool_decide (char_at s (String.length s - 1) = DQ)
  then stake (String.length s - 2) (sdrop 1 s) else s.

Section Writing.
Context `{ui : !UMapIter}.
Definition param_text (p : string * string) : string := fst p +:+ "=" +:+ pad (snd p).
Definition params_text (ps : list (string * string)) : string :=
  String.concat "" ((λ p, "; " +:+ param_text p) <$> ps).
Definition header_text (h : string * header) : string :=
  fst h +:+ ": " +:+ value (snd h).
Definition header_line (h : string * header) : string :=
  header_text h +:+ params_text (umap_iter (params (snd h))) +:+ crlf.
Definition dump_part (p : part) : string :=
  String.concat "" (header_line <$> umap_iter (part_headers p)) +:+ crlf +:+ part_body p +:+ crlf.
(** [dump(int)]: [parts[part_]], and [parts.at(part_)] in a view. *)
Definition dump_nth (m : message) (i : nat) : result string :=
  match parts m !! i with
  | Some p => Ok (dump_part p)
  | None => Throw (UB "a part that is not there")
  end.
Definition view_dump_nth (m : message_view) (i : nat) : result string :=
  match view_parts m !! i with Some p => Ok (dump_part p) | None => Throw OutOfRange end.
Definition dump_parts (delimiter : string) (l : list part) : string :=
  String.concat "" ((λ p, delimiter +:+ crlf +:+ dump_part p) <$> l) +:+ delimiter +:+ dd +:+ crlf.
Definition dump (m : message) : string := dump_parts (dd +:+ boundary m) (parts m).
Definition view_dump (m : message_view) : string :=
  dump_parts (dd +:+ view_boundary m) (view_parts m).
End Writing.

(** ** Reading *)

(** What the two classes do differently: how the front of a text is cut off, and what
    happens when the delimiter is not found. *)
Record reading : Type := Reading {
  cut : string → nat → result string;
  no_delimiter : list part * list (string * part) → result (list part * list (string * part));
}.
Definition owning : reading :=
  Reading (λ s n, Ok (erase s n))
    (λ _, Throw (BadRequest "Unable to find delimiter in multipart message. Probably ill-formed body")).
Definition viewing : reading := Reading (λ s n, substr s n None) Ok.

(** The loops have fuel: a loop that is still running when it ends. *)
Definition running : exn := UB "the loop is still running".

Section Reading.
Context (how : reading).

Fixpoint parse_params (fuel : nat) (line : string) (ps : list (string * string))
  : result (list (string * string)) :=
  match fuel with
  | O => Throw running
  | S fuel' =>
      if bool_decide (line = "") then Ok ps
      else
        let found_semicolon := find "; " line in
        param ← substr line 0 found_semicolon;
        line ← match found_semicolon with Some i => cut how line (i + 2) | None => Ok "" end;
        let param_split := find "=" param in
        v ← substr param (past param_split 1) None;
        k ← substr param 0 param_split;
        parse_params fuel' line (emplace_new k (trim v) ps)
  end.
(** The key and the value of a line, and the rest of it. *)
Definition parse_header (line : string) : result (string * string * string) :=
  if bool_decide (line = "") then Ok ("", "", line)
  else
    let found_semicolon := find "; " line in
    header ← substr line 0 found_semicolon;
    line ← match found_semicolon with Some i => cut how line (i + 2) | None => Ok "" end;
    let header_split := find ": " header in
    key ← substr header 0 header_split;
    v ← substr header (past header_split 2) None;
    Ok (key, v, line).
Fixpoint parse_lines (fuel : nat) (lines : string) (hs : list (string * header))
  : result (list (string * header)) :=
  match fuel with
  | O => Throw running
  | S fuel' =>
      if bool_decide (lines = "") then Ok hs
      else
        let found_crlf := find crlf lines in
        line ← substr lines 0 found_crlf;
        lines ← cut how lines (past found_crlf 2);
        kvl ← parse_header line;
        let '(key, v, line) := kvl in
        ps ← parse_params (S (String.length line)) line [];
        parse_lines fuel' lines ((key, Header v ps) :: hs)
  end.
Definition parse_section_head (lines : string) : result (list (string * header)) :=
  parse_lines (S (String.length lines)) lines [].
Definition parse_section (section : string) : result part :=
  let found := find (crlf +:+ crlf) section in
  head_line ← substr section 0 (Some (past found 2));
  section ← cut how section (past found 4);
  headers ← parse_section_head head_line;
  body ← substr section 0 (but_last section 2);
  Ok (Part headers body).
Fixpoint parse_body_loop (fuel : nat) (delimiter body : string)
  (st : list part * list (string * part)) : result (list part * list (string * part)) :=
  match fuel with
  | O => Throw running
  | S fuel' =>
      if bool_decide (body = crlf) then Ok st
      else
        match find delimiter body with
        | None => no_delimiter how st
        | Some found =>
            section ← substr body 0 (Some found);
            body ← cut how body (found + String.length delimiter + 2);
            st ← (if bool_decide (section = "") then Ok st
                  else p ← parse_section section; n ← part_name p;
                       Ok (fst st ++ [p], (n, p) :: snd st));
            parse_body_loop fuel' delimiter body st
        end
  end.
Definition parse_body (boundary body : string) : result (list part * list (string * part)) :=
  parse_body_loop (S (String.length body)) (dd +:+ boundary) body ([], []).
End Reading.

Definition boundary_text : string := "boundary=".
(** [to_return[0]] is the terminating NUL of an empty string, and outside an empty view. *)
Definition get_boundary (header : string) : result string :=
  match find boundary_text header with
  | Some found =>
      to_return ← substr header (found + String.length boundary_text) None;
      if bool_decide (char_at to_return 0 = DQ) then substr to_return 1 (but_last to_return 2)
      else Ok to_return
  | None => Ok ""
  end.
Definition view_get_boundary (header : string) : result string :=
  match find boundary_text header with
  | Some found =>
      to_return ← substr header (found + String.length boundary_text) None;
      if bool_decide (to_return = "") then Throw (UB "the first of no characters") else
      if bool_decide (char_at to_return 0 = DQ) then substr to_return 1 (but_last to_return 2)
      else Ok to_return
  | None => Ok ""
  end.

Definition message_of_request (req : request) : result message :=
  let headers := req_headers req in
  b ← get_boundary (get_header_value headers "Content-Type");
  if bool_decide (b = "") then Throw (BadRequest "Empty boundary in multipart message")
  else
    st ← parse_body owning b (req_body req);
    Ok (Message headers b (fst st) (snd st) ("multipart/form-data; boundary=" +:+ b)).

Definition view_parse_section_head : string → result (list (string * header)) :=
  parse_section_head viewing.
Definition view_parse_section : string → result part := parse_section viewing.
Definition view_parse_body : string → string → result (list part * list (string * part)) :=
  parse_body viewing.
Definition message_view_of_request (req : request) : result message_view :=
  let headers := req_headers req in
  b ← view_get_boundary (get_header_value headers "Content-Type");
  st ← view_parse_body b (req_body req);
  Ok (MessageView headers b (fst st) (snd st)).
