(* ===== verification/MultipartSpec.v ===== *)
(** * Multipart bodies: what is written is read back

    The loops end; a message that is written out and sent as a request is read with the
    parts it had; and a view reads whatever the owning class reads. *)

From S2P Require Import Prelude Doubles JsonRead JsonWrite Text Utility QueryString Http Multipart.

(** ** The loops end *)

Lemma cut_shorter how s n r : how = owning ∨ how = viewing → cut how s n = Ok r →
  r = sdrop n s.
Proof.
  intros [-> | ->]; cbn; [by intros [= <-]|]. unfold substr. destruct (_ <? _)%nat; [done|].
  by intros [= <-].
Qed.
Lemma cut_Throw how s n e : how = owning ∨ how = viewing → cut how s n = Throw e → e = OutOfRange.
Proof. intros [-> | ->]; cbn; [done|]. by intros [? _]%substr_Throw. Qed.

(** The computation returns, or throws one of the exceptions [ok]. *)
Definition ends {A} (ok : exn → Prop) (r : result A) : Prop :=
  match r with Ok _ => True | Throw e => ok e end.
Lemma ends_bind {A B} ok (r : result A) (k : A → result B) :
  ends ok r → (∀ a, r = Ok a → ends ok (k a)) → ends ok (r ≫= k).
Proof. intros Hr Hk. destruct r as [a|e]; [by apply (Hk a)|done]. Qed.
Lemma ends_weaken {A} (ok ok' : exn → Prop) (r : result A) :
  (∀ e, ok e → ok' e) → ends ok r → ends ok' r.
Proof. destruct r; cbn; auto. Qed.

(** What the functions of multipart.h throw: [substr] past the end, and a body without its
    delimiter. *)
Definition thrown (e : exn) : Prop := e = OutOfRange ∨ ∃ m, e = BadRequest m.
Lemma ends_Ok {A} ok (a : A) : ends ok (Ok a).
Proof. done. Qed.
Lemma ends_substr s i n : ends thrown (substr s i n).
Proof. destruct (substr s i n) eqn:E; [done|]. apply substr_Throw in E as [-> _]. by left. Qed.
#[local] Hint Resolve ends_Ok ends_substr : core.

(** The part has no parameter "name" in its Content-Disposition. *)
Definition nameless (p : part) : Prop :=
  filter (λ kv, fst kv = "name") (params (get_header_object (part_headers p) "Content-Disposition")) = [].
(** [section] is a stretch of [body]. *)
Definition stretch (section body : string) : Prop := ∃ a z, body = a +:+ section +:+ z.
Lemma stretch_head n s : stretch (stake n s) s.
Proof. exists "", (sdrop n s). by rewrite string_app_nil_l, stake_sdrop. Qed.
Lemma stretch_tail n section s : stretch section (sdrop n s) → stretch section s.
Proof.
  intros (a & z & H). exists (stake n s +:+ a), z. rewrite string_app_assoc. rewrite <- H.
  by rewrite stake_sdrop.
Qed.

Section Ends.
Context (how : reading) (Hhow : how = owning ∨ how = viewing).

Lemma ends_cut s n : ends thrown (cut how s n).
Proof using Hhow.
  destruct (cut how s n) as [r|e] eqn:E; [done|]. left. eapply cut_Throw; [exact Hhow|exact E].
Qed.
#[local] Hint Resolve ends_cut : core.

Lemma ends_params fuel line ps : (String.length line < fuel)%nat → ends thrown (parse_params how fuel line ps).
Proof using Hhow.
  revert line ps. induction fuel as [|fuel IH]; intros line ps Hf; [lia|]. cbn [parse_params].
  case_bool_decide as Hl; [done|]. apply ends_bind; [done|]. intros param _.
  destruct (find "; " line) as [i|] eqn:Ei.
  - apply ends_bind; [done|]. intros line' Hc%cut_shorter; [|done].
    apply ends_bind; [done|]. intros v _. apply ends_bind; [done|]. intros k _.
    apply IH. apply find_Some in Ei as [_ Hi]. cbn in Hi. rewrite Hc, sdrop_length. lia.
  - cbn [mbind result_bind]. apply ends_bind; [done|]. intros v _.
    apply ends_bind; [done|]. intros k _. apply IH. destruct line; [done|]. cbn in *. lia.
Qed.
Lemma ends_header line : ends thrown (parse_header how line).
Proof using Hhow.
  unfold parse_header. case_bool_decide; [done|]. apply ends_bind; [done|]. intros h _.
  apply ends_bind; [by destruct (find _ _)|]. intros l _.
  do 2 (apply ends_bind; [done|]; intros ? _). done.
Qed.
Lemma ends_lines fuel lines hs : (String.length lines < fuel)%nat → ends thrown (parse_lines how fuel lines hs).
Proof using Hhow.
  revert lines hs. induction fuel as [|fuel IH]; intros lines hs Hf; [lia|]. cbn [parse_lines].
  case_bool_decide as Hl; [done|]. apply ends_bind; [done|]. intros line _.
  apply ends_bind; [done|]. intros lines' Hc%cut_shorter; [|done].
  apply ends_bind; [apply ends_header|]. intros [[key v] rest] _.
  apply ends_bind; [apply ends_params; lia|]. intros ps _. apply IH.
  rewrite Hc, sdrop_length. destruct lines as [|c lines]; [done|].
  destruct (find _ _); cbn in *; lia.
Qed.
Lemma ends_section section : ends thrown (parse_section how section).
Proof using Hhow.
  unfold parse_section. do 2 (apply ends_bind; [done|]; intros ? _).
  apply ends_bind; [apply ends_lines; lia|]. intros hs _. apply ends_bind; [done|]. done.
Qed.
(** The exceptions of [parse_body]: those, or that the name of a part without one is read
    (multipart.h:200 reads [find("name")->second] and does not look whether it was found). *)
Definition body_thrown (body : string) (e : exn) : Prop :=
  thrown e ∨ e = unnamed ∧ ∃ section p,
    stretch section body ∧ parse_section how section = Ok p ∧ nameless p.

Lemma body_thrown_tail n body e : body_thrown (sdrop n body) e → body_thrown body e.
Proof using.
  intros [H|(-> & section & p & H & ?)]; [by left|right].
  split; [done|]. exists section, p. split; [by eapply stretch_tail|done].
Qed.
Lemma ends_name p : ends (λ e, e = unnamed ∧ nameless p) (part_name p).
Proof using. unfold part_name, nameless. by destruct (filter _ _) as [|[? ?] ?]. Qed.
Lemma ends_body fuel delimiter body st : delimiter ≠ "" → (String.length body < fuel)%nat →
  ends (body_thrown body) (parse_body_loop how fuel delimiter body st).
Proof using Hhow.
  intros Hd. revert body st. induction fuel as [|fuel IH]; intros body st Hf; [lia|]. cbn [parse_body_loop].
  case_bool_decide; [done|]. destruct (find delimiter body) as [found|] eqn:Ef.
  2: { destruct Hhow as [-> | ->]; [|done]. left. right. by eexists. }
  rewrite substr_0. cbn [mbind result_bind]. apply ends_bind.
  { eapply ends_weaken; [|apply ends_cut]. by left. }
  intros body' Hc%cut_shorter; [|done]. apply ends_bind.
  - case_bool_decide; [done|]. destruct (parse_section how (stake found body)) as [p|e] eqn:Ep.
    + cbn [mbind result_bind]. apply ends_bind; [|done]. eapply ends_weaken; [|apply ends_name].
      intros e [-> Hp]. right. split; [done|]. exists (stake found body), p.
      split; [apply stretch_head|done].
    + cbn. left. pose proof (ends_section (stake found body)) as Hsec. by rewrite Ep in Hsec.
  - intros st' _. rewrite Hc. eapply ends_weaken; [apply body_thrown_tail|]. apply IH.
    apply find_Some in Ef as [_ Ef]. rewrite sdrop_length. destruct delimiter; [done|]. cbn in *. lia.
Qed.
End Ends.

(** C38: reading a multipart body ends.  Whatever the boundary and the body, both the owning
    class and the view come to an end after as many turns of their loops as the text has
    characters, and in one of three ways: they return; they throw [out_of_range] or
    [bad_request]; or they read the name of a part that has none, which is undefined
    behaviour, and then there is a stretch of the body that is read as a part without a
    parameter "name" in its Content-Disposition.  Nothing else is undefined in them. *)
Theorem reading_ends (boundary body : string) :
  ends (body_thrown owning body) (parse_body owning boundary body) ∧
  ends (body_thrown viewing body) (view_parse_body boundary body).
Proof. split; apply ends_body; solve [by left|by right|done|lia]. Qed.

(** ** A view reads what the owning class reads *)

Definition view_of (m : message) : message_view :=
  MessageView (msg_headers m) (boundary m) (parts m) (part_map m).

Lemma bind_Ok {A B} (r : result A) (k : A → result B) b :
  r ≫= k = Ok b ↔ ∃ a, r = Ok a ∧ k a = Ok b.
Proof. destruct r as [a|e]; cbn; [|naive_solver]. split; [by exists a|]. by intros (? & [= ->] & ?). Qed.
Ltac inv_bind H := let a := fresh "a" in let Ha := fresh "Ha" in
  apply bind_Ok in H as (a & Ha & H).

(** Where [erase] has something to erase, [substr] does the same. *)
Lemma cut_same s n r : (n ≤ String.length s)%nat → cut owning s n = Ok r → cut viewing s n = Ok r.
Proof. intros Hn [= <-]. cbn. by rewrite substr_ok. Qed.
Lemma semicolon_same line (found : option nat) r : found = find "; " line →
  match found with Some i => cut owning line (i + 2) | None => Ok "" end = Ok r →
  match found with Some i => cut viewing line (i + 2) | None => Ok "" end = Ok r.
Proof.
  intros ->. destruct (find "; " line) as [i|] eqn:E; [|done]. apply cut_same.
  apply find_Some in E as [_ E]. exact E.
Qed.

Lemma params_same fuel line ps r :
  parse_params owning fuel line ps = Ok r → parse_params viewing fuel line ps = Ok r.
Proof.
  revert line ps. induction fuel as [|fuel IH]; intros line ps H; [done|].
  cbn [parse_params] in H |- *. case_bool_decide; [done|].
  do 4 inv_bind H. apply bind_Ok. eexists. split; [exact Ha|].
  apply bind_Ok. eexists. split; [by eapply semicolon_same|].
  apply bind_Ok. eexists. split; [exact Ha1|]. apply bind_Ok. eexists. split; [exact Ha2|].
  by apply IH.
Qed.
Lemma header_same line r : parse_header owning line = Ok r → parse_header viewing line = Ok r.
Proof.
  unfold parse_header. case_bool_decide as Hl; [done|]. intros H; do 2 inv_bind H.
  apply bind_Ok. eexists. split; [exact Ha|]. apply bind_Ok. eexists. split; [by eapply semicolon_same|].
  exact H.
Qed.
Lemma lines_same fuel lines hs r :
  parse_lines owning fuel lines hs = Ok r → parse_lines viewing fuel lines hs = Ok r.
Proof.
  revert lines hs. induction fuel as [|fuel IH]; intros lines hs H; [done|].
  cbn [parse_lines] in H |- *. case_bool_decide as Hl; [done|].
  do 3 inv_bind H. destruct a1 as [[key v] rest]. inv_bind H.
  apply bind_Ok. eexists. split; [exact Ha|].
  apply bind_Ok. eexists. split.
  { eapply cut_same; [|exact Ha0]. destruct (find crlf lines) as [i|] eqn:E; cbn.
    - apply find_Some in E as [_ E]. exact E.
    - destruct lines; [done|]. cbn. lia. }
  apply bind_Ok. eexists. split; [by apply header_same|].
  apply bind_Ok. eexists. split; [by apply params_same|]. by apply IH.
Qed.

(** Without a blank line the head of a section is its first character, which names no part. *)
Lemma parse_lines_keys how fuel lines hs r : how = owning ∨ how = viewing →
  parse_lines how fuel lines hs = Ok r →
  ∀ kv, kv ∈ r → kv ∈ hs ∨ (String.length (fst kv) ≤ String.length lines)%nat.
Proof.
  intros Hhow. revert lines hs. induction fuel as [|fuel IH]; intros lines hs H; [done|].
  cbn [parse_lines] in H. case_bool_decide as Hl; [injection H as <-; by left|].
  do 3 inv_bind H. destruct a1 as [[key v] rest]. inv_bind H.
  assert (String.length key ≤ String.length lines)%nat as Hkey.
  { apply substr_shorter in Ha. unfold parse_header in Ha1.
    case_bool_decide; [injection Ha1 as <- <- <-; cbn; lia|].
    do 4 inv_bind Ha1. injection Ha1 as <- <- <-.
    apply substr_shorter in Ha3. apply substr_shorter in Ha5. lia. }
  intros kv Hkv. destruct (IH _ _ H kv Hkv) as [Hin|Hlen].
  - apply elem_of_cons in Hin as [-> |Hin]; [by right|by left].
  - right. apply cut_shorter in Ha0; [|done]. subst. rewrite sdrop_length in Hlen. lia.
Qed.

Lemma unnamed how s hs b n : how = owning ∨ how = viewing → (String.length s ≤ 1)%nat →
  parse_section_head how s = Ok hs → part_name (Part hs b) ≠ Ok n.
Proof.
  intros Hhow Hs H. unfold part_name, get_header_object, mm_find. cbn [part_headers].
  assert (filter (λ kv : string * header, ci_key_eq kv.1 "Content-Disposition" = true) hs = []) as ->; [|done].
  apply elem_of_nil_inv. intros kv [Heq Hkv]%list_elem_of_filter.
  destruct (parse_lines_keys _ _ _ _ _ Hhow H kv Hkv) as [Hin|Hlen]; [by apply elem_of_nil in Hin|].
  unfold ci_key_eq, string_equals in Heq. case_bool_decide as Hl; [done|].
  rewrite Hl in Hlen. cbn in Hlen. lia.
Qed.
Lemma section_same s p n : parse_section owning s = Ok p → part_name p = Ok n →
  parse_section viewing s = Ok p.
Proof.
  unfold parse_section. intros H Hn. do 4 inv_bind H. injection H as <-.
  destruct (find (crlf +:+ crlf) s) as [i|] eqn:E.
  - apply bind_Ok. eexists. split; [exact Ha|]. apply bind_Ok. eexists. split.
    { eapply cut_same; [|exact Ha0]. apply find_Some in E as [_ E]. exact E. }
    apply bind_Ok. eexists. split; [by apply lines_same|]. apply bind_Ok. by eexists.
  - exfalso. eapply (unnamed owning a); [by left| |exact Ha1|exact Hn].
    cbn in Ha. injection Ha as <-. by destruct s as [|? []]; cbn; lia.
Qed.

Lemma body_same fuel delimiter body st r : delimiter ≠ "" →
  parse_body_loop owning fuel delimiter body st = Ok r →
  parse_body_loop viewing fuel delimiter body st = Ok r.
Proof.
  intros Hd. revert body st. induction fuel as [|fuel IH]; intros body st H; [done|].
  cbn [parse_body_loop] in H |- *. case_bool_decide as Hb; [done|].
  destruct (find delimiter body) as [found|] eqn:E; [|done].
  do 3 inv_bind H. apply bind_Ok. eexists. split; [exact Ha|].
  destruct (decide (found + String.length delimiter + 2 ≤ String.length body)%nat) as [Hle|Hle].
  - apply bind_Ok. eexists. split; [by eapply cut_same|]. apply bind_Ok. exists a1.
    split; [|by apply IH]. case_bool_decide; [done|]. do 2 inv_bind Ha1.
    apply bind_Ok. eexists. split; [by eapply section_same|]. apply bind_Ok. by eexists.
  - exfalso. injection Ha0 as <-. unfold erase in H. rewrite sdrop_all in H by lia.
    destruct fuel; [done|]. cbn [parse_body_loop] in H. case_bool_decide; [done|].
    by destruct delimiter.
Qed.

(** C37: a view reads what the owning class reads.  Where the constructor of [message] returns,
    that of [message_view] returns the same boundary, the same parts and the same map from
    names to them. *)
Theorem view_agrees (req : request) (m : message) :
  message_of_request req = Ok m → message_view_of_request req = Ok (view_of m).
Proof.
  unfold message_of_request, message_view_of_request. intros H. inv_bind H.
  case_bool_decide as Hb; [done|]. inv_bind H. injection H as <-.
  apply bind_Ok. exists a. split.
  - revert Ha. unfold get_boundary, view_get_boundary. destruct (find _ _); [|done].
    intros Ha. inv_bind Ha. rewrite Ha1. cbn [mbind result_bind].
    destruct (decide (a1 = "")) as [-> |Ht]; [vm_compute in Ha; congruence|].
    by rewrite (bool_decide_eq_false_2 (a1 = "")).
  - apply bind_Ok. exists a0. split; [apply body_same; [done|exact Ha0]|done].
Qed.

(** ** What is written is read back *)

Definition no_cr (s : string) : Prop := string_Forall (λ c, c ≠ "013"%char) s.
Record param_ok (kv : string * string) : Prop := {
  po_line : no_cr (param_text kv);
  po_key : string_Forall (λ c, c ≠ "="%char) (fst kv);
  po_field : find "; " (param_text kv) = None;
}.
Record header_ok (h : string * header) : Prop := {
  ho_line : no_cr (header_text h);
  ho_key : find ": " (fst h) = None;
  ho_field : find "; " (header_text h) = None;
  ho_params : List.Forall param_ok (params (snd h));
  ho_keys : NoDup (params (snd h)).*1;
}.

Lemma trim_pad v : trim (pad v) = v.
Proof.
  assert (String.length (pad v) = String.length v + 2)%nat as Hl
    by (unfold pad; cbn; rewrite string_length_app; cbn; lia).
  unfold trim. rewrite (bool_decide_eq_true_2 (1 < _)%nat) by lia.
  assert (char_at (pad v) (String.length (pad v) - 1) = DQ) as Hlast.
  { rewrite Hl. replace (String.length v + 2 - 1)%nat with (S (String.length v)) by lia.
    unfold char_at, pad. cbn [String.get]. clear Hl. f_equal.
    induction v as [|c v IH]; [done|]. rewrite string_app_cons. exact IH. }
  rewrite Hlast, !bool_decide_eq_true_2 by done. cbn [andb]. rewrite Hl.
  replace (String.length v + 2 - 2)%nat with (String.length v) by lia.
  unfold pad. cbn [sdrop]. apply stake_app.
Qed.

(** The fields of a line, and what is left of it when the first is taken. *)
Definition rest_text (ps : list (string * string)) : string :=
  match ps with [] => "" | p :: ps' => param_text p +:+ params_text ps' end.
Lemma params_text_cons p ps : params_text (p :: ps) = "; " +:+ rest_text (p :: ps).
Proof. unfold params_text. cbn [fmap list_fmap]. by rewrite string_concat_cons, string_app_assoc. Qed.

Section Fields.
Context (how : reading) (Hhow : how = owning ∨ how = viewing).

Lemma cut_app a b n : n = String.length a → cut how (a +:+ b) n = Ok b.
Proof using Hhow.
  intros ->. destruct Hhow as [-> | ->]; cbn; unfold erase; [by rewrite sdrop_app|apply substr_app].
Qed.
Lemma field a ps : find "; " a = None →
  let line := a +:+ params_text ps in
  substr line 0 (find "; " line) = Ok a ∧
  match find "; " line with Some i => cut how line (i + 2) | None => Ok "" end = Ok (rest_text ps).
Proof using Hhow.
  intros Ha line. subst line. destruct ps as [|p ps].
  - change (params_text []) with "". rewrite string_app_nil_r, Ha. by rewrite substr_ok by lia.
  - rewrite params_text_cons. pose proof (find_two ";" " " a (rest_text (p :: ps)) ltac:(done) Ha) as E.
    change (String ";" (String " " (rest_text (p :: ps)))) with ("; " +:+ rest_text (p :: ps)) in E.
    rewrite E. split; [by rewrite substr_0, stake_app|].
    rewrite <- string_app_assoc. apply cut_app. by rewrite string_length_app.
Qed.

Lemma parse_params_rest fuel ps acc : List.Forall param_ok ps → (String.length (rest_text ps) < fuel)%nat →
  parse_params how fuel (rest_text ps) acc
  = Ok (foldl (λ acc p, emplace_new (fst p) (snd p) acc) acc ps).
Proof using Hhow.
  revert ps acc. induction fuel as [|fuel IH]; intros ps acc Hok Hf; [lia|].
  destruct ps as [|[k v] ps]; [done|]. apply Forall_cons_1 in Hok as [[_ Hk Hp] Hok].
  cbn [parse_params]. rewrite bool_decide_eq_false_2.
  2: { cbn. unfold param_text. cbn. by destruct k. }
  destruct (field (param_text (k, v)) ps Hp) as [E1 E2].
  change (rest_text ((k, v) :: ps)) with (param_text (k, v) +:+ params_text ps) in *.
  rewrite E1. cbn [mbind result_bind]. rewrite E2. cbn [mbind result_bind].
  assert (find "=" (param_text (k, v)) = Some (String.length k)) as -> by by apply find_char.
  assert (param_text (k, v) = (k +:+ "=") +:+ pad v) as Et by by rewrite string_app_assoc.
  cbn [past]. replace (String.length k + 1)%nat with (String.length (k +:+ "="))
    by by rewrite string_length_app.
  rewrite Et at 1. rewrite substr_app. cbn [mbind result_bind].
  unfold param_text at 1. cbn [fst]. rewrite substr_0, stake_app. cbn [mbind result_bind].
  rewrite trim_pad. rewrite IH; [done|done|].
  assert (String.length (rest_text ps) < String.length (param_text (k, v) +:+ params_text ps))%nat; [|lia].
  rewrite string_length_app, Et, !string_length_app. destruct ps as [|p ps]; [cbn; lia|].
  rewrite params_text_cons, string_length_app. cbn. lia.
Qed.
End Fields.

Section RoundTrip.
Context `{ui : !UMapIter}.
Implicit Types (p : part) (hs : list (string * header)).

(** What is read of a header and of a part that were written: the same, in the order in which
    they were iterated over. *)
Definition reread_header (h : header) : header := Header (value h) (umap_iter (params h)).
Definition reread p : part :=
  Part (rev (prod_map id reread_header <$> umap_iter (part_headers p))) (part_body p).

Definition line_text (h : string * header) : string :=
  header_text h +:+ params_text (umap_iter (params (snd h))).
Lemma header_line_text h : header_line h = line_text h +:+ crlf.
Proof. unfold header_line, line_text. by rewrite string_app_assoc. Qed.
Lemma line_text_ne h : line_text h ≠ "".
Proof. unfold line_text, header_text. by destruct h as [[|c k] h]. Qed.
Lemma umap_params_ok h : header_ok h → List.Forall param_ok (umap_iter (params (snd h))).
Proof. intros H. eapply Permutation_Forall; [symmetry; apply umap_iter_perm|]. by apply ho_params. Qed.
Lemma no_cr_concat l : List.Forall no_cr l → no_cr (String.concat "" l).
Proof.
  induction 1 as [|x l Hx _ IH]; [done|]. rewrite string_concat_cons. by apply string_Forall_app.
Qed.
Lemma line_text_no_cr h : header_ok h → no_cr (line_text h).
Proof.
  intros H. apply string_Forall_app. split; [by apply ho_line|]. apply no_cr_concat.
  apply List.Forall_map. eapply Forall_impl; [by apply umap_params_ok|].
  intros kv Hkv. apply string_Forall_app. by split; [|apply po_line].
Qed.

(** The head of a part is the text up to the first blank line. *)
Lemma find_crlf l rest : no_cr l → find crlf (l +:+ crlf +:+ rest) = Some (String.length l).
Proof.
  intros Hl. unfold crlf at 1. rewrite find_skip_char by done. rewrite find_here. cbn.
  by rewrite Nat.add_0_r.
Qed.
Lemma find_blank (ls : list string) rest : ls ≠ [] → List.Forall (λ l, no_cr l ∧ l ≠ "") ls →
  find (crlf +:+ crlf) (String.concat "" ((λ l, l +:+ crlf) <$> ls) +:+ crlf +:+ rest)
  = Some (String.length (String.concat "" ((λ l, l +:+ crlf) <$> ls)) - 2)%nat.
Proof.
  intros Hne Hls. induction Hls as [|l ls [Hl _] Hls IH]; [done|]. clear Hne.
  rewrite fmap_cons, string_concat_cons, !string_app_assoc, string_length_app.
  change (crlf +:+ crlf) with (String "013" (String "010" crlf)) at 1.
  rewrite find_skip_char by done. change (String "013" (String "010" crlf)) with (crlf +:+ crlf).
  destruct ls as [|l' ls].
  { change (String.concat "" ((λ l, l +:+ crlf) <$> [])) with "". rewrite string_app_nil_l.
    rewrite <- string_app_assoc, find_here, ?string_length_app. cbn. f_equal. lia. }
  assert (∃ c x, c ≠ "013"%char ∧ String.concat "" ((λ l, l +:+ crlf) <$> (l' :: ls)) = String c x) as (c & x & Hc & Ex).
  { apply Forall_cons_1 in Hls as [[Hl' Hne] _]. destruct l' as [|c l']; [done|].
    rewrite fmap_cons, string_concat_cons, !string_app_cons. eexists _, _. split; [apply Hl'|done]. }
  specialize (IH ltac:(done)). rewrite Ex in IH |- *. rewrite !string_app_cons in *.
  assert (find (crlf +:+ crlf) (crlf +:+ String c (x +:+ crlf +:+ rest))
    = S <$> (S <$> find (crlf +:+ crlf) (String c (x +:+ crlf +:+ rest)))) as ->.
  { unfold crlf at 3. rewrite !string_app_cons, string_app_nil_l. rewrite find_String.
    - by rewrite find_String.
    - apply strip_prefix_None. intros r Hr. injection Hr as Hr. congruence. }
  rewrite IH. cbn [fmap option_fmap option_map]. f_equal. rewrite (string_length_app crlf).
  assert (2 ≤ String.length (String c x))%nat.
  { rewrite <- Ex, fmap_cons, string_concat_cons, !string_length_app. cbn. lia. }
  cbn [String.length crlf] in *. lia.
Qed.

Section Reader.
Context (how : reading) (Hhow : how = owning ∨ how = viewing).

Lemma parse_line h : header_ok h → parse_header how (line_text h)
  = Ok (fst h, value (snd h), rest_text (umap_iter (params (snd h)))).
Proof using Hhow.
  intros H. unfold parse_header. rewrite bool_decide_eq_false_2 by apply line_text_ne.
  destruct (field how Hhow _ (umap_iter (params (snd h))) (ho_field h H)) as [E1 E2].
  fold (line_text h) in E1, E2. rewrite E1. cbn [mbind result_bind]. rewrite E2.
  cbn [mbind result_bind]. unfold header_text.
  pose proof (find_two ":" " " (fst h) (value (snd h)) ltac:(done) (ho_key h H)) as E.
  change (String ":" (String " " (value (snd h)))) with (": " +:+ value (snd h)) in E. rewrite E.
  rewrite substr_0, stake_app. cbn [mbind result_bind past].
  replace (String.length (fst h) + 2)%nat with (String.length (fst h +:+ ": "))
    by by rewrite string_length_app.
  by rewrite <- string_app_assoc, substr_app.
Qed.
Lemma parse_lines_text fuel hs acc : List.Forall header_ok hs →
  (String.length (String.concat "" (header_line <$> hs)) < fuel)%nat →
  parse_lines how fuel (String.concat "" (header_line <$> hs)) acc
  = Ok (rev (prod_map id reread_header <$> hs) ++ acc).
Proof using Hhow.
  revert hs acc. induction fuel as [|fuel IH]; intros hs acc Hok Hf; [lia|].
  destruct hs as [|h hs]; [done|]. apply Forall_cons_1 in Hok as [Hh Hok].
  rewrite fmap_cons, string_concat_cons in Hf |- *. rewrite header_line_text, string_app_assoc in Hf |- *.
  cbn [parse_lines]. rewrite bool_decide_eq_false_2.
  2: { pose proof (line_text_ne h). by destruct (line_text h). }
  rewrite find_crlf by by apply line_text_no_cr.
  rewrite substr_0, stake_app. cbn [mbind result_bind past].
  rewrite <- string_app_assoc at 1. rewrite cut_app; [|exact Hhow|by rewrite string_length_app].
  cbn [mbind result_bind]. rewrite parse_line by done. cbn [mbind result_bind].
  rewrite parse_params_rest; [|exact Hhow|by apply umap_params_ok|lia]. cbn [mbind result_bind].
  rewrite emplace_new_all.
  2: { rewrite app_nil_l. rewrite (fmap_Permutation _ _ _ (umap_iter_perm _)). by apply ho_keys. }
  rewrite IH; [|done|rewrite !string_length_app in Hf; cbn in Hf; lia].
  cbn. by rewrite <- app_assoc.
Qed.

Lemma parse_dump_part p : part_headers p ≠ [] → List.Forall header_ok (part_headers p) →
  parse_section how (dump_part p) = Ok (reread p).
Proof using Hhow.
  intros Hne Hok. unfold parse_section, dump_part. set (hs := umap_iter (part_headers p)).
  assert (hs ≠ []) as Hhs.
  { intros E. apply Hne, Permutation_nil. rewrite <- E. apply umap_iter_perm. }
  assert (List.Forall header_ok hs) as Hoks
    by (eapply Permutation_Forall; [symmetry; apply umap_iter_perm|done]).
  assert (header_line <$> hs = (λ l, l +:+ crlf) <$> (line_text <$> hs)) as Eh.
  { rewrite <- list_fmap_compose. apply list_fmap_ext. intros ? h _. apply header_line_text. }
  assert (2 ≤ String.length (String.concat "" (header_line <$> hs)))%nat as H2.
  { destruct hs as [|h hs']; [done|]. rewrite fmap_cons, string_concat_cons, header_line_text, !string_length_app.
    cbn. lia. }
  assert (find (crlf +:+ crlf) (String.concat "" (header_line <$> hs) +:+ crlf +:+ part_body p +:+ crlf)
    = Some (String.length (String.concat "" (header_line <$> hs)) - 2)%nat) as Ef.
  { rewrite Eh. apply find_blank; [by destruct hs|]. apply List.Forall_map.
    eapply Forall_impl; [exact Hoks|]. intros h Hh. split; [by apply line_text_no_cr|apply line_text_ne]. }
  cbv zeta. rewrite Ef. cbn [past]. set (head := String.concat "" (header_line <$> hs)) in *.
  replace (String.length head - 2 + 2)%nat with (String.length head) by lia.
  replace (String.length head - 2 + 4)%nat with (String.length (head +:+ crlf))
    by (rewrite string_length_app; cbn; lia).
  rewrite substr_0, stake_app. cbn [mbind result_bind].
  rewrite <- string_app_assoc, cut_app by done. cbn [mbind result_bind].
  unfold parse_section_head. subst head. rewrite parse_lines_text; [|done|lia].
  cbn [mbind result_bind]. unfold but_last. rewrite string_length_app. cbn [String.length crlf].
  rewrite (proj2 (Nat.ltb_ge _ _)) by lia.
  replace (String.length (part_body p) + 2 - 2)%nat with (String.length (part_body p)) by lia.
  rewrite substr_0, stake_app. cbn [mbind result_bind]. by rewrite app_nil_r.
Qed.
End Reader.

(** Two parts with the same body and the same headers, but for the order in which headers and
    parameters are kept. *)
Definition header_eq (x y : string * header) : Prop :=
  fst x = fst y ∧ value (snd x) = value (snd y) ∧ params (snd x) ≡ₚ params (snd y).
Definition part_eq p q : Prop :=
  part_body p = part_body q ∧
  ∃ hs, part_headers q ≡ₚ hs ∧ List.Forall2 header_eq (part_headers p) hs.
Lemma reread_eq p : part_eq (reread p) p.
Proof.
  split; [done|]. exists (rev (umap_iter (part_headers p))). split.
  { by rewrite <- Permutation_rev, umap_iter_perm. }
  cbn. rewrite <- (map_rev _ (umap_iter _)). induction (rev _) as [|[k h] l IH]; cbn; constructor; [|done].
  split_and!; [done..|]. apply umap_iter_perm.
Qed.

Definition dispositions hs : list (string * header) :=
  filter (λ kv, ci_key_eq (fst kv) "Content-Disposition" = true) hs.
(** A part that can be written with this delimiter and read back. *)
Record part_ok (delimiter : string) p : Prop := {
  pt_headers : List.Forall header_ok (part_headers p);
  pt_disposition : length (dispositions (part_headers p)) = 1%nat;
  pt_delimiter : find delimiter (dump_part p) = None;
}.

Lemma filter_singleton {A} (P : A → Prop) `{!∀ x, Decision (P x)} l l' x :
  l ≡ₚ l' → filter P l' = [x] → filter P l = [x].
Proof.
  intros Hp Hx. apply Permutation_singleton_r. rewrite <- Hx. by apply filter_Permutation.
Qed.
Lemma filter_key {A B} (P : string → Prop) `{!∀ kv : string * A, Decision (P (fst kv)),
  !∀ kv : string * B, Decision (P (fst kv))} (f : A → B) (l : list (string * A)) :
  filter (λ kv, P (fst kv)) (prod_map id f <$> l) = prod_map id f <$> filter (λ kv, P (fst kv)) l.
Proof.
  induction l as [|[k x] l IH]; [done|]. rewrite fmap_cons, !list_basics.list.filter_cons.
  cbn [fst prod_map id]. by do 2 case_decide; rewrite ?fmap_cons, ?IH.
Qed.
Lemma filter_one_key {A} (l : list (string * A)) k kv l' :
  NoDup l.*1 → filter (λ kv, fst kv = k) l = kv :: l' → l' = [].
Proof.
  induction l as [|x l IH]; intros Hnd H; [done|]. apply list.NoDup_cons in Hnd as [Hx Hnd].
  rewrite list_basics.list.filter_cons in H. case_decide as Hk; [|by apply IH].
  injection H as _ <-. apply elem_of_nil_inv. intros y [Hy Hin]%list_elem_of_filter.
  apply Hx. rewrite Hk, <- Hy. by apply list_elem_of_fmap_2.
Qed.
Lemma part_name_reread d p : part_ok d p → part_name (reread p) = part_name p.
Proof.
  intros [Hok H1 _]. unfold part_name, get_header_object, mm_find.
  unfold dispositions in H1.
  destruct (filter _ (part_headers p)) as [|[k h] [|? ?]] eqn:E; [done| |done].
  assert (filter (λ kv, ci_key_eq kv.1 "Content-Disposition" = true) (part_headers (reread p))
    = [(k, reread_header h)]) as ->.
  { cbn. eapply filter_singleton; [symmetry; apply Permutation_rev|].
    etransitivity; [apply (filter_key (λ k, ci_key_eq k "Content-Disposition" = true))|].
    by rewrite (filter_singleton _ _ _ _ (umap_iter_perm _) E). }
  cbn. assert (header_ok (k, h)) as Hh.
  { rewrite List.Forall_forall in Hok. apply Hok, list_elem_of_In.
    assert ((k, h) ∈ [(k, h)]) as Hin by by left. rewrite <- E in Hin.
    by apply list_elem_of_filter in Hin as [_ Hin]. }
  destruct (filter (λ kv, kv.1 = "name") (params h)) as [|[k' n] l'] eqn:E'.
  - assert (filter (λ kv, kv.1 = "name") (umap_iter (params h)) = []) as ->; [|done].
    apply Permutation_nil. rewrite <- E'. apply filter_Permutation. symmetry. apply umap_iter_perm.
  - rewrite (filter_one_key _ _ _ _ (ho_keys _ Hh) E') in E'.
    by rewrite (filter_singleton _ _ _ _ (umap_iter_perm _) E').
Qed.

(** What follows a delimiter and the two characters after it. *)
Definition after_delimiter (delimiter : string) (l : list part) : string :=
  match l with [] => crlf | p :: l' => dump_part p +:+ dump_parts delimiter l' end.
Definition two_after (l : list part) : string := match l with [] => dd | _ => crlf end.
Lemma dump_parts_after d l : dump_parts d l = d +:+ two_after l +:+ after_delimiter d l.
Proof.
  destruct l as [|p l]; unfold dump_parts; [by rewrite string_app_nil_l|].
  rewrite fmap_cons, string_concat_cons. cbn [two_after after_delimiter]. unfold dump_parts.
  by rewrite !string_app_assoc.
Qed.
Lemma dump_part_ends p : ∃ a, dump_part p = a +:+ String "010" "".
Proof.
  exists (String.concat "" (header_line <$> umap_iter (part_headers p)) +:+ crlf +:+
          part_body p +:+ String "013" "").
  rewrite !string_app_assoc. unfold dump_part. do 3 f_equal.
Qed.

Section Bodies.
Context (how : reading) (Hhow : how = owning ∨ how = viewing).
Context (d : string) (Hd : d ≠ "") (Hlf : string_Forall (λ c, c ≠ "010"%char) d).

(** One turn of the loop, at a delimiter with a section before it. *)
Lemma body_turn fuel sec l st : find d (sec +:+ dump_parts d l) = Some (String.length sec) →
  sec +:+ dump_parts d l ≠ crlf →
  parse_body_loop how (S fuel) d (sec +:+ dump_parts d l) st =
  (st ← (if bool_decide (sec = "") then Ok st
         else p ← parse_section how sec; n ← part_name p; Ok (fst st ++ [p], (n, p) :: snd st));
   parse_body_loop how fuel d (after_delimiter d l) st).
Proof using Hhow.
  intros Hf Hne. cbn [parse_body_loop]. rewrite bool_decide_eq_false_2 by done. rewrite Hf.
  rewrite substr_0, stake_app. cbn [mbind result_bind].
  assert (sec +:+ dump_parts d l = (sec +:+ d +:+ two_after l) +:+ after_delimiter d l) as ->
    by by rewrite dump_parts_after, !string_app_assoc.
  rewrite cut_app; [done|exact Hhow|]. rewrite !string_length_app. by destruct l; cbn; lia.
Qed.
Lemma body_parts fuel l ps m m' : List.Forall (part_ok d) l → name_parts l m = Ok m' →
  (String.length (after_delimiter d l) < fuel)%nat →
  parse_body_loop how fuel d (after_delimiter d l) (ps, prod_map id reread <$> m)
  = Ok (ps ++ (reread <$> l), prod_map id reread <$> m').
Proof using Hhow Hd Hlf.
  revert l ps m. induction fuel as [|fuel IH]; intros l ps m Hok Hn Hf; [lia|].
  destruct l as [|p l]; [injection Hn as <-; cbn [parse_body_loop after_delimiter fmap list_fmap]; by rewrite app_nil_r|].
  apply Forall_cons_1 in Hok as [Hp Hok]. cbn [name_parts] in Hn. inv_bind Hn.
  assert (dump_part p ≠ "") as Hne.
  { destruct (dump_part_ends p) as [b ->]. by destruct b. }
  cbn [after_delimiter] in Hf |- *. rewrite body_turn.
  - rewrite bool_decide_eq_false_2 by done. rewrite parse_dump_part; [|exact Hhow| |by apply Hp].
    2: { intros E. destruct Hp as [_ H1 _]. by rewrite E in H1. }
    cbn [mbind result_bind]. rewrite (part_name_reread d), Ha by done. cbn [mbind result_bind fst snd].
    change ((a, reread p) :: (prod_map id reread <$> m)) with (prod_map id reread <$> ((a, p) :: m)).
    rewrite (IH l _ _ Hok Hn).
    + by rewrite <- app_assoc.
    + rewrite string_length_app, dump_parts_after, !string_length_app in Hf.
      assert (0 < String.length d)%nat by (destruct d; [done|cbn; lia]). lia.
  - destruct Hp as [_ _ Hp]. revert Hp. destruct (dump_part_ends p) as [b ->]. intros Hp.
    rewrite dump_parts_after. by apply find_sealed.
  - rewrite dump_parts_after. intros E. apply (f_equal String.length) in E.
    rewrite !string_length_app in E. cbn in E.
    destruct (dump_part p); [done|]. destruct d; [done|]. destruct l; cbn in E; lia.
Qed.
Lemma parse_body_parts l m : List.Forall (part_ok d) l → name_parts l [] = Ok m →
  parse_body_loop how (S (String.length (dump_parts d l))) d (dump_parts d l) ([], [])
  = Ok (reread <$> l, prod_map id reread <$> m).
Proof using Hhow Hd Hlf.
  intros Hok Hn. rewrite <- (string_app_nil_l (dump_parts d l)) at 2. rewrite body_turn.
  - cbn [mbind result_bind]. rewrite bool_decide_eq_true_2 by done. cbn [mbind result_bind].
    rewrite (body_parts _ l [] [] m Hok Hn); [done|].
    rewrite dump_parts_after, !string_length_app. destruct d; [done|]. cbn. lia.
  - rewrite string_app_nil_l, dump_parts_after. apply find_here.
  - rewrite string_app_nil_l, dump_parts_after. intros E. apply (f_equal String.length) in E.
    rewrite !string_length_app in E. destruct d; [done|]. destruct l; cbn in E; lia.
Qed.
End Bodies.

Lemma get_boundary_of b : b ≠ "" → char_at b 0 ≠ DQ → get_boundary (content_type_of b) = Ok b.
Proof.
  intros Hb Hq. unfold get_boundary, content_type_of. rewrite bool_decide_eq_false_2 by done.
  assert (find boundary_text ("multipart/form-data; boundary=" +:+ b) = Some 21%nat) as -> by reflexivity.
  change (21 + String.length boundary_text)%nat with (String.length "multipart/form-data; boundary=").
  rewrite substr_app. cbn [mbind result_bind]. by rewrite bool_decide_eq_false_2.
Qed.

(** C10: a multipart message is read back as it was written.  The boundary is not empty, has
    no line feed and begins with no quote.  Every part has exactly one Content-Disposition,
    with a name, and no text that it is written as contains the delimiter; in its headers no
    line has a carriage return, no key a ": ", no key, value or parameter a "; " as it is
    written, no key of a parameter a "=", and the keys of the parameters of a header are
    different ([part_ok]).  Then what [dump] writes, sent with the content type of the message,
    is read as a message with the same boundary and the same parts under the same names, but
    for the order of headers and parameters. *)
Theorem dump_read_back (hs : ci_map) (b : string) (sections : list part) (m : message) (req : request) :
  message_of hs b sections = Ok m → b ≠ "" → char_at b 0 ≠ DQ → string_Forall (λ c, c ≠ "010"%char) b →
  List.Forall (part_ok (dd +:+ b)) sections →
  get_header_value (req_headers req) "Content-Type" = content_type m → req_body req = dump m →
  ∃ m', message_of_request req = Ok m' ∧ boundary m' = b ∧ content_type m' = content_type m ∧
    List.Forall2 part_eq (parts m') (parts m) ∧
    List.Forall2 (λ x y, fst x = fst y ∧ part_eq (snd x) (snd y)) (part_map m') (part_map m).
Proof.
  intros Hm Hb Hq Hlf Hok Hct Hbody. unfold message_of in Hm. inv_bind Hm. injection Hm as <-.
  cbn in Hct. unfold message_of_request. rewrite Hct, get_boundary_of by done.
  cbn [mbind result_bind]. rewrite bool_decide_eq_false_2 by done. rewrite Hbody.
  unfold parse_body, dump. cbn [boundary parts].
  rewrite (parse_body_parts owning ltac:(by left) (dd +:+ b) ltac:(done) ltac:(by split_and!) _ _ Hok Ha).
  cbn [mbind result_bind fst snd]. eexists. split; [done|]. split; [done|]. cbn. split_and!.
  - unfold content_type_of. by rewrite bool_decide_eq_false_2.
  - clear. induction sections as [|p l IH]; constructor; [apply reread_eq|done].
  - clear. induction a as [|[n p] l IH]; constructor; [|done]. split; [done|apply reread_eq].
Qed.
End RoundTrip.
