(* ===== verification/MultipartExamples.v ===== *)
(** * Multipart bodies at work

    Witnesses for MultipartSpec.v, and what happens to a part without a name, to a body that is
    cut short and to a file name with a semicolon in it. *)

From S2P Require Import Prelude Doubles JsonRead JsonWrite Text Utility QueryString Http.
From S2P Require Import Multipart MultipartSpec.

(** A form with a text and a file. *)
Definition form : list part :=
  [Part [("Content-Disposition", Header "form-data" [("name", "title")])] "Hello";
   Part [("Content-Type", Header "text/plain" []);
         ("Content-Disposition", Header "form-data" [("name", "file"); ("filename", "a;b.txt")])]
     ("two" +:+ crlf +:+ "lines")].
Definition form_message : message :=
  Message [] "XyZ" form [("file", Part [("Content-Type", Header "text/plain" []);
         ("Content-Disposition", Header "form-data" [("name", "file"); ("filename", "a;b.txt")])]
     ("two" +:+ crlf +:+ "lines"));
     ("title", Part [("Content-Disposition", Header "form-data" [("name", "title")])] "Hello")]
    "multipart/form-data; boundary=XyZ".
Definition post (content_type body : string) : request :=
  Request Post "/upload" "/upload" qs_empty [("Content-Type", content_type)] body "" 1 1 true false false.
Definition form_request : request := post (content_type form_message) (dump form_message).

Lemma form_ok : List.Forall (part_ok (dd +:+ "XyZ")) form.
Proof.
  repeat lazymatch goal with
  | |- List.Forall _ ?l => let l' := eval hnf in l in change l with l'; constructor
  | |- part_ok _ _ => constructor
  | |- header_ok _ => constructor
  | |- param_ok _ => constructor
  end; first [reflexivity | by repeat split; discriminate | by apply (bool_decide_eq_true_1 (NoDup _))].
Qed.
Lemma dump_read_back_witness :
  ∃ m', message_of_request form_request = Ok m' ∧ boundary m' = "XyZ" ∧
    content_type m' = content_type form_message ∧
    List.Forall2 part_eq (parts m') form ∧
    List.Forall2 (λ x y, fst x = fst y ∧ part_eq (snd x) (snd y)) (part_map m') (part_map form_message).
Proof.
  apply (dump_read_back [] "XyZ" form form_message form_request);
    [reflexivity|discriminate|by vm_compute|by repeat split; discriminate|exact form_ok|reflexivity|reflexivity].
Defined.
Lemma view_agrees_witness :
  match message_of_request form_request with
  | Ok m => message_view_of_request form_request = Ok (view_of m)
  | Throw _ => False
  end.
Proof.
  destruct (message_of_request form_request) as [m|e] eqn:E; [|by vm_compute in E].
  exact (view_agrees form_request m E).
Defined.

(** A part without a name: both constructors read the end of the map of its parameters. *)
Definition unnamed_body : string :=
  "--XyZ" +:+ crlf +:+ "Content-Disposition: form-data" +:+ crlf +:+ crlf +:+ "x" +:+ crlf +:+ "--XyZ--" +:+ crlf.
Example unnamed_part :
  message_of_request (post (content_type form_message) unnamed_body)
    = Throw (UB "the end of params is dereferenced") ∧
  message_view_of_request (post (content_type form_message) unnamed_body)
    = Throw (UB "the end of params is dereferenced").
Proof. by vm_compute. Qed.

(** A body without the line break after its last delimiter, which RFC 2046 does not ask for, is
    refused by [message] and read by [message_view]; with a character less the view throws, and
    with a part less its delimiter it leaves the part out. *)
Definition cut_body (n : nat) : string := stake (String.length (dump form_message) - n) (dump form_message).
Definition part_count (r : result message_view) : result nat := length ∘ view_parts <$> r.
Example cut_short :
  message_of_request (post (content_type form_message) (cut_body 2))
    = Throw (BadRequest "Unable to find delimiter in multipart message. Probably ill-formed body") ∧
  part_count (message_view_of_request (post (content_type form_message) (cut_body 2))) = Ok 2%nat ∧
  part_count (message_view_of_request (post (content_type form_message) (cut_body 3))) = Throw OutOfRange ∧
  part_count (message_view_of_request (post (content_type form_message) (cut_body 9))) = Ok 1%nat.
Proof. by vm_compute. Qed.

(** A parameter with a semicolon and a space in its value is cut there. *)
Definition semicolon_part : part :=
  Part [("Content-Disposition", Header "form-data" [("name", "file"); ("filename", "a; b.txt")])] "x".
Definition written_and_read (l : list part) : result (list part) :=
  m ← message_of [] "XyZ" l;
  m' ← message_of_request (post (content_type m) (dump m)); Ok (parts m').
Example split_parameter :
  written_and_read [semicolon_part] =
  Ok [Part [("Content-Disposition", Header "form-data"
        [("filename", String DQ "a"); ("b.txt" +:+ String DQ "", "b.txt" +:+ String DQ ""); ("name", "file")])] "x"].
Proof. by vm_compute. Qed.
