(* ===== verification/WebSocket.v ===== *)
(** * WebSocket connections: crow/websocket.h

    The opening handshake, the state machine that reads frames, the handling of fragments
    and control frames, the writer and the end of a connection.  asio is an outside that
    completes at most one read and one write at a time and runs what was posted; which of
    them comes next is open.  The user's handlers are functions of everything that has
    happened on the connection so far, and answer with calls on it. *)

From S2P Require Import Prelude Doubles Utility Http.
From S2P Require Sha1.
Open Scope Z_scope.

(** ** Numbers in memory *)

(** Loads and stores on a little-endian machine, and the conversions of [arpa/inet.h]. *)
Fixpoint load_le (s : string) : Z :=
  match s with String b s' => code b + 256 * load_le s' | EmptyString => 0 end.
Fixpoint store_le (n : nat) (z : Z) : string :=
  match n with O => EmptyString | S n' => String (chr (z mod 256)) (store_le n' (z / 256)) end.
Definition ntohs (z : Z) : Z := Z.lor (Z.shiftl (Z.land z 0xFF) 8) (Z.shiftr z 8).
Definition ntohl (z : Z) : Z :=
  Z.lor (Z.lor (Z.lor (Z.shiftl (Z.land z 0xFF) 24) (Z.shiftl (Z.land (Z.shiftr z 8) 0xFF) 16))
               (Z.shiftl (Z.land (Z.shiftr z 16) 0xFF) 8)) (Z.shiftr z 24).
(** What [remaining_length_] is made of the eight bytes read into it, and its inverse. *)
Definition swap_64 (z : Z) : Z :=
  Z.lor (uwrap 64 (Z.shiftl (ntohl (Z.land z 0xFFFFFFFF)) 32)) (ntohl (uwrap 32 (Z.shiftr z 32))).

(** ** The connection *)

Inductive WebSocketReadState : Type := MiniHeader | Len16 | Len64 | Mask | Payload.
Definition NormalClosure : Z := 1000.
Definition NoStatusCodePresent : Z := 1005.
Definition ClosedAbnormally : Z := 1006.
Definition MessageTooBig : Z := 1009.

(** What is asked of the socket: all of [n] bytes, or some, up to [n]. *)
Inductive read_request : Type := ReadExact (n : Z) | ReadSome (n : Z).
(** What the handlers are told, and what they may call. *)
Inductive happening : Type :=
| Opened
| Message (text : string) (is_binary : bool)
| Closed (reason : string) (status_code : Z)
| Failed (what : string).
Inductive ws_call : Type :=
| SendText (msg : string) | SendBinary (msg : string)
| SendPing (msg : string) | SendPong (msg : string)
| Close (msg : string) (status_code : Z).
Record user : Type := User {
  installed : happening → bool;
  react : list happening → list ws_call;   (* the latest first *)
}.

(** The frame that is being read, and the message it belongs to. *)
Record reader : Type := Reader {
  state_ : WebSocketReadState;
  remaining_length_ : Z;
  has_mask_ : bool;
  mask_ : string;
  mini_header_ : Z;
  message_ : string;
  fragment_ : string;
  is_binary_ : bool;
}.
(** How far the connection is closed. *)
Record closing : Type := Closing {
  close_connection_ : bool;
  has_sent_close_ : bool;
  has_recv_close_ : bool;
  is_close_handler_called_ : bool;
}.
(** The socket and the executor, where [posted] waits; [heard], [removed] and [wire] record what
    the handlers were told, how often [remove_websocket] was called and what was written. *)
Record outside : Type := Outside {
  is_reading : bool;
  socket_open : bool;
  requested : option read_request;
  posted : list (Z * string);
  heard : list happening;
  removed : nat;
  deleted : bool;
  wire : list string;
}.
Record connection : Type := Connection {
  rd : reader;
  cl : closing;
  io : outside;
  sending_buffers_ : list string;
  write_buffers_ : list string;
  max_payload_bytes_ : Z;
  subprotocol_ : string;
  pong_received_ : bool;
}.

Definition rd_state (v : WebSocketReadState) (r : reader) : reader :=
  Reader v (remaining_length_ r) (has_mask_ r) (mask_ r) (mini_header_ r) (message_ r) (fragment_ r) (is_binary_ r).
Definition rd_remaining_length (v : Z) (r : reader) : reader :=
  Reader (state_ r) v (has_mask_ r) (mask_ r) (mini_header_ r) (message_ r) (fragment_ r) (is_binary_ r).
Definition rd_has_mask (v : bool) (r : reader) : reader :=
  Reader (state_ r) (remaining_length_ r) v (mask_ r) (mini_header_ r) (message_ r) (fragment_ r) (is_binary_ r).
Definition rd_mask (v : string) (r : reader) : reader :=
  Reader (state_ r) (remaining_length_ r) (has_mask_ r) v (mini_header_ r) (message_ r) (fragment_ r) (is_binary_ r).
Definition rd_mini_header (v : Z) (r : reader) : reader :=
  Reader (state_ r) (remaining_length_ r) (has_mask_ r) (mask_ r) v (message_ r) (fragment_ r) (is_binary_ r).
Definition rd_message (v : string) (r : reader) : reader :=
  Reader (state_ r) (remaining_length_ r) (has_mask_ r) (mask_ r) (mini_header_ r) v (fragment_ r) (is_binary_ r).
Definition rd_fragment (v : string) (r : reader) : reader :=
  Reader (state_ r) (remaining_length_ r) (has_mask_ r) (mask_ r) (mini_header_ r) (message_ r) v (is_binary_ r).
Definition rd_is_binary (v : bool) (r : reader) : reader :=
  Reader (state_ r) (remaining_length_ r) (has_mask_ r) (mask_ r) (mini_header_ r) (message_ r) (fragment_ r) v.
Definition cl_close_connection (v : bool) (x : closing) : closing :=
  Closing v (has_sent_close_ x) (has_recv_close_ x) (is_close_handler_called_ x).
Definition cl_has_sent_close (v : bool) (x : closing) : closing :=
  Closing (close_connection_ x) v (has_recv_close_ x) (is_close_handler_called_ x).
Definition cl_has_recv_close (v : bool) (x : closing) : closing :=
  Closing (close_connection_ x) (has_sent_close_ x) v (is_close_handler_called_ x).
Definition cl_is_close_handler_called (v : bool) (x : closing) : closing :=
  Closing (close_connection_ x) (has_sent_close_ x) (has_recv_close_ x) v.
Definition io_is_reading (v : bool) (o : outside) : outside :=
  Outside v (socket_open o) (requested o) (posted o) (heard o) (removed o) (deleted o) (wire o).
Definition io_socket_open (v : bool) (o : outside) : outside :=
  Outside (is_reading o) v (requested o) (posted o) (heard o) (removed o) (deleted o) (wire o).
Definition io_requested (v : option read_request) (o : outside) : outside :=
  Outside (is_reading o) (socket_open o) v (posted o) (heard o) (removed o) (deleted o) (wire o).
Definition io_posted (v : list (Z * string)) (o : outside) : outside :=
  Outside (is_reading o) (socket_open o) (requested o) v (heard o) (removed o) (deleted o) (wire o).
Definition io_heard (v : list happening) (o : outside) : outside :=
  Outside (is_reading o) (socket_open o) (requested o) (posted o) v (removed o) (deleted o) (wire o).
Definition io_removed (v : nat) (o : outside) : outside :=
  Outside (is_reading o) (socket_open o) (requested o) (posted o) (heard o) v (deleted o) (wire o).
Definition io_deleted (v : bool) (o : outside) : outside :=
  Outside (is_reading o) (socket_open o) (requested o) (posted o) (heard o) (removed o) v (wire o).
Definition io_wire (v : list string) (o : outside) : outside :=
  Outside (is_reading o) (socket_open o) (requested o) (posted o) (heard o) (removed o) (deleted o) v.
Definition set_rd (v : reader) (c : connection) : connection :=
  Connection v (cl c) (io c) (sending_buffers_ c) (write_buffers_ c) (max_payload_bytes_ c) (subprotocol_ c) (pong_received_ c).
Definition set_cl (v : closing) (c : connection) : connection :=
  Connection (rd c) v (io c) (sending_buffers_ c) (write_buffers_ c) (max_payload_bytes_ c) (subprotocol_ c) (pong_received_ c).
Definition set_io (v : outside) (c : connection) : connection :=
  Connection (rd c) (cl c) v (sending_buffers_ c) (write_buffers_ c) (max_payload_bytes_ c) (subprotocol_ c) (pong_received_ c).
Definition set_sending_buffers (v : list string) (c : connection) : connection :=
  Connection (rd c) (cl c) (io c) v (write_buffers_ c) (max_payload_bytes_ c) (subprotocol_ c) (pong_received_ c).
Definition set_write_buffers (v : list string) (c : connection) : connection :=
  Connection (rd c) (cl c) (io c) (sending_buffers_ c) v (max_payload_bytes_ c) (subprotocol_ c) (pong_received_ c).
Definition set_max_payload_bytes (v : Z) (c : connection) : connection :=
  Connection (rd c) (cl c) (io c) (sending_buffers_ c) (write_buffers_ c) v (subprotocol_ c) (pong_received_ c).
Definition set_subprotocol (v : string) (c : connection) : connection :=
  Connection (rd c) (cl c) (io c) (sending_buffers_ c) (write_buffers_ c) (max_payload_bytes_ c) v (pong_received_ c).
Definition set_pong_received (v : bool) (c : connection) : connection :=
  Connection (rd c) (cl c) (io c) (sending_buffers_ c) (write_buffers_ c) (max_payload_bytes_ c) (subprotocol_ c) v.
Definition on_rd (f : reader → reader) (c : connection) : connection := set_rd (f (rd c)) c.
Definition on_cl (f : closing → closing) (c : connection) : connection := set_cl (f (cl c)) c.
Definition on_io (f : outside → outside) (c : connection) : connection := set_io (f (io c)) c.

Section WebSocket.
Context (u : user).
Implicit Types c : connection.

(** ** Sending *)

Definition build_header (opcode size : Z) : string :=
  let first := String (chr (0x80 + opcode)) in
  if size <? 126 then first (String (chr size) EmptyString)
  else if size <? 0x10000 then first (String (chr 126) (store_le 2 (ntohs (uwrap 16 size))))
  else first (String (chr 127) (store_le 8 (swap_64 size))).

(** [do_write] starts a write unless one is under way. *)
Definition do_write c : connection :=
  match sending_buffers_ c with
  | [] => set_sending_buffers (write_buffers_ c) (set_write_buffers []
            (on_io (λ o, io_wire (wire o ++ write_buffers_ c) o) c))
  | _ => c
  end.
Definition emplace_back (l : list string) c : connection :=
  set_write_buffers (write_buffers_ c ++ l) c.
(** [post]; what is posted is run by [run_posted]. *)
Definition send_data (opcode : Z) (msg : string) c : connection :=
  on_io (λ o, io_posted (posted o ++ [(opcode, msg)]) o) c.
Definition send_data_impl (opcode : Z) (payload : string) c : connection :=
  do_write (emplace_back [build_header opcode (slen payload); payload] c).

(** ** The handlers and their calls *)

Definition record (h : happening) c : connection := on_io (λ o, io_heard (h :: heard o) o) c.
(** A handler, if there is one, is told of [h]; [run] makes its calls. *)
Definition tell (run : connection → ws_call → connection) (h : happening) c : connection :=
  if installed u h then foldl run (record h c) (react u (heard (io (record h c)))) else c.

Definition close_frame (msg : string) (status_code : Z) c : connection :=
  do_write (emplace_back
    [build_header 0x8 (slen msg + 2); store_le 2 (ntohs (uwrap 16 status_code)); msg] c).
(** The member functions a handler can call.  [close] runs at once in the thread of the
    connection and can call the close handler, which can call [close] again, and so on:
    once is enough ([perform_depth] in WebSocketSpec.v). *)
Fixpoint perform (depth : nat) c (call : ws_call) : connection :=
  match call with
  | SendText msg => send_data 0x1 msg c
  | SendBinary msg => send_data 0x2 msg c
  | SendPing msg => send_data 0x9 msg c
  | SendPong msg => send_data 0xA msg c
  | Close msg status_code =>
      let c := on_cl (cl_has_sent_close true) c in
      let c :=
        if has_recv_close_ (cl c) && negb (is_close_handler_called_ (cl c)) then
          let c := on_cl (cl_is_close_handler_called true) c in
          match depth with
          | S depth' => tell (perform depth') (Closed msg status_code) c
          | O => c
          end
        else c in
      close_frame msg status_code c
  end.
Definition call_back : happening → connection → connection := tell (perform 1).

(** ** The end of a connection *)

Definition check_destroy (status_code : Z) c : connection :=
  let c :=
    if is_close_handler_called_ (cl c) then c
    else call_back (Closed "uncleanly" status_code) c in
  let c := on_io (λ o, io_removed (S (removed o)) o) c in
  if bool_decide (sending_buffers_ c = []) && negb (is_reading (io c))
  then on_io (io_deleted true) c else c.
Definition close_socket c : connection := on_io (io_socket_open false) c.

(** ** Reading *)

Definition request (r : read_request) c : connection := on_io (io_requested (Some r)) c.
Definition buffer_size : Z := 4096.
(** [do_read] in the state [Payload]. *)
Definition read_payload c : connection :=
  request (ReadSome (Z.min buffer_size (remaining_length_ (rd c)))) c.
Definition do_read c : connection :=
  if has_sent_close_ (cl c) && has_recv_close_ (cl c) then
    check_destroy ClosedAbnormally (close_socket (on_cl (cl_close_connection true) c))
  else
    let c := on_io (io_is_reading true) c in
    match state_ (rd c) with
    | MiniHeader => request (ReadSome 2) (on_rd (rd_mini_header 0) c)
    | Len16 => request (ReadExact 2) (on_rd (rd_remaining_length 0) c)
    | Len64 => request (ReadExact 8) c
    | Mask =>
        if max_payload_bytes_ c <? remaining_length_ (rd c) then
          let c := close_socket (on_cl (cl_close_connection true) c) in
          check_destroy MessageTooBig
            (call_back (Failed "Message length exceeds maximum payload.") c)
        else if has_mask_ (rd c) then request (ReadExact 4) c
        else read_payload (on_rd (rd_state Payload) c)
    | Payload => read_payload c
    end.

Definition is_FIN c : bool := negb (Z.land (mini_header_ (rd c)) 0x8000 =? 0).
Definition opcode c : Z := Z.shiftr (Z.land (mini_header_ (rd c)) 0x0f00) 8.

(** [s[i] ^= mask[i % 4]], from index [i] on. *)
Fixpoint xor_mask (mask : string) (i : nat) (s : string) : string :=
  match s with
  | String b s' =>
      String (chr (Z.lxor (code b) (code (char_at mask (i mod 4))))) (xor_mask mask (S i) s')
  | EmptyString => EmptyString
  end.
(** The fragment is added to the message, and the message handed over at its end. *)
Definition add_fragment c : connection :=
  let c := on_rd (λ r, rd_message (message_ r +:+ fragment_ r) r) c in
  if is_FIN c
  then on_rd (rd_message "") (call_back (Message (message_ (rd c)) (is_binary_ (rd c))) c)
  else c.
Definition substr (start : nat) (s : string) : string :=
  String.substring start (String.length s - start) s.
Definition handle_close c : bool * connection :=
  let c := on_cl (cl_has_recv_close true) c in
  let fragment := fragment_ (rd c) in
  let '(status_code, message_start) :=
    if 2 <=? slen fragment then (ntohs (load_le (String.substring 0 2 fragment)), 2%nat)
    else (NoStatusCodePresent, 0%nat) in
  if negb (has_sent_close_ (cl c)) then
    (true, perform 1 c (Close (substr message_start fragment) status_code))
  else
    let c := on_cl (cl_close_connection true) c in
    let c :=
      if is_close_handler_called_ (cl c) then c
      else on_cl (cl_is_close_handler_called true)
             (call_back (Closed (substr message_start fragment) status_code) c) in
    (false, check_destroy ClosedAbnormally (close_socket c)).
Definition handle_fragment c : bool * connection :=
  let c := if has_mask_ (rd c)
           then on_rd (λ r, rd_fragment (xor_mask (mask_ r) 0 (fragment_ r)) r) c else c in
  let op := opcode c in
  let '(go_on, c) :=
    if op =? 0 then (true, add_fragment c)
    else if op =? 1 then (true, add_fragment (on_rd (rd_is_binary false) c))
    else if op =? 2 then (true, add_fragment (on_rd (rd_is_binary true) c))
    else if op =? 0x8 then handle_close c
    else if op =? 0x9 then (true, send_data 0xA (fragment_ (rd c)) c)
    else if op =? 0xA then (true, set_pong_received true c)
    else (true, c) in
  if go_on : bool then (true, on_rd (rd_fragment "") c) else (false, c).

(** The handlers of the reads, when [bytes] came and when the read failed. *)
Definition set_mini_header (bytes : string) c : connection :=
  let c := on_rd (rd_mini_header (ntohs (load_le bytes))) c in
  let h := mini_header_ (rd c) in
  let c := on_rd (rd_has_mask (Z.land h 0x80 =? 0x80)) c in
  if Z.land h 0x7f =? 127 then on_rd (rd_state Len64) c
  else if Z.land h 0x7f =? 126 then on_rd (rd_state Len16) c
  else on_rd (λ r, rd_state Mask (rd_remaining_length (Z.land h 0x7f) r)) c.
Definition read_handler (bytes : string) c : connection :=
  let c := on_io (λ o, io_requested None (io_is_reading false o)) c in
  match state_ (rd c) with
  | MiniHeader => do_read (set_mini_header bytes c)
  | Len16 => do_read (on_rd (λ r, rd_state Mask (rd_remaining_length (ntohs (load_le bytes)) r)) c)
  | Len64 => do_read (on_rd (λ r, rd_state Mask (rd_remaining_length (swap_64 (load_le bytes)) r)) c)
  | Mask => do_read (on_rd (λ r, rd_state Payload (rd_mask bytes r)) c)
  | Payload =>
      let c := on_rd (λ r, rd_remaining_length (uwrap 64 (remaining_length_ r - slen bytes))
                             (rd_fragment (fragment_ r +:+ bytes) r)) c in
      if remaining_length_ (rd c) =? 0 then
        let '(go_on, c) := handle_fragment c in
        if go_on : bool then do_read (on_rd (rd_state MiniHeader) c) else c
      else do_read c
  end.
Definition read_failed (what : string) c : connection :=
  let c := on_io (λ o, io_requested None (io_is_reading false o)) c in
  let c := on_cl (cl_close_connection true) c in
  match state_ (rd c) with
  | MiniHeader | Len16 | Len64 =>
      check_destroy ClosedAbnormally (call_back (Failed what) (close_socket c))
  | Mask | Payload =>
      check_destroy ClosedAbnormally (close_socket (call_back (Failed what) c))
  end.

(** The handler of a write, and what was posted first. *)
Definition write_handler (failed : bool) c : connection :=
  if negb failed && negb (close_connection_ (cl c)) then
    let c := set_sending_buffers [] c in
    let c := if bool_decide (write_buffers_ c = []) then c else do_write c in
    if has_sent_close_ (cl c) then on_cl (cl_close_connection true) c else c
  else
    check_destroy ClosedAbnormally (on_cl (cl_close_connection true) (set_sending_buffers [] c)).
Definition run_posted c : connection :=
  match posted (io c) with
  | (op, payload) :: l => send_data_impl op payload (on_io (io_posted l) c)
  | [] => c
  end.

(** ** The handshake *)

(** What the rule of the route is configured with. *)
Record options : Type := WsOptions {
  max_payload : Z;
  subprotocols : list string;
  accept_handler : option (Http.request → bool);
  mirror_protocols : bool;
}.
(** [is_binary] is what the memory of [is_binary_] holds. *)
Definition connection_new (is_binary : bool) (max_payload : Z) : connection :=
  Connection (Reader MiniHeader 0 false "" 0 "" "" is_binary) (Closing false false false false)
    (Outside false true None [] [] 0 false []) [] [] max_payload "" false.

Fixpoint find_first_of (l1 l2 : list string) : option string :=
  match l1 with
  | x :: l1' => if decide (x ∈ l2) then Some x else find_first_of l1' l2
  | [] => None
  end.
Definition choose_subprotocol (o : options) (req : Http.request) : string :=
  let requested := req_get_header_value req "Sec-WebSocket-Protocol" in
  let subprotocol :=
    if decide (subprotocols o ≠ [] ∨ requested ≠ "")
    then default "" (find_first_of (subprotocols o) (default [] (split requested ", ")))
    else "" in
  if mirror_protocols o && bool_decide (requested ≠ "") then requested else subprotocol.

Definition magic : string := "258EAFA5-E914-47DA-95CA-C5AB0DC85B11".
(** [memory] is what the block of the [SHA1] on the stack holds. *)
Definition accept_key (memory : list Z) (key : string) : string :=
  let s := Sha1.processBytes (Sha1.reset memory) (Sha1.text_bytes (key +:+ magic)) in
  base64encode base64_key (String.string_of_list_ascii (chr <$> Sha1.getDigestBytes s)).

Definition switching_protocols : string :=
  "HTTP/1.1 101 Switching Protocols" +:+ crlf +:+ "Upgrade: websocket" +:+ crlf +:+
  "Connection: Upgrade" +:+ crlf +:+ "Sec-WebSocket-Accept: ".
Definition start (hello : string) c : connection :=
  let c := emplace_back [switching_protocols; hello; crlf] c in
  let c := if bool_decide (subprotocol_ c = "") then c
           else emplace_back ["Sec-WebSocket-Protocol: "; subprotocol_ c; crlf] c in
  do_read (call_back Opened (do_write (emplace_back [crlf] c))).
(** The constructor; [None] when it closes the socket and deletes the connection. *)
Definition construct (o : options) (memory : list Z) (is_binary : bool) (req : Http.request)
  : option connection :=
  if negb (string_equals (req_get_header_value req "upgrade") "websocket" false) then None
  else
    let c := set_subprotocol (choose_subprotocol o req) (connection_new is_binary (max_payload o)) in
    if match accept_handler o with Some accept => negb (accept req) | None => false end then None
    else Some (start (accept_key memory (req_get_header_value req "Sec-WebSocket-Key")) c).

(** ** What can happen to a connection *)

Definition fits (r : read_request) (bytes : string) : Prop :=
  match r with
  | ReadExact n => slen bytes = n
  | ReadSome n => slen bytes ≤ n ∧ (0 < n → bytes ≠ "")
  end.
Inductive ws_step : connection → connection → Prop :=
| step_read c r bytes :
    requested (io c) = Some r → fits r bytes → ws_step c (read_handler bytes c)
| step_read_failed c r what : requested (io c) = Some r → ws_step c (read_failed what c)
| step_written c failed :
    sending_buffers_ c ≠ [] → ws_step c (write_handler failed c)
| step_posted c : deleted (io c) = false → ws_step c (run_posted c)
| step_called c call :      (* from another thread, through [dispatch] or [post] *)
    deleted (io c) = false → ws_step c (perform 1 c call).
End WebSocket.
