(* ===== verification/WebSocketSpec.v ===== *)
(** * WebSocket: frames as RFC 6455 writes them, and what becomes of them

    The reader of WebSocket.v turns the bytes of frames, in whatever portions their payloads
    come, into the messages they carry; the writer writes frames; so that what one end
    sends is what the other is told. *)

From S2P Require Import Prelude Doubles Utility Http WebSocket.
From S2P Require Sha1.
Open Scope Z_scope.

(** ** Numbers in the order of the network *)

(** The [n] low bytes of [z], the most significant first. *)
Fixpoint network (n : nat) (z : Z) : string :=
  match n with
  | O => EmptyString
  | S n' => String (chr (z / 256 ^ Z.of_nat n' mod 256)) (network n' z)
  end.

Lemma chr_small z : 0 ≤ z mod 256 < 256.
Proof. by apply Z.mod_pos_bound. Qed.
Lemma code_chr_mod z : code (chr (z mod 256)) = z mod 256.
Proof. apply code_chr, chr_small. Qed.

Lemma ntohs_bytes a b : 0 ≤ a < 256 → 0 ≤ b < 256 → ntohs (a + 256 * b) = b + 256 * a.
Proof.
  intros Ha Hb. unfold ntohs. rewrite low_byte, Z.shiftr_div_pow2 by done.
  replace ((a + 256 * b) mod 256) with a by (apply (Z.mod_unique _ _ b); lia).
  replace ((a + 256 * b) / 2 ^ 8) with b by (apply (Z.div_unique _ _ _ a); lia).
  rewrite lor_shift by lia. lia.
Qed.
Lemma ntohl_bytes a b c d :
  0 ≤ a < 256 → 0 ≤ b < 256 → 0 ≤ c < 256 → 0 ≤ d < 256 →
  ntohl (a + 256 * (b + 256 * (c + 256 * d))) = d + 256 * (c + 256 * (b + 256 * a)).
Proof.
  intros Ha Hb Hc Hd. set (z := a + _). unfold ntohl. rewrite !high_byte, low_byte by done.
  rewrite Z.shiftr_div_pow2 by done.
  replace (z mod 256) with a by (apply (Z.mod_unique _ _ (b + 256 * (c + 256 * d))); lia).
  replace (z / 2 ^ 8 mod 256) with b.
  2: { replace (z / 2 ^ 8) with (b + 256 * (c + 256 * d)) by (apply (Z.div_unique _ _ _ a); lia).
       apply (Z.mod_unique _ _ (c + 256 * d)); lia. }
  replace (z / 2 ^ 16 mod 256) with c.
  2: { replace (z / 2 ^ 16) with (c + 256 * d) by (apply (Z.div_unique _ _ _ (a + 256 * b)); lia).
       apply (Z.mod_unique _ _ d); lia. }
  replace (z / 2 ^ 24) with d by (apply (Z.div_unique _ _ _ (a + 256 * (b + 256 * c))); lia).
  replace 24 with (8 + 16) by done. rewrite <- Z.shiftl_shiftl by done.
  rewrite <- Z.shiftl_lor, (lor_shift a b 8) by lia.
  replace 16 with (8 + 8) by done. rewrite <- Z.shiftl_shiftl by done.
  rewrite <- Z.shiftl_lor, (lor_shift _ c 8), (lor_shift _ d 8) by lia. lia.
Qed.
Lemma swap_64_halves a b : 0 ≤ a < 2 ^ 32 → 0 ≤ b < 2 ^ 32 → 0 ≤ ntohl a < 2 ^ 32 →
  0 ≤ ntohl b < 2 ^ 32 → swap_64 (a + 2 ^ 32 * b) = ntohl b + 2 ^ 32 * ntohl a.
Proof.
  intros Ha Hb Hna Hnb. unfold swap_64, uwrap.
  change 0xFFFFFFFF with (Z.ones 32). rewrite Z.land_ones, Z.shiftr_div_pow2 by done.
  replace ((a + 2 ^ 32 * b) mod 2 ^ 32) with a by (apply (Z.mod_unique _ _ b); lia).
  replace ((a + 2 ^ 32 * b) / 2 ^ 32) with b by (apply (Z.div_unique _ _ _ a); lia).
  rewrite (Z.mod_small b), (Z.mod_small (Z.shiftl _ _)) by (rewrite ?Z.shiftl_mul_pow2; lia).
  rewrite lor_shift by lia. lia.
Qed.

(** Eight bytes, and the number they are in the order of memory. *)
Lemma load_le_4 b0 b1 b2 b3 s :
  load_le (String b0 (String b1 (String b2 (String b3 s))))
  = (code b0 + 256 * (code b1 + 256 * (code b2 + 256 * code b3))) + 2 ^ 32 * load_le s.
Proof. cbn [load_le]. lia. Qed.
Lemma swap_64_bytes b0 b1 b2 b3 b4 b5 b6 b7 :
  swap_64 (load_le (String b0 (String b1 (String b2 (String b3 (String b4 (String b5
    (String b6 (String b7 EmptyString)))))))))
  = load_le (String b7 (String b6 (String b5 (String b4 (String b3 (String b2
    (String b1 (String b0 EmptyString)))))))).
Proof.
  pose proof (code_range b0). pose proof (code_range b1). pose proof (code_range b2).
  pose proof (code_range b3). pose proof (code_range b4). pose proof (code_range b5).
  pose proof (code_range b6). pose proof (code_range b7).
  rewrite !load_le_4. change (load_le EmptyString) with 0. rewrite !Z.mul_0_r, !Z.add_0_r.
  rewrite swap_64_halves; rewrite ?ntohl_bytes by done; lia.
Qed.

(** What is stored comes out in the order of the network, and is read back from it. *)
Lemma store_le_2 z : 0 ≤ z < 2 ^ 16 → store_le 2 (ntohs z) = network 2 z.
Proof.
  intros Hz. assert (z = z mod 256 + 256 * (z / 256 mod 256)) as Ez.
  { rewrite (Z.mod_small (z / 256)) by (split; [apply Z.div_pos; lia|apply Z.div_lt_upper_bound; lia]).
    pose proof (Z.div_mod z 256). lia. }
  rewrite Ez at 1. rewrite ntohs_bytes by apply chr_small. cbn [store_le network].
  set (a := z mod 256) in *. set (b := z / 256 mod 256) in *.
  assert (0 ≤ a < 256) by apply chr_small. assert (0 ≤ b < 256) by apply chr_small.
  change (256 ^ Z.of_nat 1) with 256. change (256 ^ Z.of_nat 0) with 1. rewrite Z.div_1_r.
  fold a b. f_equal; [|f_equal]; f_equal.
  - symmetry. apply (Z.mod_unique _ _ a); lia.
  - replace ((b + 256 * a) / 256) with a by (apply (Z.div_unique _ _ _ b); lia).
    by rewrite Z.mod_small.
Qed.
Lemma load_network_2 z : 0 ≤ z < 2 ^ 16 → ntohs (load_le (network 2 z)) = z.
Proof.
  intros Hz. cbn [network load_le]. rewrite !code_chr_mod.
  change (256 ^ Z.of_nat 1) with 256. change (256 ^ Z.of_nat 0) with 1.
  rewrite Z.div_1_r, Z.mul_0_r, Z.add_0_r, ntohs_bytes by apply chr_small.
  rewrite (Z.mod_small (z / 256)) by (split; [apply Z.div_pos; lia|apply Z.div_lt_upper_bound; lia]).
  pose proof (Z.div_mod z 256). lia.
Qed.
Lemma store_load s : store_le (String.length s) (load_le s) = s.
Proof.
  induction s as [|b s IH]; [done|]. cbn [String.length store_le load_le].
  pose proof (code_range b). f_equal.
  - replace ((code b + 256 * load_le s) mod 256) with (code b)
      by (apply (Z.mod_unique _ _ (load_le s)); lia). apply chr_code.
  - replace ((code b + 256 * load_le s) / 256) with (load_le s)
      by (apply (Z.div_unique _ _ _ (code b)); lia). exact IH.
Qed.
Lemma load_store n z : load_le (store_le n z) = z mod 256 ^ Z.of_nat n.
Proof.
  revert z. induction n as [|n IH]; intros z.
  - change (256 ^ Z.of_nat 0) with 1. by rewrite Z.mod_1_r.
  - cbn [store_le load_le]. rewrite code_chr_mod, IH, Nat2Z.inj_succ, Z.pow_succ_r by lia.
    rewrite Z.rem_mul_r by (try apply Z.pow_nonzero; lia). done.
Qed.
(** The eight bytes of a number, least significant first. *)
Lemma store_le_8 z : ∃ b0 b1 b2 b3 b4 b5 b6 b7,
  store_le 8 z = String b0 (String b1 (String b2 (String b3 (String b4 (String b5
    (String b6 (String b7 EmptyString))))))) ∧
  network 8 z = String b7 (String b6 (String b5 (String b4 (String b3 (String b2
    (String b1 (String b0 EmptyString))))))).
Proof.
  do 8 eexists. split; [reflexivity|]. cbn [network]. rewrite !Z.div_div by done.
  do 8 (f_equal; try reflexivity). by rewrite Z.div_1_r.
Qed.
Lemma store_le_swap z : 0 ≤ z < 2 ^ 64 → store_le 8 (swap_64 z) = network 8 z.
Proof.
  intros Hz. destruct (store_le_8 z) as (b0 & b1 & b2 & b3 & b4 & b5 & b6 & b7 & Hs & ->).
  rewrite <- (Z.mod_small z (256 ^ Z.of_nat 8)) by exact Hz.
  rewrite <- load_store, Hs, swap_64_bytes.
  apply (store_load (String b7 (String b6 (String b5 (String b4 (String b3 (String b2
    (String b1 (String b0 EmptyString))))))))).
Qed.
Lemma load_network_8 z : 0 ≤ z < 2 ^ 64 → swap_64 (load_le (network 8 z)) = z.
Proof.
  intros Hz. destruct (store_le_8 z) as (b0 & b1 & b2 & b3 & b4 & b5 & b6 & b7 & Hs & ->).
  rewrite swap_64_bytes, <- Hs, load_store. by apply Z.mod_small.
Qed.

(** ** Frames *)

Record frame : Type := Frame {
  fin : bool;
  op : Z;
  mask : option string;      (* four bytes *)
  data : string;
}.
Definition first_byte (f : frame) : Z := (if fin f then 0x80 else 0) + op f.
Definition mask_bit (f : frame) : Z := match mask f with Some _ => 0x80 | None => 0 end.
(** The first two bytes, the extended length, and the rest. *)
Definition length_7 (f : frame) : Z :=
  if slen (data f) <? 126 then slen (data f) else if slen (data f) <? 0x10000 then 126 else 127.
Definition extended_length (f : frame) : string :=
  if slen (data f) <? 126 then EmptyString
  else if slen (data f) <? 0x10000 then network 2 (slen (data f)) else network 8 (slen (data f)).
(** Octet [i] of the data is xored with octet [i] modulo 4 of the key. *)
Definition masking (key text : string) : string :=
  String.string_of_list_ascii
    (imap (λ i b, chr (Z.lxor (code b) (code (char_at key (i mod 4)))))
       (String.list_ascii_of_string text)).
Definition masked (f : frame) : string :=
  match mask f with Some k => masking k (data f) | None => data f end.
Definition frame_text (f : frame) : string :=
  String (chr (first_byte f)) (String (chr (mask_bit f + length_7 f)) EmptyString)
  +:+ extended_length f +:+ default EmptyString (mask f) +:+ masked f.

(** A frame a connection with this limit reads. *)
Record frame_ok (max : Z) (f : frame) : Prop := {
  fo_op : 0 ≤ op f < 16;
  fo_mask : match mask f with Some k => String.length k = 4%nat | None => True end;
  fo_length : slen (data f) ≤ max;
  fo_size : slen (data f) < 2 ^ 64;
}.

Lemma build_header_frame f : fin f = true → mask f = None → 0 ≤ op f < 16 →
  slen (data f) < 2 ^ 64 → build_header (op f) (slen (data f)) +:+ data f = frame_text f.
Proof.
  intros Hf Hm Ho Hs. pose proof (slen_nonneg (data f)) as H0.
  unfold build_header, frame_text, masked, mask_bit, length_7, extended_length, first_byte.
  rewrite Hf, Hm. cbn [default from_option]. rewrite !string_app_nil_l.
  destruct (Z.ltb_spec (slen (data f)) 126); [by str_norm|].
  destruct (Z.ltb_spec (slen (data f)) 0x10000).
  - unfold uwrap. rewrite Z.mod_small, store_le_2 by lia. by str_norm.
  - rewrite store_le_swap by lia. by str_norm.
Qed.

(** Masking twice is no masking. *)
Lemma xor_mask_twice k i s : xor_mask k i (xor_mask k i s) = s.
Proof.
  revert i. induction s as [|b s IH]; intros i; [done|]. cbn [xor_mask]. rewrite IH. f_equal.
  set (x := code (char_at k (i mod 4))).
  assert (0 ≤ code b < 256 ∧ 0 ≤ x < 256) as [Hb Hx] by (split; apply code_range).
  assert (0 ≤ Z.lxor (code b) x < 256) as Hr by by apply (lxor_range 8).
  rewrite code_chr by done. rewrite Z.lxor_assoc, Z.lxor_nilpotent, Z.lxor_0_r. apply chr_code.
Qed.
Lemma xor_mask_length k i s : slen (xor_mask k i s) = slen s.
Proof.
  revert i. induction s as [|b s IH]; intros i; [done|]. cbn [xor_mask]. by rewrite !slen_cons, IH.
Qed.

Lemma xor_mask_imap k i s : xor_mask k i s =
  String.string_of_list_ascii
    (imap (λ j b, chr (Z.lxor (code b) (code (char_at k ((i + j) mod 4)))))
       (String.list_ascii_of_string s)).
Proof.
  revert i. induction s as [|b s IH]; intros i; [done|]. cbn. rewrite Nat.add_0_r. f_equal.
  rewrite IH. f_equal. apply imap_ext. intros j x _. cbn. by rewrite Nat.add_succ_r.
Qed.
Lemma masking_xor_mask k s : masking k s = xor_mask k 0 s.
Proof. by rewrite xor_mask_imap. Qed.

(** ** The two bytes of the header *)

Definition header_of (f : frame) : Z := first_byte f * 256 + (mask_bit f + length_7 f).

Lemma length_7_range f : 0 ≤ length_7 f < 128.
Proof.
  pose proof (slen_nonneg (data f)). unfold length_7.
  destruct (Z.ltb_spec (slen (data f)) 126); [lia|]. by destruct (_ <? _).
Qed.
(** The bits of the header. *)
Definition header_bits (fin masked : bool) (op l : Z) : bool :=
  let h := ((if fin then 0x80 else 0) + op) * 256 + ((if masked then 0x80 else 0) + l) in
  bool_decide ((Z.land h 0x80 =? 0x80) = masked) && (Z.land h 0x7f =? l) &&
  bool_decide (negb (Z.land h 0x8000 =? 0) = fin) && (Z.shiftr (Z.land h 0x0f00) 8 =? op).
Lemma header_bits_ok fin masked op l :
  0 ≤ op < 16 → 0 ≤ l < 128 → header_bits fin masked op l = true.
Proof.
  intros Ho Hl.
  assert (forallb (λ f, forallb (λ m, forallb (λ o, forallb (header_bits f m o) (seqZ 0 128))
    (seqZ 0 16)) [true; false]) [true; false] = true) as H by by vm_compute.
  rewrite forallb_forall in H. specialize (H fin). rewrite forallb_forall in H.
  specialize (H ltac:(destruct fin; simpl; tauto) masked). rewrite forallb_forall in H.
  specialize (H ltac:(destruct masked; simpl; tauto) op). rewrite forallb_forall in H.
  apply H; apply list_elem_of_In, elem_of_seqZ; lia.
Qed.
Lemma header_of_bits max f : frame_ok max f →
  (Z.land (header_of f) 0x80 =? 0x80) = bool_decide (is_Some (mask f)) ∧
  Z.land (header_of f) 0x7f = length_7 f ∧
  negb (Z.land (header_of f) 0x8000 =? 0) = fin f ∧
  Z.shiftr (Z.land (header_of f) 0x0f00) 8 = op f.
Proof.
  intros [Ho _ _ _].
  pose proof (header_bits_ok (fin f) (bool_decide (is_Some (mask f))) (op f) (length_7 f) Ho
    (length_7_range f)) as H.
  unfold header_bits in H.
  assert ((if bool_decide (is_Some (mask f)) then 0x80 else 0) = mask_bit f) as Hm
    by (unfold mask_bit; by destruct (mask f)).
  rewrite Hm in H. fold (first_byte f) in H. fold (header_of f) in H.
  rewrite !andb_true_iff, !bool_decide_eq_true, !Z.eqb_eq in H. tauto.
Qed.

Lemma load_header max f : frame_ok max f →
  ntohs (load_le (String (chr (first_byte f)) (String (chr (mask_bit f + length_7 f)) EmptyString)))
  = header_of f.
Proof.
  intros [Ho _ _ _]. pose proof (length_7_range f). cbn [load_le].
  rewrite !code_chr by (unfold first_byte, mask_bit; destruct (fin f), (mask f); lia).
  rewrite Z.mul_0_r, Z.add_0_r, ntohs_bytes
    by (unfold first_byte, mask_bit; destruct (fin f), (mask f); lia).
  unfold header_of. lia.
Qed.
(** ** Reading a stream *)

Section Reading.
Context (u : user).
Implicit Types c : connection.

(** [c] in the middle of a frame. *)
Definition in_frame st rem hm mk mini frag req c : connection :=
  on_io (λ o, io_requested (Some req) (io_is_reading true o))
    (on_rd (λ r, Reader st rem hm mk mini (message_ r) frag (is_binary_ r)) c).
Definition at_header hm mk rem c : connection :=
  in_frame MiniHeader rem hm mk 0 EmptyString (ReadSome 2) c.
(** The payload comes next, or the key in front of it. *)
Definition in_payload hm mk mini frag rem c : connection :=
  in_frame Payload rem hm mk mini frag (ReadSome (Z.min buffer_size rem)) c.
Definition before_payload f mk mini c : connection :=
  match mask f with
  | Some _ => in_frame Mask (slen (data f)) true mk mini EmptyString (ReadExact 4) c
  | None => in_payload false mk mini EmptyString (slen (data f)) c
  end.
Definition goes_on c : Prop := has_sent_close_ (cl c) && has_recv_close_ (cl c) = false.

(** The request for an extended length. *)
Lemma do_read_len c n :
  goes_on c → state_ (rd c) = Len16 ∧ n = 2 ∨ state_ (rd c) = Len64 ∧ n = 8 →
  ∃ rem, do_read u c = request (ReadExact n) (on_io (io_is_reading true) (on_rd (rd_remaining_length rem) c)).
Proof.
  unfold goes_on, do_read. intros ->. cbn. intros [[-> ->]|[-> ->]]; [by eexists|].
  exists (remaining_length_ (rd c)). by destruct c as [[]].
Qed.

(** What [do_read] does when the length is known. *)
Lemma do_read_mask f max c :
  frame_ok max f → max_payload_bytes_ c = max → goes_on c →
  state_ (rd c) = Mask → remaining_length_ (rd c) = slen (data f) →
  has_mask_ (rd c) = bool_decide (is_Some (mask f)) → fragment_ (rd c) = EmptyString →
  do_read u c = before_payload f (mask_ (rd c)) (mini_header_ (rd c)) c.
Proof.
  intros [_ _ Hl _] Hmax Hgo Hst Hrem Hm Hfr. unfold goes_on in Hgo.
  unfold do_read, before_payload, in_payload, in_frame. rewrite Hgo.
  destruct c as [[st rem hm mk mini msg frag b] cl [rg op rq po he rm dl wi] sb wb mx sp pr].
  cbn in *. subst. rewrite (proj2 (Z.ltb_ge _ _)) by lia. by destruct (mask f).
Qed.

(** The payload is complete. *)
Definition payload_read hm mk mini frag c : connection :=
  on_io (λ o, io_requested None (io_is_reading false o))
    (on_rd (λ r, Reader Payload 0 hm mk mini (message_ r) frag (is_binary_ r)) c).
Definition fragment_done hm mk mini frag c : connection :=
  let '(go_on, c) := handle_fragment u (payload_read hm mk mini frag c) in
  if go_on : bool then do_read u (on_rd (rd_state MiniHeader) c) else c.

Lemma read_payload_part hm mk mini frag b p c : goes_on c → slen (b +:+ p) < 2 ^ 64 →
  read_handler u b (in_payload hm mk mini frag (slen (b +:+ p)) c)
  = if decide (p = "") then fragment_done hm mk mini (frag +:+ b) c
    else in_payload hm mk mini (frag +:+ b) (slen p) c.
Proof.
  intros Hgo Hlt. rewrite slen_app in *. pose proof (slen_nonneg b). pose proof (slen_nonneg p).
  assert (uwrap 64 (slen b + slen p - slen b) = slen p) as Hrem.
  { unfold uwrap. rewrite Z.mod_small; lia. }
  unfold read_handler. cbv zeta.
  match goal with |- match state_ (rd ?x) with _ => _ end = _ =>
    change (state_ (rd x)) with Payload; cbn iota; set (c1 := on_rd _ x) end.
  assert (c1 = on_io (λ o, io_requested None (io_is_reading false o))
    (on_rd (λ r, Reader Payload (slen p) hm mk mini (message_ r) (frag +:+ b) (is_binary_ r)) c)) as ->.
  { unfold c1, in_payload, in_frame, on_rd, on_io, set_rd, set_io, rd_remaining_length. cbn -[uwrap].
    by rewrite Hrem. }
  cbn [state_ in_payload in_frame rd on_io on_rd set_io set_rd remaining_length_].
  destruct (decide (p = "")) as [->|Hp]; [done|].
  rewrite (proj2 (Z.eqb_neq _ _)) by (pose proof (slen_pos p Hp); lia).
  unfold do_read. unfold goes_on in Hgo. cbn. by rewrite Hgo.
Qed.

(** *** What becomes of a frame *)

(** The user's handlers do not close the connection. *)
Definition quiet : Prop := ∀ h m status_code, Close m status_code ∉ react u h.
Definition calls_posted (k : ws_call) : list (Z * string) :=
  match k with
  | SendText m => [(1, m)] | SendBinary m => [(2, m)] | SendPing m => [(9, m)]
  | SendPong m => [(10, m)] | Close _ _ => []
  end.
(** What the handlers have heard and what is to be sent, after the handlers are told of [h]. *)
Definition told (h : happening) (x : list happening * list (Z * string))
  : list happening * list (Z * string) :=
  if installed u h
  then (h :: fst x, snd x ++ (react u (h :: fst x) ≫= calls_posted)) else x.
Definition hear (x : list happening * list (Z * string)) (o : outside) : outside :=
  io_heard (fst x) (io_posted (snd x) o).

Lemma calls_quiet l c : (∀ m status_code, Close m status_code ∉ l) →
  foldl (perform u 1) c l = on_io (λ o, io_posted (posted o ++ (l ≫= calls_posted)) o) c.
Proof.
  revert c. induction l as [|k l IH]; intros c Hl.
  - destruct c as [r x [] sb wb mx sp pr]. unfold on_io, io_posted. cbn. by rewrite app_nil_r.
  - cbn [foldl mbind list_bind].
    rewrite IH by (intros m st H; apply (Hl m st); by right).
    assert (perform u 1 c k = on_io (λ o, io_posted (posted o ++ calls_posted k) o) c) as ->.
    { destruct k; try reflexivity. exfalso. eapply Hl. by left. }
    destruct c as [r x [] sb wb mx sp pr]. unfold on_io, io_posted. cbn. by rewrite <- app_assoc.
Qed.
Lemma call_back_quiet h c : quiet →
  call_back u h c = on_io (λ o, hear (told h (heard o, posted o)) o) c.
Proof.
  intros Hq. unfold call_back, tell, told. destruct (installed u h).
  - rewrite calls_quiet by (intros m st; apply Hq). by destruct c as [r x [] sb wb mx sp pr].
  - by destruct c as [r x [] sb wb mx sp pr].
Qed.

(** The effect of a frame on the connection. *)
Definition add_data (f : frame) c : connection :=
  let c := on_rd (λ r, rd_message (message_ r +:+ data f) r) c in
  if fin f then
    on_rd (rd_message EmptyString)
      (on_io (λ o, hear (told (Message (message_ (rd c)) (is_binary_ (rd c))) (heard o, posted o)) o) c)
  else c.
Definition deliver (f : frame) c : connection :=
  if op f =? 0 then add_data f c
  else if op f =? 1 then add_data f (on_rd (rd_is_binary false) c)
  else if op f =? 2 then add_data f (on_rd (rd_is_binary true) c)
  else if op f =? 9 then send_data 10 (data f) c
  else set_pong_received true c.

Lemma add_fragment_done f hm mk c : quiet → goes_on c →
  is_FIN (payload_read hm mk (header_of f) (data f) c) = fin f →
  do_read u (on_rd (rd_state MiniHeader) (on_rd (rd_fragment EmptyString)
    (add_fragment u (payload_read hm mk (header_of f) (data f) c))))
  = at_header hm mk 0 (add_data f c).
Proof.
  intros Hq Hgo Hfin. unfold add_fragment, add_data.
  change (is_FIN (on_rd _ ?x)) with (is_FIN x). rewrite Hfin. unfold goes_on in Hgo.
  unfold payload_read, at_header, in_frame, do_read. rewrite call_back_quiet by done.
  destruct c as [[] x [] sb wb mx sp pr]. cbn in Hgo |- *.
  destruct (fin f); cbn; rewrite Hgo; reflexivity.
Qed.

Lemma fragment_done_deliver f max mk c :
  quiet → frame_ok max f → op f ∈ [0; 1; 2; 9; 10] → goes_on c →
  fragment_done (bool_decide (is_Some (mask f))) (default mk (mask f)) (header_of f) (masked f) c
  = at_header (bool_decide (is_Some (mask f))) (default mk (mask f)) 0 (deliver f c).
Proof.
  intros Hq Hok Hop Hgo. pose proof (header_of_bits max f Hok) as (_ & _ & Hfin & Hopc).
  set (hm := bool_decide _). set (k := default mk (mask f)).
  unfold fragment_done, handle_fragment.
  assert ((if has_mask_ (rd (payload_read hm k (header_of f) (masked f) c))
           then on_rd (λ r, rd_fragment (xor_mask (mask_ r) 0 (fragment_ r)) r)
                  (payload_read hm k (header_of f) (masked f) c)
           else payload_read hm k (header_of f) (masked f) c)
    = payload_read hm k (header_of f) (data f) c) as ->.
  { unfold hm, k, masked. destruct (mask f) as [key|]; [|done].
    unfold payload_read, on_rd, rd_fragment. cbn. by rewrite masking_xor_mask, xor_mask_twice. }
  set (c1 := payload_read _ _ _ _ _).
  assert (is_FIN c1 = fin f) as Hf by exact Hfin.
  assert (opcode c1 = op f) as -> by exact Hopc.
  unfold deliver. apply list_elem_of_In in Hop.
  destruct Hop as [<-|[<-|[<-|[<-|[<-|[]]]]]]; cbn [Z.eqb Pos.eqb].
  - by apply add_fragment_done.
  - rewrite <- (add_fragment_done f hm k (on_rd (rd_is_binary false) c)) by done. reflexivity.
  - rewrite <- (add_fragment_done f hm k (on_rd (rd_is_binary true) c)) by done. reflexivity.
  - unfold at_header, in_frame, do_read. unfold goes_on in Hgo. cbn. rewrite Hgo. reflexivity.
  - unfold at_header, in_frame, do_read. unfold goes_on in Hgo. cbn. rewrite Hgo. reflexivity.
Qed.

(** The bytes read as they are taken out of the input: all that was asked for, or a number of
    bytes that [pick] chooses; but the first two bytes of a frame come together. *)
Context (pick : string → nat).
Definition read_amount c (r : read_request) (input : string) : nat :=
  match r with
  | ReadExact n => Z.to_nat n
  | ReadSome n =>
      match state_ (rd c) with
      | MiniHeader => 2
      | _ => Nat.min (Z.to_nat n) (Nat.max 1 (Nat.min (pick input) (String.length input)))
      end
  end.
(** The reads on [input], as long as it holds what they ask for. *)
Fixpoint feed (fuel : nat) c (input : string) : connection * string :=
  match fuel with
  | O => (c, input)
  | S fuel' =>
      match requested (io c) with
      | Some r =>
          let k := read_amount c r input in
          if (k <=? String.length input)%nat
          then feed fuel' (read_handler u (String.substring 0 k input) c)
                 (String.substring k (String.length input - k) input)
          else (c, input)
      | None => (c, input)
      end
  end.

Lemma feed_read fuel c r b rest :
  requested (io c) = Some r → read_amount c r (b +:+ rest) = String.length b →
  feed (S fuel) c (b +:+ rest) = feed fuel (read_handler u b c) rest.
Proof.
  intros Hr Hk. cbn [feed]. rewrite Hr, Hk, string_length_app.
  rewrite (proj2 (Nat.leb_le _ _)) by lia. f_equal.
  - by rewrite substring_take.
  - replace (String.length b + String.length rest - String.length b)%nat
      with (String.length rest) by lia. apply substring_drop.
Qed.

(** The header, up to the payload or its key. *)
Lemma feed_header f max hm mk rem c rest fuel :
  frame_ok max f → max_payload_bytes_ c = max → goes_on c →
  ∃ fuel', (fuel ≤ fuel')%nat ∧
    feed (S (S fuel)) (at_header hm mk rem c)
      (String (chr (first_byte f)) (String (chr (mask_bit f + length_7 f)) EmptyString)
       +:+ extended_length f +:+ rest)
    = feed fuel' (before_payload f mk (header_of f) c) rest.
Proof.
  intros Hok Hmax Hgo. pose proof (slen_nonneg (data f)) as H0.
  rewrite (feed_read _ _ (ReadSome 2)); [|done|done].
  pose proof (header_of_bits max f Hok) as (Hm & Hl & _ & _).
  unfold read_handler. cbn [at_header in_frame on_io on_rd io rd set_io set_rd state_].
  unfold set_mini_header. rewrite (load_header max f Hok).
  cbn [rd on_rd set_rd rd_mini_header mini_header_ rd_has_mask]. rewrite Hl, Hm.
  unfold length_7, extended_length.
  destruct (Z.ltb_spec (slen (data f)) 126) as [H1|H1].
  - rewrite (proj2 (Z.eqb_neq _ 127)), (proj2 (Z.eqb_neq _ 126)) by lia.
    rewrite string_app_nil_l. exists (S fuel). split; [lia|]. f_equal.
    by rewrite (do_read_mask f max).
  - destruct (Z.ltb_spec (slen (data f)) 0x10000) as [H2|H2]; cbn [Z.eqb Pos.eqb].
    + match goal with |- context [do_read u ?x] =>
        destruct (do_read_len x 2) as [rem' ->]; [exact Hgo|by left|] end.
      rewrite (feed_read _ _ (ReadExact 2)) by reflexivity. exists fuel. split; [lia|]. f_equal.
      unfold read_handler. cbn [rd state_ on_io on_rd set_io set_rd request at_header in_frame rd_state
        rd_remaining_length rd_has_mask rd_mini_header].
      rewrite load_network_2 by lia. by rewrite (do_read_mask f max).
    + match goal with |- context [do_read u ?x] =>
        destruct (do_read_len x 8) as [rem' ->]; [exact Hgo|by right|] end.
      rewrite (feed_read _ _ (ReadExact 8)) by reflexivity. exists fuel. split; [lia|]. f_equal.
      unfold read_handler. cbn [rd state_ on_io on_rd set_io set_rd request at_header in_frame rd_state
        rd_remaining_length rd_has_mask rd_mini_header].
      rewrite load_network_8 by (destruct Hok; lia). by rewrite (do_read_mask f max).
Qed.

(** The key, if there is one. *)
Definition key_of f mk : string := default mk (mask f).
Lemma feed_key f max mk mini c rest fuel :
  frame_ok max f → goes_on c →
  ∃ fuel', (fuel ≤ fuel')%nat ∧
    feed (S fuel) (before_payload f mk mini c) (default EmptyString (mask f) +:+ rest)
    = feed fuel' (in_payload (bool_decide (is_Some (mask f))) (key_of f mk) mini EmptyString
                    (slen (data f)) c) rest.
Proof.
  intros [_ Hm _ _] Hgo. unfold before_payload, key_of. destruct (mask f) as [k|]; cbn [default from_option id].
  - rewrite (feed_read _ _ (ReadExact 4)); [|reflexivity|by cbn; rewrite Hm].
    exists fuel. split; [lia|]. f_equal. unfold read_handler, do_read. unfold goes_on in Hgo.
    cbn. rewrite Hgo. reflexivity.
  - rewrite string_app_nil_l. exists (S fuel). split; [lia|done].
Qed.

Lemma feed_payload n p hm mk mini frag c rest fuel :
  goes_on c → (String.length p ≤ n)%nat → slen p < 2 ^ 64 →
  ∃ fuel', (fuel ≤ fuel')%nat ∧
    feed (S (n + fuel)) (in_payload hm mk mini frag (slen p) c) (p +:+ rest)
    = feed fuel' (fragment_done hm mk mini (frag +:+ p) c) rest.
Proof.
  intros Hgo. revert p frag. induction n as [|n IH]; intros p frag Hn Hlt.
  - destruct p; [|cbn in Hn; lia].
    rewrite (feed_read _ _ (ReadSome 0) "" rest); [|reflexivity|reflexivity].
    exists fuel. split; [lia|]. f_equal.
  - destruct (decide (p = "")) as [->|Hp].
    { rewrite (feed_read _ _ (ReadSome 0) "" rest); [|reflexivity|reflexivity].
      exists (S n + fuel)%nat. split; [lia|]. f_equal. }
    pose proof (slen_pos p Hp) as Hpos. unfold slen in Hpos, Hlt.
    assert (∃ b p', p = b +:+ p' ∧ b ≠ "" ∧
      read_amount (in_payload hm mk mini frag (slen p) c) (ReadSome (Z.min buffer_size (slen p)))
        (p +:+ rest) = String.length b) as (b & p' & -> & Hb & Hk).
    { set (k := read_amount _ _ _).
      assert (1 ≤ k ≤ String.length p)%nat as Hk.
      { unfold k. cbn. rewrite string_length_app. unfold buffer_size, slen in *. lia. }
      exists (String.substring 0 k p), (String.substring k (String.length p - k) p).
      assert (String.length (String.substring 0 k p) = k) as Hlk
        by (rewrite substring_length by lia; lia).
      split_and!; [by rewrite substring_split| |done]. intros E. rewrite E in Hlk.
      change (String.length "") with 0%nat in Hlk. lia. }
    pose proof (slen_pos b Hb) as Hb1.
    rewrite string_app_assoc in Hk |- *. 
    rewrite (feed_read _ _ (ReadSome (Z.min buffer_size (slen (b +:+ p')))) b (p' +:+ rest));
      [|reflexivity|exact Hk].
    rewrite read_payload_part by done. rewrite string_length_app in Hn. unfold slen in Hb1.
    destruct (decide (p' = "")) as [->|_].
    + exists (S n + fuel)%nat. split; [lia|]. by rewrite string_app_nil_l, string_app_nil_r.
    + destruct (IH p' (frag +:+ b)) as (fuel' & Hf & E).
      * lia.
      * rewrite string_length_app in Hlt. unfold slen. lia.
      * exists fuel'. split; [lia|]. rewrite <- string_app_assoc, <- E. reflexivity.
Qed.

(** ** A frame, and a stream of frames *)

Definition cost (f : frame) : nat := (4 + String.length (data f))%nat.
Lemma feed_frame f max hm mk rem c rest fuel :
  quiet → frame_ok max f → op f ∈ [0; 1; 2; 9; 10] → max_payload_bytes_ c = max → goes_on c →
  ∃ fuel' hm' mk', (fuel ≤ fuel')%nat ∧
    feed (cost f + fuel) (at_header hm mk rem c) (frame_text f +:+ rest)
    = feed fuel' (at_header hm' mk' 0 (deliver f c)) rest.
Proof.
  intros Hq Hok Hop Hmax Hgo. unfold frame_text. rewrite !string_app_assoc.
  assert (slen (masked f) = slen (data f)) as Hlen.
  { unfold masked. destruct (mask f); [rewrite masking_xor_mask; apply xor_mask_length|done]. }
  set (n := String.length (data f)).
  replace (cost f + fuel)%nat with (S (S (S (S (n + fuel))))) by (unfold cost; lia).
  destruct (feed_header f max hm mk rem c (default "" (mask f) +:+ masked f +:+ rest)
    (S (S (n + fuel)))) as (f1 & Hf1 & ->); [done..|].
  destruct f1 as [|f1]; [lia|].
  destruct (feed_key f max mk (header_of f) c (masked f +:+ rest) f1) as (f2 & Hf2 & ->); [done..|].
  replace f2 with (S (n + (f2 - 1 - n)))%nat by lia. rewrite <- Hlen.
  destruct (feed_payload n (masked f) (bool_decide (is_Some (mask f))) (key_of f mk) (header_of f) ""
    c rest (f2 - 1 - n)) as (f3 & Hf3 & ->).
  - done.
  - unfold slen in Hlen. unfold n. lia.
  - rewrite Hlen. apply Hok.
  - eexists f3, _, _. split; [lia|]. rewrite string_app_nil_l. unfold key_of.
    by rewrite (fragment_done_deliver f max mk c).
Qed.

Lemma deliver_keeps f c : quiet →
  cl (deliver f c) = cl c ∧ max_payload_bytes_ (deliver f c) = max_payload_bytes_ c.
Proof.
  intros Hq. unfold deliver, add_data. by repeat case_match.
Qed.
End Reading.

(** Messages as RFC 6455 puts them into frames: one frame, or several, with control frames
    between them; a Ping carries a payload, a Pong says that the other end is there. *)
Inductive incoming : Type := Whole (text : string) (is_binary : bool) | Pinged (text : string) | Ponged.
Definition data_op (is_binary : bool) : Z := if is_binary then 2 else 1.
Inductive stream : option (string * bool) → list frame → list incoming → Prop :=
| stream_end : stream None [] []
| stream_ping o k p fs us : stream o fs us → stream o (Frame true 9 k p :: fs) (Pinged p :: us)
| stream_pong o k p fs us : stream o fs us → stream o (Frame true 10 k p :: fs) (Ponged :: us)
| stream_whole b k t fs us :
    stream None fs us → stream None (Frame true (data_op b) k t :: fs) (Whole t b :: us)
| stream_first b k t fs us :
    stream (Some (t, b)) fs us → stream None (Frame false (data_op b) k t :: fs) us
| stream_more b k t t' fs us :
    stream (Some (t +:+ t', b)) fs us → stream (Some (t, b)) (Frame false 0 k t' :: fs) us
| stream_last b k t t' fs us :
    stream None fs us → stream (Some (t, b)) (Frame true 0 k t' :: fs) (Whole (t +:+ t') b :: us).

(** What comes of it: the handlers are told of the messages, and a Ping is answered. *)
Definition receive (u : user) (x : list happening * list (Z * string)) (i : incoming)
  : list happening * list (Z * string) :=
  match i with
  | Whole t b => told u (Message t b) x
  | Pinged p => (fst x, snd x ++ [(10, p)])
  | Ponged => x
  end.

(** A connection that waits for a frame. *)
Record waiting (max : Z) (c : connection) : Prop := {
  wa_state : state_ (rd c) = MiniHeader;
  wa_requested : requested (io c) = Some (ReadSome 2);
  wa_reading : is_reading (io c) = true;
  wa_header : mini_header_ (rd c) = 0;
  wa_fragment : fragment_ (rd c) = "";
  wa_message : message_ (rd c) = "";
  wa_max : max_payload_bytes_ c = max;
  wa_open : goes_on c;
}.
Lemma waiting_at_header max c :
  waiting max c → c = at_header (has_mask_ (rd c)) (mask_ (rd c)) (remaining_length_ (rd c)) c.
Proof.
  destruct c as [[] x [] sb wb mx sp pr]. intros []. cbn in *. by subst.
Qed.
Definition partial (o : option (string * bool)) (c : connection) : Prop :=
  match o with
  | Some (t, b) => message_ (rd c) = t ∧ is_binary_ (rd c) = b
  | None => message_ (rd c) = ""
  end.
Definition heard_posted (c : connection) : list happening * list (Z * string) :=
  (heard (io c), posted (io c)).

(** One frame of a stream. *)
Lemma deliver_stream u o f fs us : stream o (f :: fs) us →
  op f ∈ [0; 1; 2; 9; 10] ∧ ∃ o' us1 us', us = us1 ++ us' ∧ stream o' fs us' ∧
    ∀ c, partial o c → partial o' (deliver u f c) ∧
      heard_posted (deliver u f c) = foldl (receive u) (heard_posted c) us1.
Proof.
  assert (∀ b, data_op b ∈ [0; 1; 2; 9; 10]) as Hdata by (intros []; set_solver).
  assert (∀ b f c, op f = data_op b → deliver u f c = add_data u f (on_rd (rd_is_binary b) c)) as Hd.
  { intros b g c Hop. unfold deliver. rewrite Hop. by destruct b. }
  intros Hs. inversion Hs as [|? k p ? us' H|? k p ? us' H|b k t ? us' H|b k t ? us' H
    |b k t t' ? us' H|b k t t' ? us' H]; subst; cbn [op].
  - split; [set_solver|]. eexists o, [Pinged p], us'. split_and!; [done..|]. intros c Hc. by split.
  - split; [set_solver|]. eexists o, [Ponged], us'. split_and!; [done..|]. intros c Hc. by split.
  - split; [done|]. eexists None, [Whole t b], us'. split_and!; [done..|]. intros c Hc.
    rewrite (Hd b) by done. unfold add_data, heard_posted, partial in *. cbn. rewrite Hc. cbn.
    by destruct (told u _ _).
  - split; [done|]. eexists (Some (t, b)), [], us. split_and!; [done..|]. intros c Hc.
    rewrite (Hd b) by done. unfold add_data, heard_posted, partial in *. cbn. by rewrite Hc.
  - split; [set_solver|]. eexists (Some (t +:+ t', b)), [], us. split_and!; [done..|].
    intros c [Hc Hb]. unfold deliver, add_data, heard_posted. cbn. by rewrite Hc.
  - split; [set_solver|]. eexists None, [Whole (t +:+ t') b], us'. split_and!; [done..|].
    intros c [Hc Hb]. unfold deliver, add_data, heard_posted. cbn. rewrite Hc, Hb.
    by destruct (told u _ _).
Qed.

Section Streams.
Context (u : user) (pick : string → nat) (Hq : quiet u).
Implicit Types c : connection.

Lemma feed_stream max o fs us c hm mk rem fuel :
  stream o fs us → List.Forall (frame_ok max) fs → partial o c → max_payload_bytes_ c = max → goes_on c →
  ∃ fuel' hm' mk' rem' c',
    feed u pick (sum_list_with cost fs + fuel) (at_header hm mk rem c)
      (String.concat "" (frame_text <$> fs)) = feed u pick fuel' (at_header hm' mk' rem' c') "" ∧
    partial None c' ∧ max_payload_bytes_ c' = max ∧ goes_on c' ∧
    heard_posted c' = foldl (receive u) (heard_posted c) us.
Proof using Hq.
  intros Hs Hok. revert o us c hm mk rem fuel Hs. induction Hok as [|f fs Hf _ IH];
    intros o us c hm mk rem fuel Hs Hp Hmax Hgo.
  - inversion Hs; subst. by eexists _, hm, mk, rem, c.
  - destruct (deliver_stream u o f fs us Hs) as (Hop & o' & us1 & us' & -> & Hs' & Hd).
    destruct (Hd c Hp) as [Hp' Hh]. destruct (deliver_keeps u f c Hq) as [Hcl Hm'].
    rewrite fmap_cons, string_concat_cons. cbn [sum_list_with].
    destruct (feed_frame u pick f max hm mk rem c (String.concat "" (frame_text <$> fs))
      (sum_list_with cost fs + fuel)) as (f1 & hm1 & mk1 & Hf1 & E); [done..|].
    rewrite <- Nat.add_assoc. rewrite E.
    replace f1 with (sum_list_with cost fs + (f1 - sum_list_with cost fs))%nat by lia.
    destruct (IH o' us' (deliver u f c) hm1 mk1 0 (f1 - sum_list_with cost fs)%nat)
      as (f2 & hm2 & mk2 & rem2 & c2 & -> & Hp2 & Hm2 & Hg2 & Hh2).
    + done.
    + done.
    + by rewrite Hm'.
    + unfold goes_on. by rewrite Hcl.
    + eexists f2, hm2, mk2, rem2, c2. split_and!; try done. by rewrite Hh2, Hh, foldl_app.
Qed.

Lemma feed_frames max fs us c fuel :
  stream None fs us → List.Forall (frame_ok max) fs → waiting max c →
  (sum_list_with cost fs ≤ fuel)%nat →
  ∃ c', feed u pick fuel c (String.concat "" (frame_text <$> fs)) = (c', "") ∧ waiting max c' ∧
    heard_posted c' = foldl (receive u) (heard_posted c) us.
Proof using Hq.
  intros Hs Hok Hw Hfuel. rewrite (waiting_at_header max c Hw).
  replace fuel with (sum_list_with cost fs + (fuel - sum_list_with cost fs))%nat by lia.
  destruct (feed_stream max None fs us c (has_mask_ (rd c)) (mask_ (rd c)) (remaining_length_ (rd c))
    (fuel - sum_list_with cost fs)) as (f2 & hm2 & mk2 & rem2 & c2 & -> & Hp2 & Hm2 & Hg2 & Hh2).
  - done.
  - done.
  - apply Hw.
  - apply Hw.
  - apply Hw.
  - exists (at_header hm2 mk2 rem2 c2). split_and!; [by destruct f2| |exact Hh2].
    by split.
Qed.

(** C33: what is framed is heard.  Messages of text or binary data, in one frame or in
    fragments, masked or not, of any length up to the limit, with Pings and Pongs before,
    between and after their fragments, come as frames, without a Close, to a connection that
    waits for a frame, and its handlers never call close().  The first two bytes of each frame
    come in one read (that the reader depends on it, [split_header_misread]); the payloads are
    cut up by the socket in any way.  Then the handlers are told of exactly these messages, in
    their order, every Ping is answered with its payload, what the handlers send in return and
    these answers are posted in order, and the connection waits for the next frame. *)
Theorem frames_delivered max fs us c fuel :
  stream None fs us → List.Forall (frame_ok max) fs → waiting max c →
  (sum_list_with cost fs ≤ fuel)%nat →
  ∃ c', feed u pick fuel c (String.concat "" (frame_text <$> fs)) = (c', "") ∧ waiting max c' ∧
    heard_posted c' = foldl (receive u) (heard_posted c) us.
Proof using Hq. apply feed_frames. Qed.
End Streams.

(** ** Sending *)

(** The frame that is made of what was posted. *)
Definition post_frame (x : Z * string) : frame := Frame true (fst x) None (snd x).
Definition frames_text (l : list (Z * string)) : string :=
  String.concat "" (frame_text ∘ post_frame <$> l).
Definition sendable (x : Z * string) : Prop := 0 ≤ fst x < 16 ∧ slen (snd x) < 2 ^ 64.
(** The bytes handed to the socket, those that wait for it, and those that are still posted. *)
Definition outgoing (c : connection) : string :=
  String.concat "" (wire (io c) ++ write_buffers_ c) +:+ frames_text (posted (io c)).

Lemma frames_text_app l1 l2 : frames_text (l1 ++ l2) = frames_text l1 +:+ frames_text l2.
Proof. unfold frames_text. by rewrite fmap_app, string_concat_app. Qed.
Lemma frames_text_cons x l : frames_text (x :: l) = frame_text (post_frame x) +:+ frames_text l.
Proof. unfold frames_text. by rewrite fmap_cons, string_concat_cons. Qed.

Lemma do_write_out c :
  wire (io (do_write c)) ++ write_buffers_ (do_write c) = wire (io c) ++ write_buffers_ c ∧
  posted (io (do_write c)) = posted (io c).
Proof. unfold do_write. destruct (sending_buffers_ c); [|done]. cbn. by rewrite app_nil_r. Qed.

(** A handler that calls [close] from the close handler is not told again, so the depth of
    [perform] does not matter. *)
Section Depth.
Context (u : user).
Definition close_called (c : connection) : Prop := is_close_handler_called_ (cl c) = true.

Lemma called_do_write c : close_called c → close_called (do_write c).
Proof. unfold do_write. by destruct (sending_buffers_ c). Qed.
Lemma called_perform d d' k c : close_called c →
  perform u d c k = perform u d' c k ∧ close_called (perform u d c k).
Proof.
  intros H. destruct k as [| | | |m st]; [by destruct d, d'..|].
  destruct c as [r [x1 x2 x3 x4] o sb wb mx sp pr]. unfold close_called in H. cbn in H. subst x4.
  assert (∀ n, perform u n (Connection r (Closing x1 x2 x3 true) o sb wb mx sp pr) (Close m st) =
    close_frame m st (Connection r (Closing x1 true x3 true) o sb wb mx sp pr)) as E
    by (intros []; cbn; by rewrite andb_false_r).
  rewrite !E. split; [done|]. by apply called_do_write.
Qed.
Lemma called_performs d d' l c : close_called c → foldl (perform u d) c l = foldl (perform u d') c l.
Proof.
  revert c. induction l as [|k l IH]; intros c H; [done|]. cbn.
  destruct (called_perform d d' k c H) as [E H']. rewrite <-E. by apply IH.
Qed.
Lemma perform_depth d c k : perform u (S d) c k = perform u 1 c k.
Proof.
  destruct k as [| | | |m st]; [done..|]. cbn [perform]. cbv zeta. f_equal.
  case_match; [|done]. unfold tell. case_match; [|done]. by apply (called_performs d 0).
Qed.
End Depth.

Section Sending.
Context (u : user).
Implicit Types c : connection.

(** A connection as it writes: what was posted is run, writes complete, and its user sends. *)
Inductive writes : connection → list ws_call → connection → Prop :=
| writes_end c : writes c [] c
| writes_posted c ks c' : writes (run_posted c) ks c' → writes c ks c'
| writes_done c ks c' :
    sending_buffers_ c ≠ [] → writes (write_handler u false c) ks c' → writes c ks c'
| writes_call c k ks c' :
    (∀ m st, k ≠ Close m st) → writes (perform u 1 c k) ks c' → writes c (k :: ks) c'.
Definition drained c : Prop := posted (io c) = [] ∧ write_buffers_ c = [].

Lemma run_posted_out c : List.Forall sendable (posted (io c)) →
  outgoing (run_posted c) = outgoing c ∧ List.Forall sendable (posted (io (run_posted c))) ∧
  cl (run_posted c) = cl c.
Proof.
  intros Hs. unfold run_posted, outgoing. destruct (posted (io c)) as [|[op p] l] eqn:E.
  { rewrite E. by split_and!. }
  apply List.Forall_cons_iff in Hs as [[Ho Hp] Hs]. unfold send_data_impl.
  match goal with |- context [do_write ?x] => destruct (do_write_out x) as [-> ->] end.
  rewrite frames_text_cons, <- (build_header_frame (post_frame (op, p))) by done.
  cbn [emplace_back set_write_buffers on_io set_io io io_posted posted wire write_buffers_].
  split_and!; [|done|by unfold do_write; case_match].
  rewrite app_assoc, string_concat_app, !string_concat_cons. cbn [String.concat]. by str_norm.
Qed.
Lemma written_out c : close_connection_ (cl c) = false → has_sent_close_ (cl c) = false →
  outgoing (write_handler u false c) = outgoing c ∧
  posted (io (write_handler u false c)) = posted (io c) ∧ cl (write_handler u false c) = cl c.
Proof.
  intros Hc Hs. unfold write_handler, outgoing. rewrite Hc. cbn [negb andb].
  case_bool_decide; cbn [cl set_sending_buffers]; [by rewrite Hs|].
  unfold do_write. cbn. rewrite Hs. cbn. by rewrite app_nil_r.
Qed.
Lemma called_out c k : (∀ m st, k ≠ Close m st) →
  outgoing (perform u 1 c k) = outgoing c +:+ frames_text (calls_posted k) ∧
  posted (io (perform u 1 c k)) = posted (io c) ++ calls_posted k ∧ cl (perform u 1 c k) = cl c.
Proof.
  intros Hk. destruct k as [m|m|m|m|m st]; [| | | |by destruct (Hk m st)];
    unfold outgoing, perform, send_data;
    cbn [on_io set_io io io_posted posted wire write_buffers_ cl calls_posted];
    (split_and!; [rewrite frames_text_app; by str_norm|done..]).
Qed.

Lemma writes_out c ks c' : writes c ks c' →
  close_connection_ (cl c) = false → has_sent_close_ (cl c) = false →
  List.Forall sendable (posted (io c)) → List.Forall sendable (ks ≫= calls_posted) →
  outgoing c' = outgoing c +:+ frames_text (ks ≫= calls_posted).
Proof.
  induction 1 as [c|c ks c' _ IH|c ks c' _ _ IH|c k ks c' Hk _ IH]; intros Hc Hs Hp Hks.
  - by rewrite string_app_nil_r.
  - destruct (run_posted_out c Hp) as (Ho & Hp' & Hcl). rewrite <- Ho. by apply IH; rewrite ?Hcl.
  - destruct (written_out c Hc Hs) as (Ho & Hp' & Hcl). rewrite <- Ho.
    by apply IH; rewrite ?Hcl, ?Hp'.
  - destruct (called_out c k Hk) as (Ho & Hp' & Hcl). cbn [mbind list_bind] in Hks |- *.
    apply List.Forall_app in Hks as [Hk1 Hk2].
    rewrite IH, Ho, frames_text_app by (rewrite ?Hcl, ?Hp'; (done || by apply List.Forall_app)).
    by rewrite string_app_assoc.
Qed.

(** The wire only grows. *)
Lemma do_write_wire c : ∃ new, wire (io (do_write c)) = wire (io c) ++ new.
Proof. unfold do_write. destruct (sending_buffers_ c); [by eexists|exists []; by rewrite app_nil_r]. Qed.
Lemma writes_wire c ks c' : writes c ks c' →
  close_connection_ (cl c) = false → has_sent_close_ (cl c) = false →
  List.Forall sendable (posted (io c)) → List.Forall sendable (ks ≫= calls_posted) →
  ∃ new, wire (io c') = wire (io c) ++ new.
Proof.
  induction 1 as [c|c ks c' _ IH|c ks c' _ _ IH|c k ks c' Hk _ IH]; intros Hc Hs Hp Hks.
  - exists []. by rewrite app_nil_r.
  - destruct (run_posted_out c Hp) as (_ & Hp' & Hcl).
    destruct IH as [new ->]; [by rewrite ?Hcl..|done|done|]. unfold run_posted.
    destruct (posted (io c)) as [|[op p] l]; [by exists new|]. unfold send_data_impl.
    match goal with |- context [do_write ?x] => destruct (do_write_wire x) as [new' ->] end.
    exists (new' ++ new). by rewrite app_assoc.
  - destruct (written_out c Hc Hs) as (_ & Hp' & Hcl).
    destruct IH as [new ->]; [by rewrite ?Hcl..|by rewrite Hp'|done|].
    unfold write_handler. rewrite Hc. cbn [negb andb].
    case_bool_decide; cbn [cl set_sending_buffers]; [rewrite Hs; by exists new|].
    unfold do_write. cbn. rewrite Hs. cbn. eexists. by rewrite <- app_assoc.
  - destruct (called_out c k Hk) as (_ & Hp' & Hcl). cbn [mbind list_bind] in Hks.
    apply List.Forall_app in Hks as [Hk1 Hk2].
    destruct IH as [new ->]; [by rewrite ?Hcl..|rewrite Hp'; by apply List.Forall_app|done|].
    exists new. destruct k as [m|m|m|m|m st]; try reflexivity. by destruct (Hk m st).
Qed.
End Sending.

(** What a call is to the other end. *)
Definition arriving (k : ws_call) : list incoming :=
  match k with
  | SendText m => [Whole m false] | SendBinary m => [Whole m true] | SendPing m => [Pinged m]
  | SendPong _ => [Ponged] | Close _ _ => []
  end.
Definition sent_text (k : ws_call) : string :=
  match k with SendText m | SendBinary m | SendPing m | SendPong m | Close m _ => m end.

Lemma calls_stream ks : (∀ k, k ∈ ks → ∀ m st, k ≠ Close m st) →
  stream None (post_frame <$> (ks ≫= calls_posted)) (ks ≫= arriving).
Proof.
  induction ks as [|k ks IH]; intros Hk; [constructor|]. cbn [mbind list_bind].
  rewrite fmap_app. assert (stream None (post_frame <$> (ks ≫= calls_posted)) (ks ≫= arriving)) as Hs.
  { apply IH. intros k' Hk'. apply Hk. by right. }
  destruct k as [m|m|m|m|m st].
  - apply (stream_whole false None m). exact Hs.
  - apply (stream_whole true None m). exact Hs.
  - apply (stream_ping None None m). exact Hs.
  - apply (stream_pong None None m). exact Hs.
  - by destruct (Hk (Close m st) ltac:(by left) m st).
Qed.

(** C34: what one end sends the other hears.  Texts, binary messages, Pings and Pongs, no
    longer than the other end's limit and shorter than [2^64] bytes, are sent on a connection
    with nothing left to write and no close begun, in any interleaving with its writes, none of
    which fails and among which there is no call of close().  When all is written they are
    bytes on the wire; and a connection that waits for a frame and whose handlers never call
    close(), reading these bytes with the first two of each frame in one read and the payloads
    in any portions, is told of the same messages in the same order, and posts the answers to
    the Pings and what its handlers send. *)
Theorem sent_is_heard u1 u2 pick max ks c1 c1' c2 :
  drained c1 → close_connection_ (cl c1) = false → has_sent_close_ (cl c1) = false →
  writes u1 c1 ks c1' → drained c1' →
  List.Forall (λ k, (∀ m st, k ≠ Close m st) ∧ slen (sent_text k) ≤ max ∧
                    slen (sent_text k) < 2 ^ 64) ks →
  quiet u2 → waiting max c2 →
  ∃ new fuel c2', wire (io c1') = wire (io c1) ++ new ∧
    feed u2 pick fuel c2 (String.concat "" new) = (c2', "") ∧
    waiting max c2' ∧ heard_posted c2' = foldl (receive u2) (heard_posted c2) (ks ≫= arriving).
Proof.
  intros [Hp Hb] Hc Hs Hrun [Hp' Hb'] Hks Hq Hwait. rewrite List.Forall_forall in Hks.
  assert (∀ x, x ∈ ks ≫= calls_posted → 0 ≤ fst x < 16 ∧ slen (snd x) ≤ max ∧ slen (snd x) < 2 ^ 64)
    as Hposts.
  { intros x (k & Hx & Hk)%list_elem_of_bind. apply list_elem_of_In, Hks in Hk as (_ & Hl & Hl').
    destruct k; cbn in Hx; try (apply list_elem_of_singleton in Hx as ->; by split_and!).
    by apply elem_of_nil in Hx. }
  assert (List.Forall sendable (ks ≫= calls_posted)) as Hsend.
  { apply List.Forall_forall. intros x Hx%list_elem_of_In. by destruct (Hposts x Hx) as (? & _ & ?). }
  assert (List.Forall sendable (posted (io c1))) as Hsend0 by (rewrite Hp; constructor).
  destruct (writes_wire u1 c1 ks c1' Hrun Hc Hs Hsend0 Hsend) as [new Hnew]. exists new.
  assert (String.concat "" new = String.concat "" (frame_text <$> (post_frame <$>
    (ks ≫= calls_posted)))) as ->.
  { pose proof (writes_out u1 c1 ks c1' Hrun Hc Hs Hsend0 Hsend) as H. unfold outgoing in H.
    rewrite Hp, Hb, Hp', Hb', Hnew, !app_nil_r, string_concat_app in H.
    change (frames_text []) with "" in H. rewrite !string_app_nil_r in H.
    rewrite <- list_fmap_compose. by apply string_app_inj_l in H. }
  enough (∃ fuel c2', feed u2 pick fuel c2 (String.concat "" (frame_text <$> (post_frame <$>
    (ks ≫= calls_posted)))) = (c2', "") ∧ waiting max c2' ∧
    heard_posted c2' = foldl (receive u2) (heard_posted c2) (ks ≫= arriving))
    as (fuel & c2' & ? & ? & ?) by (by exists fuel, c2').
  eexists _. eapply (feed_frames u2 pick Hq max); [| |exact Hwait|reflexivity].
  - apply calls_stream. intros k Hk. apply list_elem_of_In, Hks in Hk. apply Hk.
  - apply List.Forall_forall. intros f Hf%list_elem_of_In.
    apply list_elem_of_fmap in Hf as (x & -> & Hx). by destruct (Hposts x Hx) as (? & ? & ?).
Qed.
