(* ===== verification/WebSocketExamples.v ===== *)
(** * WebSocket connections at work, and where they fail

    Witnesses for WebSocketSpec.v, the handshake of RFC 6455, and three faults: a header that
    comes in two reads, a frame over the limit, a connection that breaks while it writes. *)

From S2P Require Import Prelude Doubles Utility QueryString Http WebSocket WebSocketSpec.
From S2P Require Sha1.
Open Scope Z_scope.

(** ** The handshake *)

(** The key and the answer of RFC 6455, section 1.3. *)
Example rfc_accept_key :
  accept_key (replicate 64 0) "dGhlIHNhbXBsZSBub25jZQ==" = "s3pPLMBiTxaQ9kYGzzhZRbK+xOo=".
Proof. by vm_compute. Qed.

(** A user who sends every message back, and keeps quiet otherwise. *)
Definition echo : user :=
  User (λ _, true) (λ hs, match hs with Message t false :: _ => [SendText t]
                                      | Message t true :: _ => [SendBinary t] | _ => [] end).
Lemma echo_quiet : quiet echo.
Proof. intros h m st. destruct h as [|[|t []|r s|x] h]; set_solver. Qed.

Definition upgrade_request : Http.request :=
  Http.Request Get "/ws" "/ws" qs_empty
    [("Sec-WebSocket-Key", "dGhlIHNhbXBsZSBub25jZQ=="); ("Upgrade", "websocket"); ("Host", "a")]
    "" "" 1 1 true false true.
(** A connection with this limit, when its handshake is on the wire. *)
Definition established (max : Z) : connection :=
  match construct echo (WsOptions max [] None false) (replicate 64 0) false upgrade_request with
  | Some c => write_handler echo false c
  | None => connection_new false max
  end.
Lemma established_waiting : waiting 4096 (established 4096).
Proof. by split. Qed.

(** ** Frames *)

Definition key : string := "k3Y!".
(** A text in two fragments with a Ping between them, all masked, and a binary message. *)
Definition some_frames : list frame :=
  [Frame false 1 (Some key) "Hel"; Frame true 9 (Some key) "?"; Frame true 0 (Some key) "lo";
   Frame true 2 None "abc"].
Lemma some_stream :
  stream None some_frames [Pinged "?"; Whole "Hello" false; Whole "abc" true].
Proof.
  apply (stream_first false), stream_ping, (stream_last false _ "Hel" "lo").
  apply (stream_whole true). constructor.
Qed.
(** Two bytes at a time. *)
Lemma frames_delivered_witness :
  ∃ c', feed echo (λ _, 2%nat) 30 (established 4096) (String.concat "" (frame_text <$> some_frames))
        = (c', "") ∧
    waiting 4096 c' ∧
    heard_posted c' = foldl (receive echo) (heard_posted (established 4096))
                        [Pinged "?"; Whole "Hello" false; Whole "abc" true].
Proof.
  apply (frames_delivered echo (λ _, 2%nat) echo_quiet 4096 some_frames _ (established 4096) 30
    some_stream); [|exact established_waiting|vm_compute; lia].
  unfold some_frames. by repeat constructor.
Defined.
Example frames_heard :
  let '(c', rest) := feed echo (λ _, 2%nat) 30 (established 4096)
                       (String.concat "" (frame_text <$> some_frames)) in
  rest = "" ∧ rev (heard (io c')) = [Opened; Message "Hello" false; Message "abc" true] ∧
  posted (io c') = [(10, "?"); (1, "Hello"); (2, "abc")].
Proof. by vm_compute. Qed.

(** What one end sends: two calls, then what was posted is run and the writes complete. *)
Definition two_calls : list ws_call := [SendText "ping"; SendBinary "pong"].
Definition written_calls c : connection :=
  write_handler echo false (write_handler echo false
    (run_posted (run_posted (foldl (perform echo 1) c two_calls)))).
Lemma writes_two_calls c :
  sending_buffers_ c = [] → drained c → cl c = Closing false false false false →
  writes echo c two_calls (written_calls c) ∧ drained (written_calls c).
Proof.
  destruct c as [r x [rg op rq po he rm dl wi] sb wb mx sp pr]. intros Hsb [Hpo Hwb] Hx.
  cbn in Hsb, Hpo, Hwb, Hx. subst. split; [|by split].
  unfold written_calls, two_calls. cbn [foldl]. apply writes_call; [discriminate|]. apply writes_call; [discriminate|].
  do 2 apply writes_posted. do 2 (apply writes_done; [by vm_compute|]). apply writes_end.
Qed.
Lemma established_quiet : sending_buffers_ (established 4096) = [] ∧ drained (established 4096) ∧
  cl (established 4096) = Closing false false false false.
Proof. by split_and!. Qed.
#[local] Strategy opaque [established].
Lemma sent_is_heard_witness :
  let c := established 4096 in
  ∃ new fuel c2', wire (io (written_calls c)) = wire (io c) ++ new ∧
    feed echo (λ _, 0%nat) fuel c (String.concat "" new) = (c2', "") ∧
    waiting 4096 c2' ∧
    heard_posted c2' = foldl (receive echo) (heard_posted c) (two_calls ≫= arriving).
Proof.
  intros c. destruct established_quiet as (Hs & Hd & Hx).
  destruct (writes_two_calls c Hs Hd Hx) as [Hw Hd'].
  apply (sent_is_heard echo echo (λ _, 0%nat) 4096 two_calls c (written_calls c) c);
    [exact Hd|unfold c; by rewrite Hx|unfold c; by rewrite Hx|exact Hw|exact Hd'| |exact echo_quiet|exact established_waiting].
  repeat constructor; discriminate.
Defined.

(** ** A header in two reads *)

(** A header that comes in two reads is misread.  The same frame, the text "hi", is told
    to the handler when its first two bytes come in one read; when they come in two, the
    handler is told of an empty message, and the second byte of the header is taken for the
    first of another frame. *)
Theorem split_header_misread :
  let text := frame_text (Frame true 1 None "hi") in
  let whole := feed echo (λ _, 2%nat) 9 (established 4096) text in
  let first := read_handler echo (String.substring 0 1 text) (established 4096) in
  let split := read_handler echo (String.substring 1 1 text) (read_handler echo "" first) in
  heard (io (fst whole)) = [Message "hi" false; Opened] ∧
  requested (io first) = Some (ReadSome 0) ∧
  heard (io split) = [Message "" false; Opened] ∧ mini_header_ (rd split) = 0x200.
Proof. by vm_compute. Qed.

(** ** A connection that breaks while it writes *)

(** The close handler is told twice that the connection is gone when a read and a write fail. *)
Example closed_twice :
  let c := run_posted (perform echo 1 (established 4096) (SendText "x")) in
  let gone := write_handler echo true (read_failed echo "gone" c) in
  heard (io gone) = [Closed "uncleanly" 1006; Closed "uncleanly" 1006; Failed "gone"; Opened] ∧
  removed (io gone) = 2%nat ∧ deleted (io gone) = true.
Proof. by vm_compute. Qed.

(** ** A frame over the limit *)

Section Oversized.
Context (u : user).
Implicit Types c : connection.

(** No read is under way, and none is thought to be over. *)
Definition stuck c : Prop :=
  requested (io c) = None ∧ is_reading (io c) = true ∧ deleted (io c) = false.

Lemma stuck_foldl {A} (f : connection → A → connection) l c :
  (∀ c k, stuck c → stuck (f c k)) → stuck c → stuck (foldl f c l).
Proof. intros Hf. revert c. induction l as [|k l IH]; intros c Hc; [done|]. apply IH, Hf, Hc. Qed.
Lemma stuck_do_write c : stuck c → stuck (do_write c).
Proof. unfold do_write. by destruct (sending_buffers_ c). Qed.
Lemma stuck_perform n c k : stuck c → stuck (perform u n c k).
Proof.
  revert c k. induction n as [|n IH]; intros c k Hc; (destruct k as [m|m|m|m|m st]; [exact Hc..|]);
    cbn [perform]; apply stuck_do_write; cbv zeta; (case_match; [|exact Hc]).
  - exact Hc.
  - unfold tell. case_match; [|exact Hc]. by apply stuck_foldl.
Qed.
Lemma stuck_call_back h c : stuck c → stuck (call_back u h c).
Proof.
  intros Hc. unfold call_back, tell. case_match; [|done]. apply stuck_foldl; [|exact Hc].
  intros c' k. apply stuck_perform.
Qed.
Lemma stuck_check_destroy st c : stuck c → stuck (check_destroy u st c).
Proof.
  intros Hc. unfold check_destroy. cbv zeta.
  assert (stuck (if is_close_handler_called_ (cl c) then c else call_back u (Closed "uncleanly" st) c))
    as H by (case_match; [done|by apply stuck_call_back]).
  destruct H as (Hr & Hi & Hd). cbn. rewrite Hi, andb_false_r. by split_and!.
Qed.
Lemma stuck_step c c' : ws_step u c c' → stuck c → stuck c'.
Proof.
  intros [c1 r bytes Hr _|c1 r what Hr|c1 failed _|c1 _|c1 call _] Hc.
  - destruct Hc as [Hc _]. congruence.
  - destruct Hc as [Hc _]. congruence.
  - unfold write_handler. cbv zeta. case_match; [|by apply stuck_check_destroy].
    assert (stuck (if bool_decide (write_buffers_ (set_sending_buffers [] c1) = [])
                   then set_sending_buffers [] c1 else do_write (set_sending_buffers [] c1))) as H1
      by (case_match; [exact Hc|by apply stuck_do_write]).
    revert H1. generalize (if bool_decide (write_buffers_ (set_sending_buffers [] c1) = [])
                           then set_sending_buffers [] c1 else do_write (set_sending_buffers [] c1)).
    intros c2 H2. by destruct (has_sent_close_ (cl c2)).
  - unfold run_posted. destruct (posted (io c1)) as [|[op p] l]; [done|].
    unfold send_data_impl. by apply stuck_do_write.
  - by apply stuck_perform.
Qed.

(** A frame over the limit leaves its connection behind for good.  When [do_read] learns
    that a frame is longer than the limit, the connection is given up; but whatever happens
    to it then, nothing is read any more and it is never freed: it takes for under way a
    read that was never started. *)
Theorem oversized_never_freed c c' :
  state_ (rd c) = Mask → max_payload_bytes_ c < remaining_length_ (rd c) → goes_on c →
  requested (io c) = None → deleted (io c) = false → rtc (ws_step u) (do_read u c) c' →
  requested (io c') = None ∧ deleted (io c') = false.
Proof.
  intros Hst Hmax Hgo Hreq Hdel Hrun.
  assert (stuck (do_read u c)) as Hstuck.
  { unfold do_read. unfold goes_on in Hgo. rewrite Hgo. cbv zeta.
    change (state_ (rd (on_io (io_is_reading true) c))) with (state_ (rd c)). rewrite Hst.
    change (max_payload_bytes_ (on_io (io_is_reading true) c)) with (max_payload_bytes_ c).
    change (rd (on_io (io_is_reading true) c)) with (rd c).
    rewrite (proj2 (Z.ltb_lt _ _)) by exact Hmax.
    apply stuck_check_destroy, stuck_call_back. by split_and!. }
  assert (stuck c') as (? & _ & ?); [|done].
  revert Hstuck. induction Hrun as [|c1 c2 c3 H12 _ IH]; [done|]. intros H. by eapply IH, stuck_step.
Qed.
End Oversized.

(** A frame of three bytes under a limit of two, when its header has been read. *)
Definition oversized : connection :=
  set_mini_header (String.substring 0 2 (frame_text (Frame true 1 None "abc")))
    (on_io (io_requested None) (established 2)).
Lemma oversized_never_freed_witness :
  requested (io (write_handler echo true (do_read echo (set_sending_buffers ["x"] oversized)))) = None ∧
  deleted (io (write_handler echo true (do_read echo (set_sending_buffers ["x"] oversized)))) = false.
Proof.
  apply (oversized_never_freed echo (set_sending_buffers ["x"] oversized)); [by vm_compute..|].
  apply rtc_once, step_written. by vm_compute.
Defined.
