(* ===== verification/Service.v ===== *)
(** * The service's global state: include/metrics.h, service_state.h, runtime_config.h

    The interfaces to what the service does not define itself: SQLite, redis++, the clock
    and the C library's [rand] and [localtime].  The global variables make up the
    [world]; a function of the service runs in the monad [M], which threads the world
    and carries exceptions (the changes made before a throw stay).  The definitions of
    this file are sequential; Concurrency.v runs the same updates as interleaved atomic
    steps. *)

From S2P Require Import Prelude Doubles.
From stdpp Require Export functions.
Open Scope Z_scope.

(** ** SQLite

    A prepared statement is its SQL text, its bound parameters and the number of times
    it was stepped.  [sq_table] is the abstract content of [orders], by primary key;
    the laws are those of the six statements the service prepares. *)

Inductive sqlvalue : Type :=
| SqlNull | SqlInt (z : Z) | SqlReal (d : double) | SqlText (s : string).

Inductive step_code : Type := SQLITE_ROW | SQLITE_DONE | SQLITE_ERR (code : Z).
#[export] Instance step_code_eq_dec : EqDecision step_code.
Proof. solve_decision. Defined.

Record stmt : Type := Stmt { sql : string; binds : gmap Z sqlvalue; steps : nat }.

Record order : Type := Order {
  amount : double;
  status : string;
  created_at : Z;
  paid_at : Z;
}.

(** The rows of [SELECT order_no, amount, status, created_at, paid_at]. *)
Definition order_row (o : string * order) : list sqlvalue :=
  [SqlText (fst o); SqlReal (amount (snd o)); SqlText (status (snd o));
   SqlInt (created_at (snd o)); SqlInt (paid_at (snd o))].

Definition sql_insert : string :=
  "INSERT INTO orders (order_no, amount, status, created_at, paid_at) VALUES (?, ?, ?, ?, ?);".
Definition sql_get : string :=
  "SELECT amount, status, created_at, paid_at FROM orders WHERE order_no = ?;".
Definition sql_pay_select : string :=
  "SELECT amount, status, created_at FROM orders WHERE order_no = ?;".
Definition sql_pay_update : string :=
  "UPDATE orders SET status = 'PAID', paid_at = ? WHERE order_no = ?;".
Definition sql_all : string :=
  "SELECT order_no, amount, status, created_at, paid_at FROM orders;".
Definition sql_filtered : string :=
  "SELECT order_no, amount, status, created_at, paid_at FROM orders WHERE status = ?;".
Definition sql_delete : string := "DELETE FROM orders WHERE order_no = ?;".

Definition pay (now : Z) (o : order) : order := Order (amount o) "PAID" (created_at o) now.

(** The rows a query returns over a table, in the order [all] lists it. *)
Definition rows_of (s : string) (b : gmap Z sqlvalue) (all : list (string * order))
  : list (list sqlvalue) :=
  if decide (s = sql_all) then order_row <$> all
  else if decide (s = sql_filtered) then
    match b !! 1 with
    | Some (SqlText q) => order_row <$> filter (λ o, status (snd o) = q) all
    | _ => []
    end
  else if decide (s = sql_get) then
    match b !! 1 with
    | Some (SqlText k) => (λ o, drop 1 (order_row o)) <$> filter (λ o, fst o = k) all
    | _ => []
    end
  else if decide (s = sql_pay_select) then
    match b !! 1 with
    | Some (SqlText k) => (λ o, take 3 (drop 1 (order_row o))) <$> filter (λ o, fst o = k) all
    | _ => []
    end
  else [].

Class Sqlite : Type := {
  sq_db : Type;
  sq_table : sq_db → gmap string order;
  (** The order in which a scan visits the table. *)
  sq_scan : sq_db → list (string * order);
  sq_prepare : string → sq_db → bool * sq_db;
  sq_step : stmt → sq_db → step_code * list sqlvalue * sq_db;
  sq_finalize : sq_db → sq_db;
  sq_changes : sq_db → Z;
  sq_errmsg : sq_db → string;
  sq_scan_perm db : Permutation (sq_scan db) (map_to_list (sq_table db));
  (** Preparing and finalizing, whatever they return, change neither the rows nor the
      order of a scan. *)
  sq_prepare_table s db :
    sq_table (snd (sq_prepare s db)) = sq_table db ∧ sq_scan (snd (sq_prepare s db)) = sq_scan db;
  sq_finalize_table db : sq_table (sq_finalize db) = sq_table db;
  (** A query leaves the table alone; it returns the next row, or says that there is
      none, or fails. *)
  sq_step_query st db :
    sql st ∈ [sql_get; sql_pay_select; sql_all; sql_filtered] →
    let r := sq_step st db in
    sq_table (snd r) = sq_table db ∧ sq_scan (snd r) = sq_scan db ∧
    match fst (fst r) with
    | SQLITE_ROW => rows_of (sql st) (binds st) (sq_scan db) !! steps st = Some (snd (fst r))
    | SQLITE_DONE => (length (rows_of (sql st) (binds st) (sq_scan db)) ≤ steps st)%nat
    | SQLITE_ERR _ => True
    end;
  (** [INSERT]: done with the row added, which needs a fresh key, or no change. *)
  sq_step_insert st db k a s c p :
    sql st = sql_insert → steps st = O →
    binds st !! 1 = Some (SqlText k) → binds st !! 2 = Some (SqlReal a) →
    binds st !! 3 = Some (SqlText s) → binds st !! 4 = Some (SqlInt c) →
    binds st !! 5 = Some (SqlInt p) → is_nan a = false →
    let r := sq_step st db in
    (fst (fst r) = SQLITE_DONE ∧ sq_table db !! k = None ∧
     sq_table (snd r) = <[k := Order a s c p]> (sq_table db)) ∨
    (fst (fst r) ≠ SQLITE_DONE ∧ sq_table (snd r) = sq_table db);
  (** [UPDATE]: done with the row, if there is one, changed, or no change. *)
  sq_step_update st db now k :
    sql st = sql_pay_update → steps st = O →
    binds st !! 1 = Some (SqlInt now) → binds st !! 2 = Some (SqlText k) →
    let r := sq_step st db in
    (fst (fst r) = SQLITE_DONE ∧ sq_table (snd r) = alter (pay now) k (sq_table db)) ∨
    (fst (fst r) ≠ SQLITE_DONE ∧ sq_table (snd r) = sq_table db);
  (** [DELETE]: done with the row, if there was one, gone and counted, or no change. *)
  sq_step_delete st db k :
    sql st = sql_delete → steps st = O → binds st !! 1 = Some (SqlText k) →
    let r := sq_step st db in
    (fst (fst r) = SQLITE_DONE ∧ sq_table (snd r) = delete k (sq_table db) ∧
     sq_changes (snd r) = if sq_table db !! k is Some _ then 1 else 0) ∨
    (fst (fst r) ≠ SQLITE_DONE ∧ sq_table (snd r) = sq_table db);
}.

(** ** redis++

    [Error] is what the client throws.  [rd_lookup] is the content of the server; an
    entry may expire or be evicted at any time. *)

Class Redis : Type := {
  rd_state : Type;
  rd_lookup : string → rd_state → option string;
  rd_set : string → string → Z → rd_state → (unit + string) * rd_state;
  rd_get : string → rd_state → (option string + string) * rd_state;
  rd_del : string → rd_state → (unit + string) * rd_state;
  rd_get_result k s v : fst (rd_get k s) = inl v → v = rd_lookup k (snd (rd_get k s));
  rd_get_state k s k' :
    rd_lookup k' (snd (rd_get k s)) = None ∨ rd_lookup k' (snd (rd_get k s)) = rd_lookup k' s;
  rd_set_other k v t s k' : k' ≠ k →
    rd_lookup k' (snd (rd_set k v t s)) = None ∨
    rd_lookup k' (snd (rd_set k v t s)) = rd_lookup k' s;
  rd_set_ok k v t s : fst (rd_set k v t s) = inl tt →
    rd_lookup k (snd (rd_set k v t s)) = None ∨ rd_lookup k (snd (rd_set k v t s)) = Some v;
  rd_set_err k v t s :
    rd_lookup k (snd (rd_set k v t s)) = None ∨
    rd_lookup k (snd (rd_set k v t s)) = rd_lookup k s ∨
    rd_lookup k (snd (rd_set k v t s)) = Some v;
  rd_del_state k s k' :
    rd_lookup k' (snd (rd_del k s)) = None ∨ rd_lookup k' (snd (rd_del k s)) = rd_lookup k' s;
  rd_del_ok k s : fst (rd_del k s) = inl tt → rd_lookup k (snd (rd_del k s)) = None;
}.

(** ** Clock, random numbers, time zone *)

Record tm : Type := Tm {
  tm_year : Z; tm_mon : Z; tm_mday : Z; tm_hour : Z; tm_min : Z; tm_sec : Z
}.

Class Environment : Type := {
  env : Type;
  env_time : env → Z * env;                (* [time(nullptr)] *)
  env_now : env → Z * env;                 (* [steady_clock::now()], in nanoseconds *)
  env_rand : env → Z * env;                (* [rand()] *)
  env_localtime : Z → tm;                  (* [localtime], the zone being fixed *)
  env_rand_range e : 0 ≤ fst (env_rand e) ≤ int32_max;
  env_time_range e : 0 ≤ fst (env_time e) ≤ int64_max;
}.

(** ** The world *)

(** The counters of metrics.h. *)
Inductive metric : Type :=
| total_requests | orders_created | orders_paid | cache_hits | cache_misses
| overload_rejections | shutdown_rejections | redis_errors | sqlite_errors
| in_flight_requests
| request_duration_ms_total | request_duration_ms_max | request_duration_samples.
#[export] Instance metric_eq_dec : EqDecision metric.
Proof. solve_decision. Defined.

(** [std::atomic<int>], and [std::atomic<int64_t>] for the durations. *)
Definition metric_width (c : metric) : Z :=
  match c with
  | request_duration_ms_total | request_duration_ms_max | request_duration_samples => 64
  | _ => 32
  end.
Definition metrics_init : metric → Z := λ _, 0.

Inductive log_level : Type := trace | debug | info | warn | err | critical | off.
#[export] Instance log_level_eq_dec : EqDecision log_level.
Proof. solve_decision. Defined.

Section World.
Context `{!Sqlite, !Redis, !Environment}.

Record world : Type := World {
  counters : metric → Z;   (* metrics.h *)
  shutting_down : bool;   (* service_state.h *)
  db_ready : bool;
  redis_available : bool;
  max_inflight_requests : Z;
  api_key : string;   (* runtime_config.h *)
  cache_ttl_seconds : Z;
  db : sq_db;   (* main.cpp: the connection, and its statements not yet finalized *)
  open_stmts : Z;
  redis : option rd_state;   (* main.cpp; [None] is the null pointer *)
  environment : env;
  log : list (log_level * string);   (* calls to spdlog, the latest first *)
}.

Definition set_counters (x : metric → Z) (w : world) : world :=
  World x (shutting_down w) (db_ready w) (redis_available w) (max_inflight_requests w)
    (api_key w) (cache_ttl_seconds w) (db w) (open_stmts w) (redis w) (environment w) (log
    w).
Definition set_shutting_down (x : bool) (w : world) : world :=
  World (counters w) x (db_ready w) (redis_available w) (max_inflight_requests w) (api_key
    w) (cache_ttl_seconds w) (db w) (open_stmts w) (redis w) (environment w) (log w).
Definition set_db_ready (x : bool) (w : world) : world :=
  World (counters w) (shutting_down w) x (redis_available w) (max_inflight_requests w)
    (api_key w) (cache_ttl_seconds w) (db w) (open_stmts w) (redis w) (environment w) (log
    w).
Definition set_redis_available (x : bool) (w : world) : world :=
  World (counters w) (shutting_down w) (db_ready w) x (max_inflight_requests w) (api_key
    w) (cache_ttl_seconds w) (db w) (open_stmts w) (redis w) (environment w) (log w).
Definition set_max_inflight_requests (x : Z) (w : world) : world :=
  World (counters w) (shutting_down w) (db_ready w) (redis_available w) x (api_key w)
    (cache_ttl_seconds w) (db w) (open_stmts w) (redis w) (environment w) (log w).
Definition set_api_key (x : string) (w : world) : world :=
  World (counters w) (shutting_down w) (db_ready w) (redis_available w)
    (max_inflight_requests w) x (cache_ttl_seconds w) (db w) (open_stmts w) (redis w)
    (environment w) (log w).
Definition set_cache_ttl_seconds (x : Z) (w : world) : world :=
  World (counters w) (shutting_down w) (db_ready w) (redis_available w)
    (max_inflight_requests w) (api_key w) x (db w) (open_stmts w) (redis w) (environment w)
    (log w).
Definition set_db (x : sq_db) (w : world) : world :=
  World (counters w) (shutting_down w) (db_ready w) (redis_available w)
    (max_inflight_requests w) (api_key w) (cache_ttl_seconds w) x (open_stmts w) (redis w)
    (environment w) (log w).
Definition set_open_stmts (x : Z) (w : world) : world :=
  World (counters w) (shutting_down w) (db_ready w) (redis_available w)
    (max_inflight_requests w) (api_key w) (cache_ttl_seconds w) (db w) x (redis w)
    (environment w) (log w).
Definition set_redis (x : option rd_state) (w : world) : world :=
  World (counters w) (shutting_down w) (db_ready w) (redis_available w)
    (max_inflight_requests w) (api_key w) (cache_ttl_seconds w) (db w) (open_stmts w) x
    (environment w) (log w).
Definition set_environment (x : env) (w : world) : world :=
  World (counters w) (shutting_down w) (db_ready w) (redis_available w)
    (max_inflight_requests w) (api_key w) (cache_ttl_seconds w) (db w) (open_stmts w) (redis
    w) x (log w).
Definition set_log (x : list (log_level * string)) (w : world) : world :=
  World (counters w) (shutting_down w) (db_ready w) (redis_available w)
    (max_inflight_requests w) (api_key w) (cache_ttl_seconds w) (db w) (open_stmts w) (redis
    w) (environment w) x.
End World.
Arguments world : clear implicits.
Arguments world {_ _ _}.

(** ** The monad *)

Section Monad.
Context {S : Type}.

Definition M (A : Type) : Type := S → result A * S.

#[export] Instance M_ret : MRet M := λ A a s, (Ok a, s).
#[export] Instance M_bind : MBind M := λ A B f m s,
  match m s with
  | (Ok a, s') => f a s'
  | (Throw e, s') => (Throw e, s')
  end.
#[export] Instance M_fmap : FMap M := λ A B f m s,
  match m s with
  | (Ok a, s') => (Ok (f a), s')
  | (Throw e, s') => (Throw e, s')
  end.

Definition get : M S := λ s, (Ok s, s).
Definition gets {A} (f : S → A) : M A := λ s, (Ok (f s), s).
Definition modify (f : S → S) : M unit := λ s, (Ok tt, f s).
Definition throw {A} (e : exn) : M A := λ s, (Throw e, s).
Definition lift {A} (r : result A) : M A := λ s, (r, s).
End Monad.
Arguments M : clear implicits.

(** ** metrics.h and service_state.h *)

Section State.
Context `{!Sqlite, !Redis, !Environment}.
Implicit Types w : world.

Definition set_counter (c : metric) (x : Z) (w : world) : world :=
  set_counters (<[c := x]> (counters w)) w.
(** [c.fetch_add(n)]: the old value; atomic integers wrap around. *)
Definition fetch_add (c : metric) (n : Z) : M world Z := λ w,
  (Ok (counters w c), set_counter c (swrap (metric_width c) (counters w c + n)) w).
Definition fetch_sub (c : metric) (n : Z) : M world Z := fetch_add c (- n).

Definition spdlog (l : log_level) (m : string) : M world unit :=
  modify (λ w, set_log ((l, m) :: log w) w).

(** The loop around [compare_exchange_weak], which may fail spuriously: [fails] says
    how often it does before it goes through.  Nobody else writes here, so the value
    it reloads is the one it had. *)
Fixpoint max_loop (fails : nat) (duration_ms current_max : Z) (w : world) : world :=
  if current_max <? duration_ms then
    match fails with
    | O => set_counter request_duration_ms_max duration_ms w
    | S n => max_loop n duration_ms (counters w request_duration_ms_max) w
    end
  else w.
Definition observe_request_duration_ms (fails : nat) (duration_ms : Z) : M world unit :=
  _ ← fetch_add request_duration_ms_total duration_ms;
  _ ← fetch_add request_duration_samples 1;
  current_max ← gets (λ w, counters w request_duration_ms_max);
  modify (max_loop fails duration_ms current_max).

Definition is_probe_path (path : string) : bool :=
  bool_decide (path = "/healthcheck" ∨ path = "/readiness" ∨ path = "/metrics").
Definition is_ready (w : world) : bool := db_ready w && negb (shutting_down w).
Definition readiness_status (w : world) : string :=
  if negb (db_ready w) then "db_unavailable"
  else if shutting_down w then "shutting_down"
  else if negb (redis_available w) then "degraded"
  else "ready".

(** The environment's calls. *)
Definition call_env {A} (f : env → A * env) : M world A := λ w,
  let r := f (environment w) in (Ok (fst r), set_environment (snd r) w).
End State.
