(* ===== verification/Backends.v ===== *)
(** * Concrete backends

    One SQLite, one Redis and one environment that satisfy the laws of Service.v: a map
    with a schedule of failures each, and a clock that advances by a second.  The
    theorems hold for any backend with these laws; the witnesses use these. *)

From S2P Require Import Prelude Doubles Service.
Open Scope Z_scope.

(** ** SQLite *)

Record toy_db : Type := ToyDb {
  td_table : gmap string order;
  td_fails : list bool;        (* [true]: the next prepare or step fails *)
  td_changes : Z;
}.
Definition td_fail (d : toy_db) : bool := default false (head (td_fails d)).
Definition td_next (d : toy_db) : toy_db := ToyDb (td_table d) (tail (td_fails d)) (td_changes d).
Definition td_set (t : gmap string order) (n : Z) (d : toy_db) : toy_db :=
  ToyDb t (tail (td_fails d)) n.

Definition toy_bound (st : stmt) : option (string * order) :=
  match binds st !! 1, binds st !! 2, binds st !! 3, binds st !! 4, binds st !! 5 with
  | Some (SqlText k), Some (SqlReal a), Some (SqlText s), Some (SqlInt c), Some (SqlInt p) =>
      Some (k, Order a s c p)
  | _, _, _, _, _ => None
  end.

Definition is_query (s : string) : bool :=
  bool_decide (s ∈ [sql_get; sql_pay_select; sql_all; sql_filtered]).

Definition toy_step (st : stmt) (d : toy_db) : step_code * list sqlvalue * toy_db :=
  if td_fail d then (SQLITE_ERR 5, [], td_next d)
  else if is_query (sql st) then
    match rows_of (sql st) (binds st) (map_to_list (td_table d)) !! steps st with
    | Some row => (SQLITE_ROW, row, td_next d)
    | None => (SQLITE_DONE, [], td_next d)
    end
  else if decide (sql st = sql_insert) then
    match toy_bound st with
    | Some (k, o) =>
        match td_table d !! k with
        | None => (SQLITE_DONE, [], td_set (<[k := o]> (td_table d)) 1 d)
        | Some _ => (SQLITE_ERR 19, [], td_next d)
        end
    | None => (SQLITE_ERR 1, [], td_next d)
    end
  else if decide (sql st = sql_pay_update) then
    match binds st !! 1, binds st !! 2 with
    | Some (SqlInt now), Some (SqlText k) =>
        (SQLITE_DONE, [], td_set (alter (pay now) k (td_table d)) 1 d)
    | _, _ => (SQLITE_ERR 1, [], td_next d)
    end
  else
    match binds st !! 1 with
    | Some (SqlText k) =>
        (SQLITE_DONE, [], td_set (delete k (td_table d))
                            (if td_table d !! k is Some _ then 1 else 0) d)
    | _ => (SQLITE_ERR 1, [], td_next d)
    end.

#[export, program] Instance toy_Sqlite : Sqlite := {|
  sq_db := toy_db;
  sq_table := td_table;
  sq_scan := λ d, map_to_list (td_table d);
  sq_prepare := λ s d, (negb (td_fail d), td_next d);
  sq_step := toy_step;
  sq_finalize := λ d, d;
  sq_changes := td_changes;
  sq_errmsg := λ d, "database is locked";
|}.
Next Obligation. intros d. reflexivity. Qed.
Next Obligation. intros s d. by split. Qed.
Next Obligation. intros d. reflexivity. Qed.
Next Obligation.
  intros st d Hq. simpl. unfold toy_step, is_query. rewrite (bool_decide_true _ Hq).
  destruct (td_fail d); [by split_and!|].
  destruct (rows_of _ _ _ !! steps st) eqn:E; simpl; split_and!; try done.
  by apply lookup_ge_None in E.
Qed.
Next Obligation.
  intros st d k a s c p Hs _ H1 H2 H3 H4 H5 _. unfold toy_step.
  destruct (td_fail d); [by right|]. rewrite Hs. simpl. unfold toy_bound.
  rewrite H1, H2, H3, H4, H5. destruct (td_table d !! k) eqn:E; [by right|]. by left.
Qed.
Next Obligation.
  intros st d now k Hs _ H1 H2. unfold toy_step.
  destruct (td_fail d); [by right|]. rewrite Hs. simpl. rewrite H1, H2. by left.
Qed.
Next Obligation.
  intros st d k Hs _ H1. unfold toy_step.
  destruct (td_fail d); [by right|]. rewrite Hs. simpl. rewrite H1. by left.
Qed.

(** ** Redis *)

Record toy_redis : Type := ToyRedis { tr_map : gmap string string; tr_fails : list bool }.
Definition tr_fail (s : toy_redis) : bool := default false (head (tr_fails s)).
Definition toy_call {A} (a : A) (m : gmap string string) (s : toy_redis)
  : (A + string) * toy_redis :=
  if tr_fail s then (inr "Connection refused", ToyRedis (tr_map s) (tail (tr_fails s)))
  else (inl a, ToyRedis m (tail (tr_fails s))).

#[export, program] Instance toy_Redis : Redis := {|
  rd_state := toy_redis;
  rd_lookup := λ k s, tr_map s !! k;
  rd_set := λ k v t s, toy_call tt (<[k := v]> (tr_map s)) s;
  rd_get := λ k s, toy_call (tr_map s !! k) (tr_map s) s;
  rd_del := λ k s, toy_call tt (delete k (tr_map s)) s;
|}.
Next Obligation. intros k s v. unfold toy_call. by destruct (tr_fail s); intros [= <-]. Qed.
Next Obligation. intros k s k'. unfold toy_call. right. by destruct (tr_fail s). Qed.
Next Obligation.
  intros k v t s k' Hk. unfold toy_call. right.
  destruct (tr_fail s); simpl; [done|]. by apply lookup_insert_ne.
Qed.
Next Obligation.
  intros k v t s. unfold toy_call. destruct (tr_fail s); simpl; [done|].
  intros _. right. apply lookup_insert_eq.
Qed.
Next Obligation.
  intros k v t s. unfold toy_call. right. destruct (tr_fail s); simpl; [by left|].
  right. apply lookup_insert_eq.
Qed.
Next Obligation.
  intros k s k'. unfold toy_call. destruct (tr_fail s); simpl; [by right|].
  destruct (decide (k' = k)) as [->|Hk]; [left; apply lookup_delete_eq|].
  right. by apply lookup_delete_ne.
Qed.
Next Obligation.
  intros k s. unfold toy_call. destruct (tr_fail s); simpl; [done|].
  intros _. apply lookup_delete_eq.
Qed.

(** ** Environment *)

#[export, program] Instance toy_Environment : Environment := {|
  env := Z;
  env_time := λ e, (Z.abs e mod 2 ^ 40, e + 1);
  env_now := λ e, (e * 1000000000, e + 1);
  env_rand := λ e, (Z.abs e mod 1000, e);
  env_localtime := λ t, Tm 126 0 1 0 0 (t mod 60);
|}.
Next Obligation.
  intros e. simpl. pose proof (Z.mod_pos_bound (Z.abs e) 1000 ltac:(lia)).
  unfold int32_max. lia.
Qed.
Next Obligation.
  intros e. simpl. pose proof (Z.mod_pos_bound (Z.abs e) (2 ^ 40) ltac:(lia)).
  unfold int64_max. lia.
Qed.

Definition toy_world (t : gmap string order) (db_fails redis_fails : list bool) : world :=
  World metrics_init false true true 64 "1234567" 300 (ToyDb t db_fails 0) 0
    (Some (ToyRedis ∅ redis_fails)) 1000 [].
