(* ===== verification/OrderRoutes.v ===== *)
(** * src/order_routes.cpp, with the helpers it shares with main.cpp

    The five order handlers, statement by statement, over the [world].  The helpers are
    those of include/helpers.hpp and of main.cpp ([json_error], [generate_order_no],
    [format_time]). *)

From S2P Require Import Prelude Doubles JsonRead JsonWrite QueryString Http Service.
Open Scope Z_scope.

(** ** include/helpers.hpp *)

Definition is_valid_amount (val : rvalue) : result bool :=
  t ← rv_t val;
  if decide (t = TNumber) then d ← rv_d val; Ok (dgt d dzero) else Ok false.

(** The body of the [try] block; the [catch] of everything answers [false]. *)
Definition is_valid_order_no_try (val : rvalue) : result bool :=
  t ← rv_t val;
  if decide (t ≠ TString) then Ok false
  else
    s ← rv_s val;
    Ok (negb (bool_decide (s = "")) && bool_decide (String.substring 0 3 s = "ORD")).
Definition is_valid_order_no (val : rvalue) : result bool :=
  if negb (rv_bool val) then Ok false
  else match is_valid_order_no_try val with
       | Ok b => Ok b
       | Throw (UB why) => Throw (UB why)
       | Throw _ => Ok false
       end.

(** The other definition of the same function, in main.cpp. *)
Definition main_is_valid_order_no (val : rvalue) : result bool :=
  t ← rv_t val;
  if decide (t = TString) then s ← rv_s val; Ok (0 <? slen s) else Ok false.

(** ** main.cpp: json_error, generate_order_no, format_time *)

Definition err_value (message : string) : wvalue := wv_set WNull "error" (WString message).
Definition json_error `{!UMapIter} (code : Z) (message : string) : response :=
  response_json code (err_value message).

(** [strftime] with the format of [format_time]. *)
Definition pad2 (z : Z) : string := if z <? 10 then "0" +:+ to_string z else to_string z.
Definition strftime (t : tm) : string :=
  to_string (tm_year t + 1900) +:+ "-" +:+ pad2 (tm_mon t + 1) +:+ "-" +:+ pad2 (tm_mday t)
  +:+ " " +:+ pad2 (tm_hour t) +:+ ":" +:+ pad2 (tm_min t) +:+ ":" +:+ pad2 (tm_sec t).

(** [body.has(key) && valid(body[key])], with the body as the two calls leave it. *)
Definition member_valid `{!StdSort} (b : rvalue) (key : string) (valid : rvalue → result bool)
  : result (bool * rvalue) :=
  h ← rv_has b key;
  if negb (fst h : bool) then Ok (false, snd h)
  else
    m ← rv_index (snd h) key;
    v ← valid (fst m);
    Ok (v, snd m).

(** [sqlite3_column_*] of the declared column types; no other conversion occurs on the
    rows of [orders]. *)
Definition column_double (row : list sqlvalue) (i : nat) : result double :=
  match row !! i with
  | Some (SqlReal d) => Ok d
  | _ => Throw (UB "column is not REAL")
  end.
Definition column_text (row : list sqlvalue) (i : nat) : result string :=
  match row !! i with
  | Some (SqlText s) => Ok (c_str s)
  | _ => Throw (UB "null pointer from column_text")
  end.
Definition column_int64 (row : list sqlvalue) (i : nat) : result Z :=
  match row !! i with
  | Some (SqlInt z) => Ok z
  | _ => Throw (UB "column is not INTEGER")
  end.

Definition bind (i : Z) (v : sqlvalue) (st : stmt) : stmt :=
  Stmt (sql st) (<[i := v]> (binds st)) (steps st).
(** [sqlite3_bind_text(stmt, i, s.c_str(), -1, SQLITE_STATIC)]. *)
Definition bind_text (i : Z) (s : string) : stmt → stmt := bind i (SqlText (c_str s)).
Definition bind_double (i : Z) (d : double) : stmt → stmt := bind i (SqlReal d).
Definition bind_int64 (i : Z) (z : Z) : stmt → stmt := bind i (SqlInt z).

Section Routes.
Context `{!StdSort, !UMapIter, !Sqlite, !Redis, !Environment}.

Definition generate_order_no : M world string :=
  timestamp ← call_env env_time;
  r ← call_env env_rand;
  let rand_part := r mod 100000 in
  mret ("ORD" +:+ to_string timestamp +:+ to_string rand_part).

Definition format_time (t : Z) : string :=
  if t =? 0 then "N/A" else strftime (env_localtime t).

(** ** Statements *)

Definition sqlite3_prepare_v2 (s : string) : M world (option stmt) := λ w,
  let r := sq_prepare s (db w) in
  if fst r : bool
  then (Ok (Some (Stmt s ∅ 0)), set_open_stmts (open_stmts w + 1) (set_db (snd r) w))
  else (Ok None, set_db (snd r) w).
Definition sqlite3_step (st : stmt) : M world (step_code * list sqlvalue * stmt) := λ w,
  let r := sq_step st (db w) in
  (Ok (fst (fst r), snd (fst r), Stmt (sql st) (binds st) (S (steps st))), set_db (snd r) w).
Definition sqlite3_finalize : M world unit :=
  modify (λ w, set_open_stmts (open_stmts w - 1) (set_db (sq_finalize (db w)) w)).
Definition sqlite3_errmsg : M world string := gets (λ w, sq_errmsg (db w)).
Definition sqlite3_changes : M world Z := gets (λ w, sq_changes (db w)).

(** ** The helpers of the unnamed namespace *)

Definition record_sqlite_failure (message : string) : M world unit :=
  _ ← fetch_add sqlite_errors 1; spdlog err message.
Definition sqlite_failure (prefix : string) : M world unit :=
  m ← sqlite3_errmsg; record_sqlite_failure (prefix +:+ m).

Definition record_redis_failure (message : string) : M world unit :=
  _ ← fetch_add redis_errors 1;
  _ ← modify (set_redis_available false);
  spdlog warn message.
Definition record_redis_success : M world unit := modify (set_redis_available true).

Definition cache_key (order_no : string) : string := "order:" +:+ order_no.

Definition try_cache_order (order_no payload : string) : M world bool :=
  r ← gets redis;
  match r with
  | None =>
      _ ← fetch_add redis_errors 1;
      _ ← modify (set_redis_available false);
      _ ← spdlog warn ("Redis client not initialized. Skipping cache set for " +:+ order_no);
      mret false
  | Some s =>
      ttl ← gets cache_ttl_seconds;
      let c := rd_set (cache_key order_no) payload ttl s in
      _ ← modify (set_redis (Some (snd c)));
      match fst c with
      | inl _ =>
          _ ← record_redis_success;
          ttl ← gets cache_ttl_seconds;
          _ ← spdlog info ("Cached order " +:+ order_no +:+ " in Redis (TTL: "
                           +:+ to_string ttl +:+ "s)");
          mret true
      | inr what => _ ← record_redis_failure ("Redis SET failed: " +:+ what); mret false
      end
  end.

Definition try_get_cached_order (order_no : string) : M world (option string) :=
  r ← gets redis;
  match r with
  | None =>
      _ ← fetch_add redis_errors 1;
      _ ← modify (set_redis_available false);
      mret None
  | Some s =>
      let c := rd_get (cache_key order_no) s in
      _ ← modify (set_redis (Some (snd c)));
      match fst c with
      | inl val =>
          _ ← record_redis_success;
          match val with
          | Some v =>
              _ ← fetch_add cache_hits 1;
              _ ← spdlog info ("Redis cache hit for order: " +:+ order_no);
              mret (Some v)
          | None =>
              _ ← fetch_add cache_misses 1;
              _ ← spdlog info ("Redis cache miss for order: " +:+ order_no);
              mret None
          end
      | inr what =>
          _ ← fetch_add cache_misses 1;
          _ ← record_redis_failure ("Redis GET failed: " +:+ what);
          mret None
      end
  end.

Definition invalidate_cached_order (order_no action : string) : M world unit :=
  r ← gets redis;
  match r with
  | None =>
      _ ← fetch_add redis_errors 1;
      _ ← modify (set_redis_available false);
      spdlog warn ("Redis client not initialized. Skipping cache invalidation for "
                   +:+ order_no)
  | Some s =>
      let c := rd_del (cache_key order_no) s in
      _ ← modify (set_redis (Some (snd c)));
      match fst c with
      | inl _ => _ ← record_redis_success; spdlog info (action +:+ " " +:+ order_no)
      | inr what => record_redis_failure ("Redis DEL failed: " +:+ what)
      end
  end.

(** ** create_order *)

Definition create_value (order_no : string) (amount : double) (now : Z) : wvalue :=
  let res := wv_set WNull "order_no" (WString order_no) in
  let res := wv_set res "amount" (WDouble amount) in
  let res := wv_set res "status" (WString "PENDING") in
  wv_set res "created_at" (WString (format_time now)).

(** From the point where the amount is known. *)
Definition create_insert (amount : double) : M world response :=
  order_no ← generate_order_no;
  now ← call_env env_time;
  p ← sqlite3_prepare_v2 sql_insert;
  match p with
  | None => _ ← sqlite_failure "Prepare failed: "; mret (json_error 500 "Internal DB error")
  | Some st =>
      let st := bind_text 1 order_no st in
      let st := bind_double 2 amount st in
      let st := bind_text 3 "PENDING" st in
      let st := bind_int64 4 now st in
      let st := bind_int64 5 0 st in
      r ← sqlite3_step st;
      if decide (fst (fst r) ≠ SQLITE_DONE) then
        _ ← sqlite_failure "SQLite insert failed: ";
        _ ← sqlite3_finalize;
        mret (json_error 500 "Database error while creating order")
      else
        _ ← sqlite3_finalize;
        _ ← fetch_add orders_created 1;
        let res := create_value order_no amount now in
        _ ← try_cache_order order_no (dump res);
        mret (response_json 200 res)
  end.

Definition create_order (req : request) : M world response :=
  let b := load (req_body req) in
  if negb (rv_bool b) then mret (json_error 400 "Invalid JSON format")
  else
    v ← lift (member_valid b "amount" is_valid_amount);
    if negb (fst v : bool) then mret (json_error 400 "Missing amount")
    else
      m ← lift (rv_index (snd v) "amount");
      t ← lift (rv_t (fst m));
      if decide (t ≠ TNumber) then mret (json_error 400 "Amount must be a number")
      else
        m ← lift (rv_index (snd m) "amount");
        amount ← lift (rv_d (fst m));
        create_insert amount.

(** ** get_order *)

Definition paid_value (paid_at : Z) : wvalue :=
  if paid_at =? 0 then WNull else WString (format_time paid_at).
Definition get_value (order_no : string) (amount : double) (status : string)
  (created_at paid_at : Z) : wvalue :=
  let res := wv_set WNull "order_no" (WString order_no) in
  let res := wv_set res "amount" (WDouble amount) in
  let res := wv_set res "status" (WString status) in
  let res := wv_set res "created_at" (WString (format_time created_at)) in
  wv_set res "paid_at" (paid_value paid_at).

(** The database half of [get_order]. *)
Definition get_from_db (order_no : string) : M world response :=
  p ← sqlite3_prepare_v2 sql_get;
  match p with
  | None => _ ← sqlite_failure "Prepare failed: "; mret (json_error 500 "Internal DB error")
  | Some st =>
      let st := bind_text 1 order_no st in
      r ← sqlite3_step st;
      if decide (fst (fst r) ≠ SQLITE_ROW) then
        _ ← sqlite3_finalize; mret (json_error 404 "Order not found")
      else
        let row := snd (fst r) in
        amount ← lift (column_double row 0);
        status ← lift (column_text row 1);
        created_at ← lift (column_int64 row 2);
        paid_at ← lift (column_int64 row 3);
        _ ← sqlite3_finalize;
        mret (response_json 200 (get_value order_no amount status created_at paid_at))
  end.
Definition get_order (order_no : string) : M world response :=
  cached ← try_get_cached_order order_no;
  match cached with
  | Some payload => mret (response_body payload)
  | None => get_from_db order_no
  end.

(** ** pay_order *)

Definition pay_value (order_no : string) (amount : double) (created_at now : Z) : wvalue :=
  let res := wv_set WNull "order_no" (WString order_no) in
  let res := wv_set res "status" (WString "PAID") in
  let res := wv_set res "amount" (WDouble amount) in
  let res := wv_set res "created_at" (WString (format_time created_at)) in
  wv_set res "paid_at" (WString (format_time now)).

(** From the point where the row was read and is not paid. *)
Definition pay_update (order_no : string) (amount : double) (created_at : Z)
  : M world response :=
  now ← call_env env_time;
  p ← sqlite3_prepare_v2 sql_pay_update;
  match p with
  | None => _ ← sqlite_failure "Prepare failed: "; mret (json_error 500 "Internal DB error")
  | Some st =>
      let st := bind_int64 1 now st in
      let st := bind_text 2 order_no st in
      r ← sqlite3_step st;
      if decide (fst (fst r) ≠ SQLITE_DONE) then
        _ ← sqlite_failure "SQLite update failed for payment: ";
        _ ← sqlite3_finalize;
        mret (json_error 500 "Failed to mark order as paid")
      else
        _ ← sqlite3_finalize;
        _ ← fetch_add orders_paid 1;
        _ ← invalidate_cached_order order_no "Deleted order from Redis cache:";
        mret (response_json 200 (pay_value order_no amount created_at now))
  end.
Definition pay_found (order_no : string) : M world response :=
  p ← sqlite3_prepare_v2 sql_pay_select;
  match p with
  | None => _ ← sqlite_failure "Prepare failed: "; mret (json_error 500 "Internal DB error")
  | Some st =>
      let st := bind_text 1 order_no st in
      r ← sqlite3_step st;
      if decide (fst (fst r) ≠ SQLITE_ROW) then
        _ ← sqlite3_finalize; mret (json_error 404 "Order not found")
      else
        let row := snd (fst r) in
        amount ← lift (column_double row 0);
        status ← lift (column_text row 1);
        created_at ← lift (column_int64 row 2);
        _ ← sqlite3_finalize;
        if decide (status = "PAID") then mret (json_error 400 "Already paid")
        else pay_update order_no amount created_at
  end.
Definition pay_order (req : request) : M world response :=
  let b := load (req_body req) in
  if negb (rv_bool b) then mret (json_error 400 "Invalid JSON format")
  else
    v ← lift (member_valid b "order_no" is_valid_order_no);
    if negb (fst v : bool) then mret (json_error 400 "Missing order_no")
    else
      m ← lift (rv_index (snd v) "order_no");
      t ← lift (rv_t (fst m));
      if decide (t ≠ TString) then mret (json_error 400 "order_no must be a string")
      else
        m ← lift (rv_index (snd m) "order_no");
        order_no ← lift (rv_s (fst m));
        pay_found order_no.

(** ** list_orders *)

Definition list_value (row : list sqlvalue) : result wvalue :=
  no ← column_text row 0;
  amount ← column_double row 1;
  status ← column_text row 2;
  created_at ← column_int64 row 3;
  paid_at ← column_int64 row 4;
  let order := wv_set WNull "order_no" (WString no) in
  let order := wv_set order "amount" (WDouble amount) in
  let order := wv_set order "status" (WString status) in
  let order := wv_set order "created_at" (WString (format_time created_at)) in
  Ok (wv_set order "paid_at" (paid_value paid_at)).

(** The [while] loop; [arr] is what [result["orders"]] refers to.  More than [fuel]
    rows are not read (see [list_orders_spec] for why they do not come). *)
Fixpoint list_loop (fuel : nat) (st : stmt) (arr : wvalue) (index : Z) : M world wvalue :=
  match fuel with
  | O => throw (UB "loop still running")
  | S fuel' =>
      r ← sqlite3_step st;
      if decide (fst (fst r) = SQLITE_ROW) then
        order ← lift (list_value (snd (fst r)));
        list_loop fuel' (snd r) (wv_set_index arr index order) (swrap 32 (index + 1))
      else mret arr
  end.

Definition list_query (req : request) : string :=
  match qs_get (req_url_params req) "status" with Some q => q | None => "" end.
Definition list_orders (req : request) : M world response :=
  let query := list_query req in
  p ← sqlite3_prepare_v2 (if decide (query = "") then sql_all else sql_filtered);
  match p with
  | None => _ ← sqlite_failure "Prepare failed: "; mret (json_error 500 "Internal DB error")
  | Some st =>
      let st := if decide (query = "") then st else bind_text 1 query st in
      fuel ← gets (λ w, S (length (sq_scan (db w))));
      arr ← list_loop fuel st WNull 0;
      _ ← sqlite3_finalize;
      mret (response_json 200 (wv_set WNull "orders" arr))
  end.

(** ** delete_order *)

Definition delete_value (order_no : string) : wvalue :=
  wv_set (wv_set WNull "deleted" (wv_bool true)) "order_no" (WString order_no).
Definition delete_order (order_no : string) : M world response :=
  p ← sqlite3_prepare_v2 sql_delete;
  match p with
  | None => _ ← sqlite_failure "Prepare failed: "; mret (json_error 500 "Internal DB error")
  | Some st =>
      let st := bind_text 1 order_no st in
      r ← sqlite3_step st;
      if decide (fst (fst r) ≠ SQLITE_DONE) then
        _ ← sqlite3_finalize;
        mret (json_error 404 "Order not found or could not delete")
      else
        deleted_rows ← sqlite3_changes;
        _ ← sqlite3_finalize;
        if decide (deleted_rows = 0) then mret (json_error 404 "Order not found")
        else
          _ ← invalidate_cached_order order_no "Deleted order from Redis:";
          mret (response_json 200 (delete_value order_no))
  end.
End Routes.
