(* ===== verification/Wp.v ===== *)
(** * A small program logic for the service monad

    [wp m Q w]: [m] started in [w] ends with a result and a world that satisfy [Q].  Every
    [m] ends, so this is total correctness.  The file has the rules of the monad, and one
    rule for each primitive of OrderRoutes.v from the laws of the backends. *)

From S2P Require Import Prelude Doubles JsonRead JsonWrite Http Service OrderRoutes.
Open Scope Z_scope.

Definition wp {S A} (m : M S A) (Q : result A → S → Prop) (s : S) : Prop :=
  Q (fst (m s)) (snd (m s)).

Section Rules.
Context {S : Type}.
Implicit Types s : S.

Lemma wp_mono {A} (m : M S A) (Q Q' : result A → S → Prop) s :
  wp m Q s → (∀ r s', Q r s' → Q' r s') → wp m Q' s.
Proof. unfold wp. eauto. Qed.

Lemma wp_bind {A B} (m : M S A) (f : A → M S B) (Q : result B → S → Prop) s :
  wp m (λ r s', match r with Ok a => wp (f a) Q s' | Throw e => Q (Throw e) s' end) s →
  wp (m ≫= f) Q s.
Proof. unfold wp, mbind, M_bind. by destruct (m s) as [[a|e] s']. Qed.

Lemma wp_fmap {A B} (f : A → B) (m : M S A) (Q : result B → S → Prop) s :
  wp m (λ r s', Q (f <$> r) s') s → wp (f <$> m) Q s.
Proof. unfold wp, fmap at 2 3, M_fmap. by destruct (m s) as [[a|e] s']. Qed.

Lemma wp_ret {A} (a : A) (Q : result A → S → Prop) s : Q (Ok a) s → wp (mret a) Q s.
Proof. done. Qed.
Lemma wp_lift {A} (r : result A) (Q : result A → S → Prop) s : Q r s → wp (lift r) Q s.
Proof. done. Qed.
Lemma wp_gets {A} (f : S → A) (Q : result A → S → Prop) s : Q (Ok (f s)) s → wp (gets f) Q s.
Proof. done. Qed.
Lemma wp_modify (f : S → S) (Q : result () → S → Prop) s :
  Q (Ok ()) (f s) → wp (modify f) Q s.
Proof. done. Qed.
Lemma wp_throw {A} e (Q : result A → S → Prop) s : Q (Throw e) s → wp (throw e) Q s.
Proof. done. Qed.
End Rules.

(** Take the goal through binds and the calls whose effect is a plain update. *)
Ltac wp_pure :=
  cbn beta iota;
  repeat (lazymatch goal with
    | |- wp (mbind _ _) _ _ => apply wp_bind
    | |- wp (mret _) _ _ => apply wp_ret
    | |- wp (gets _) _ _ => apply wp_gets
    | |- wp (modify _) _ _ => apply wp_modify
    | |- wp (lift _) _ _ => apply wp_lift
    | |- wp (throw _) _ _ => apply wp_throw
    end; cbn beta iota).

(** Resolve the test at the head of the goal, from a hypothesis. *)
Ltac wp_decide :=
  cbn [fst snd];
  first [rewrite decide_True by (done || tauto) | rewrite decide_False by (done || tauto)];
  wp_pure.

Section Primitives.
Context `{ss : !StdSort, ui : !UMapIter, sq : !Sqlite, rd : !Redis, ev : !Environment}.
Implicit Types w : world.

Abbreviation table w := (sq_table (db w)).
Abbreviation scan w := (sq_scan (db w)).

(** What a computation does to the world outside the database, the cache, the counters
    and the log: nothing, except that it may note whether Redis answers. *)
Record same_config w w' : Prop := {
  sc_shutting_down : shutting_down w' = shutting_down w;
  sc_db_ready : db_ready w' = db_ready w;
  sc_max : max_inflight_requests w' = max_inflight_requests w;
  sc_api_key : api_key w' = api_key w;
  sc_ttl : cache_ttl_seconds w' = cache_ttl_seconds w;
  sc_open : open_stmts w' = open_stmts w;
  sc_inflight : counters w' in_flight_requests = counters w in_flight_requests;
}.

#[export] Instance same_config_preorder : PreOrder same_config.
Proof.
  split.
  - by intros w.
  - intros w1 w2 w3 [] []. split; congruence.
Qed.

Lemma wp_fetch_add c n (Q : result Z → world → Prop) w :
  Q (Ok (counters w c)) (set_counter c (swrap (metric_width c) (counters w c + n)) w) →
  wp (fetch_add c n) Q w.
Proof. done. Qed.

Lemma wp_spdlog l m (Q : result () → world → Prop) w :
  Q (Ok ()) (set_log ((l, m) :: log w) w) → wp (spdlog l m) Q w.
Proof. done. Qed.

Lemma wp_prepare s (Q : result (option stmt) → world → Prop) w :
  (∀ d, sq_prepare s (db w) = (false, d) → sq_table d = table w → sq_scan d = scan w →
     Q (Ok None) (set_db d w)) →
  (∀ d, sq_prepare s (db w) = (true, d) → sq_table d = table w → sq_scan d = scan w →
     Q (Ok (Some (Stmt s ∅ 0))) (set_open_stmts (open_stmts w + 1) (set_db d w))) →
  wp (sqlite3_prepare_v2 s) Q w.
Proof.
  intros Hn Hs. unfold wp, sqlite3_prepare_v2.
  destruct (sq_prepare_table s (db w)) as [Ht Hc].
  destruct (sq_prepare s (db w)) as [[] d]; simpl in *; auto.
Qed.

Lemma wp_finalize (Q : result () → world → Prop) w :
  (∀ d, d = sq_finalize (db w) → sq_table d = table w →
     Q (Ok ()) (set_open_stmts (open_stmts w - 1) (set_db d w))) →
  wp sqlite3_finalize Q w.
Proof. intros H. apply H; [done|]. apply sq_finalize_table. Qed.

Lemma wp_step_query st (Q : result (step_code * list sqlvalue * stmt) → world → Prop) w :
  sql st ∈ [sql_get; sql_pay_select; sql_all; sql_filtered] →
  (∀ d row, sq_step st (db w) = (SQLITE_ROW, row, d) →
     sq_table d = table w → sq_scan d = scan w →
     rows_of (sql st) (binds st) (scan w) !! steps st = Some row →
     Q (Ok (SQLITE_ROW, row, Stmt (sql st) (binds st) (S (steps st)))) (set_db d w)) →
  (∀ d row c, sq_step st (db w) = (c, row, d) →
     sq_table d = table w → sq_scan d = scan w → c ≠ SQLITE_ROW →
     (c = SQLITE_DONE → length (rows_of (sql st) (binds st) (scan w)) ≤ steps st)%nat →
     Q (Ok (c, row, Stmt (sql st) (binds st) (S (steps st)))) (set_db d w)) →
  wp (sqlite3_step st) Q w.
Proof.
  intros Hq Hrow Hend. unfold wp, sqlite3_step.
  destruct (sq_step_query st (db w) Hq) as (Ht & Hs & H).
  destruct (sq_step st (db w)) as [[c row] d]. simpl in *.
  destruct c; [by apply Hrow|by apply Hend|by apply Hend].
Qed.

Lemma wp_step_insert st k a s c p
  (Q : result (step_code * list sqlvalue * stmt) → world → Prop) w :
  sql st = sql_insert → steps st = O →
  binds st !! 1 = Some (SqlText k) → binds st !! 2 = Some (SqlReal a) →
  binds st !! 3 = Some (SqlText s) → binds st !! 4 = Some (SqlInt c) →
  binds st !! 5 = Some (SqlInt p) → is_nan a = false →
  (∀ d row st', sq_step st (db w) = (SQLITE_DONE, row, d) →
     table w !! k = None → sq_table d = <[k := Order a s c p]> (table w) →
     Q (Ok (SQLITE_DONE, row, st')) (set_db d w)) →
  (∀ d code row st', sq_step st (db w) = (code, row, d) →
     code ≠ SQLITE_DONE → sq_table d = table w →
     Q (Ok (code, row, st')) (set_db d w)) →
  wp (sqlite3_step st) Q w.
Proof.
  intros H1 H2 H3 H4 H5 H6 H7 H8 Hdone Herr. unfold wp, sqlite3_step.
  pose proof (sq_step_insert st (db w) k a s c p H1 H2 H3 H4 H5 H6 H7 H8) as H.
  destruct (sq_step st (db w)) as [[code row] d]. simpl in *.
  destruct H as [(-> & Hk & Ht)|(Hc & Ht)]; auto.
Qed.

Lemma wp_step_update st now k (Q : result (step_code * list sqlvalue * stmt) → world → Prop) w :
  sql st = sql_pay_update → steps st = O →
  binds st !! 1 = Some (SqlInt now) → binds st !! 2 = Some (SqlText k) →
  (∀ d row st', sq_step st (db w) = (SQLITE_DONE, row, d) →
     sq_table d = alter (pay now) k (table w) →
     Q (Ok (SQLITE_DONE, row, st')) (set_db d w)) →
  (∀ d code row st', sq_step st (db w) = (code, row, d) →
     code ≠ SQLITE_DONE → sq_table d = table w →
     Q (Ok (code, row, st')) (set_db d w)) →
  wp (sqlite3_step st) Q w.
Proof.
  intros H1 H2 H3 H4 Hdone Herr. unfold wp, sqlite3_step.
  pose proof (sq_step_update st (db w) now k H1 H2 H3 H4) as H.
  destruct (sq_step st (db w)) as [[code row] d]. simpl in *.
  destruct H as [(-> & Ht)|(Hc & Ht)]; auto.
Qed.

Lemma wp_step_delete st k (Q : result (step_code * list sqlvalue * stmt) → world → Prop) w :
  sql st = sql_delete → steps st = O → binds st !! 1 = Some (SqlText k) →
  (∀ d row st', sq_step st (db w) = (SQLITE_DONE, row, d) →
     sq_table d = delete k (table w) →
     sq_changes d = (if table w !! k is Some _ then 1 else 0) →
     Q (Ok (SQLITE_DONE, row, st')) (set_db d w)) →
  (∀ d code row st', sq_step st (db w) = (code, row, d) →
     code ≠ SQLITE_DONE → sq_table d = table w →
     Q (Ok (code, row, st')) (set_db d w)) →
  wp (sqlite3_step st) Q w.
Proof.
  intros H1 H2 H3 Hdone Herr. unfold wp, sqlite3_step.
  pose proof (sq_step_delete st (db w) k H1 H2 H3) as H.
  destruct (sq_step st (db w)) as [[code row] d]. simpl in *.
  destruct H as [(-> & Ht & Hn)|(Hc & Ht)]; auto.
Qed.

(** ** Failure reports *)

Lemma wp_sqlite_failure prefix (Q : result () → world → Prop) w :
  (∀ w', same_config w w' → db w' = db w → redis w' = redis w →
     counters w' = <[sqlite_errors := swrap 32 (counters w sqlite_errors + 1)]> (counters w) →
     Q (Ok ()) w') →
  wp (sqlite_failure prefix) Q w.
Proof. intros H. apply H; done. Qed.

(** ** The cache *)

Definition cached w (k : string) : option string :=
  match redis w with Some s => rd_lookup (cache_key k) s | None => None end.

Lemma cache_key_inj k k' : cache_key k = cache_key k' → k = k'.
Proof. apply string_app_inj_l. Qed.

(** A cache call touches neither the database nor the configuration, and for every key
    it leaves the entry, loses it, or stores [p] under [k]. *)
Record cache_call (k : string) (p : option string) w w' : Prop := {
  cc_config : same_config w w';
  cc_db : db w' = db w;
  cc_sqlite : counters w' sqlite_errors = counters w sqlite_errors;
  cc_created : counters w' orders_created = counters w orders_created;
  cc_paid : counters w' orders_paid = counters w orders_paid;
  cc_other k' : k' ≠ k → cached w' k' = None ∨ cached w' k' = cached w k';
  cc_this : cached w' k = None ∨ cached w' k = cached w k ∨ cached w' k = p;
}.

Lemma wp_try_cache_order k p (Q : result bool → world → Prop) w :
  (∀ b w', cache_call k (Some p) w w' →
     (b = true → cached w' k = None ∨ cached w' k = Some p) → Q (Ok b) w') →
  wp (try_cache_order k p) Q w.
Proof.
  intros H. unfold try_cache_order. wp_pure.
  destruct (redis w) as [s|] eqn:Er.
  - wp_pure. simpl.
    pose proof (rd_set_err (cache_key k) p (cache_ttl_seconds w) s) as He.
    pose proof (rd_set_ok (cache_key k) p (cache_ttl_seconds w) s) as Ho.
    assert (∀ k', k' ≠ k → cache_key k' ≠ cache_key k) as Hk by (by intros k' ? ?%cache_key_inj).
    pose proof (λ k' n, rd_set_other (cache_key k) p (cache_ttl_seconds w) s (cache_key k')
                          (Hk k' n)) as Hoth.
    destruct (rd_set _ _ _ _) as [[[]|what] s']; simpl in *;
      (apply H; [split; [done..| |]|]); unfold cached; rewrite ?Er; simpl; auto; done.
  - apply H; [|done]. split; try done; unfold cached; rewrite ?Er; simpl; rewrite ?Er; auto.
Qed.

Lemma wp_try_get_cached_order k (Q : result (option string) → world → Prop) w :
  (∀ o w', cache_call k None w w' → (o = None ∨ o = cached w' k) → Q (Ok o) w') →
  wp (try_get_cached_order k) Q w.
Proof.
  intros H. unfold try_get_cached_order. wp_pure.
  destruct (redis w) as [s|] eqn:Er.
  - wp_pure. simpl.
    pose proof (rd_get_result (cache_key k) s) as Hr.
    pose proof (rd_get_state (cache_key k) s) as Hs.
    destruct (rd_get _ _) as [[[v|]|what] s']; simpl in *;
      (apply H; [split; [done..| |]|]); unfold cached; rewrite ?Er; simpl; auto; try done;
      destruct (Hs (cache_key k)); auto.
  - apply H; [|by left]. split; try done; unfold cached; simpl; rewrite ?Er; auto.
Qed.

Lemma wp_invalidate_cached_order k action (Q : result () → world → Prop) w :
  (∀ w', cache_call k None w w' → (redis_available w' = true → cached w' k = None) →
     Q (Ok ()) w') →
  wp (invalidate_cached_order k action) Q w.
Proof.
  intros H. unfold invalidate_cached_order. wp_pure.
  destruct (redis w) as [s|] eqn:Er.
  - wp_pure. simpl.
    pose proof (rd_del_ok (cache_key k) s) as Ho.
    pose proof (rd_del_state (cache_key k) s) as Hs.
    destruct (rd_del _ _) as [[[]|what] s']; simpl in *;
      (apply H; [split; [done..| |]|]); unfold cached; rewrite ?Er; simpl; auto; try done;
      destruct (Hs (cache_key k)); auto.
  - apply H; [|done]. split; try done; unfold cached; simpl; rewrite ?Er; auto.
Qed.
End Primitives.

(** Close a [same_config] goal from the ones in the context. *)
Ltac config :=
  repeat match goal with H : same_config _ _ |- _ => destruct H end;
  split; simpl in *; first [done | lia | congruence].
