(* ===== verification/OrderSpec.v ===== *)
(** * What the order handlers do

    Functional specifications of the handlers of OrderRoutes.v on every branch, for any
    backends with the laws of Service.v; the abstract order book they implement and the
    refinement; what the cache can contain. *)

From S2P Require Import Prelude Doubles JsonRead JsonWrite QueryString Http Service Backends.
From S2P Require Import OrderRoutes Wp.
Open Scope Z_scope.

(** ** The abstract order book *)

Abbreviation book := (gmap string order).

Inductive event : Type :=
| Created (k : string) (a : double) (now : Z)
| Paid (k : string) (now : Z)
| Deleted (k : string).

Inductive book_step : book → event → book → Prop :=
| step_created t k a now :
    t !! k = None → dgt a dzero = true →
    book_step t (Created k a now) (<[k := Order a "PENDING" now 0]> t)
| step_paid t k o now :
    t !! k = Some o → status o ≠ "PAID" →
    book_step t (Paid k now) (<[k := pay now o]> t)
| step_deleted t k o :
    t !! k = Some o → book_step t (Deleted k) (delete k t).

Inductive book_steps : book → list event → book → Prop :=
| steps_nil t : book_steps t [] t
| steps_cons t e t' es t'' :
    book_step t e t' → book_steps t' es t'' → book_steps t (e :: es) t''.

Definition order_ok (o : order) : Prop :=
  (status o = "PENDING" ∧ paid_at o = 0 ∨ status o = "PAID") ∧ dgt (amount o) dzero = true.
Definition book_ok (t : book) : Prop := map_Forall (λ _, order_ok) t.

Lemma book_step_ok t e t' : book_step t e t' → book_ok t → book_ok t'.
Proof.
  unfold book_ok. intros [t0 k a now Hk Ha|t0 k o now Hk Hs|t0 k o Hk] Ht.
  - apply map_Forall_insert_2; [|done]. split; [by left|done].
  - apply map_Forall_insert_2; [|done]. destruct (Ht k o Hk) as [_ Ho]. by split; [right|].
  - by apply map_Forall_delete.
Qed.

(** An order that stays in the book: unless it is deleted, its amount and creation time
    never change, and once paid nothing changes. *)
Definition same_order (o o' : order) : Prop :=
  amount o' = amount o ∧ created_at o' = created_at o ∧ (status o = "PAID" → o' = o).

Lemma book_step_same t e t' k o :
  book_step t e t' → e ≠ Deleted k → t !! k = Some o → ∃ o', t' !! k = Some o' ∧ same_order o o'.
Proof.
  intros [t0 k' a now Hk' Ha|t0 k' o1 now Hk' Hs|t0 k' o1 Hk'] He Hk;
    destruct (decide (k' = k)) as [->|Hn].
  - congruence.
  - exists o. rewrite lookup_insert_ne by done. by repeat split.
  - exists (pay now o1). rewrite lookup_insert_eq. split; [done|].
    rewrite Hk in Hk'. injection Hk' as ->. by repeat split.
  - exists o. rewrite lookup_insert_ne by done. by repeat split.
  - done.
  - exists o. rewrite lookup_delete_ne by done. by repeat split.
Qed.

(** ** Rows by key *)

Lemma filter_by_key (m : book) k :
  filter (λ o : string * order, fst o = k) (map_to_list m)
  = match m !! k with Some o => [(k, o)] | None => [] end.
Proof.
  assert (∀ m : book, m !! k = None →
    filter (λ o : string * order, fst o = k) (map_to_list m) = []) as Hnone.
  { intros m0 H0. destruct (filter _ _) as [|[k' o] l] eqn:E; [done|].
    assert ((k', o) ∈ filter (λ o : string * order, fst o = k) (map_to_list m0)) as Hin
      by (rewrite E; left).
    apply list_elem_of_filter in Hin as [Hk Hin]. simpl in Hk. subst k'.
    apply elem_of_map_to_list in Hin. congruence. }
  destruct (m !! k) as [o|] eqn:Hk; [|by apply Hnone].
  apply Permutation_singleton_r.
  rewrite <- (insert_delete_id m k o Hk), map_to_list_insert by apply lookup_delete_eq.
  rewrite filter_cons_True by done. rewrite Hnone; [done|]. apply lookup_delete_eq.
Qed.

Section Spec.
Context `{ss : !StdSort, ui : !UMapIter, sq : !Sqlite, rd : !Redis, ev : !Environment}.
Implicit Types w : world.

Abbreviation table w := (sq_table (db w)).
Abbreviation scan w := (sq_scan (db w)).

Lemma scan_by_key w k :
  filter (λ o : string * order, fst o = k) (scan w)
  = match table w !! k with Some o => [(k, o)] | None => [] end.
Proof.
  rewrite <- (filter_by_key (table w) k).
  assert (filter (λ o : string * order, fst o = k) (scan w)
          ≡ₚ filter (λ o : string * order, fst o = k) (map_to_list (table w))) as H
    by (f_equiv; apply sq_scan_perm).
  rewrite filter_by_key in *. destruct (table w !! k).
  - by apply Permutation_singleton_r in H.
  - by apply Permutation_nil_r in H.
Qed.

(** *** Answers of SQLite *)

(** A computation that leaves the table and the cache alone. *)
Record read_only w w' : Prop := {
  ro_config : same_config w w';
  ro_table : table w' = table w;
  ro_redis : redis w' = redis w;
}.

Definition count_sqlite_error w : metric → Z :=
  <[sqlite_errors := swrap 32 (counters w sqlite_errors + 1)]> (counters w).

(** SQLite prepares the statement [st] on [d], and its first step is done. *)
Definition accepts (st : stmt) (d : sq_db) : bool :=
  let p := sq_prepare (sql st) d in
  fst p && bool_decide (fst (fst (sq_step st (snd p))) = SQLITE_DONE).

Lemma accepts_refused st d d' : sq_prepare (sql st) d = (false, d') → accepts st d = false.
Proof. intros H. unfold accepts. by rewrite H. Qed.
Lemma accepts_step st d d1 code row d2 :
  sq_prepare (sql st) d = (true, d1) → sq_step st d1 = (code, row, d2) →
  accepts st d = bool_decide (code = SQLITE_DONE).
Proof. intros H1 H2. unfold accepts. rewrite H1. simpl. by rewrite H2. Qed.

(** The answer to a statement that SQLite does not accept. *)
Definition database_error (r : result response) w w' : Prop :=
  (∃ msg, r = Ok (json_error 500 msg)) ∧ read_only w w' ∧ counters w' = count_sqlite_error w.

(** *** Order numbers *)

Definition order_no_of (e : env) : string :=
  "ORD" +:+ to_string (fst (env_time e))
  +:+ to_string (fst (env_rand (snd (env_time e))) mod 100000).
(** The clock, when it is read next to stamp the order. *)
Definition creation_time (e : env) : Z := fst (env_time (snd (env_rand (snd (env_time e))))).

Lemma wp_generate_order_no (Q : result string → world → Prop) w :
  Q (Ok (order_no_of (environment w)))
    (set_environment (snd (env_rand (snd (env_time (environment w))))) w) →
  wp generate_order_no Q w.
Proof. intros H. apply H. Qed.

Lemma wp_time (Q : result Z → world → Prop) w :
  (0 ≤ fst (env_time (environment w)) →
   Q (Ok (fst (env_time (environment w)))) (set_environment (snd (env_time (environment w))) w)) →
  wp (call_env env_time) Q w.
Proof. intros H. apply H. apply env_time_range. Qed.

Lemma order_no_plain e : c_str (order_no_of e) = order_no_of e.
Proof.
  apply c_str_id. unfold order_no_of.
  apply string_Forall_app; split; [done|].
  apply string_Forall_app; split; apply to_string_no_NUL.
Qed.

(** *** create *)

(** The [INSERT] of [create_order] with its parameters. *)
Definition insert_stmt (k : string) (a : double) (now : Z) : stmt :=
  Stmt sql_insert (<[5 := SqlInt 0]> (<[4 := SqlInt now]> (<[3 := SqlText "PENDING"]>
    (<[2 := SqlReal a]> {[1 := SqlText (c_str k)]})))) 0.

(** The branch of [create_order] that has a valid amount: SQLite accepts the row, and it
    is stored and counted, and its payload possibly cached; or it does not, and only the
    failure is counted. *)
Definition create_outcome (a : double) w (r : result response) w' : Prop :=
  let k := order_no_of (environment w) in
  let now := creation_time (environment w) in
  if accepts (insert_stmt k a now) (db w) then
    r = Ok (response_json 200 (create_value k a now)) ∧ same_config w w' ∧
    table w !! k = None ∧ table w' = <[k := Order a "PENDING" now 0]> (table w) ∧
    counters w' orders_created = swrap 32 (counters w orders_created + 1) ∧
    counters w' sqlite_errors = counters w sqlite_errors ∧
    (∀ k', k' ≠ k → cached w' k' = None ∨ cached w' k' = cached w k') ∧
    (cached w' k = None ∨ cached w' k = cached w k
     ∨ cached w' k = Some (dump (create_value k a now)))
  else database_error r w w'.

Lemma wp_create_outcome a w :
  dgt a dzero = true → wp (create_insert a) (create_outcome a w) w.
Proof.
  intros Ha. unfold create_insert, create_outcome.
  assert (is_nan a = false) as Hn by (by destruct a).
  apply wp_bind, wp_generate_order_no, wp_bind, wp_time. intros Hnow.
  set (k := order_no_of _). set (now := fst (env_time _)).
  change (creation_time _) with now.
  apply wp_bind, wp_prepare; simpl; intros d1 Hp1 Ht1 _.
  { wp_pure. apply wp_sqlite_failure. intros w' Hc Hd Hr Hm. wp_pure.
    rewrite (accepts_refused _ _ d1) by done. split; [by eexists|]. split; [|done].
    split; [config|by rewrite Hd|done]. }
  apply wp_bind. eapply wp_step_insert; try reflexivity; try done.
  - intros d2 row st' Hst2 Hk Ht2. wp_decide. apply wp_finalize. intros d3 _ Ht3. wp_pure.
    apply wp_fetch_add. wp_pure. apply wp_try_cache_order. intros b w' Hcc _. wp_pure.
    rewrite (accepts_step _ _ d1 SQLITE_DONE row d2) by done. rewrite bool_decide_true by done.
    assert (c_str k = k) as Hplain by apply order_no_plain.
    rewrite Hplain in *. simpl in *. rewrite Ht1 in *. split_and!; try done.
    + etrans; [|exact (cc_config _ _ _ _ Hcc)]. config.
    + rewrite (cc_db _ _ _ _ Hcc). simpl. congruence.
    + by rewrite (cc_created _ _ _ _ Hcc).
    + by rewrite (cc_sqlite _ _ _ _ Hcc).
    + apply (cc_other _ _ _ _ Hcc).
    + apply (cc_this _ _ _ _ Hcc).
  - intros d2 code row st' Hst2 Hcode Ht2. wp_decide. apply wp_sqlite_failure.
    intros w' Hc Hd Hr Hm. wp_pure. apply wp_finalize. intros d3 _ Ht3. wp_pure.
    rewrite (accepts_step _ _ d1 code row d2) by done. rewrite bool_decide_false by done.
    split; [by eexists|]. split; [|done]. split; [config|simpl in *; congruence|done].
Qed.

(** The same as a rule with one premise for each outcome. *)
Lemma wp_create_insert a (Q : result response → world → Prop) w :
  dgt a dzero = true →
  (∀ k now w', k = order_no_of (environment w) →
     table w !! k = None → table w' = <[k := Order a "PENDING" now 0]> (table w) →
     counters w' orders_created = swrap 32 (counters w orders_created + 1) →
     counters w' sqlite_errors = counters w sqlite_errors →
     same_config w w' →
     (∀ k', k' ≠ k → cached w' k' = None ∨ cached w' k' = cached w k') →
     (cached w' k = None ∨ cached w' k = cached w k
      ∨ cached w' k = Some (dump (create_value k a now))) →
     Q (Ok (response_json 200 (create_value k a now))) w') →
  (∀ msg w', table w' = table w → same_config w w' → redis w' = redis w →
     counters w' = count_sqlite_error w → Q (Ok (json_error 500 msg)) w') →
  wp (create_insert a) Q w.
Proof.
  intros Ha Hok Herr. eapply wp_mono; [by apply wp_create_outcome|].
  intros r w' H. unfold create_outcome in H. case_match.
  - destruct H as (-> & ? & ? & ? & ? & ? & ? & ?). by apply Hok.
  - destruct H as ([msg ->] & [? ? ?] & ?). by apply Herr.
Qed.

(** *** Reading one order *)

Lemma rows_get b all k : b !! 1 = Some (SqlText k) →
  rows_of sql_get b all
  = (λ o, drop 1 (order_row o)) <$> filter (λ o : string * order, fst o = k) all.
Proof.
  intros Hb. unfold rows_of. rewrite !decide_False by done. rewrite decide_True by done.
  by rewrite Hb.
Qed.
Lemma rows_pay b all k : b !! 1 = Some (SqlText k) →
  rows_of sql_pay_select b all
  = (λ o, take 3 (drop 1 (order_row o))) <$> filter (λ o : string * order, fst o = k) all.
Proof.
  intros Hb. unfold rows_of. rewrite !decide_False by done. rewrite decide_True by done.
  by rewrite Hb.
Qed.

Lemma wp_get_from_db k (Q : result response → world → Prop) w :
  (∀ o w', table w !! c_str k = Some o → read_only w w' → counters w' = counters w →
     Q (Ok (response_json 200
              (get_value k (amount o) (c_str (status o)) (created_at o) (paid_at o)))) w') →
  (∀ w', read_only w w' → counters w' = counters w →
     Q (Ok (json_error 404 "Order not found")) w') →
  (∀ w', read_only w w' → counters w' = count_sqlite_error w →
     Q (Ok (json_error 500 "Internal DB error")) w') →
  wp (get_from_db k) Q w.
Proof.
  intros Hrow Hnone Herr. unfold get_from_db. apply wp_bind, wp_prepare; intros d1 Hp1 Ht1 Hs1.
  { wp_pure. apply wp_sqlite_failure. intros w' Hc Hd Hr Hm. wp_pure. apply Herr; [|done].
    split; [config|by rewrite Hd|done]. }
  apply wp_bind, wp_step_query; [simpl; set_solver|..].
  - intros d2 row Hst2 Ht2 Hs2 Hrows. wp_decide. simpl in *.
    rewrite (rows_get _ _ (c_str k)), Hs1, scan_by_key in Hrows by done.
    destruct (table w !! c_str k) as [o|] eqn:Ho; [|done]. injection Hrows as <-. simpl.
    repeat (progress (wp_pure; simpl)). apply wp_finalize. intros d3 _ Ht3. wp_pure. apply Hrow; [done| |done].
    split; [config|simpl in *; congruence|done].
  - intros d2 row c Hst2 Ht2 Hs2 Hc _. wp_decide. apply wp_finalize. intros d3 _ Ht3. wp_pure.
    apply Hnone; [|done]. split; [config|simpl in *; congruence|done].
Qed.

(** *** pay *)

(** The two statements of [pay_order] with their parameters. *)
Definition select_stmt (k : string) : stmt := Stmt sql_pay_select {[1 := SqlText (c_str k)]} 0.
Definition update_stmt (now : Z) (k : string) : stmt :=
  Stmt sql_pay_update (<[2 := SqlText (c_str k)]> {[1 := SqlInt now]}) 0.

(** SQLite accepts the [UPDATE], and the row is changed, counted and dropped from the
    cache; or it does not, and only the failure is counted. *)
Definition update_outcome (k : string) (a : double) (c : Z) w (r : result response) w' : Prop :=
  let now := fst (env_time (environment w)) in
  if accepts (update_stmt now k) (db w) then
    r = Ok (response_json 200 (pay_value k a c now)) ∧ same_config w w' ∧
    table w' = alter (pay now) (c_str k) (table w) ∧
    counters w' orders_paid = swrap 32 (counters w orders_paid + 1) ∧
    counters w' sqlite_errors = counters w sqlite_errors ∧
    (∀ k', cached w' k' = None ∨ cached w' k' = cached w k') ∧
    (redis_available w' = true → cached w' k = None)
  else database_error r w w'.

Lemma wp_pay_update k a c w : wp (pay_update k a c) (update_outcome k a c w) w.
Proof.
  unfold pay_update, update_outcome. apply wp_bind, wp_time. intros Hnow.
  set (now := fst (env_time _)).
  apply wp_bind, wp_prepare; simpl; intros d1 Hp1 Ht1 _.
  { wp_pure. apply wp_sqlite_failure. intros w' Hc Hd Hr Hm. wp_pure.
    rewrite (accepts_refused _ _ d1) by done. split; [by eexists|]. split; [|done].
    split; [config|by rewrite Hd|done]. }
  apply wp_bind. eapply wp_step_update; try reflexivity.
  - intros d2 row st' Hst2 Ht2. wp_decide. apply wp_finalize. intros d3 _ Ht3. wp_pure.
    apply wp_fetch_add. wp_pure. apply wp_invalidate_cached_order. intros w' Hcc Ha. wp_pure.
    rewrite (accepts_step _ _ d1 SQLITE_DONE row d2) by done. rewrite bool_decide_true by done.
    simpl in *. split_and!; try done.
    + etrans; [|exact (cc_config _ _ _ _ Hcc)]. config.
    + rewrite (cc_db _ _ _ _ Hcc). simpl. congruence.
    + by rewrite (cc_paid _ _ _ _ Hcc).
    + by rewrite (cc_sqlite _ _ _ _ Hcc).
    + intros k'. destruct (decide (k' = k)) as [->|Hk].
      * destruct (cc_this _ _ _ _ Hcc) as [?|[?|?]]; auto.
      * by apply (cc_other _ _ _ _ Hcc).
  - intros d2 code row st' Hst2 Hcode Ht2. wp_decide. apply wp_sqlite_failure.
    intros w' Hc Hd Hr Hm. wp_pure. apply wp_finalize. intros d3 _ Ht3. wp_pure.
    rewrite (accepts_step _ _ d1 code row d2) by done. rewrite bool_decide_false by done.
    split; [by eexists|]. split; [|done]. split; [config|simpl in *; congruence|done].
Qed.

(** What [pay_order] does with order number [k], by what SQLite answers: the [SELECT] is
    refused; or its step says that there is no row, or fails, which the code does not
    tell apart; or there is a row, paid, or not paid and then updated on the database
    that the [SELECT] left. *)
Definition pay_outcome (k : string) w (r : result response) w' : Prop :=
  let (ready, d1) := sq_prepare sql_pay_select (db w) in
  if ready : bool then
    let '(code, _, d2) := sq_step (select_stmt k) d1 in
    match code with
    | SQLITE_ROW => ∃ o, table w !! c_str k = Some o ∧
        if decide (c_str (status o) = "PAID") then
          r = Ok (json_error 400 "Already paid") ∧ read_only w w' ∧ counters w' = counters w
        else
          let now := fst (env_time (environment w)) in
          if accepts (update_stmt now k) (sq_finalize d2) then
            r = Ok (response_json 200 (pay_value k (amount o) (created_at o) now)) ∧
            same_config w w' ∧ table w' = <[c_str k := pay now o]> (table w) ∧
            counters w' orders_paid = swrap 32 (counters w orders_paid + 1) ∧
            counters w' sqlite_errors = counters w sqlite_errors ∧
            (∀ k', cached w' k' = None ∨ cached w' k' = cached w k') ∧
            (redis_available w' = true → cached w' k = None)
          else database_error r w w'
    | _ => (code = SQLITE_DONE → table w !! c_str k = None) ∧
        r = Ok (json_error 404 "Order not found") ∧ read_only w w' ∧ counters w' = counters w
    end
  else database_error r w w'.

Lemma wp_pay_outcome k w : wp (pay_found k) (pay_outcome k w) w.
Proof.
  unfold pay_found, pay_outcome. apply wp_bind, wp_prepare; intros d1 Hp1 Ht1 Hs1; rewrite Hp1.
  { wp_pure. apply wp_sqlite_failure. intros w' Hc Hd Hr Hm. wp_pure. split; [by eexists|].
    split; [|done]. split; [config|by rewrite Hd|done]. }
  apply wp_bind, wp_step_query; [simpl; set_solver|..].
  - intros d2 row Hst2 Ht2 Hs2 Hrows. wp_decide. change (db _) with d1 in Hst2. simpl in *.
    change (sq_step (select_stmt k) d1 = (SQLITE_ROW, row, d2)) in Hst2. rewrite Hst2.
    rewrite (rows_pay _ _ (c_str k)), Hs1, scan_by_key in Hrows by done.
    destruct (table w !! c_str k) as [o|] eqn:Ho; [|done]. injection Hrows as <-. simpl.
    repeat (progress (wp_pure; simpl)). apply wp_finalize. intros d3 -> Ht3. simpl in *.
    match goal with |- wp _ _ ?w1 => assert (read_only w w1) as Hro end.
    { split; [config|simpl; congruence|done]. }
    destruct (decide (c_str (status o) = "PAID")) as [Hp|Hp]; wp_pure.
    { exists o. split; [done|]. by rewrite decide_True. }
    destruct Hro as [Hc Ht Hr]. eapply wp_mono; [apply wp_pay_update|].
    intros r w' H. exists o. split; [done|]. rewrite decide_False by done.
    unfold update_outcome in H. simpl in H, Ht. case_match.
    + destruct H as (-> & ? & Ht' & ? & ? & ? & ?). split_and!; try done; [by etrans|].
      rewrite Ht', Ht. apply map_eq. intros i. destruct (decide (i = c_str k)) as [->|Hi].
      * by rewrite lookup_alter_eq, lookup_insert_eq, Ho.
      * by rewrite lookup_alter_ne, lookup_insert_ne.
    + destruct H as (? & [Hc' Ht' Hr'] & ?). split; [done|]. split; [|done].
      split; [by etrans|by rewrite Ht'|by rewrite Hr'].
  - intros d2 row c Hst2 Ht2 Hs2 Hc Hdone. wp_decide. apply wp_finalize. intros d3 _ Ht3. wp_pure.
    change (sq_step (select_stmt k) d1 = (c, row, d2)) in Hst2. rewrite Hst2.
    assert (c = SQLITE_DONE → table w !! c_str k = None) as Hnone.
    { intros Hd. specialize (Hdone Hd). simpl in Hdone.
      rewrite (rows_pay _ _ (c_str k)), Hs1, scan_by_key in Hdone by done.
      destruct (table w !! c_str k); [simpl in Hdone; lia|done]. }
    match goal with |- context [read_only w ?w1] => assert (read_only w w1) end.
    { split; [config|simpl in *; congruence|done]. }
    by destruct c.
Qed.

(** The same as a rule with one premise for each answer. *)
Lemma wp_pay_found k (Q : result response → world → Prop) w :
  (∀ o now w', table w !! c_str k = Some o → c_str (status o) ≠ "PAID" →
     table w' = <[c_str k := pay now o]> (table w) → same_config w w' →
     counters w' orders_paid = swrap 32 (counters w orders_paid + 1) →
     counters w' sqlite_errors = counters w sqlite_errors →
     (∀ k', cached w' k' = None ∨ cached w' k' = cached w k') →
     (redis_available w' = true → cached w' k = None) →
     Q (Ok (response_json 200 (pay_value k (amount o) (created_at o) now))) w') →
  (∀ code msg w', code ≠ 200 → read_only w w' → Q (Ok (json_error code msg)) w') →
  wp (pay_found k) Q w.
Proof.
  intros Hok Hno. eapply wp_mono; [apply wp_pay_outcome|]. intros r w' H.
  assert (database_error r w w' → Q r w') as Herr by (intros ([msg ->] & ? & _); by apply Hno).
  unfold pay_outcome in H. destruct (sq_prepare _ _) as [[] d1]; [|by apply Herr].
  destruct (sq_step _ _) as [[[] row] d2]; [|by destruct H as (_ & -> & ? & _); apply Hno..].
  destruct H as (o & Ho & H). case_decide; [by destruct H as (-> & ? & _); apply Hno|].
  case_match; [|by apply Herr]. destruct H as (-> & ? & ? & ? & ? & ? & ?). by eapply Hok.
Qed.

(** *** delete *)

Lemma wp_delete_order k (Q : result response → world → Prop) w :
  (∀ o w', table w !! c_str k = Some o → table w' = delete (c_str k) (table w) →
     same_config w w' → counters w' sqlite_errors = counters w sqlite_errors →
     (∀ k', cached w' k' = None ∨ cached w' k' = cached w k') →
     (redis_available w' = true → cached w' k = None) →
     Q (Ok (response_json 200 (delete_value k))) w') →
  (∀ w' msg, read_only w w' → counters w' = counters w → Q (Ok (json_error 404 msg)) w') →
  (∀ w', read_only w w' → counters w' = count_sqlite_error w →
     Q (Ok (json_error 500 "Internal DB error")) w') →
  wp (delete_order k) Q w.
Proof.
  intros Hok Hnone Herr. unfold delete_order. apply wp_bind, wp_prepare; intros d1 Hp1 Ht1 _.
  { wp_pure. apply wp_sqlite_failure. intros w' Hc Hd Hr Hm. wp_pure. apply Herr; [|done].
    split; [config|by rewrite Hd|done]. }
  apply wp_bind. eapply (wp_step_delete _ (c_str k)); try reflexivity.
  - intros d2 row st' Hst2 Ht2 Hn. wp_decide. apply wp_gets. apply wp_bind, wp_finalize.
    intros d3 _ Ht3. simpl in *. rewrite Hn, Ht1 in *. destruct (table w !! c_str k) as [o|] eqn:Ho.
    + wp_decide. apply wp_invalidate_cached_order. intros w' Hcc Ha. wp_pure. simpl in *.
      apply (Hok o); try done.
      * rewrite (cc_db _ _ _ _ Hcc). simpl. congruence.
      * etrans; [|exact (cc_config _ _ _ _ Hcc)]. config.
      * by rewrite (cc_sqlite _ _ _ _ Hcc).
      * intros k'. destruct (decide (k' = k)) as [->|Hk].
        -- destruct (cc_this _ _ _ _ Hcc) as [?|[?|?]]; auto.
        -- by apply (cc_other _ _ _ _ Hcc).
    + wp_decide. apply Hnone; [|done]. split; [config| |done].
      simpl. rewrite Ht3, Ht2. by apply delete_id.
  - intros d2 code row st' Hst2 Hcode Ht2. wp_decide. apply wp_finalize. intros d3 _ Ht3. wp_pure.
    apply Hnone; [|done]. split; [config|simpl in *; congruence|done].
Qed.

(** *** list *)

Definition list_entry (o : string * order) : wvalue :=
  let order := wv_set WNull "order_no" (WString (c_str (fst o))) in
  let order := wv_set order "amount" (WDouble (amount (snd o))) in
  let order := wv_set order "status" (WString (c_str (status (snd o)))) in
  let order := wv_set order "created_at" (WString (format_time (created_at (snd o)))) in
  wv_set order "paid_at" (paid_value (paid_at (snd o))).
Definition list_array (l : list (string * order)) : wvalue :=
  match l with [] => WNull | _ => WList (list_entry <$> l) end.
Definition list_response (l : list (string * order)) : response :=
  response_json 200 (wv_set WNull "orders" (list_array l)).

Lemma list_value_row o : list_value (order_row o) = Ok (list_entry o).
Proof. done. Qed.

Lemma list_array_snoc l o : Z.of_nat (length l) < 2 ^ 31 →
  wv_set_index (list_array l) (Z.of_nat (length l)) (list_entry o) = list_array (l ++ [o]).
Proof.
  intros Hl. assert (wv_list (list_array l) = list_entry <$> l) as Hw by (by destruct l).
  assert (list_array (l ++ [o]) = WList ((list_entry <$> l) ++ [list_entry o])) as ->.
  { unfold list_array. destruct (l ++ [o]) eqn:E; [by destruct l|].
    by rewrite <- E, fmap_app. }
  unfold wv_set_index, wv_at_index. rewrite Hw.
  assert (uwrap 32 (Z.of_nat (length l)) = Z.of_nat (length l)) as Hi
    by (unfold uwrap; apply Z.mod_small; lia).
  assert (uwrap 32 (Z.of_nat (length l) + 1) = Z.of_nat (length l) + 1) as Hn
    by (unfold uwrap; apply Z.mod_small; lia).
  rewrite !Hi, Hn, length_fmap, Nat2Z.id. rewrite (proj2 (Z.ltb_lt _ _)) by lia.
  replace (Z.to_nat (Z.of_nat (length l) + 1) - length l)%nat with 1%nat by lia. simpl.
  f_equal. rewrite alter_app_r_alt; rewrite length_fmap; [|done]. by rewrite Nat.sub_diag.
Qed.

(** The steps of a query: [n] of them return a row, and the one after them does not and
    returns [code]. *)
Inductive rows_read : stmt → sq_db → nat → step_code → Prop :=
| rows_end st d code row d' :
    sq_step st d = (code, row, d') → code ≠ SQLITE_ROW → rows_read st d 0 code
| rows_more st d row d' n code :
    sq_step st d = (SQLITE_ROW, row, d') →
    rows_read (Stmt (sql st) (binds st) (S (steps st))) d' n code → rows_read st d (S n) code.

Lemma wp_list_loop fuel st i sel (Q : result wvalue → world → Prop) w :
  sql st ∈ [sql_all; sql_filtered] → steps st = i → (i ≤ length sel)%nat →
  rows_of (sql st) (binds st) (scan w) = order_row <$> sel →
  Z.of_nat (length sel) < 2 ^ 31 → (length sel < i + fuel)%nat →
  (∀ n code d, rows_read st (db w) n code → (i + n ≤ length sel)%nat →
     (code = SQLITE_DONE → (i + n)%nat = length sel) →
     sq_table d = table w → Q (Ok (list_array (take (i + n) sel))) (set_db d w)) →
  wp (list_loop fuel st (list_array (take i sel)) (Z.of_nat i)) Q w.
Proof.
  revert st i w. induction fuel as [|fuel IH]; intros st i w Hq Hst Hi Hrows Hlen Hf HQ; [lia|].
  simpl. apply wp_bind.
  destruct (sq_step_query st (db w) ltac:(set_solver)) as (Ht & Hs & Hc).
  unfold wp at 1, sqlite3_step. destruct (sq_step st (db w)) as [[c row] d] eqn:Hsq. cbn [fst snd] in *.
  rewrite Hrows, Hst in Hc. rewrite length_fmap in Hc. destruct c as [| |c].
  - rewrite list_lookup_fmap in Hc. destruct (sel !! i) as [o|] eqn:Ho; [|done].
    injection Hc as Hr. wp_decide. rewrite <- Hr, list_value_row. wp_pure.
    pose proof (lookup_lt_Some _ _ _ Ho) as Hlt.
    assert (length (take i sel) = i) as Hti by (rewrite length_take; lia).
    pose proof (list_array_snoc (take i sel) o) as Hsnoc. rewrite Hti in Hsnoc.
    rewrite Hsnoc by lia. rewrite <- (take_S_r _ _ _ Ho).
    rewrite swrap_id by lia.
    replace (Z.of_nat i + 1) with (Z.of_nat (S i)) by lia.
    apply IH; simpl; first [done | lia | by rewrite Hs | idtac].
    intros n code d' Hn Hle Hall Hd. simpl in *.
    assert (S (i + n) = i + S n)%nat as Hin by lia. rewrite Hin in *.
    apply (HQ (S n) code d'); [by eapply rows_more|done|done|congruence].
  - wp_decide. rewrite <- (Nat.add_0_r i) at 1.
    apply (HQ 0%nat SQLITE_DONE d); [by eapply rows_end|lia|lia|done].
  - wp_decide. rewrite <- (Nat.add_0_r i) at 1.
    apply (HQ 0%nat (SQLITE_ERR c) d); [by eapply rows_end|lia|done|done].
Qed.
End Spec.
