(* ===== verification/OrderTheorems.v ===== *)
(** * The order handlers: validation of bodies, refinement, cache coherence

    The theorems about whole requests, from the rules of OrderSpec.v. *)

From S2P Require Import Prelude Doubles JsonRead JsonWrite QueryString Http Service Backends.
From S2P Require Import OrderRoutes Wp OrderSpec.
Open Scope Z_scope.

(** ** Looking a member up and validating it *)

(** Member [key] of body [b] is [x]. *)
Definition member (b : rvalue) (key : string) (x : rvalue) : Prop :=
  r_t b = Some TObject ∧ x ∈ r_l b ∧ r_key x = Some key.

(** What [is_valid_amount] and [is_valid_order_no] accept. *)
Definition amount_member (b : rvalue) (a : double) : Prop :=
  ∃ x, member b "amount" x ∧ r_t x = Some TNumber ∧ rv_d x = Ok a ∧ dgt a dzero = true.
Definition order_no_member (b : rvalue) (k : string) : Prop :=
  ∃ x, member b "order_no" x ∧ r_t x = Some TString ∧ rv_s x = Ok k ∧
    String.substring 0 3 k = "ORD".

Lemma rv_wf_t x : rv_wf x → ∃ t, r_t x = Some t ∧ rv_t x = Ok t ∧ r_error x = false.
Proof.
  intros [v t He Ht _ _ _ _ _ _]. exists t. unfold rv_t. by rewrite He, Ht.
Qed.
Lemma rv_wf_range x t : rv_wf x → r_t x = Some t → t = TNumber ∨ t = TString → is_Some (r_range x).
Proof. intros [v t' _ Ht' Hr _ _ _ _ _] Ht H. apply Hr. by replace t' with t by congruence. Qed.

Lemma is_valid_amount_wf x : rv_wf x →
  is_valid_amount x = Ok false ∨
  is_valid_amount x = Ok true ∧ r_t x = Some TNumber ∧ rv_t x = Ok TNumber ∧
    ∃ a, rv_d x = Ok a ∧ dgt a dzero = true.
Proof.
  intros Hwf. destruct (rv_wf_t x Hwf) as (t & Ht & Hrt & He).
  unfold is_valid_amount. rewrite Hrt. simpl. destruct (decide (t = TNumber)) as [->|]; [|by left].
  destruct (rv_wf_range x _ Hwf Ht (or_introl eq_refl)) as [s Hs].
  assert (rv_d x = Ok (stream_get_double s)) as Hd.
  { unfold rv_d. rewrite Hrt. simpl. unfold rv_text. by rewrite Hs. }
  rewrite Hd. simpl. destruct (dgt _ _) eqn:Hg; [right|by left].
  split_and!; try done. by exists (stream_get_double s).
Qed.

Lemma is_valid_order_no_wf x : rv_wf x →
  is_valid_order_no x = Ok false ∨
  is_valid_order_no x = Ok true ∧ r_t x = Some TString ∧ rv_t x = Ok TString ∧
    ∃ k, rv_s x = Ok k ∧ String.substring 0 3 k = "ORD".
Proof.
  intros Hwf. destruct (rv_wf_t x Hwf) as (t & Ht & Hrt & He).
  unfold is_valid_order_no, rv_bool, is_valid_order_no_try. rewrite He, Hrt. simpl.
  destruct (decide (t = TString)) as [->|Hn]; [|left; by rewrite decide_True].
  rewrite decide_False by tauto.
  destruct (rv_wf_range x _ Hwf Ht (or_intror eq_refl)) as [s Hs].
  assert (∃ k, rv_s x = Ok k) as [k Hk].
  { unfold rv_s. rewrite Hrt. simpl. unfold rv_text. rewrite Hs. simpl. eauto. }
  rewrite Hk. simpl. destruct (bool_decide (k = "")); [by left|]. simpl.
  case_bool_decide as Hp; [right|by left]. split_and!; try done. by exists k.
Qed.

Lemma rv_wf_elem b x : rv_wf b → x ∈ r_l b → rv_wf x.
Proof. intros [v t H1 H2 H3 H0 H4 Hl H6 H7] Hx. rewrite Forall_forall in Hl. by apply Hl, list_elem_of_In. Qed.

Section Bodies.
Context `{ss : !StdSort}.

(** Validation of a member of a well-formed body: the member that is looked up, or
    none, or the body is not an object. *)
Lemma member_valid_wf b key valid :
  rv_wf b →
  (∃ x b', member b key x ∧ rv_index b' key = Ok (x, b') ∧
     member_valid b key valid = (v ← valid x; Ok (v, b'))) ∨
  ((∀ x, ¬ member b key x) ∧ (r_t b = Some TObject ∨ r_t b = Some TList) ∧
     ∃ b', member_valid b key valid = Ok (false, b')) ∨
  (r_t b ≠ Some TObject ∧ ∃ e, member_valid b key valid = Throw e ∧
     (r_t b = Some TList → r_l b ≠ []) ∧ (r_t b ≠ Some TList → ∃ m, e = RuntimeError m)).
Proof.
  intros Hwf. destruct (rv_wf_t b Hwf) as (t & Ht & Hrt & He).
  destruct (decide (t = TObject)) as [->|Hobj].
  - pose proof (rv_wf_lookup_ready b Hwf Ht) as Hready.
    destruct (sort_members_ready b Hready) as (b' & Hs & Hb' & Hc & Hp).
    destruct (find_member_ready b' key Hb' Hc) as (m & Hf & Hm).
    assert (sort_members b' = Ok b') as Hs' by (unfold sort_members; by rewrite Hc).
    unfold member_valid, rv_has. rewrite Hs. simpl. rewrite Hf. simpl.
    destruct m as [x|]; simpl.
    + left. exists x, b'. destruct Hm as [Hx Hk].
      assert (rv_index b' key = Ok (x, b')) as Hi.
      { unfold rv_index, rv_t. rewrite (lr_error _ Hb'), (lr_type _ Hb'). simpl.
        rewrite Hs'. simpl. by rewrite Hf. }
      rewrite Hi. split_and!; try done. split_and!; [done|by rewrite <- Hp|done].
    + right; left. split; [|split; [by left|eauto]]. intros x (_ & Hx & Hk).
      by apply (Hm x); [rewrite Hp|].
  - right.
    assert (∀ x, ¬ member b key x) as Hno by (intros x (Hb & _); congruence).
    assert (r_t b ≠ Some TObject) as Hto by congruence.
    unfold member_valid, rv_has, sort_members, find_member, rv_range_l.
    assert (r_cached b = false) as -> by (by destruct Hwf).
    rewrite Hrt. simpl. destruct (decide (t = TObject ∨ t = TList)) as [[|Hl]|]; [done| |].
    2: { right. split; [done|]. eexists. split_and!; [done|naive_solver|]. intros _. by eexists. }
    simpl. assert (r_t b = Some TList) as Htl by congruence.
    destruct (decide (r_l b = [])) as [Hnil|Hcons].
    { rewrite Hnil. simpl. unfold rv_t. simpl.
      assert (std_sort pred_rr (@nil rvalue) = []) as ->
        by (apply Permutation_nil; symmetry; apply std_sort_perm).
      rewrite He, Ht. simpl. rewrite decide_True by by right. simpl. left. subst t. by eauto 6. }
    destruct (_ || _); simpl; [|right; split; [congruence|eexists; split_and!; [done|done|intros []; congruence]]].
    unfold rv_t. simpl. rewrite He, Ht. simpl. rewrite decide_True by by right. simpl.
    destruct (keys_set (std_sort pred_rr (r_l b))); simpl; [|right; split; [congruence|eexists; split_and!; [done|done|intros []; congruence]]].
    destruct (bool_decide _); simpl; [|left; subst t; by eauto 6].
    right. split; [congruence|]. exists (RuntimeError "value is not an object").
    split_and!; [|done|intros []; congruence].
    unfold rv_index, rv_t. simpl. rewrite He, Ht. simpl. by rewrite decide_False.
Qed.
End Bodies.

Section Calls.
Context `{ss : !StdSort, ui : !UMapIter, sq : !Sqlite, rd : !Redis, ev : !Environment}.
Implicit Types w : world.

Abbreviation table w := (sq_table (db w)).

(** A JSON object without a usable [key]: it has no such member, or the one looked up is
    not [valid].  (Of members with the same key the look-up takes any.) *)
Definition unusable (b : rvalue) (key : string) (valid : rvalue → result bool) : Prop :=
  (∀ x, ¬ member b key x) ∨ ∃ x, member b key x ∧ valid x = Ok false.

(** What a handler that wants member [key] of an object makes of the body [b] before it
    gets to it: text that is not JSON is a 400, as is an object without a usable member;
    a JSON value that holds no others makes [has] throw; of an array the empty one is
    answered like an object without the member, and in one with elements [has] compares
    keys that were never set, so nothing more is said of it.  [Q] is what is to hold of
    an object with a valid member. *)
Definition by_body (b : rvalue) (key : string) (valid : rvalue → result bool)
  (missing : string) (Q : Prop) w (r : result response) w' : Prop :=
  if r_error b then r = Ok (json_error 400 "Invalid JSON format") ∧ w' = w
  else match r_t b with
  | Some TObject => unusable b key valid ∧ r = Ok (json_error 400 missing) ∧ w' = w ∨ Q
  | Some TList =>
      w' = w ∧ (r = Ok (json_error 400 missing) ∨ r_l b ≠ [] ∧ ∃ e, r = Throw e)
  | _ => w' = w ∧ ∃ m, r = Throw (RuntimeError m)
  end.

Lemma by_body_mono b key valid missing (Q Q' : Prop) w r w' :
  (Q → Q') → by_body b key valid missing Q w r w' → by_body b key valid missing Q' w r w'.
Proof.
  intros HQ. unfold by_body. destruct (r_error b); [done|]. destruct (r_t b) as [[]|]; try done.
  intros [?|?]; [by left|by right; apply HQ].
Qed.

(** The answers of [by_body] apart from [Q]. *)
Lemma by_body_answer b key valid missing w r w' : by_body b key valid missing False w r w' →
  w' = w ∧ ((∃ msg, r = Ok (json_error 400 msg)) ∨
            ∃ e, r = Throw e ∧ (r_t b ≠ Some TList → ∃ m, e = RuntimeError m)).
Proof.
  unfold by_body. destruct (r_error b); [by intros [-> ->]; eauto|].
  destruct (r_t b) as [[]|]; try (by intros [-> [m ->]]; eauto 6).
  - intros [-> [->|(_ & e & ->)]]; (split; [done|]); [by eauto|]. right. by exists e.
  - intros [(_ & -> & ->)|[]]; eauto.
Qed.

(** The part the two handlers that read a body share: [K] is what they go on with. *)
Lemma wp_by_body b key valid missing (good : rvalue → Prop)
    (K : bool * rvalue → M world response) (Q : result response → world → Prop) w :
  (r_error b = false → rv_wf b) →
  (∀ x, rv_wf x → valid x = Ok false ∨ valid x = Ok true ∧ good x) →
  (∀ b', K (false, b') = mret (json_error 400 missing)) →
  (∀ r, by_body b key valid missing False w r w → Q r w) →
  (∀ x b', r_error b = false → member b key x → rv_index b' key = Ok (x, b') → good x →
     wp (K (true, b')) Q w) →
  wp (if negb (rv_bool b) then mret (json_error 400 "Invalid JSON format")
      else v ← lift (member_valid b key valid); K v) Q w.
Proof.
  intros Hwf Hvalid HK Hno Hgood. unfold by_body in Hno. unfold rv_bool.
  destruct (r_error b) eqn:He; simpl; [wp_pure; by apply Hno|]. specialize (Hwf eq_refl).
  destruct (rv_wf_t b Hwf) as (t & Ht & _).
  destruct (member_valid_wf b key valid Hwf)
    as [(x & b' & Hm & Hi & ->)|[(Hnm & Hc & b' & ->)|(Hn & e & -> & Hl & Hr)]]; wp_pure.
  - destruct (Hvalid x) as [Hv|[Hv Hx]]; [destruct Hm as (_ & Hx & _); by eapply rv_wf_elem|..];
      rewrite Hv; simpl; [|by eapply Hgood].
    rewrite HK. wp_pure. apply Hno. rewrite (proj1 Hm). left. split; [|done].
    right. exists x. by split.
  - rewrite HK. wp_pure. apply Hno. destruct Hc as [->| ->]; [|by eauto].
    left. split; [by left|done].
  - apply Hno. rewrite Ht in *. destruct t; try done; try (by destruct Hr as [m ->]; eauto).
    split; [done|]. right. split; [by apply Hl|eauto].
Qed.

Lemma wp_create_order req (Q : result response → world → Prop) w :
  (∀ r, by_body (load (req_body req)) "amount" is_valid_amount "Missing amount" False w r w →
     Q r w) →
  (∀ a, r_error (load (req_body req)) = false → amount_member (load (req_body req)) a → wp (create_insert a) Q w) →
  wp (create_order req) Q w.
Proof.
  intros Hno Hins. unfold create_order. eapply wp_by_body.
  - apply load_rv_wf.
  - intros x Hx. exact (is_valid_amount_wf x Hx).
  - done.
  - done.
  - intros x b' He Hm Hi (Ht & Hrt & a & Hd & Hg). wp_pure. simpl. rewrite Hi. wp_pure. simpl.
    rewrite Hrt. wp_decide. rewrite Hi. wp_pure. simpl. rewrite Hd. apply Hins; [done|]. by exists x.
Qed.

Lemma wp_pay_order req (Q : result response → world → Prop) w :
  (∀ r, by_body (load (req_body req)) "order_no" is_valid_order_no "Missing order_no" False w r w →
     Q r w) →
  (∀ k, r_error (load (req_body req)) = false → order_no_member (load (req_body req)) k → wp (pay_found k) Q w) →
  wp (pay_order req) Q w.
Proof.
  intros Hno Hins. unfold pay_order. eapply wp_by_body.
  - apply load_rv_wf.
  - intros x Hx. exact (is_valid_order_no_wf x Hx).
  - done.
  - done.
  - intros x b' He Hm Hi (Ht & Hrt & k & Hd & Hg). wp_pure. simpl. rewrite Hi. wp_pure. simpl.
    rewrite Hrt. wp_decide. rewrite Hi. wp_pure. simpl. rewrite Hd. apply Hins; [done|]. by exists x.
Qed.

(** *** get and list *)

Lemma wp_get_order k (Q : result response → world → Prop) w :
  (∀ p w', cached w' k = Some p → cached w k = Some p → cache_call k None w w' →
     Q (Ok (response_body p)) w') →
  (∀ w', cache_call k None w w' → wp (get_from_db k) Q w') →
  wp (get_order k) Q w.
Proof.
  intros Hhit Hmiss. unfold get_order. apply wp_bind, wp_try_get_cached_order.
  intros [p|] w' Hcc Ho; [|by apply Hmiss].
  destruct Ho as [|Ho]; [done|]. wp_pure. apply Hhit; [done| |done].
  destruct (cc_this _ _ _ _ Hcc) as [?|[?|?]]; congruence.
Qed.

(** The orders [list_orders] selects, in the order of the scan. *)
Definition listed (req : request) w : list (string * order) :=
  let q := list_query req in
  if decide (q = "") then sq_scan (db w)
  else filter (λ o, status (snd o) = c_str q) (sq_scan (db w)).

Lemma rows_all b all : rows_of sql_all b all = order_row <$> all.
Proof. done. Qed.
Lemma rows_filtered b all q : b !! 1 = Some (SqlText q) →
  rows_of sql_filtered b all = order_row <$> filter (λ o : string * order, status (snd o) = q) all.
Proof.
  intros Hb. unfold rows_of. rewrite decide_False by done. rewrite decide_True by done.
  by rewrite Hb.
Qed.

Lemma listed_length req w : (length (listed req w) ≤ length (sq_scan (db w)))%nat.
Proof. unfold listed. case_decide; [done|]. apply length_filter. Qed.

(** The query of [list_orders] with its parameter. *)
Definition list_stmt (req : request) : stmt :=
  let q := list_query req in
  if decide (q = "") then Stmt sql_all ∅ 0 else Stmt sql_filtered {[1 := SqlText (c_str q)]} 0.

(** What [list_orders] answers, by what SQLite answers: the query is refused; or it
    returns rows up to a step that returns none, which is the end when that step is done,
    and a failure that the loop takes for the end otherwise. *)
Definition list_outcome (req : request) w (r : result response) w' : Prop :=
  let (ready, d1) := sq_prepare (sql (list_stmt req)) (db w) in
  if ready : bool then
    ∃ n code, rows_read (list_stmt req) d1 n code ∧ (n ≤ length (listed req w))%nat ∧
      (code = SQLITE_DONE → n = length (listed req w)) ∧
      r = Ok (list_response (take n (listed req w))) ∧
      read_only w w' ∧ counters w' = counters w
  else
    r = Ok (json_error 500 "Internal DB error") ∧ read_only w w' ∧
    counters w' = count_sqlite_error w.

Lemma wp_list_orders req w :
  Z.of_nat (length (sq_scan (db w))) < 2 ^ 31 → wp (list_orders req) (list_outcome req w) w.
Proof.
  intros Hlen. unfold list_orders, list_outcome.
  assert (sql (list_stmt req) = if decide (list_query req = "") then sql_all else sql_filtered)
    as -> by (unfold list_stmt; by case_decide).
  apply wp_bind, wp_prepare; intros d1 Hp1 Ht1 Hs1; rewrite Hp1.
  { wp_pure. apply wp_sqlite_failure. intros w' Hc Hd Hr Hm. wp_pure. split; [done|].
    split; [|done]. split; [config|by rewrite Hd|done]. }
  pose proof (listed_length req w) as Hll. wp_pure.
  match goal with |- wp (list_loop ?fuel ?st _ _) ?Q' ?w' =>
    replace st with (list_stmt req) by (unfold list_stmt; by case_decide);
    change (wp (list_loop fuel (list_stmt req) (list_array (take 0 (listed req w))) (Z.of_nat 0)) Q' w')
  end.
  apply wp_list_loop.
  - unfold list_stmt. case_decide; simpl; set_solver.
  - unfold list_stmt. by case_decide.
  - lia.
  - unfold listed, list_stmt. simpl. rewrite Hs1.
    case_decide; [apply rows_all|]. by apply rows_filtered.
  - lia.
  - simpl. rewrite Hs1. lia.
  - intros n code d Hn Hle Hall Ht. simpl in *. apply wp_bind, wp_finalize. intros d3 _ Ht3.
    wp_pure. exists n, code. split_and!; try done. split; [config|simpl in *; congruence|done].
Qed.

Lemma list_outcome_cases req w r w' : list_outcome req w r w' →
  read_only w w' ∧ ((∃ n, r = Ok (list_response (take n (listed req w)))) ∨
                    r = Ok (json_error 500 "Internal DB error")).
Proof.
  unfold list_outcome. destruct (sq_prepare _ _) as [[] d1].
  - intros (n & code & _ & _ & _ & -> & ? & _). eauto.
  - intros (-> & ? & _). auto.
Qed.

(** ** Calls *)

Inductive call : Type :=
| CCreate (req : request) | CGet (k : string) | CPay (req : request)
| CList (req : request) | CDelete (k : string).
Definition run (c : call) : M world response :=
  match c with
  | CCreate req => create_order req
  | CGet k => get_order k
  | CPay req => pay_order req
  | CList req => list_orders req
  | CDelete k => delete_order k
  end.

(** The event a call stands for, when it answers 200. *)
Definition event_of (c : call) (e : event) : Prop :=
  match c, e with
  | CCreate req, Created k a now => amount_member (load (req_body req)) a
  | CPay req, Paid k now => ∃ k', order_no_member (load (req_body req)) k' ∧ k = c_str k'
  | CDelete k', Deleted k => k = c_str k'
  | _, _ => False
  end.
Definition mutation (c : call) : bool :=
  match c with CGet _ | CList _ => false | _ => true end.

(** What a call does to the order book: with a 200 of a mutation, one step of the
    specification; in every other case nothing. *)
Definition refines (c : call) w (r : result response) w' : Prop :=
  same_config w w' ∧
  match r with
  | Ok res =>
      if mutation c && (code_ res =? 200)
      then ∃ e, event_of c e ∧ book_step (table w) e (table w')
      else table w' = table w
  | Throw _ => w' = w
  end.

(** What the body of a 200 says of the event, in the book it happened to. *)
Definition receipt (t : book) (c : call) (e : event) (v : wvalue) : Prop :=
  match c, e with
  | CCreate _, Created k a now => v = create_value k a now
  | CPay req, Paid k now => ∃ k' o, order_no_member (load (req_body req)) k' ∧ k = c_str k' ∧
      t !! k = Some o ∧ v = pay_value k' (amount o) (created_at o) now
  | CDelete k', Deleted _ => v = delete_value k'
  | _, _ => False
  end.
(** The body of a 200 to a list request: orders of the book, each once, of the status asked for. *)
Definition listing (t : book) (req : request) (text : string) : Prop :=
  ∃ l, NoDup l.*1 ∧ text = body (list_response l) ∧
    ∀ k o, (k, o) ∈ l →
      t !! k = Some o ∧ (list_query req ≠ "" → status o = c_str (list_query req)).
(** The response [res] to [c], and the book before and after. *)
Definition effect (c : call) (t : book) (res : response) (t' : book) : Prop :=
  if mutation c && (code_ res =? 200)
  then ∃ e v, event_of c e ∧ book_step t e t' ∧ receipt t c e v ∧ body res = dump v
  else t' = t ∧ ∀ req, c = CList req → code_ res = 200 → listing t req (body res).
(** The body is not a JSON array, which the look-up of a member gives no meaning to. *)
Definition no_array (c : call) : Prop :=
  match c with
  | CCreate req | CPay req => r_t (load (req_body req)) ≠ Some TList
  | _ => True
  end.
(** What [refines] says, and what the client is told. *)
Definition performs (c : call) w (r : result response) w' : Prop :=
  same_config w w' ∧
  match r with
  | Ok res => completed_ res = false ∧ effect c (table w) res (table w')
  | Throw e => w' = w ∧ (no_array c → ∃ m, e = RuntimeError m)
  end.

Lemma listed_listing req w n : listing (table w) req (body (list_response (take n (listed req w)))).
Proof.
  assert (listed req w `sublist_of` sq_scan (db w)) as Hsub.
  { unfold listed. case_decide; [done|]. apply sublist_filter. }
  assert (take n (listed req w) `sublist_of` sq_scan (db w)) as Hsub'.
  { etrans; [apply sublist_take|done]. }
  exists (take n (listed req w)). split_and!; [|done|].
  - eapply sublist_NoDup; [|by apply fmap_sublist]. rewrite sq_scan_perm. apply NoDup_fst_map_to_list.
  - intros k o Hin. split.
    + apply elem_of_map_to_list. rewrite <- sq_scan_perm. by eapply list.elem_of_sublist.
    + intros Hq. eapply list.elem_of_sublist in Hin as Hi; [|apply sublist_take].
      unfold listed in Hi. rewrite decide_False in Hi by done.
      by apply list_elem_of_filter in Hi as [? _].
Qed.

Lemma run_performs c w :
  book_ok (table w) → Z.of_nat (length (sq_scan (db w))) < 2 ^ 31 → wp (run c) (performs c w) w.
Proof.
  intros Hok Hlen. assert (same_config w w) as Hrefl by done.
  assert (∀ o k, table w !! k = Some o → c_str (status o) = status o) as Hst.
  { intros o k Ho. by destruct (Hok k o Ho) as [[[-> _]| ->] _]. }
  assert (∀ res w', same_config w w' → table w' = table w → completed_ res = false →
    code_ res ≠ 200 → performs c w (Ok res) w') as Hsame.
  { intros res w' Hc Ht Hcl Hcode. split; [done|]. split; [done|]. unfold effect.
    rewrite (proj2 (Z.eqb_neq _ _) Hcode), andb_false_r. by split. }
  destruct c as [req|k|req|req|k]; simpl.
  - apply wp_create_order.
    { intros r [_ [[msg ->]|(e & -> & He)]]%by_body_answer; [by apply Hsame|by split]. }
    intros a _ Ha. destruct (Ha) as (x & _ & _ & _ & Hg). apply wp_create_insert; [done|..].
    + intros k now w' _ Hk Ht _ _ Hc _ _. do 2 (split; [done|]). exists (Created k a now).
      eexists. split_and!; [done| |done|done]. rewrite Ht. by constructor.
    + intros msg w' Ht Hc _ _. by apply Hsame.
  - assert (∀ res w', same_config w w' → table w' = table w → completed_ res = false →
      performs (CGet k) w (Ok res) w') as Hget by (intros; by do 3 (split; [done|])).
    apply wp_get_order.
    + intros p w' _ _ [Hc Hd _ _ _]. apply Hget; [done|by rewrite Hd|done].
    + intros w1 [Hc Hd _ _ _]. apply wp_get_from_db.
      all: intros; match goal with H : read_only _ _ |- _ => destruct H as [Hc' Ht' _] end;
        apply Hget; [config|by rewrite Ht', Hd|done].
  - apply wp_pay_order.
    { intros r [_ [[msg ->]|(e & -> & He)]]%by_body_answer; [by apply Hsame|by split]. }
    intros k _ Hk. apply wp_pay_found.
    + intros o now w' Ho Hs Ht Hc _ _ _ _. do 2 (split; [done|]).
      exists (Paid (c_str k) now). eexists.
      split_and!; [by exists k| |exists k, o; by split_and!|done]. rewrite Ht.
      apply step_paid; [done|]. by rewrite <- (Hst o _ Ho).
    + intros code msg w' Hcode [Hc Ht _]. by apply Hsame.
  - eapply wp_mono; [by apply wp_list_orders|]. intros r w' H. apply list_outcome_cases in H.
    destruct H as ([Hc Ht _] & [[n ->]| ->]); [|by apply Hsame].
    do 2 (split; [done|]). split; [done|]. intros req' [= <-] _. apply listed_listing.
  - apply wp_delete_order.
    + intros o w' Ho Ht Hc _ _ _. do 2 (split; [done|]). exists (Deleted (c_str k)). eexists.
      split_and!; [done| |done|done]. rewrite Ht. by apply (step_deleted _ _ o).
    + intros w' msg [Hc Ht _] _. by apply Hsame.
    + intros w' [Hc Ht _] _. by apply Hsame.
Qed.

Lemma run_refines c w :
  book_ok (table w) → Z.of_nat (length (sq_scan (db w))) < 2 ^ 31 → wp (run c) (refines c w) w.
Proof.
  intros Hok Hlen. eapply wp_mono; [by apply run_performs|].
  intros [res|e] w' [Hc H]; (split; [done|]); [|by destruct H].
  destruct H as [_ H]. unfold effect in H. case_match; [|by destruct H].
  destruct H as (e & v & He & Hs & _). by exists e.
Qed.

(** *** The cache *)

(** Every cached payload is the one [create_order] rendered for an order that is still
    in the table and still unpaid. *)
Definition coherent w : Prop :=
  ∀ k p, cached w k = Some p → ∃ a now,
    p = dump (create_value k a now) ∧ table w !! k = Some (Order a "PENDING" now 0).

Lemma coherent_shrink w w' :
  coherent w → table w' = table w →
  (∀ k, cached w' k = None ∨ cached w' k = cached w k) → coherent w'.
Proof.
  intros Hc Ht Hs k p Hp. rewrite Ht. apply Hc. destruct (Hs k); congruence.
Qed.

Lemma coherent_redis w w' :
  coherent w → table w' = table w → redis w' = redis w → coherent w'.
Proof. intros Hc Ht Hr. apply (coherent_shrink w); auto. right. unfold cached. by rewrite Hr. Qed.

Lemma coherent_remove w w' k :
  coherent w → (∀ k', k' ≠ k → table w' !! k' = table w !! k') →
  (∀ k', cached w' k' = None ∨ cached w' k' = cached w k') → cached w' k = None →
  coherent w'.
Proof.
  intros Hc Ht Hs Hk k' p Hp. assert (k' ≠ k) as Hn by congruence. rewrite Ht by done.
  apply Hc. destruct (Hs k'); congruence.
Qed.

(** The keys [pay_order] and [delete_order] hand to SQLite as C strings are the whole
    strings they hand to Redis. *)
Definition plain_keys (c : call) : Prop :=
  match c with
  | CPay req => ∀ k, order_no_member (load (req_body req)) k → c_str k = k
  | CDelete k => c_str k = k
  | _ => True
  end.

Lemma cache_call_none k w w' : cache_call k None w w' →
  ∀ k', cached w' k' = None ∨ cached w' k' = cached w k'.
Proof.
  intros Hcc k'. destruct (decide (k' = k)) as [->|Hk].
  - destruct (cc_this _ _ _ _ Hcc) as [?|[?|?]]; auto.
  - by apply (cc_other _ _ _ _ Hcc).
Qed.

Lemma run_coherent_lemma c w :
  coherent w → plain_keys c → Z.of_nat (length (sq_scan (db w))) < 2 ^ 31 →
  wp (run c) (λ _ w', redis_available w' = true ∨ table w' = table w ∨ (∃ req, c = CCreate req) →
                      coherent w') w.
Proof.
  intros Hc Hp Hlen. destruct c as [req|k|req|req|k]; simpl in *.
  - apply wp_create_order; [by intros|]. intros a _ Ha.
    destruct (Ha) as (x & _ & _ & _ & Hg). apply wp_create_insert; [done|..].
    + intros k now w' _ Hk Ht _ _ _ Hoth Hthis _ k' p Hp'. rewrite Ht.
      destruct (decide (k' = k)) as [->|Hn].
      * rewrite lookup_insert_eq. destruct Hthis as [?|[Hold|?]]; [congruence| |].
        -- rewrite Hp' in Hold. symmetry in Hold. apply Hc in Hold as (? & ? & _ & ?).
           congruence.
        -- exists a, now. split; congruence.
      * rewrite lookup_insert_ne by done. apply Hc. destruct (Hoth k' Hn); congruence.
    + intros msg w' Ht _ Hr _ _. by apply (coherent_redis w).
  - apply wp_get_order.
    + intros p w' _ _ Hcc _. apply (coherent_shrink w); [done| |by apply (cache_call_none k)].
      by rewrite (cc_db _ _ _ _ Hcc).
    + intros w1 Hcc. assert (coherent w1) as Hc1.
      { apply (coherent_shrink w); [done| |by apply (cache_call_none k)].
        by rewrite (cc_db _ _ _ _ Hcc). }
      apply wp_get_from_db.
      * intros o w' _ [_ Ht Hr] _ _. by apply (coherent_redis w1).
      * intros w' [_ Ht Hr] _ _. by apply (coherent_redis w1).
      * intros w' [_ Ht Hr] _ _. by apply (coherent_redis w1).
  - apply wp_pay_order; [by intros|]. intros k _ Hk. specialize (Hp k Hk). apply wp_pay_found.
    + intros o now w' Ho Hs Ht _ _ _ Hall Hav Hor. rewrite Hp in *.
      destruct Hor as [Ha|[He|[req' ?]]]; [| |done].
      * apply (coherent_remove w w' k); auto. intros k' Hn. rewrite Ht.
        by rewrite lookup_insert_ne.
      * by apply (coherent_shrink w).
    + intros code msg w' _ [_ Ht Hr] _. by apply (coherent_redis w).
  - eapply wp_mono; [by apply wp_list_orders|].
    intros r w' H _. apply list_outcome_cases in H as ([_ Ht Hr] & _). by apply (coherent_redis w).
  - apply wp_delete_order.
    + intros o w' Ho Ht _ _ Hall Hav Hor. rewrite Hp in *.
      destruct Hor as [Ha|[He|[req' ?]]]; [| |done].
      * apply (coherent_remove w w' k); auto. intros k' Hn. rewrite Ht.
        by rewrite lookup_delete_ne.
      * by apply (coherent_shrink w).
    + intros w' msg [_ Ht Hr] _ _. by apply (coherent_redis w).
    + intros w' [_ Ht Hr] _ _. by apply (coherent_redis w).
Qed.

(** *** Histories *)

(** The service handles one call after the other; between calls anything may happen to
    the cache, the counters and the flags, but nobody else writes the table. *)
Inductive served : world → world → Prop :=
| served_refl w : served w w
| served_call w c w' :
    Z.of_nat (length (sq_scan (db w))) < 2 ^ 31 → served (snd (run c w)) w' → served w w'
| served_other w w1 w' : table w1 = table w → served w1 w' → served w w'.

Lemma served_steps w w' : served w w' → book_ok (table w) →
  ∃ es, book_steps (table w) es (table w').
Proof.
  intros Hs. induction Hs as [w|w c w' Hlen Hs IH|w w1 w' Ht Hs IH]; intros Hok.
  - exists []. constructor.
  - destruct (run_refines c w Hok Hlen) as [_ Hr]. destruct (run c w) as [r w1]. simpl in *.
    destruct r as [res|e]; [|subst; auto].
    destruct (mutation c && (code_ res =? 200)).
    + destruct Hr as (e & _ & He). destruct IH as [es Hes]; [by eapply book_step_ok|].
      exists (e :: es). by econstructor.
    + rewrite <- Hr. apply IH. by rewrite Hr.
  - rewrite Ht in IH. by apply IH.
Qed.
End Calls.

Lemma book_steps_same t es t' k o :
  book_steps t es t' → Deleted k ∉ es → t !! k = Some o →
  ∃ o', t' !! k = Some o' ∧ same_order o o'.
Proof.
  intros Hs. revert o. induction Hs as [t|t e t1 es t2 He Hs IH]; intros o Hk Ho.
  - exists o. by repeat split.
  - apply not_elem_of_cons in Hk as [Hn Hk].
    destruct (book_step_same t e t1 k o He (not_eq_sym Hn) Ho) as (o1 & Ho1 & Ha & Hc & Hp).
    destruct (IH o1 Hk Ho1) as (o2 & Ho2 & Ha' & Hc' & Hp').
    exists o2. split; [done|]. split_and!; [congruence|congruence|].
    intros Hpaid. specialize (Hp Hpaid). subst o1. auto.
Qed.

Lemma book_steps_ok t es t' : book_steps t es t' → book_ok t → book_ok t'.
Proof. induction 1; eauto using book_step_ok. Qed.

(** ** Properties *)

Section Properties.
Context `{ss : !StdSort, ui : !UMapIter, sq : !Sqlite, rd : !Redis, ev : !Environment}.
Implicit Types w : world.

Abbreviation table w := (sq_table (db w)).

(** C16: [create_order] on every request, by the body.  Text that is not JSON is answered
    400, and so is an object without a usable amount (none, or one that is not a positive
    number); a JSON value other than an object or an array throws a [runtime_error]; an
    empty array is a 400, and of an array with elements it is only said that a response to
    it is that 400; in all these cases the world is as before.  Otherwise the body is an
    object with a positive amount, and if SQLite prepares the [INSERT] and its step is
    done, the order is stored as PENDING under the generated number, which was free,
    counted, and answered 200 with the value of the row; if not, the answer is a 500, one
    SQLite error is counted, and neither the table nor the cache is changed. *)
Theorem create_order_spec (req : request) w :
  wp (create_order req) (λ r w',
    let b := load (req_body req) in
    by_body b "amount" is_valid_amount "Missing amount"
      (∃ a, amount_member b a ∧ create_outcome a w r w') w r w') w.
Proof.
  apply wp_create_order; [by intros r; apply by_body_mono|].
  intros a He Ha. destruct (Ha) as (x & (Hobj & _) & _ & _ & Hg).
  eapply wp_mono; [by apply wp_create_outcome|]. intros r w' H. unfold by_body.
  rewrite He, Hobj. right. by exists a.
Qed.


(** [get_order] never changes the table.  It answers with the cached text when the
    cache has one for this order, and otherwise with the row, a 404 or, when the statement
    cannot be prepared, a 500. *)
Theorem get_order_spec (k : string) w :
  wp (get_order k) (λ r w',
    table w' = table w ∧ same_config w w' ∧
    ((∃ p, cached w k = Some p ∧ r = Ok (response_body p)) ∨
     (∃ o, table w !! c_str k = Some o ∧
        r = Ok (response_json 200
                  (get_value k (amount o) (c_str (status o)) (created_at o) (paid_at o)))) ∨
     r = Ok (json_error 404 "Order not found") ∨
     (r = Ok (json_error 500 "Internal DB error") ∧
        counters w' sqlite_errors = swrap 32 (counters w sqlite_errors + 1)))) w.
Proof.
  apply wp_get_order.
  - intros p w' _ Hp [Hc Hd _ _ _ _ _]. rewrite Hd. split_and!; [done|done|]. left. eauto.
  - intros w1 [Hc Hd Hse _ _ _ _]. apply wp_get_from_db.
    + intros o w' Ho [Hc' Ht _] _. rewrite Ht, Hd in *. split_and!; [done|config|].
      right; left. eauto.
    + intros w' [Hc' Ht _] _. rewrite Ht, Hd. split_and!; [done|config|]. by right; right; left.
    + intros w' [Hc' Ht _] Hm. rewrite Ht, Hd. split_and!; [done|config|].
      right; right; right. split; [done|]. rewrite Hm, <- Hse. done.
Qed.

(** [delete_order] answers 200 exactly when it removed the row, and then only that row;
    when Redis is then reported available the cached copy is gone.  In every other case
    the table and the cache are as before. *)
Theorem delete_order_spec (k : string) w :
  wp (delete_order k) (λ r w',
    same_config w w' ∧
    ((∃ o, table w !! c_str k = Some o ∧ table w' = delete (c_str k) (table w) ∧
        r = Ok (response_json 200 (delete_value k)) ∧
        (redis_available w' = true → cached w' k = None)) ∨
     (read_only w w' ∧
        ((∃ msg, r = Ok (json_error 404 msg)) ∧ counters w' = counters w ∨
         r = Ok (json_error 500 "Internal DB error") ∧ counters w' = count_sqlite_error w)))) w.
Proof.
  apply wp_delete_order.
  - intros o w' Ho Ht Hc _ _ Ha. split; [done|]. left. by exists o.
  - intros w' msg [Hc Ht Hr] Hm. split; [done|]. right. split; [done|]. left. eauto.
  - intros w' [Hc Ht Hr] Hm. split; [done|]. right. split; [done|]. by right.
Qed.


(** C2: refinement.  Every handler implements the abstract order book: a 200 of create, pay
    or delete is exactly one step of the specification, for the order the request names;
    every other answer and every exception leaves the book unchanged, and an exception
    leaves the whole world unchanged.  No handler leaks a statement or touches the
    configuration or the in-flight counter. *)
Theorem handlers_refine_book (c : call) w :
  book_ok (table w) → Z.of_nat (length (sq_scan (db w))) < 2 ^ 31 →
  wp (run c) (refines c w) w.
Proof. apply run_refines. Qed.

(** C15: the life of an order, over any sequence of calls interleaved with any behaviour of
    the cache.  The book is changed by steps of the specification only; every order keeps
    a positive amount and a status PENDING or PAID; as long as it is not deleted its
    amount and creation time never change, and once paid it never changes at all (so it
    is paid at most once). *)
Theorem order_lifecycle w w' :
  served w w' → book_ok (table w) →
  ∃ es, book_steps (table w) es (table w') ∧ book_ok (table w') ∧
    ∀ k o, table w !! k = Some o → Deleted k ∉ es →
      ∃ o', table w' !! k = Some o' ∧ same_order o o'.
Proof.
  intros Hs Hok. destruct (served_steps w w' Hs Hok) as [es Hes]. exists es.
  split_and!; [done|by eapply book_steps_ok|].
  intros k o Ho Hk. by eapply book_steps_same.
Qed.

(** C5: cache coherence.  If every cached payload is that of an order still unpaid and still
    in the table, this is so after any call, provided the keys have no NUL byte and, when
    the call paid or deleted an order, Redis is reported available afterwards. *)
Theorem cache_stays_coherent (c : call) w :
  coherent w → plain_keys c → Z.of_nat (length (sq_scan (db w))) < 2 ^ 31 →
  wp (run c) (λ _ w', redis_available w' = true ∨ table w' = table w ∨ (∃ req, c = CCreate req) →
                      coherent w') w.
Proof. apply run_coherent_lemma. Qed.

(** C26: with a coherent cache, a 200 of [get_order] tells the truth: the order is in the
    table, and the body is either its stored form, or the form rendered at creation, and
    then the order is still unpaid. *)
Theorem get_order_truthful (k : string) w :
  coherent w → book_ok (table w) → c_str k = k →
  wp (get_order k) (λ r w', ∀ res, r = Ok res → code_ res = 200 →
    ∃ o, table w' !! k = Some o ∧
      (body res = dump (create_value k (amount o) (created_at o)) ∧ status o = "PENDING" ∨
       body res = dump (get_value k (amount o) (status o) (created_at o) (paid_at o)))) w.
Proof.
  intros Hcoh Hok Hk. apply wp_get_order.
  - intros p w' _ Hp [_ Hd _ _ _ _ _] res [= <-] _. rewrite Hd.
    destruct (Hcoh k p Hp) as (a & now & -> & Ho). eexists. split; [done|]. by left.
  - intros w1 [_ Hd _ _ _ _ _]. apply wp_get_from_db.
    + intros o w' Ho [_ Ht _] _ res [= <-] _. rewrite Ht. rewrite Hk in Ho.
      exists o. split; [done|]. right. simpl. rewrite Hd in Ho.
      by destruct (Hok k o Ho) as [[[-> _]| ->] _].
    + intros w' _ _ res [= <-]. done.
    + intros w' _ _ res [= <-]. done.
Qed.
End Properties.
