(* ===== verification/OrderExamples.v ===== *)
(** * Concrete runs of the order handlers

    Witnesses for the theorems of OrderTheorems.v on the backends of Backends.v, and runs
    that show where the service's guarantees stop. *)

From S2P Require Import Prelude Doubles JsonRead JsonWrite QueryString Http Service Backends.
From S2P Require Import OrderRoutes Wp OrderSpec OrderTheorems.
Open Scope Z_scope.

Definition quote (s : string) : string := String DQ (s +:+ String DQ "").
Definition post_request (b : string) : request :=
  Request Post "" "" qs_empty [] b "" 1 1 true false false.
Definition list_request (url : string) : request :=
  Request Get url url (query_string_of url true) [] "" "" 1 1 true false false.

Definition order_1 : order := Order (double_of_Z 5) "PENDING" 7 0.
Definition book_1 : book := {["ORD1" := order_1]}.
Definition world_1 : world := toy_world book_1 [] [].
(** The world of [world_1] after [create_order] would have cached the order. *)
Definition cached_world (redis_fails : list bool) : world :=
  set_redis (Some (ToyRedis {["order:ORD1" := dump (create_value "ORD1" (double_of_Z 5) 7)]}
                            redis_fails)) world_1.

Lemma book_1_ok : book_ok (sq_table (db world_1)).
Proof. apply map_Forall_singleton. by split; [left|]. Qed.

Lemma cached_world_coherent l : coherent (cached_world l).
Proof.
  intros k p. unfold cached. simpl. intros [Hk <-]%lookup_singleton_Some.
  apply (cache_key_inj "ORD1") in Hk. subst k. by exists (double_of_Z 5), 7.
Qed.

Definition pay_request : request :=
  post_request ("{" +:+ quote "order_no" +:+ ":" +:+ quote "ORD1" +:+ "}").
(** The same order number followed by an escaped NUL. *)
Definition pay_request_NUL : request :=
  post_request ("{" +:+ quote "order_no" +:+ ":" +:+ quote ("ORD1" +:+ String BSL "u0000x")
                +:+ "}").

Definition status_in (w : world) (k : string) : option string :=
  status <$> (sq_table (db w) !! k).
Definition body_of (r : result response) : option string :=
  match r with Ok res => Some (body res) | Throw _ => None end.


Lemma handlers_refine_book_witness :
  wp (run (CPay pay_request)) (refines (CPay pay_request) world_1) world_1.
Proof. apply handlers_refine_book; [exact book_1_ok|vm_compute; reflexivity]. Defined.

Lemma order_lifecycle_witness :
  ∃ es, book_steps (sq_table (db world_1)) es (sq_table (db (snd (run (CPay pay_request) world_1))))
    ∧ book_ok (sq_table (db (snd (run (CPay pay_request) world_1)))) ∧
    ∀ k o, sq_table (db world_1) !! k = Some o → Deleted k ∉ es →
      ∃ o', sq_table (db (snd (run (CPay pay_request) world_1))) !! k = Some o' ∧ same_order o o'.
Proof.
  apply order_lifecycle; [|exact book_1_ok].
  apply (served_call world_1 (CPay pay_request)); [vm_compute; reflexivity|constructor].
Defined.

Lemma pay_request_plain : plain_keys (CPay pay_request).
Proof.
  intros k (x & (_ & Hx & _) & _ & Hs & _). revert Hx Hs.
  set (l := r_l (load (req_body pay_request))). vm_compute in l. subst l.
  intros [-> | []%elem_of_nil]%elem_of_cons. vm_compute. by intros [= <-].
Qed.

Lemma cache_stays_coherent_witness :
  wp (run (CPay pay_request)) (λ _ w',
      redis_available w' = true ∨ sq_table (db w') = sq_table (db (cached_world []))
      ∨ (∃ req, CPay pay_request = CCreate req) → coherent w') (cached_world []).
Proof.
  apply cache_stays_coherent;
    [exact (cached_world_coherent [])|exact pay_request_plain|vm_compute; reflexivity].
Defined.

Lemma get_order_truthful_witness :
  wp (get_order "ORD1") (λ r w', ∀ res, r = Ok res → code_ res = 200 →
    ∃ o, sq_table (db w') !! "ORD1" = Some o ∧
      (body res = dump (create_value "ORD1" (amount o) (created_at o)) ∧ status o = "PENDING" ∨
       body res = dump (get_value "ORD1" (amount o) (status o) (created_at o) (paid_at o))))
    (cached_world []).
Proof.
  apply get_order_truthful; [exact (cached_world_coherent [])|exact book_1_ok|reflexivity].
Defined.

(** Paying with an order number that carries a NUL byte pays the order before the NUL,
    but invalidates the cache entry of the whole string: with both backends healthy the
    table says PAID and [GET /order/get] goes on answering PENDING from the cache. *)
Theorem pay_with_NUL_leaves_stale_cache :
  let p := pay_order pay_request_NUL (cached_world []) in
  match fst p with Ok res => code_ res = 200 | Throw _ => False end ∧
  redis_available (snd p) = true ∧
  status_in (snd p) "ORD1" = Some "PAID" ∧
  body_of (fst (get_order "ORD1" (snd p))) = Some (dump (create_value "ORD1" (double_of_Z 5) 7)).
Proof. vm_compute. repeat split. Qed.

(** A Redis failure during the invalidation of a paid order is answered 200 and leaves
    the PENDING payload in the cache, which later reads return until it expires. *)
Theorem failed_invalidation_leaves_stale_cache :
  let p := pay_order pay_request (cached_world [true]) in
  match fst p with Ok res => code_ res = 200 | Throw _ => False end ∧
  redis_available (snd p) = false ∧
  status_in (snd p) "ORD1" = Some "PAID" ∧
  body_of (fst (get_order "ORD1" (snd p))) = Some (dump (create_value "ORD1" (double_of_Z 5) 7)).
Proof. vm_compute. repeat split. Qed.

(** A failed [sqlite3_step] is not always reported: reading an existing order then
    answers 404, listing answers 200 with no orders, deleting answers 404, and none of
    them counts a SQLite error. *)
Theorem step_failures_misreported :
  let w := toy_world book_1 [false; true] [] in
  let g := get_order "ORD1" w in
  let l := list_orders (list_request "/order/list") w in
  let d := delete_order "ORD1" w in
  fst g = Ok (json_error 404 "Order not found") ∧
  fst l = Ok (list_response []) ∧
  fst d = Ok (json_error 404 "Order not found or could not delete") ∧
  (λ w', counters w' sqlite_errors) <$> [snd g; snd l; snd d] = [0; 0; 0].
Proof. vm_compute. repeat split. Qed.

(** Bodies that are JSON but not objects escape the validation of [create_order]: a
    number makes [has] throw, an empty list is "Missing amount", and a list with elements
    compares keys that were never set. *)
Theorem create_order_other_bodies :
  fst (create_order (post_request "5") world_1)
    = Throw (RuntimeError "value is not a container") ∧
  fst (create_order (post_request "[]") world_1) = Ok (json_error 400 "Missing amount") ∧
  fst (create_order (post_request "[1]") world_1) = Throw (UB "key of a list element").
Proof. vm_compute. repeat split. Qed.
