(* ===== verification/Middleware.v ===== *)
(** * crow/middleware.h and middleware_context.h

    The two recursive helpers that run a tuple of middlewares around a handler, for any
    middlewares: a middleware is a pair of effectful functions on the response and the
    context.  [N] of the templates is the position in the list. *)

From S2P Require Import Prelude Doubles JsonRead JsonWrite Utility QueryString Http Service.
Open Scope Z_scope.

Section Middleware.
(** [S] is the world the middlewares act on, [C] the context tuple. *)
Context {S C : Type}.

Record middleware : Type := Mw {
  is_global : bool;                       (* not an [ILocalMiddleware] *)
  before_handle : request → response → C → M S (response * C);
  after_handle : request → response → C → M S (response * C);
}.

(** [middleware_call_criteria_only_global] and [middleware_call_criteria_dynamic], the
    latter with its [mutable] slider. *)
Inductive criteria : Type :=
| only_global
| dynamic_fwd (indices : list nat) (slider : nat)
| dynamic_bwd (indices : list nat) (slider : Z).

Definition dynamic_fwd_init (indices : list nat) : criteria := dynamic_fwd indices 0.
Definition dynamic_bwd_init (indices : list nat) : criteria :=
  dynamic_bwd indices (Z.of_nat (length indices) - 1).

Definition enabled (cc : criteria) (mw : middleware) (mw_index : nat) : bool * criteria :=
  match cc with
  | only_global => (is_global mw, cc)
  | dynamic_fwd indices slider =>
      if bool_decide (slider < length indices)%nat
         && bool_decide (indices !! slider = Some mw_index)
      then (true, dynamic_fwd indices (slider + 1)) else (false, cc)
  | dynamic_bwd indices slider =>
      if (0 <=? slider) && bool_decide (indices !! Z.to_nat slider = Some mw_index)
      then (true, dynamic_bwd indices (slider - 1)) else (false, cc)
  end.

(** [true] when some middleware completed the response. *)
Fixpoint middleware_call_helper (cc : criteria) (N : nat) (middlewares : list middleware)
  (req : request) (res : response) (ctx : C) : M S (bool * (response * C)) :=
  match middlewares with
  | [] => mret (false, (res, ctx))
  | mw :: rest =>
      let e := enabled cc mw N in
      if negb (fst e) then middleware_call_helper (snd e) (N + 1) rest req res ctx
      else
        rc ← before_handle mw req res ctx;
        if is_completed (fst rc) then
          rc' ← after_handle mw req (fst rc) (snd rc);
          mret (true, rc')
        else
          r ← middleware_call_helper (snd e) (N + 1) rest req (fst rc) (snd rc);
          if (fst r : bool) then
            rc' ← after_handle mw req (fst (snd r)) (snd (snd r));
            mret (true, rc')
          else mret (false, snd r)
  end.

(** [mws] is the tuple from position [N] down to 0. *)
Fixpoint after_handlers_down (cc : criteria) (N : nat) (mws : list middleware)
  (req : request) (res : response) (ctx : C) : M S (response * C) :=
  match mws with
  | [] => mret (res, ctx)
  | mw :: rest =>
      let e := enabled cc mw N in
      if (fst e : bool) then
        rc ← after_handle mw req res ctx;
        after_handlers_down (snd e) (N - 1) rest req (fst rc) (snd rc)
      else after_handlers_down (snd e) (N - 1) rest req res ctx
  end.
Definition after_handlers_call_helper (cc : criteria) (middlewares : list middleware)
  (req : request) (res : response) (ctx : C) : M S (response * C) :=
  after_handlers_down cc (length middlewares - 1) (rev middlewares) req res ctx.

(** ** A reference definition

    Run the [before_handle]s in order up to and including the first that completes the
    response, and collect the middlewares that ran, the last first; then, if the response
    is complete, run their [after_handle]s in that order. *)
Fixpoint run_before (ran : list middleware) (mws : list middleware)
  (req : request) (res : response) (ctx : C)
  : M S (bool * list middleware * (response * C)) :=
  match mws with
  | [] => mret (false, ran, (res, ctx))
  | mw :: rest =>
      rc ← before_handle mw req res ctx;
      if is_completed (fst rc) then mret (true, mw :: ran, rc)
      else run_before (mw :: ran) rest req (fst rc) (snd rc)
  end.
Fixpoint run_after (mws : list middleware) (req : request) (res : response) (ctx : C)
  : M S (response * C) :=
  match mws with
  | [] => mret (res, ctx)
  | mw :: rest => rc ← after_handle mw req res ctx; run_after rest req (fst rc) (snd rc)
  end.
Definition run_chain (mws : list middleware) (req : request) (res : response) (ctx : C)
  : M S (bool * (response * C)) :=
  b ← run_before [] mws req res ctx;
  if (fst (fst b) : bool) then
    rc ← run_after (snd (fst b)) req (fst (snd b)) (snd (snd b)); mret (true, rc)
  else mret (false, snd b).

Lemma M_bind_eq {A B} (m : M S A) (f : A → M S B) s :
  (m ≫= f) s = match m s with (Ok a, s') => f a s' | (Throw e, s') => (Throw e, s') end.
Proof. done. Qed.

Lemma run_after_app mws1 mws2 req rc s :
  run_after (mws1 ++ mws2) req (fst rc) (snd rc) s
  = (rc' ← run_after mws1 req (fst rc) (snd rc); run_after mws2 req (fst rc') (snd rc')) s.
Proof.
  revert rc s. induction mws1 as [|mw mws1 IH]; intros rc s; simpl.
  - by destruct rc.
  - rewrite !M_bind_eq. destruct (after_handle _ _ _ _ s) as [[rc1|e] s1]; [|done].
    by rewrite IH.
Qed.

(** The helper, started with middlewares [ran] already around it. *)
Lemma call_helper_run_before N mws req res ctx ran s :
  Forall (λ mw, is_global mw = true) mws →
  (b ← run_before ran mws req res ctx;
   if (fst (fst b) : bool) then
     rc ← run_after (snd (fst b)) req (fst (snd b)) (snd (snd b)); mret (true, rc)
   else mret (false, snd b)) s
  = (r ← middleware_call_helper only_global N mws req res ctx;
     if (fst r : bool) then
       rc ← run_after ran req (fst (snd r)) (snd (snd r)); mret (true, rc)
     else mret (false, snd r)) s.
Proof.
  intros Hg. revert N res ctx ran s.
  induction Hg as [|mw mws Hmw Hg IH]; intros N res ctx ran s; [done|].
  simpl. rewrite Hmw. simpl. rewrite !M_bind_eq.
  destruct (before_handle mw req res ctx s) as [[rc|e] s1]; [|done].
  destruct (is_completed (fst rc)).
  - simpl. rewrite !M_bind_eq.
    destruct (after_handle mw req (fst rc) (snd rc) s1) as [[rc1|e] s2]; [|done]. done.
  - rewrite <- !M_bind_eq.
    change ((b ← run_before (mw :: ran) mws req (fst rc) (snd rc);
       if (fst (fst b) : bool) then
         rc ← run_after (snd (fst b)) req (fst (snd b)) (snd (snd b)); mret (true, rc)
       else mret (false, snd b)) s1 = (r ← (r ← middleware_call_helper only_global (N + 1) mws req
         (fst rc) (snd rc); if (fst r : bool) then
            rc' ← after_handle mw req (fst (snd r)) (snd (snd r));
            mret (true, rc')
          else mret (false, snd r)); if (fst r : bool) then
       rc ← run_after ran req (fst (snd r)) (snd (snd r)); mret (true, rc)
     else mret (false, snd r)) s1).
    rewrite (IH (N + 1)%nat), !M_bind_eq.
    destruct (middleware_call_helper _ _ _ _ _ _ s1) as [[[[] rc1]|e] s2]; [|done|done].
    simpl. rewrite !M_bind_eq.
    destruct (after_handle mw req (fst rc1) (snd rc1) s2) as [[rc2|e] s3]; done.
Qed.

Lemma after_down_run_after cc N mws req res ctx s :
  cc = only_global → Forall (λ mw, is_global mw = true) mws →
  after_handlers_down cc N mws req res ctx s = run_after mws req res ctx s.
Proof.
  intros -> Hg. revert N res ctx s.
  induction Hg as [|mw mws Hmw Hg IH]; intros N res ctx s; [done|].
  simpl. rewrite Hmw. simpl. rewrite !M_bind_eq.
  destruct (after_handle mw req res ctx s) as [[rc|e] s1]; [|done]. apply IH.
Qed.

(** C28: the template recursion is the protocol one expects.  For global middlewares with
    arbitrary effects, [middleware_call_helper] runs the [before_handle]s in order until
    one completes the response, and then exactly the [after_handle]s of the middlewares
    that ran, in reverse order; if none completes it runs no [after_handle], and
    [after_handlers_call_helper] later runs all of them, in reverse order. *)
Theorem middleware_protocol (N : nat) (mws : list middleware) req res ctx s :
  Forall (λ mw, is_global mw = true) mws →
  middleware_call_helper only_global N mws req res ctx s = run_chain mws req res ctx s ∧
  after_handlers_call_helper only_global mws req res ctx s = run_after (rev mws) req res ctx s.
Proof.
  intros Hg. split.
  - unfold run_chain. rewrite (call_helper_run_before N) by done. rewrite M_bind_eq.
    destruct (middleware_call_helper _ _ _ _ _ _ s) as [[[[] [res1 ctx1]]|e] s1]; done.
  - unfold after_handlers_call_helper. apply after_down_run_after; [done|].
    by apply Forall_rev.
Qed.
End Middleware.
Arguments middleware : clear implicits.
