(* ===== verification/Cookies.v ===== *)
(** * Cookies: crow/middlewares/cookie_parser.h, and utf-8.h

    A cookie and its text, the context of [CookieParser] and what it does before and after a
    handler; and that the pairs at the front of the Set-Cookie headers, sent back in a Cookie
    header, are read as the names and values that were set. *)

From S2P Require Import Prelude Doubles JsonRead JsonWrite Utility QueryString Http Service.
From S2P Require Import OrderRoutes Middleware Text.
Open Scope Z_scope.

(** ** A cookie *)

Inductive SameSitePolicy : Type := Strict | Lax | None_.
(** [std::tm], as far as [put_time] reads it. *)
Record date : Type := Date { tm_date : tm; tm_wday : Z }.
Record Cookie : Type := Cookie_ {
  key_ : string;
  value_ : string;
  max_age_ : option Z;
  domain_ : string;
  path_ : string;
  secure_ : bool;
  httponly_ : bool;
  expires_at_ : option date;
  same_site_ : option SameSitePolicy;
}.
Definition cookie_new (key value : string) : Cookie :=
  Cookie_ key value None "" "" false false None None.
Definition cookie_value (v : string) (c : Cookie) : Cookie :=
  Cookie_ (key_ c) v (max_age_ c) (domain_ c) (path_ c) (secure_ c) (httponly_ c) (expires_at_ c) (same_site_ c).
Definition cookie_max_age (v : Z) (c : Cookie) : Cookie :=
  Cookie_ (key_ c) (value_ c) (Some v) (domain_ c) (path_ c) (secure_ c) (httponly_ c) (expires_at_ c) (same_site_ c).
Definition cookie_domain (v : string) (c : Cookie) : Cookie :=
  Cookie_ (key_ c) (value_ c) (max_age_ c) v (path_ c) (secure_ c) (httponly_ c) (expires_at_ c) (same_site_ c).
Definition cookie_path (v : string) (c : Cookie) : Cookie :=
  Cookie_ (key_ c) (value_ c) (max_age_ c) (domain_ c) v (secure_ c) (httponly_ c) (expires_at_ c) (same_site_ c).
Definition cookie_secure (c : Cookie) : Cookie :=
  Cookie_ (key_ c) (value_ c) (max_age_ c) (domain_ c) (path_ c) true (httponly_ c) (expires_at_ c) (same_site_ c).
Definition cookie_httponly (c : Cookie) : Cookie :=
  Cookie_ (key_ c) (value_ c) (max_age_ c) (domain_ c) (path_ c) (secure_ c) true (expires_at_ c) (same_site_ c).
Definition cookie_expires (v : date) (c : Cookie) : Cookie :=
  Cookie_ (key_ c) (value_ c) (max_age_ c) (domain_ c) (path_ c) (secure_ c) (httponly_ c) (Some v) (same_site_ c).
Definition cookie_same_site (v : SameSitePolicy) (c : Cookie) : Cookie :=
  Cookie_ (key_ c) (value_ c) (max_age_ c) (domain_ c) (path_ c) (secure_ c) (httponly_ c) (expires_at_ c) (Some v).

(** [put_time] with [HTTP_DATE_FORMAT], on fields in range. *)
Definition name_at (l : list string) (i : Z) : string := default "?" (l !! Z.to_nat i).
Definition http_date (d : date) : string :=
  let t := tm_date d in
  name_at ["Sun"; "Mon"; "Tue"; "Wed"; "Thu"; "Fri"; "Sat"] (tm_wday d) +:+ ", " +:+ pad2 (tm_mday t)
  +:+ " " +:+ name_at ["Jan"; "Feb"; "Mar"; "Apr"; "May"; "Jun"; "Jul"; "Aug"; "Sep"; "Oct"; "Nov"; "Dec"] (tm_mon t)
  +:+ " " +:+ to_string (tm_year t + 1900) +:+ " " +:+ pad2 (tm_hour t) +:+ ":" +:+ pad2 (tm_min t)
  +:+ ":" +:+ pad2 (tm_sec t) +:+ " GMT".
Definition DIVIDER : string := "; ".
Definition dumpString (cond : bool) (prefix value : string) : string :=
  if cond then DIVIDER +:+ prefix +:+ value else "".
Definition same_site_name (p : SameSitePolicy) : string :=
  match p with Strict => "Strict" | Lax => "Lax" | None_ => "None" end.
(** The attributes, and the whole. *)
Definition attributes (c : Cookie) : string :=
  dumpString (negb (bool_decide (domain_ c = ""))) "Domain=" (domain_ c)
  +:+ dumpString (negb (bool_decide (path_ c = ""))) "Path=" (path_ c)
  +:+ dumpString (secure_ c) "Secure" "" +:+ dumpString (httponly_ c) "HttpOnly" ""
  +:+ match expires_at_ c with Some d => DIVIDER +:+ "Expires=" +:+ http_date d | None => "" end
  +:+ match max_age_ c with Some s => DIVIDER +:+ "Max-Age=" +:+ to_string s | None => "" end
  +:+ match same_site_ c with Some p => DIVIDER +:+ "SameSite=" +:+ same_site_name p | None => "" end.
Definition cookie_dump (c : Cookie) : string :=
  key_ c +:+ "=" +:+ (if bool_decide (value_ c = "") then String DQ (String DQ "") else value_ c)
  +:+ attributes c.

(** ** The middleware *)

(** [jar] is in insertion order. *)
Record cookie_context : Type := CookieContext {
  jar : list (string * string);
  cookies_to_add : list Cookie;
}.
Definition cookie_context_new : cookie_context := CookieContext [] [].
Definition jar_find (jar : list (string * string)) (key : string) : option string :=
  snd <$> head (filter (λ kv, fst kv = key) jar).
Definition get_cookie (ctx : cookie_context) (key : string) : string := default "" (jar_find (jar ctx) key).
Definition set_cookie (c : Cookie) (ctx : cookie_context) : cookie_context :=
  CookieContext (jar ctx) (cookies_to_add ctx ++ [c]).

(** A value in quotes loses them. *)
Definition unquote (v : string) : string :=
  if bool_decide (char_at v 0 = DQ) && bool_decide (char_at v (String.length v - 1) = DQ)
  then match but_last v 2 with Some n => stake n (sdrop 1 v) | None => sdrop 1 v end else v.
(** The loop over a Cookie header; each turn takes at least one character. *)
Fixpoint parse_cookies (fuel : nat) (cookies : string) (pos : nat) (jar : list (string * string))
  : list (string * string) :=
  match fuel with
  | O => jar
  | S fuel' =>
      if negb (pos <? String.length cookies)%nat then jar
      else
        match find_from "=" pos cookies with
        | None => jar
        | Some pos_equal =>
            let name := trim (stake (pos_equal - pos) (sdrop pos cookies)) in
            let pos := (pos_equal + 1)%nat in
            if bool_decide (pos = String.length cookies) then jar
            else
              let pos_semicolon := find_from ";" pos cookies in
              let value := match pos_semicolon with
                           | Some p => stake (p - pos) (sdrop pos cookies)
                           | None => sdrop pos cookies end in
              let jar := emplace_new name (unquote (trim value)) jar in
              match pos_semicolon with
              | Some p => parse_cookies fuel' cookies (p + 1) jar
              | None => jar
              end
        end
  end.
Definition cookies_before (req : request) (res : response) (ctx : cookie_context)
  : response * cookie_context :=
  let count := ci_count (req_headers req) "Cookie" in
  if (count =? 0)%nat then (res, ctx)
  else if (1 <? count)%nat then (res_end_plain (set_code 400 res), ctx)
  else
    let cookies := req_get_header_value req "Cookie" in
    (res, CookieContext (parse_cookies (S (String.length cookies)) cookies 0 (jar ctx)) (cookies_to_add ctx)).
Definition cookies_after (res : response) (ctx : cookie_context) : response :=
  foldl (λ res c, add_header "Set-Cookie" (cookie_dump c) res) res (cookies_to_add ctx).

(** In a tuple of contexts [C], whose part for [CookieParser] is read and written by the two
    functions. *)
Definition CookieParser {S C : Type} (get_ctx : C → cookie_context) (set_ctx : cookie_context → C → C)
  : middleware S C :=
  Mw true
    (λ req res ctx, let '(res, c) := cookies_before req res (get_ctx ctx) in mret (res, set_ctx c ctx))
    (λ req res ctx, mret (cookies_after res (get_ctx ctx), ctx)).

(** utf-8.h *)
Definition utf8_after (res : response) : response :=
  if bool_decide (res_get_header_value res "Content-Type" = "")
  then set_header "Content-Type" "text/plain; charset=utf-8" res else res.
Definition UTF8 {S C : Type} : middleware S C :=
  Mw true (λ req res ctx, mret (res, ctx)) (λ req res ctx, mret (utf8_after res, ctx)).

(** ** Cookies come back *)

Definition no_semicolon (s : string) : Prop := string_Forall (λ c, c ≠ ";"%char) s.
Record cookie_ok (c : Cookie) : Prop := {
  co_key : string_Forall (λ c, c ≠ ";"%char ∧ c ≠ "="%char) (key_ c);
  co_key_trim : trim (key_ c) = key_ c;
  co_value : no_semicolon (value_ c);
  co_value_trim : trim (value_ c) = value_ c;
  co_quotes : unquote (value_ c) = value_ c;
}.
(** The pair at the front of a Set-Cookie header: what stands before the first semicolon. *)
Definition cookie_pair (set_cookie pair : string) : Prop :=
  no_semicolon pair ∧ ∃ attrs, set_cookie = pair +:+ attrs ∧ (attrs = "" ∨ ∃ t, attrs = String ";" t).
(** The value as it is written. *)
Definition shown (v : string) : string := if bool_decide (v = "") then String DQ (String DQ "") else v.

Lemma attributes_shape c : attributes c = "" ∨ ∃ t, attributes c = String ";" t.
Proof.
  assert (∀ a b, (a = "" ∨ ∃ t, a = String ";" t) → (b = "" ∨ ∃ t, b = String ";" t) →
    a +:+ b = "" ∨ ∃ t, a +:+ b = String ";" t) as Happ.
  { intros a b [->|[t ->]] Hb; [by rewrite string_app_nil_l|]. right. by eexists. }
  assert (∀ cond a b, dumpString cond a b = "" ∨ ∃ t, dumpString cond a b = String ";" t) as Hd
    by (intros [] a b; [right; by eexists|by left]).
  unfold attributes. do 4 (apply Happ; [apply Hd|]).
  do 2 (apply Happ; [destruct (_ : option _); [right; by eexists|by left]|]).
  destruct (same_site_ c); [right; by eexists|by left].
Qed.
Lemma trim_space s : trim (String " " s) = trim s.
Proof. reflexivity. Qed.

Lemma shown_ok v : no_semicolon v → trim v = v → unquote v = v →
  no_semicolon (shown v) ∧ trim (shown v) = shown v ∧ unquote (shown v) = v ∧ shown v ≠ "".
Proof.
  intros H1 H2 H3. unfold shown. case_bool_decide as Hv; [|done]. subst. by split_and!; repeat split.
Qed.
Definition pair_text (kv : string * string) : string := fst kv +:+ "=" +:+ snd kv.
Lemma cookie_pair_front s p : cookie_pair s p →
  p = match find ";" s with Some i => stake i s | None => s end.
Proof.
  intros (Hp & attrs & -> & [->|[t ->]]).
  - by rewrite string_app_nil_r, find_char_None.
  - by rewrite find_char, stake_app.
Qed.
Lemma cookie_pair_written c : cookie_ok c → cookie_pair (cookie_dump c) (pair_text (key_ c, shown (value_ c))).
Proof.
  intros [Hk Hkt Hv Hvt Hq]. destruct (shown_ok _ Hv Hvt Hq) as (Hs & _). split.
  - apply string_Forall_app. split; [|by apply string_Forall_app].
    eapply string_Forall_impl; [|exact Hk]. by intros ? [].
  - exists (attributes c). split; [|apply attributes_shape].
    unfold cookie_dump, pair_text. cbn [fst snd]. by rewrite !string_app_assoc.
Qed.
Lemma cookie_pair_dump c p : cookie_ok c → cookie_pair (cookie_dump c) p →
  p = pair_text (key_ c, shown (value_ c)).
Proof.
  intros Hc ->%cookie_pair_front. symmetry. by apply cookie_pair_front, cookie_pair_written.
Qed.

(** A cookie as it is sent, and what follows it. *)
Lemma find_from_tail pat pre s : find_from pat (String.length pre) (pre +:+ s) =
  Nat.add (String.length pre) <$> find pat s.
Proof. apply find_from_app. Qed.
(** Pairs in one header. *)
Definition joined (l : list (string * string)) : string := String.concat "; " (pair_text <$> l).
Record pair_ok (kv : string * string) : Prop := {
  po_name : string_Forall (λ c, c ≠ "="%char) (fst kv);
  po_name_trim : trim (fst kv) = fst kv;
  po_value : no_semicolon (snd kv);
  po_value_trim : trim (snd kv) = snd kv;
  po_value_ne : snd kv ≠ "";
}.
Lemma joined_cons kv l : joined (kv :: l) =
  pair_text kv +:+ match l with [] => "" | _ => "; " +:+ joined l end.
Proof. unfold joined. destruct l; [cbn; by rewrite string_app_nil_r|done]. Qed.

(** One turn of the loop, with [tail] the rest of the header after the value. *)
Lemma parse_cookies_turn fuel pre sp k v tail jar : string_Forall (λ c, c ≠ "="%char) (sp +:+ k) →
  no_semicolon v → v ≠ "" → tail = "" ∨ (∃ t, tail = String ";" t) →
  parse_cookies (S fuel) (pre +:+ (sp +:+ k) +:+ "=" +:+ v +:+ tail) (String.length pre) jar =
  let jar := emplace_new (trim (sp +:+ k)) (unquote (trim v)) jar in
  match tail with
  | String _ t => parse_cookies fuel ((pre +:+ (sp +:+ k) +:+ "=" +:+ v +:+ ";") +:+ t)
                    (String.length (pre +:+ (sp +:+ k) +:+ "=" +:+ v +:+ ";")) jar
  | EmptyString => jar
  end.
Proof.
  intros Hk Hv Hne Htail. set (name := sp +:+ k) in *. cbn [parse_cookies].
  assert (String.length pre < String.length (pre +:+ name +:+ "=" +:+ v +:+ tail))%nat as Hlt
    by (rewrite !string_length_app; cbn; lia).
  rewrite (proj2 (Nat.ltb_lt _ _) Hlt). cbn [negb]. rewrite find_from_tail.
  assert (find "=" (name +:+ "=" +:+ v +:+ tail) = Some (String.length name)) as -> by by apply find_char.
  cbn [fmap option_fmap option_map]. rewrite sdrop_app.
  replace (String.length pre + String.length name - String.length pre)%nat with (String.length name) by lia.
  rewrite stake_app. set (pre' := pre +:+ name +:+ "=").
  assert (String.length pre + String.length name + 1 = String.length pre')%nat as ->
    by (unfold pre'; rewrite !string_length_app; cbn; lia).
  assert (pre +:+ name +:+ "=" +:+ v +:+ tail = pre' +:+ v +:+ tail) as ->
    by (unfold pre'; by rewrite !string_app_assoc).
  rewrite bool_decide_eq_false_2.
  2: { rewrite !string_length_app. destruct v; [done|]. cbn. lia. }
  rewrite find_from_tail, sdrop_app. destruct Htail as [-> |[t ->]].
  - rewrite string_app_nil_r, find_char_None by done. done.
  - rewrite find_char by done. cbn [fmap option_fmap option_map].
    replace (String.length pre' + String.length v - String.length pre')%nat with (String.length v) by lia.
    rewrite stake_app. cbv zeta.
    assert (pre +:+ name +:+ "=" +:+ v +:+ ";" = pre' +:+ v +:+ ";") as ->
      by (unfold pre'; by rewrite !string_app_assoc).
    assert ((pre' +:+ v +:+ ";") +:+ t = pre' +:+ v +:+ String ";" t) as -> by by rewrite !string_app_assoc.
    f_equal. rewrite !string_length_app. cbn. lia.
Qed.
Lemma parse_cookies_sent fuel l pre sp jar : List.Forall pair_ok l → sp = "" ∨ sp = " " →
  (length l < fuel)%nat →
  parse_cookies fuel (pre +:+ sp +:+ joined l) (String.length pre) jar =
  foldl (λ jar kv, emplace_new (fst kv) (unquote (snd kv)) jar) jar l.
Proof.
  revert fuel pre sp jar. induction l as [|[k v] l IH]; intros fuel pre sp jar Hl Hsp Hf.
  { destruct fuel as [|fuel]; [done|]. cbn [parse_cookies foldl]. case_match; [done|].
    change (joined []) with "". rewrite string_app_nil_r, find_from_tail.
    by destruct Hsp as [-> | ->]. }
  destruct fuel as [|fuel]; [cbn in Hf; lia|]. apply Forall_cons_1 in Hl as [[Hk Hkt Hv Hvt Hne] Hl].
  cbn [fst snd] in *. rewrite joined_cons. unfold pair_text. cbn [fst snd].
  assert (pre +:+ sp +:+ (k +:+ "=" +:+ v) +:+ match l with [] => "" | _ => "; " +:+ joined l end
    = pre +:+ (sp +:+ k) +:+ "=" +:+ v +:+ match l with [] => "" | _ => "; " +:+ joined l end) as ->
    by by rewrite !string_app_assoc.
  rewrite parse_cookies_turn; [|by destruct Hsp as [-> | ->]|done|done|destruct l; [by left|right; by eexists]].
  assert (trim (sp +:+ k) = k) as -> by (destruct Hsp as [-> | ->]; by rewrite <- Hkt at 2).
  rewrite Hvt. cbv zeta. cbn [foldl fst snd]. destruct l as [|kv l]; [done|].
  change ("; " +:+ joined (kv :: l)) with (String ";" (" " +:+ joined (kv :: l))).
  apply IH; [done|by right|]. cbn in *. lia.
Qed.

(** C35: a cookie that was set comes back.  The cookies have different names, without ";" and
    "=", and values without ";"; names and values have no white space around them, and a value
    is not in quotes.  When a request has one Cookie header, and that holds the pairs in front
    of the attributes of their Set-Cookie headers, as they were written and with "; " between
    them, then [CookieParser] reads these names and values, in the same order, and leaves the
    response alone. *)
Theorem cookies_come_back (cs : list Cookie) (pairs : list string) (req : request) (res : response) :
  List.Forall cookie_ok cs → NoDup (key_ <$> cs) → ci_count (req_headers req) "Cookie" = 1%nat →
  List.Forall2 cookie_pair (cookie_dump <$> cs) pairs →
  req_get_header_value req "Cookie" = String.concat "; " pairs →
  cookies_before req res cookie_context_new =
  (res, CookieContext ((λ c, (key_ c, value_ c)) <$> cs) []).
Proof.
  intros Hok Hnd Hcount Hpairs Hsent. unfold cookies_before. rewrite Hcount. cbn [Nat.eqb Nat.ltb Nat.leb].
  rewrite Hsent.
  assert (String.concat "; " pairs = joined ((λ c, (key_ c, shown (value_ c))) <$> cs)) as ->.
  { unfold joined. f_equal. clear -Hok Hpairs. revert pairs Hpairs.
    induction Hok as [|c cs Hc _ IH]; intros [|p pairs] Hpairs; try done; [by inversion Hpairs..|].
    apply Forall2_cons_1 in Hpairs as [Hp Hpairs]. cbn.
    by rewrite (cookie_pair_dump c p Hc Hp), (IH pairs). }
  do 2 f_equal.
  set (l := (λ c, (key_ c, shown (value_ c))) <$> cs).
  assert (List.Forall pair_ok l) as Hl.
  { apply List.Forall_map. eapply List.Forall_impl; [|exact Hok]. intros c [Hk Hkt Hv Hvt Hq].
    destruct (shown_ok _ Hv Hvt Hq) as (? & ? & _ & ?). constructor; cbn; try done.
    eapply string_Forall_impl; [|exact Hk]. by intros ? []. }
  assert (length l ≤ String.length (joined l))%nat as Hlen.
  { clear. induction l as [|kv l IH]; [done|]. rewrite joined_cons, string_length_app. unfold pair_text.
    rewrite !string_length_app. destruct l; [cbn; lia|]. rewrite string_length_app. cbn in *. lia. }
  pose proof (parse_cookies_sent (S (String.length (joined l))) l "" "" [] Hl ltac:(by left) ltac:(lia)) as E.
  rewrite !string_app_nil_l in E. cbn [String.length] in E.
  change (jar cookie_context_new) with (@nil (string * string)). rewrite E. subst l. clear -Hok Hnd.
  assert (∀ acc, NoDup (acc.*1 ++ (key_ <$> cs)) →
    foldl (λ jar kv, emplace_new kv.1 (unquote kv.2) jar) acc ((λ c, (key_ c, shown (value_ c))) <$> cs)
    = acc ++ ((λ c, (key_ c, value_ c)) <$> cs)) as H; [|by apply (H [])].
  induction Hok as [|c cs [Hk Hkt Hv Hvt Hq] _ IH]; intros acc Hacc; [by rewrite app_nil_r|].
  apply list.NoDup_cons in Hnd as [_ Hnd].
  destruct (shown_ok _ Hv Hvt Hq) as (_ & _ & Hun & _). cbn. rewrite Hun, emplace_new_fresh.
  - rewrite IH; [by rewrite <- app_assoc|done|]. by rewrite fmap_app, <- app_assoc.
  - apply list.NoDup_app in Hacc as (_ & Hacc & _). intros Hin. apply (Hacc _ Hin). by left.
Qed.
