(* ===== verification/Sessions.v ===== *)
(** * Sessions: crow/middlewares/session.h

    Values, the tracker of expirations, cached sessions, the two stores and the middleware.  A
    cached session is shared: by the cache, and by the contexts of the requests that use it, so
    it lives in a heap and they hold its address.  Each operation runs under a mutex, of the
    middleware or of the session, and is one step; a store can throw.  What a clock and a random
    generator give is an argument. *)

From stdpp Require Import gmap.
From S2P Require Import Prelude Doubles JsonRead JsonWrite Utility QueryString Http Service.
From S2P Require Import Cookies Text.
Open Scope Z_scope.

(** ** Values *)

Inductive multi_value : Type :=
| MBool (b : bool) | MInt (z : Z) | MDouble (d : double) | MString (s : string).
(** A value that was default-constructed. *)
Definition mv_default : multi_value := MBool false.
Definition mv_json (v : multi_value) : wvalue :=
  match v with
  | MBool b => wv_bool b | MInt z => WSigned z | MDouble d => WDouble d | MString s => WString s
  end.
(** [std::visit] with [std::to_string]. *)
Definition mv_string (v : multi_value) : string :=
  match v with
  | MBool b => if b then "1" else "0" | MInt z => to_string z | MDouble d => format_f d | MString s => s
  end.
(** [get] asks for the type of the fallback. *)
Definition mv_get (v fallback : multi_value) : multi_value :=
  match v, fallback with
  | MBool _, MBool _ | MInt _, MInt _ | MDouble _, MDouble _ | MString _, MString _ => v
  | _, _ => fallback
  end.
Definition mv_from_json (rv : rvalue) : result multi_value :=
  t ← rv_t rv;
  match t with
  | TNumber =>
      nt ← rv_nt rv;
      match nt with
      | Floating_point | Double_precision_floating_point => d ← rv_d rv; Ok (MDouble d)
      | Unsigned_integer => z ← rv_u rv; Ok (MInt (swrap 64 z))
      | _ => z ← rv_i rv; Ok (MInt z)
      end
  | TFalse => Ok (MBool false)
  | TTrue => Ok (MBool true)
  | TString => s ← rv_string rv; Ok (MString s)
  | _ => Ok (MBool false)
  end.

(** ** The tracker of expirations *)

Record ExpirationTracker : Type := Tracker {
  queue_ : gset (Z * string);
  times_ : gmap string Z;
}.
Definition tracker_new : ExpirationTracker := Tracker ∅ ∅.
(** [operator<] of pairs and strings, and the first element of the set. *)
Fixpoint string_before (l r : string) : bool :=
  match l, r with
  | _, EmptyString => false
  | EmptyString, String _ _ => true
  | String a l', String b r' =>
      if code a <? code b then true else if code b <? code a then false else string_before l' r'
  end.
Definition pair_before (x y : Z * string) : bool :=
  if fst x <? fst y then true else if fst y <? fst x then false else string_before (snd x) (snd y).
Fixpoint least (l : list (Z * string)) : option (Z * string) :=
  match l with
  | [] => None
  | x :: l' => Some (match least l' with
                     | Some y => if pair_before y x then y else x
                     | None => x end)
  end.
Definition queue_begin (tr : ExpirationTracker) : option (Z * string) := least (elements (queue_ tr)).

Definition tracker_remove (key : string) (tr : ExpirationTracker) : ExpirationTracker :=
  match times_ tr !! key with
  | Some t => Tracker (queue_ tr ∖ {[ (t, key) ]}) (delete key (times_ tr))
  | None => tr
  end.
Definition tracker_add (key : string) (time : Z) (tr : ExpirationTracker) : ExpirationTracker :=
  let tr := match times_ tr !! key with Some _ => tracker_remove key tr | None => tr end in
  Tracker ({[ (time, key) ]} ∪ queue_ tr) (<[key := time]> (times_ tr)).
Definition peek_first (tr : ExpirationTracker) : Z :=
  match queue_begin tr with Some (t, _) => t | None => uint64_max end.
(** On an empty queue it reads the end of the set. *)
Definition pop_first (tr : ExpirationTracker) : option (string * ExpirationTracker) :=
  '(t, k) ← queue_begin tr;
  Some (k, Tracker (queue_ tr ∖ {[ (t, k) ]}) (delete k (times_ tr))).

(** ** Sessions and stores *)

Abbreviation entries_t := (gmap string multi_value).
Record CachedSession : Type := Cached {
  session_id : string;
  requested_session_id : string;
  entries : entries_t;
  dirty : gset string;
  requested_refresh : bool;
  referrers : Z;
}.
Definition cached_new : CachedSession := Cached "" "" ∅ ∅ false 0.
Definition cs_entries (v : entries_t) (n : CachedSession) : CachedSession :=
  Cached (session_id n) (requested_session_id n) v (dirty n) (requested_refresh n) (referrers n).
Definition cs_dirty (v : gset string) (n : CachedSession) : CachedSession :=
  Cached (session_id n) (requested_session_id n) (entries n) v (requested_refresh n) (referrers n).
Definition cs_refresh (v : bool) (n : CachedSession) : CachedSession :=
  Cached (session_id n) (requested_session_id n) (entries n) (dirty n) v (referrers n).
Definition cs_referrers (v : Z) (n : CachedSession) : CachedSession :=
  Cached (session_id n) (requested_session_id n) (entries n) (dirty n) (requested_refresh n) v.
Definition cs_ids (id requested : string) (n : CachedSession) : CachedSession :=
  Cached id requested (entries n) (dirty n) (requested_refresh n) (referrers n).

(** The operations of a store, each with the clock it reads (in seconds). *)
Class Store (T : Type) : Type := {
  st_contains : T → string → bool;
  st_load : Z → T → CachedSession → result CachedSession * T;
  st_save : Z → T → CachedSession → result CachedSession * T;
}.

(** *** InMemoryStore: what was moved from is empty *)

Definition memory_store : Type := gmap string entries_t.
Definition InMemoryStore : Store memory_store := {|
  st_contains s key := bool_decide (is_Some (s !! key));
  st_load _ s cn :=
    (Ok (cs_entries (default ∅ (s !! session_id cn)) cn), <[session_id cn := ∅]> s);
  st_save _ s cn := (Ok (cs_entries ∅ cn), <[session_id cn := entries cn]> s);
|}.
#[export] Existing Instance InMemoryStore.

(** *** FileStore *)

(** The files there are; a write to a path that cannot be opened does nothing. *)
Record file_store : Type := FileStore {
  path_ : string;
  expiration_seconds_ : Z;
  expirations_ : ExpirationTracker;
  files : gmap string string;
}.
Definition fs_expirations (v : ExpirationTracker) (s : file_store) : file_store :=
  FileStore (path_ s) (expiration_seconds_ s) v (files s).
Definition fs_files (v : gmap string string) (s : file_store) : file_store :=
  FileStore (path_ s) (expiration_seconds_ s) (expirations_ s) v.
Section FileStore.
Context `{ui : !UMapIter} (writable : string → bool).

Definition get_filename (s : file_store) (key : string) (suffix : bool) : string :=
  join_path (path_ s) (key +:+ (if suffix then ".json" else "")).
(** A path is handed to the system as a C string. *)
Definition opened (s : file_store) (key : string) (suffix : bool) : option string :=
  files s !! c_str (get_filename s key suffix).
Definition write_file (name text : string) (s : file_store) : file_store :=
  if writable (c_str name) then fs_files (<[c_str name := text]> (files s)) s else s.
Definition file_contains (s : file_store) (key : string) : bool :=
  bool_decide (is_Some (opened s key true)).
Definition evict (key : string) (s : file_store) : file_store :=
  fs_files (delete (c_str (get_filename s key true)) (files s)) s.

(** At most [n] more. *)
Fixpoint handle_expired_loop (n : nat) (current_ts : Z) (s : file_store) : file_store :=
  match n with
  | O => s
  | S n' =>
      if peek_first (expirations_ s) <? current_ts then
        match pop_first (expirations_ s) with
        | Some (k, tr) => handle_expired_loop n' current_ts (evict k (fs_expirations tr s))
        | None => s
        end
      else s
  end.
Definition handle_expired : Z → file_store → file_store := handle_expired_loop 3.

(** [for (p : json::load(...)) entries[p.key()] = from_json(p)], which keeps what it stored when
    it throws. *)
Fixpoint load_entries (l : list rvalue) (e : entries_t) : result entries_t :=
  match l with
  | [] => Ok e
  | p :: l' => v ← mv_from_json p; load_entries l' (<[key_text p := v]> e)
  end.
Definition newline : string := String "010" "".
Definition file_load (now : Z) (s : file_store) (cn : CachedSession) : result CachedSession * file_store :=
  let s := handle_expired now s in
  let text := match opened s (session_id cn) true with
              | Some t => if bool_decide (t = "") then "" else t +:+ newline
              | None => "" end in
  (l ← rv_range_l (load text); e ← load_entries l (entries cn); Ok (cs_entries e cn), s).
Definition json_of_entries (e : entries_t) : wvalue :=
  foldl (λ jw kv, wv_set jw (fst kv) (mv_json (snd kv))) WNull (umap_iter (map_to_list e)).
Definition file_save (now : Z) (s : file_store) (cn : CachedSession) : result CachedSession * file_store :=
  let s := if requested_refresh cn
           then fs_expirations (tracker_add (session_id cn) (uwrap 64 (now + expiration_seconds_ s)) (expirations_ s)) s
           else s in
  if decide (dirty cn = ∅) then (Ok cn, s)
  else (Ok cn, write_file (get_filename s (session_id cn) true) (dump (json_of_entries (entries cn))) s).
Definition FileStore_store : Store file_store :=
  {| st_contains := file_contains; st_load := file_load; st_save := file_save |}.

(** The constructor reads what the destructor wrote, a line for each key. *)
Definition expiration_line (x : Z * string) : string := snd x +:+ " " +:+ to_string (fst x) +:+ newline.
Definition file_store_close (order : list (Z * string)) (s : file_store) : file_store :=
  write_file (get_filename s ".expirations" false) (String.concat "" (expiration_line <$> order)) s.
(** [ifs >> key >> time]. *)
Definition read_word (text : string) : option (string * string) :=
  let text := snd (span Ascii.is_space text) in
  match span (λ c, negb (Ascii.is_space c)) text with
  | (EmptyString, _) => None
  | (w, rest) => Some (w, rest)
  end.
Definition read_time (text : string) : option (Z * string) :=
  let '(neg, text) := opt_sign (snd (span Ascii.is_space text)) in
  match span is_digit text with
  | (EmptyString, _) => None
  | (ds, rest) =>
      let z := digits_value 0 ds in
      if uint64_max <? z then None else Some (if neg : bool then uwrap 64 (- z) else z, rest)
  end.
Fixpoint read_expirations (fuel : nat) (now : Z) (text : string) (s : file_store) : file_store :=
  match fuel with
  | O => s
  | S fuel' =>
      match (kr ← read_word text; tr ← read_time (snd kr); Some (fst kr, fst tr, snd tr)) with
      | Some (key, time, rest) =>
          read_expirations fuel' now rest
            (if time <? now then evict key s
             else if file_contains s key then fs_expirations (tracker_add key time (expirations_ s)) s
             else s)
      | None => s
      end
  end.
Definition file_store_open (folder : string) (expiration_seconds now : Z) (fs : gmap string string) : file_store :=
  let s := FileStore folder expiration_seconds tracker_new fs in
  match opened s ".expirations" false with
  | Some text => read_expirations (String.length text) now text s
  | None => s
  end.
End FileStore.
#[export] Existing Instance FileStore_store.

(** ** The middleware *)

Section Middleware.
Context {T : Type} {store : Store T}.

(** [node] of a context is an address, if it is not null. *)
Record sessions : Type := Sessions {
  heap : gmap nat CachedSession;
  cache_ : gmap string nat;
  store_ : T;
  cookie_ : Cookie;
}.
Implicit Types s : sessions.
Definition set_heap (v : gmap nat CachedSession) s : sessions := Sessions v (cache_ s) (store_ s) (cookie_ s).
Definition set_cache (v : gmap string nat) s : sessions := Sessions (heap s) v (store_ s) (cookie_ s).
Definition set_store (v : T) s : sessions := Sessions (heap s) (cache_ s) v (cookie_ s).
Definition set_proto (v : Cookie) s : sessions := Sessions (heap s) (cache_ s) (store_ s) v.
Definition on_node (n : nat) (f : CachedSession → CachedSession) s : sessions :=
  set_heap (alter f n (heap s)) s.
Definition allocate (n : CachedSession) s : nat * sessions :=
  let a := fresh (dom (heap s)) in (a, set_heap (<[a := n]> (heap s)) s).

(** The default constructor. *)
Definition session_cookie : Cookie :=
  cookie_max_age (30 * 24 * 60 * 60) (cookie_path "/" (cookie_new "session" "")).
Definition sessions_new (st : T) : sessions := Sessions ∅ ∅ st session_cookie.

(** *** What a handler calls *)

Definition check_node (ctx : option nat) s : nat * sessions :=
  match ctx with Some n => (n, s) | None => allocate cached_new s end.
Definition node_of (ctx : option nat) s : option CachedSession := n ← ctx; heap s !! n.
Definition ctx_mutex (ctx : option nat) s : option nat * sessions :=
  let '(n, s) := check_node ctx s in (Some n, s).
Definition ctx_exists (ctx : option nat) : bool := bool_decide (is_Some ctx).
Definition ctx_get (key : string) (fallback : multi_value) (ctx : option nat) s : multi_value :=
  match (node_of ctx s ≫= λ n, entries n !! key) with Some v => mv_get v fallback | None => fallback end.
Definition ctx_set (key : string) (v : multi_value) (ctx : option nat) s : option nat * sessions :=
  let '(n, s) := check_node ctx s in
  (Some n, on_node n (λ c, cs_entries (<[key := v]> (entries c)) (cs_dirty ({[key]} ∪ dirty c) c)) s).
(** Takes no lock (session.h:241); here it is one step, as the accesses that do. *)
Definition ctx_contains (key : string) (ctx : option nat) s : bool :=
  bool_decide (is_Some (node_of ctx s ≫= λ n, entries n !! key)).
(** [entries[key]] makes a value where there is none; [arg] is the default value of the type of
    the argument of [f]. *)
Definition ctx_apply (key : string) (arg : multi_value) (f : multi_value → multi_value) (ctx : option nat) s
  : option nat * sessions :=
  let '(n, s) := check_node ctx s in
  (Some n, on_node n (λ c,
     cs_entries (<[key := f (mv_get (default mv_default (entries c !! key)) arg)]> (entries c))
       (cs_dirty ({[key]} ∪ dirty c) c)) s).
Definition ctx_remove (key : string) (ctx : option nat) s : sessions :=
  match ctx with
  | Some n => on_node n (λ c, cs_entries (delete key (entries c)) (cs_dirty ({[key]} ∪ dirty c) c)) s
  | None => s
  end.
Definition ctx_string (key : string) (ctx : option nat) s : string :=
  match (node_of ctx s ≫= λ n, entries n !! key) with Some v => mv_string v | None => "" end.
Definition ctx_keys `{!UMapIter} (ctx : option nat) s : list string :=
  match node_of ctx s with Some n => (umap_iter (map_to_list (entries n))).*1 | None => [] end.
(** Takes no lock either (session.h:307). *)
Definition ctx_refresh_expiration (ctx : option nat) s : sessions :=
  match ctx with Some n => on_node n (cs_refresh true) s | None => s end.

(** *** Before and after a handler *)

(** Of the strings that are drawn; nothing calls it. *)
Fixpoint next_id (drawn : list string) s : option string :=
  match drawn with
  | [] => None
  | id :: drawn' => if st_contains (store_ s) id then next_id drawn' s else Some id
  end.

Definition load_id (cookies : cookie_context) s : string := get_cookie cookies (key_ (cookie_ s)).
Definition store_id (id : string) (cookies : cookie_context) s : cookie_context * sessions :=
  let c := cookie_value id (cookie_ s) in (set_cookie c cookies, set_proto c s).
Definition session_before (now : Z) (cookies : cookie_context) s : option nat * sessions :=
  let session_id := load_id cookies s in
  if bool_decide (session_id = "") then (None, s)
  else
    match cache_ s !! session_id with
    | Some n => (Some n, on_node n (λ c, cs_referrers (swrap 32 (referrers c + 1)) c) s)
    | None =>
        if negb (st_contains (store_ s) session_id) then (None, s)
        else
          match st_load now (store_ s) (cs_referrers 1 (cs_ids session_id "" cached_new)) with
          | (Throw _, st) => (None, set_store st s)
          | (Ok node, st) =>
              let '(n, s) := allocate node (set_store st s) in
              (Some n, set_cache (<[session_id := n]> (cache_ s)) s)
          end
    end.
(** [random] is what [random_alphanum] gives. *)
Definition session_after (now : Z) (random : string) (cookies : cookie_context) (ctx : option nat) s
  : cookie_context * sessions :=
  match ctx with
  | None => (cookies, s)
  | Some n =>
      let s := on_node n (λ c, cs_referrers (swrap 32 (referrers c - 1)) c) s in
      match heap s !! n with
      | None => (cookies, s)
      | Some node =>
          if 0 <? referrers node then (cookies, s)
          else
            let node := cs_refresh (requested_refresh node || bool_decide (session_id node = "")) node in
            let '(node, s) :=
              if bool_decide (session_id node = "") then
                let id := requested_session_id node in
                (cs_ids (if bool_decide (id = "") then random else id) "" node, s)
              else (node, set_cache (delete (session_id node) (cache_ s)) s) in
            let '(cookies, s) :=
              if requested_refresh node then store_id (session_id node) cookies s else (cookies, s) in
            match st_save now (store_ s) node with
            | (Ok node', st) => (cookies, set_heap (<[n := node']> (heap s)) (set_store st s))
            | (Throw _, st) => (cookies, set_heap (<[n := node]> (heap s)) (set_store st s))
            end
      end
  end.
End Middleware.
Arguments sessions : clear implicits.
