(* ===== verification/SessionsSpec.v ===== *)
(** * Sessions: what the middleware promises

    The tracker of expirations is a map with its least time at hand.  And whatever requests
    overlap, the middleware with its cache is a map from ids to sessions: a refinement, for any
    store that keeps what it is given.  An access is one step here, which is what the mutex of
    the session makes of it; the two accesses that do not take it (session.h:241, 307) are
    steps all the same, so a race with them is not represented. *)

From stdpp Require Import gmap fin_maps.
From S2P Require Import Prelude Doubles JsonRead JsonWrite Utility QueryString Http Service.
From S2P Require Import Cookies Text Sessions.
Open Scope Z_scope.

(** ** The tracker *)

Definition tracker_ok (tr : ExpirationTracker) : Prop :=
  ∀ t k, (t, k) ∈ queue_ tr ↔ times_ tr !! k = Some t.

Lemma least_spec l : match least l with
  | Some x => x ∈ l ∧ ∀ y, y ∈ l → fst x ≤ fst y
  | None => l = []
  end.
Proof.
  induction l as [|x l IH]; [done|]. cbn [least]. destruct (least l) as [y|].
  - destruct IH as [Hy Hmin]. destruct (pair_before y x) eqn:E; unfold pair_before in E.
    + split; [by right|]. intros z [->|Hz]%elem_of_cons; [|by apply Hmin].
      destruct (Z.ltb_spec (fst y) (fst x)); [lia|]. destruct (Z.ltb_spec (fst x) (fst y)); [done|lia].
    + split; [by left|]. intros z [->|Hz]%elem_of_cons; [lia|].
      specialize (Hmin z Hz). destruct (Z.ltb_spec (fst y) (fst x)); [done|lia].
  - subst. split; [by left|]. intros z Hz%list_elem_of_singleton. by subst.
Qed.
Lemma tracker_ok_remove k tr : tracker_ok tr →
  tracker_ok (tracker_remove k tr) ∧ times_ (tracker_remove k tr) = delete k (times_ tr).
Proof.
  unfold tracker_ok at 1. intros Hok. unfold tracker_remove. destruct (times_ tr !! k) as [t|] eqn:E.
  - split; [|done]. intros t' k'. cbn. rewrite lookup_delete_Some, <- Hok, elem_of_difference, elem_of_singleton.
    apply Hok in E. rewrite !Hok. rewrite Hok in E. split; [|naive_solver].
    intros [Hk Hne]. split; [|done]. intros ->. apply Hne. f_equal. congruence.
  - split; [done|]. by rewrite delete_id.
Qed.
Lemma tracker_ok_add k t tr : tracker_ok tr →
  tracker_ok (tracker_add k t tr) ∧ times_ (tracker_add k t tr) = <[k := t]> (times_ tr).
Proof.
  intros Hok. unfold tracker_add.
  set (tr' := match times_ tr !! k with Some _ => tracker_remove k tr | None => tr end).
  assert (tracker_ok tr' ∧ times_ tr' = delete k (times_ tr)) as [Hok' Ht].
  { unfold tr'. destruct (times_ tr !! k) eqn:E; [by apply tracker_ok_remove|]. by rewrite delete_id. }
  split; [|by cbn; rewrite Ht, insert_delete_eq].
  intros t' k'. cbn. unfold tracker_ok in Hok'. rewrite elem_of_union, elem_of_singleton, Hok', Ht, lookup_insert_Some, lookup_delete_Some.
  split; [intros [[= -> ->]|?]|intros [[-> ->]|?]]; solve [by left|right; tauto].
Qed.

(** The tracker of expirations is a map from keys to times.  While it holds in its queue
    what it has in its table, [add] and [remove] insert and delete a key, [peek_first] is the
    least time there is, and [pop_first] takes out a key that has it. *)
Theorem tracker_refines_map (tr : ExpirationTracker) : tracker_ok tr →
  (∀ k t, tracker_ok (tracker_add k t tr) ∧ times_ (tracker_add k t tr) = <[k := t]> (times_ tr)) ∧
  (∀ k, tracker_ok (tracker_remove k tr) ∧ times_ (tracker_remove k tr) = delete k (times_ tr)) ∧
  match pop_first tr with
  | Some (k, tr') =>
      times_ tr !! k = Some (peek_first tr) ∧
      (∀ k' t, times_ tr !! k' = Some t → peek_first tr ≤ t) ∧
      tracker_ok tr' ∧ times_ tr' = delete k (times_ tr)
  | None => times_ tr = ∅ ∧ peek_first tr = uint64_max
  end.
Proof.
  intros Hok. split; [by intros; apply tracker_ok_add|]. split; [by intros; apply tracker_ok_remove|].
  unfold pop_first, peek_first, queue_begin. pose proof (least_spec (elements (queue_ tr))) as Hl.
  destruct (least _) as [[t k]|]; cbn.
  - destruct Hl as [Hin Hmin]. apply elem_of_elements, Hok in Hin. split; [done|]. split.
    { intros k' t' Hk. apply (Hmin (t', k')), elem_of_elements, Hok, Hk. }
    destruct (tracker_ok_remove k tr Hok) as [H1 H2]. unfold tracker_remove in H1, H2. by rewrite Hin in H1, H2.
  - split; [|done]. apply map_empty. intros k. destruct (times_ tr !! k) as [t|] eqn:E; [|done].
    apply Hok, elem_of_elements in E. rewrite Hl in E. by apply elem_of_nil in E.
Qed.

(** ** The interface of a store *)

(** What a store has for an id.  It gives what it has, and then has what it is given; what it
    has of a session between [load] and [save] is open. *)
Class StoreLaws (T : Type) {store : Store T} : Type := {
  content : T → string → option entries_t;
  contains_law st id : st_contains st id = bool_decide (is_Some (content st id));
  load_law now st cn e : content st (session_id cn) = Some e →
    ∃ st', st_load now st cn = (Ok (cs_entries e cn), st') ∧
      ∀ id, id ≠ session_id cn → content st' id = content st id;
  save_law now st cn :
    ∃ cn' st', st_save now st cn = (Ok cn', st') ∧ content st' (session_id cn) = Some (entries cn) ∧
      ∀ id, id ≠ session_id cn → content st' id = content st id;
}.
#[export, program] Instance memory_laws : StoreLaws memory_store := {| content st id := st !! id |}.
Next Obligation. done. Qed.
Next Obligation.
  intros now st cn e He. eexists. split.
  - unfold st_load, InMemoryStore. by rewrite He.
  - intros id Hid. apply lookup_insert_ne. congruence.
Qed.
Next Obligation.
  intros now st cn. do 2 eexists. split; [done|]. split; [apply lookup_insert_eq|].
  intros id Hid. apply lookup_insert_ne. congruence.
Qed.

(** ** Requests that overlap *)

(** What a request does, and what it is told: it arrives with the id of its cookie, reads and
    changes its session any number of times, and leaves, with an id issued in a cookie or not. *)
Inductive event : Type :=
| Arrive (r : nat) (id : string)
| Present (r : nat) (answer : bool)
| Read (r : nat) (key : string) (fallback answer : multi_value)
| Contains (r : nat) (key : string) (answer : bool)
| AsText (r : nat) (key answer : string)
| Set_ (r : nat) (key : string) (v : multi_value)
| Apply (r : nat) (key : string) (arg : multi_value) (f : multi_value → multi_value)
| Remove (r : nat) (key : string)
| Refresh (r : nat)
| Leave (r : nat) (issued : option string).

(** *** The middleware *)

Section Concrete.
Context {T : Type} {store : Store T} {laws : StoreLaws T}.

Record system : Type := System {
  mw : sessions T;
  running : gmap nat (option nat);          (* the context of each request *)
}.
(** What the middleware has for an id: what is cached, or what is stored. *)
Definition logical (s : sessions T) (id : string) : option entries_t :=
  match cache_ s !! id with
  | Some n => entries <$> heap s !! n
  | None => content (store_ s) id
  end.
Inductive step : system → event → system → Prop :=
| step_arrive s run r now cookies ctx s' :
    run !! r = None → Z.of_nat (size run) < int32_max →
    session_before now cookies s = (ctx, s') →
    step (System s run) (Arrive r (load_id cookies s)) (System s' (<[r := ctx]> run))
| step_exists s run r ctx : run !! r = Some ctx →
    step (System s run) (Present r (ctx_exists ctx)) (System s run)
| step_get s run r ctx key fallback : run !! r = Some ctx →
    step (System s run) (Read r key fallback (ctx_get key fallback ctx s)) (System s run)
| step_contains s run r ctx key : run !! r = Some ctx →
    step (System s run) (Contains r key (ctx_contains key ctx s)) (System s run)
| step_text s run r ctx key : run !! r = Some ctx →
    step (System s run) (AsText r key (ctx_string key ctx s)) (System s run)
| step_set s run r ctx key v ctx' s' : run !! r = Some ctx → ctx_set key v ctx s = (ctx', s') →
    step (System s run) (Set_ r key v) (System s' (<[r := ctx']> run))
| step_apply s run r ctx key arg f ctx' s' : run !! r = Some ctx →
    ctx_apply key arg f ctx s = (ctx', s') →
    step (System s run) (Apply r key arg f) (System s' (<[r := ctx']> run))
| step_remove s run r ctx key : run !! r = Some ctx →
    step (System s run) (Remove r key) (System (ctx_remove key ctx s) run)
| step_refresh s run r ctx : run !! r = Some ctx →
    step (System s run) (Refresh r) (System (ctx_refresh_expiration ctx s) run)
| step_leave s run r ctx now random cookies cookies' issued s' :
    run !! r = Some ctx → random ≠ "" → logical s random = None →      (* a random id is new *)
    session_after now random cookies ctx s = (cookies', s') →
    value_ <$> cookies_to_add cookies' =
      (value_ <$> cookies_to_add cookies) ++ match issued with Some id => [id] | None => [] end →
    step (System s run) (Leave r issued) (System s' (delete r run)).
Inductive steps : system → list event → system → Prop :=
| steps_nil s : steps s [] s
| steps_cons s e s' es s'' : step s e s' → steps s' es s'' → steps s (e :: es) s''.
End Concrete.
Arguments system : clear implicits.

(** *** The specification *)

(** A book of sessions; a request has one of them, or one of its own that is not in the book
    yet, or none. *)
Inductive attachment : Type := Nobody | Private (e : entries_t) | Attached (id : string).
Record register : Type := Register {
  book : gmap string entries_t;
  requests : gmap nat attachment;
}.
Definition view (a : register) (att : attachment) : entries_t :=
  match att with Nobody => ∅ | Private e => e | Attached id => default ∅ (book a !! id) end.
(** What a change does, for a request that has a session; [own] gives it one of its own. *)
Definition own (r : nat) (a : register) : register :=
  Register (book a) (alter (λ att, match att with Nobody => Private ∅ | _ => att end) r (requests a)).
Definition change (f : entries_t → entries_t) (r : nat) (a : register) : register :=
  match requests a !! r with
  | Some (Private e) => Register (book a) (<[r := Private (f e)]> (requests a))
  | Some (Attached id) => Register (alter f id (book a)) (requests a)
  | _ => a
  end.
Definition apply_entry (key : string) (arg : multi_value) (f : multi_value → multi_value) (e : entries_t) : entries_t :=
  <[key := f (mv_get (default mv_default (e !! key)) arg)]> e.
Inductive spec_step : register → event → register → Prop :=
| spec_arrive a r id : requests a !! r = None →
    spec_step a (Arrive r id) (Register (book a)
      (<[r := if bool_decide (id ≠ "" ∧ is_Some (book a !! id)) then Attached id else Nobody]> (requests a)))
| spec_exists a r att : requests a !! r = Some att →
    spec_step a (Present r (match att with Nobody => false | _ => true end)) a
| spec_get a r att key fallback : requests a !! r = Some att →
    spec_step a (Read r key fallback
      (match view a att !! key with Some v => mv_get v fallback | None => fallback end)) a
| spec_contains a r att key : requests a !! r = Some att →
    spec_step a (Contains r key (bool_decide (is_Some (view a att !! key)))) a
| spec_text a r att key : requests a !! r = Some att →
    spec_step a (AsText r key (match view a att !! key with Some v => mv_string v | None => "" end)) a
| spec_set a r key v : is_Some (requests a !! r) →
    spec_step a (Set_ r key v) (change (insert key v) r (own r a))
| spec_apply a r key arg f : is_Some (requests a !! r) →
    spec_step a (Apply r key arg f) (change (apply_entry key arg f) r (own r a))
| spec_remove a r key : is_Some (requests a !! r) →
    spec_step a (Remove r key) (change (delete key) r a)
| spec_refresh a r : is_Some (requests a !! r) →
    spec_step a (Refresh r) a
| spec_leave_nobody a r : requests a !! r = Some Nobody →
    spec_step a (Leave r None) (Register (book a) (delete r (requests a)))
| spec_leave_private a r e id : requests a !! r = Some (Private e) → id ≠ "" → book a !! id = None →
    spec_step a (Leave r (Some id)) (Register (<[id := e]> (book a)) (delete r (requests a)))
| spec_leave_attached a r id issued : requests a !! r = Some (Attached id) →
    issued = None ∨ issued = Some id →
    spec_step a (Leave r issued) (Register (book a) (delete r (requests a))).
Inductive spec_steps : register → list event → register → Prop :=
| spec_nil a : spec_steps a [] a
| spec_cons a e a' es a'' : spec_step a e a' → spec_steps a' es a'' → spec_steps a (e :: es) a''.

(** ** The refinement *)

(** How many requests hold an address. *)
Definition users (n : nat) (run : gmap nat (option nat)) : nat :=
  size (filter (λ kv : nat * option nat, snd kv = Some n) run).
Lemma users_insert r ctx run n : run !! r = None →
  users n (<[r := ctx]> run) = ((if decide (ctx = Some n) then 1 else 0) + users n run)%nat.
Proof.
  intros Hr. unfold users. rewrite map_filter_insert. cbn [snd]. case_decide.
  - rewrite map_size_insert_None; [done|]. by rewrite map_lookup_filter, Hr.
  - by rewrite delete_id.
Qed.
Lemma users_delete r ctx run n : run !! r = Some ctx →
  users n run = ((if decide (ctx = Some n) then 1 else 0) + users n (delete r run))%nat.
Proof.
  intros Hr. rewrite <- (insert_delete_id run r ctx Hr) at 1. apply users_insert, lookup_delete_eq.
Qed.
Lemma users_replace r c1 c2 run n : run !! r = Some c1 → c1 ≠ Some n → c2 ≠ Some n →
  users n (<[r := c2]> run) = users n run.
Proof.
  intros Hr H1 H2. rewrite <- (insert_delete_eq run r c2), users_insert by apply lookup_delete_eq.
  rewrite (users_delete r c1 run) by done. by rewrite !decide_False.
Qed.
Lemma users_size n run : (users n run ≤ size run)%nat.
Proof. apply map_size_filter. Qed.
Lemma users_none n run : users n run = 0%nat → ∀ r, run !! r ≠ Some (Some n).
Proof.
  intros H r Hr. rewrite (users_delete _ _ _ _ Hr), decide_True in H by done. lia.
Qed.
Lemma users_zero n run : (∀ r, run !! r ≠ Some (Some n)) → users n run = 0%nat.
Proof.
  intros H. unfold users. apply map_size_empty_iff, map_empty. intros r. apply map_lookup_filter_None.
  right. intros ctx Hr E. cbn in E. subst. by apply (H r).
Qed.

Section Refinement.
Context {T : Type} {store : Store T} {laws : StoreLaws T}.
Implicit Types (s : sessions T) (run : gmap nat (option nat)) (a : register).

(** A session that only request [r] has. *)
Definition private_node s run r n (e : entries_t) : Prop :=
  (∃ c, heap s !! n = Some c ∧ session_id c = "" ∧ requested_session_id c = "" ∧
        referrers c = 0 ∧ entries c = e) ∧
  ∀ r', run !! r' = Some (Some n) → r' = r.
Definition holds s run r (ctx : option (option nat)) (att : option attachment) : Prop :=
  match ctx, att with
  | None, None => True
  | Some None, Some Nobody => True
  | Some (Some n), Some (Private e) => private_node s run r n e
  | Some (Some n), Some (Attached id) => cache_ s !! id = Some n
  | _, _ => False
  end.
Definition cached s run id n : Prop :=
  id ≠ "" ∧ ∃ c, heap s !! n = Some c ∧ session_id c = id ∧ referrers c = Z.of_nat (users n run).
Record related (y : system T) a : Prop := {
  rel_book id : id ≠ "" → book a !! id = logical (mw y) id;
  rel_requests r : holds (mw y) (running y) r (running y !! r) (requests a !! r);
  rel_cache id n : cache_ (mw y) !! id = Some n → cached (mw y) (running y) id n;
  rel_size : Z.of_nat (size (running y)) ≤ int32_max;
}.

Lemma cache_inj y a id id' n : related y a →
  cache_ (mw y) !! id = Some n → cache_ (mw y) !! id' = Some n → id = id'.
Proof.
  intros R H H'. destruct (rel_cache _ _ R _ _ H) as (_ & c & Hc & <- & _).
  destruct (rel_cache _ _ R _ _ H') as (_ & c' & Hc' & <- & _). congruence.
Qed.
Lemma holds_att y a r ctx : related y a → running y !! r = Some ctx →
  ∃ att, requests a !! r = Some att ∧ holds (mw y) (running y) r (Some ctx) (Some att).
Proof.
  intros R Hr. pose proof (rel_requests _ _ R r) as H. rewrite Hr in H.
  destruct (requests a !! r) as [att|]; [by exists att|]. by destruct ctx.
Qed.
Lemma held y a r n : related y a → running y !! r = Some (Some n) → is_Some (heap (mw y) !! n).
Proof.
  intros R Hr. destruct (holds_att _ _ _ _ R Hr) as ([|e|id] & _ & H); [done| |].
  - destruct H as [(c & Hc & _) _]. by exists c.
  - destruct (rel_cache _ _ R _ _ H) as (_ & c & Hc & _). by exists c.
Qed.
Lemma private_not_cached y a r n e id : related y a → private_node (mw y) (running y) r n e →
  cache_ (mw y) !! id ≠ Some n.
Proof.
  intros R [(c & Hc & Hs & _) _] H. destruct (rel_cache _ _ R _ _ H) as (Hid & c' & Hc' & Hs' & _).
  congruence.
Qed.
(** What another request has is as it was. *)
Lemma holds_frame s run s' run' r ctx att : holds s run r ctx att →
  (∀ n e, private_node s run r n e → ctx = Some (Some n) → heap s' !! n = heap s !! n ∧
          ∀ r', run' !! r' = Some (Some n) → run !! r' = Some (Some n)) →
  (∀ id n, cache_ s !! id = Some n → ctx = Some (Some n) → cache_ s' !! id = Some n) →
  holds s' run' r ctx att.
Proof.
  intros H Hp Hc. destruct ctx as [[n|]|], att as [[|e|id]|]; try done; cbn in *.
  - destruct (Hp n e H eq_refl) as [Hh Hr]. destruct H as [H Ho]. split; [by rewrite Hh|].
    intros r' Hr'. by apply Ho, Hr.
  - by apply Hc.
Qed.

(** What a request sees. *)
Lemma sees y a r ctx att : related y a → running y !! r = Some ctx → requests a !! r = Some att →
  view a att = default ∅ (entries <$> node_of ctx (mw y)) ∧
  ctx_exists ctx = (match att with Nobody => false | _ => true end).
Proof.
  intros R Hr Ha. pose proof (rel_requests _ _ R r) as H. rewrite Hr, Ha in H.
  destruct ctx as [n|], att as [|e|id]; try done; cbn in *.
  - destruct H as [(c & -> & _ & _ & _ & <-) _]. done.
  - destruct (rel_cache _ _ R _ _ H) as (Hid & c & Hc & _). rewrite (rel_book _ _ R _ Hid).
    unfold logical. by rewrite H, Hc.
Qed.
Lemma sees_key y a r ctx att key : related y a → running y !! r = Some ctx → requests a !! r = Some att →
  (node_of ctx (mw y) ≫= λ n, entries n !! key) = view a att !! key.
Proof.
  intros R Hr Ha. destruct (sees _ _ _ _ _ R Hr Ha) as [-> _].
  destruct (node_of _ _); cbn; [done|]. by rewrite lookup_empty.
Qed.

(** A change of a node that a request holds. *)
Lemma related_change s run a r n f g : related (System s run) a → run !! r = Some (Some n) →
  (∀ c, session_id (g c) = session_id c ∧ requested_session_id (g c) = requested_session_id c ∧
        referrers (g c) = referrers c ∧ entries (g c) = f (entries c)) →
  related (System (on_node n g s) run) (change f r a).
Proof.
  intros R Hr Hg. destruct (holds_att _ _ _ _ R Hr) as (att & Ha & H). cbn in Hr, H.
  assert (∀ id m, cache_ s !! id = Some m → cached (on_node n g s) run id m) as Hcache.
  { intros id m Hm. destruct (rel_cache _ _ R _ _ Hm) as (Hid & c & Hc & Hs & Hu). split; [done|].
    cbn in *. destruct (decide (m = n)) as [->|Hmn].
    - exists (g c). rewrite lookup_alter_eq, Hc. destruct (Hg c) as (-> & _ & -> & _). done.
    - exists c. by rewrite lookup_alter_ne. }
  assert (∀ r', r' ≠ r → holds (on_node n g s) run r' (run !! r') (requests a !! r')) as Hother.
  { intros r' Hr'. eapply holds_frame; [exact (rel_requests _ _ R r')|..]; [|done].
    intros m e [_ Hp] Hm. split; [|done]. apply lookup_alter_ne. intros <-. by apply Hr', eq_sym, Hp. }
  unfold change. rewrite Ha. destruct att as [|e|id]; [done| |].
  - split; cbn; [| |done|apply R].
    + intros id Hid. rewrite (rel_book _ _ R _ Hid). unfold logical. cbn.
      destruct (cache_ s !! id) as [m|] eqn:Em; [|done].
      rewrite lookup_alter_ne; [done|]. intros <-. by eapply (private_not_cached _ _ _ _ _ id R).
    + intros r'. destruct (decide (r' = r)) as [->|Hr']; [|rewrite lookup_insert_ne by done; by apply Hother].
      rewrite Hr, lookup_insert_eq. destruct H as [(c & Hc & H1 & H2 & H3 & <-) Ho]. split; [|done].
      exists (g c). cbn. rewrite lookup_alter_eq, Hc. destruct (Hg c) as (-> & -> & -> & ->). done.
  - split; cbn; [| |done|apply R].
    + intros id' Hid'. unfold logical. cbn. destruct (decide (id' = id)) as [->|Hne].
      * rewrite lookup_alter_eq, (rel_book _ _ R _ Hid'). unfold logical. cbn in *. rewrite H.
        rewrite lookup_alter_eq. destruct (heap s !! n) as [c|]; [|done]. cbn.
        destruct (Hg c) as (_ & _ & _ & ->). done.
      * rewrite lookup_alter_ne, (rel_book _ _ R _ Hid') by done. unfold logical. cbn in *.
        destruct (cache_ s !! id') as [m|] eqn:Em; [|done]. rewrite lookup_alter_ne; [done|].
        intros <-. by eapply Hne, cache_inj.
    + intros r'. destruct (decide (r' = r)) as [->|Hr']; [|by apply Hother].
      by rewrite Hr, Ha.
Qed.
(** A request that has none gets a session of its own. *)
Lemma related_own s run a r n s' : related (System s run) a → run !! r = Some None →
  allocate cached_new s = (n, s') → related (System s' (<[r := Some n]> run)) (own r a).
Proof.
  intros R Hr [= Hn <-]. destruct (holds_att _ _ _ _ R Hr) as (att & Ha & H). cbn in Hr, H.
  destruct att; try done. clear H.
  assert (heap s !! n = None) as Hfresh by (apply not_elem_of_dom; rewrite <- Hn; apply is_fresh).
  rewrite Hn. clear Hn.
  assert (∀ r', run !! r' ≠ Some (Some n)) as Hnone.
  { intros r' Hr'. destruct (held _ _ _ _ R Hr') as [c Hc]. cbn in Hc. congruence. }
  assert (∀ id, cache_ s !! id ≠ Some n) as Hnc.
  { intros id Hid. destruct (rel_cache _ _ R _ _ Hid) as (_ & c & Hc & _). cbn in Hc. congruence. }
  split; cbn.
  - intros id Hid. rewrite (rel_book _ _ R _ Hid). unfold logical. cbn.
    destruct (cache_ s !! id) as [m|] eqn:Em; [|done]. rewrite lookup_insert_ne; [done|]. by intros <-; eapply Hnc.
  - intros r'. destruct (decide (r' = r)) as [->|Hr'].
    + rewrite lookup_insert_eq, lookup_alter_eq, Ha. cbn. split.
      * exists cached_new. cbn. by rewrite lookup_insert_eq.
      * intros r1. destruct (decide (r1 = r)) as [->|Hr1]; [done|]. rewrite lookup_insert_ne by done.
        intros Hr2. by destruct (Hnone r1).
    + rewrite lookup_insert_ne, lookup_alter_ne by done. eapply holds_frame; [exact (rel_requests _ _ R r')|..]; [|done].
      cbn. intros m e [(c & Hc & _) Ho] Hm. split.
      * apply lookup_insert_ne. congruence.
      * intros r''. destruct (decide (r'' = r)) as [->|?]; [|by rewrite lookup_insert_ne].
        rewrite lookup_insert_eq. intros [= ->]. congruence.
  - intros id m Hm. destruct (rel_cache _ _ R _ _ Hm) as (Hid & c & Hc & Hs & Hu). cbn in *.
    assert (m ≠ n) by (intros ->; by eapply Hnc).
    split; [done|]. exists c. cbn. rewrite lookup_insert_ne, (users_replace r None) by congruence. done.
  - rewrite map_size_insert_Some by done. apply R.
Qed.
Lemma own_id r a att : requests a !! r = Some att → att ≠ Nobody → own r a = a.
Proof.
  intros Ha Hn. unfold own. destruct a as [b q]. f_equal. cbn in *. apply map_eq. intros r'.
  destruct (decide (r' = r)) as [->|?]; [|by rewrite lookup_alter_ne].
  rewrite lookup_alter_eq, Ha. by destruct att.
Qed.
(** A change that makes a session where there is none. *)
Lemma related_check s run a r ctx n s' f g : related (System s run) a → run !! r = Some ctx →
  check_node ctx s = (n, s') →
  (∀ c, session_id (g c) = session_id c ∧ requested_session_id (g c) = requested_session_id c ∧
        referrers (g c) = referrers c ∧ entries (g c) = f (entries c)) →
  related (System (on_node n g s') (<[r := Some n]> run)) (change f r (own r a)).
Proof.
  intros R Hr Hn Hg. destruct (holds_att _ _ _ _ R Hr) as (att & Ha & H). cbn in Hr, H. destruct ctx as [m|].
  - injection Hn as -> ->. rewrite (own_id _ _ att), insert_id; [|done|done|by destruct att].
    by apply related_change.
  - apply related_change; [by eapply related_own|apply lookup_insert_eq|done].
Qed.

(** A request arrives without a session. *)
Lemma related_nobody s run a r : related (System s run) a → run !! r = None →
  Z.of_nat (size run) < int32_max →
  related (System s (<[r := None]> run)) (Register (book a) (<[r := Nobody]> (requests a))).
Proof.
  intros R Hr Hsize. split; cbn.
  - apply R.
  - intros r'. destruct (decide (r' = r)) as [->|Hr']; [by rewrite !lookup_insert_eq|].
    rewrite !lookup_insert_ne by done. eapply holds_frame; [exact (rel_requests _ _ R r')|..]; [|done].
    intros m e _ _. split; [done|]. intros r1. destruct (decide (r1 = r)) as [->|?].
    + by rewrite lookup_insert_eq.
    + by rewrite lookup_insert_ne.
  - intros id m Hm. destruct (rel_cache _ _ R _ _ Hm) as (Hid & c & Hc & Hs & Hu). split; [done|].
    exists c. by rewrite users_insert, decide_False.
  - rewrite map_size_insert_None by done. lia.
Qed.
(** It arrives with a session that is cached. *)
Lemma related_hit s run a r id n : related (System s run) a → run !! r = None →
  Z.of_nat (size run) < int32_max → cache_ s !! id = Some n →
  related (System (on_node n (λ c, cs_referrers (swrap 32 (referrers c + 1)) c) s) (<[r := Some n]> run))
    (Register (book a) (<[r := Attached id]> (requests a))).
Proof.
  intros R Hr Hsize Hid. split; cbn.
  - intros id' Hid'. rewrite (rel_book _ _ R _ Hid'). unfold logical. cbn.
    destruct (cache_ s !! id') as [m|]; [|done]. destruct (decide (m = n)) as [->|?].
    + rewrite lookup_alter_eq. by destruct (heap s !! n).
    + by rewrite lookup_alter_ne.
  - intros r'. destruct (decide (r' = r)) as [->|Hr']; [by rewrite !lookup_insert_eq|].
    rewrite !lookup_insert_ne by done. eapply holds_frame; [exact (rel_requests _ _ R r')|..]; [|done].
    intros m e Hm _. assert (n ≠ m) by (intros ->; by eapply (private_not_cached _ _ _ _ _ id R)).
    split; [by apply lookup_alter_ne|]. intros r1. destruct (decide (r1 = r)) as [->|?].
    + rewrite lookup_insert_eq. congruence.
    + by rewrite lookup_insert_ne.
  - intros id' m Hm. destruct (rel_cache _ _ R _ _ Hm) as (Hid' & c & Hc & Hs & Hu). cbn in *. split; [done|].
    destruct (decide (m = n)) as [->|Hmn].
    + exists (cs_referrers (swrap 32 (referrers c + 1)) c). cbn. rewrite lookup_alter_eq, Hc.
      split; [done|]. split; [done|]. cbn.
      pose proof (users_size n run). rewrite Hu, users_insert, decide_True, swrap_id by first [done|unfold int32_max in *; lia].
      lia.
    + exists c. cbn. by rewrite lookup_alter_ne, users_insert, decide_False by congruence.
  - rewrite map_size_insert_None by done. lia.
Qed.
(** It arrives with a session that the store has. *)
Lemma related_load s run a r id n e st st' cn : related (System s run) a → run !! r = None →
  Z.of_nat (size run) < int32_max → id ≠ "" → cache_ s !! id = None → content (store_ s) id = Some e →
  (∀ id', id' ≠ id → content st' id' = content (store_ s) id') →
  heap s !! n = None → session_id cn = id → referrers cn = 1 → entries cn = e →
  store_ st = st' → cache_ st = <[id := n]> (cache_ s) → heap st = <[n := cn]> (heap s) →
  related (System st (<[r := Some n]> run)) (Register (book a) (<[r := Attached id]> (requests a))).
Proof.
  intros R Hr Hsize Hid Hcache He Hst Hn Hcid Hcr Hce <- Hsc Hsh.
  assert (∀ r', run !! r' ≠ Some (Some n)) as Hnone.
  { intros r' Hr'. destruct (held _ _ _ _ R Hr') as [c Hc]. cbn in Hc. congruence. }
  assert (∀ id' m, cache_ s !! id' = Some m → n ≠ m) as Hnm.
  { intros id' m Hm ->. destruct (rel_cache _ _ R _ _ Hm) as (_ & c & Hc & _). cbn in Hc. congruence. }
  split; cbn.
  - intros id' Hid'. rewrite (rel_book _ _ R _ Hid'). unfold logical. cbn. rewrite Hsc, Hsh.
    destruct (decide (id' = id)) as [->|Hne].
    + by rewrite lookup_insert_eq, Hcache, lookup_insert_eq, He, <- Hce.
    + rewrite (lookup_insert_ne _ id) by done. destruct (cache_ s !! id') as [m|] eqn:Em.
      * by rewrite lookup_insert_ne by eauto.
      * by rewrite Hst.
  - intros r'. destruct (decide (r' = r)) as [->|Hr'].
    + rewrite !lookup_insert_eq. cbn. by rewrite Hsc, lookup_insert_eq.
    + rewrite !lookup_insert_ne by done. eapply holds_frame; [exact (rel_requests _ _ R r')|..]; cbn.
      * intros m e' [(c & Hc & _) _] Hm. assert (n ≠ m) by congruence.
        split; [by rewrite Hsh, lookup_insert_ne|]. intros r1. destruct (decide (r1 = r)) as [->|?].
        -- rewrite lookup_insert_eq. congruence.
        -- by rewrite lookup_insert_ne.
      * intros id' m Hm _. rewrite Hsc, lookup_insert_ne; [done|congruence].
  - rewrite Hsc. intros id' m. destruct (decide (id' = id)) as [->|Hne].
    + rewrite lookup_insert_eq. intros [= <-]. split; [done|]. exists cn. rewrite Hsh, lookup_insert_eq, Hcr.
      split; [done|]. split; [done|]. rewrite users_insert, decide_True by done.
      by rewrite users_zero.
    + rewrite lookup_insert_ne by done. intros Hm. destruct (rel_cache _ _ R _ _ Hm) as (Hid' & c & Hc & Hs & Hu).
      cbn in *. split; [done|]. exists c. assert (n ≠ m) by eauto.
      rewrite Hsh, lookup_insert_ne, users_insert, decide_False by congruence. done.
  - rewrite map_size_insert_None by done. lia.
Qed.
Lemma related_arrive s run a r now cookies ctx s' : related (System s run) a → run !! r = None →
  Z.of_nat (size run) < int32_max → session_before now cookies s = (ctx, s') →
  let id := load_id cookies s in
  related (System s' (<[r := ctx]> run)) (Register (book a)
    (<[r := if bool_decide (id ≠ "" ∧ is_Some (book a !! id)) then Attached id else Nobody]> (requests a))).
Proof.
  intros R Hr Hsize. unfold session_before. cbn zeta. set (id := load_id cookies s).
  case_bool_decide as Hid.
  { intros [= <- <-]. rewrite bool_decide_eq_false_2 by tauto. by apply related_nobody. }
  pose proof (rel_book _ _ R _ Hid) as Hb. unfold logical in Hb. cbn in Hb.
  destruct (cache_ s !! id) as [n|] eqn:Ec.
  - intros [= <- <-]. destruct (rel_cache _ _ R _ _ Ec) as (_ & c & Hc & _). cbn in Hc.
    rewrite Hc in Hb. cbn in Hb. rewrite bool_decide_eq_true_2 by (rewrite Hb; eauto).
    by apply related_hit.
  - rewrite contains_law, <- Hb. case_bool_decide as Hi; cbn [negb].
    + rewrite bool_decide_eq_true_2 by done. destruct Hi as [e He]. rewrite Hb in He.
      destruct (load_law now (store_ s) (cs_referrers 1 (cs_ids id "" cached_new)) e He) as (st' & -> & Hst).
      intros [= <- <-]. eapply related_load; try done; try reflexivity.
      apply not_elem_of_dom. apply is_fresh.
    + intros [= <- <-]. rewrite bool_decide_eq_false_2 by tauto. by apply related_nobody.
Qed.

(** A request leaves: what the others have stays, if the heap keeps their nodes and the cache
    their ids. *)
Lemma holds_leave s run a s' r n : related (System s run) a → run !! r = Some n →
  (∀ r' m e, r' ≠ r → run !! r' = Some (Some m) → private_node s run r' m e → heap s' !! m = heap s !! m) →
  (∀ r' m id, r' ≠ r → run !! r' = Some (Some m) → cache_ s !! id = Some m → cache_ s' !! id = Some m) →
  ∀ r', holds s' (delete r run) r' (delete r run !! r') (delete r (requests a) !! r').
Proof.
  intros R Hr Hp Hc r'. destruct (decide (r' = r)) as [->|Hr']; [by rewrite !lookup_delete_eq|].
  rewrite !lookup_delete_ne by done. eapply holds_frame; [exact (rel_requests _ _ R r')|..]; [|by eauto].
  intros m e Hm Hrm. split; [by eauto|]. intros r1. rewrite lookup_delete_Some. tauto.
Qed.
Lemma size_leave (run : gmap nat (option nat)) r : Z.of_nat (size run) ≤ int32_max →
  Z.of_nat (size (delete r run)) ≤ int32_max.
Proof.
  intros H. etrans; [|exact H]. destruct (run !! r) as [ctx|] eqn:E.
  - rewrite <- (insert_delete_id run r ctx E) at 2. rewrite map_size_insert_None by apply lookup_delete_eq. lia.
  - by rewrite delete_id.
Qed.
Lemma related_leave_nobody s run a r : related (System s run) a → run !! r = Some None →
  related (System s (delete r run)) (Register (book a) (delete r (requests a))).
Proof.
  intros R Hr. split; cbn; [apply R|by eapply holds_leave| |by apply size_leave, R].
  intros id m Hm. destruct (rel_cache _ _ R _ _ Hm) as (Hid & c & Hc & Hs & Hu). split; [done|].
  exists c. cbn in *. rewrite (users_delete r None), decide_False in Hu by done. done.
Qed.
(** Others still hold the session. *)
Lemma related_leave_shared s run a r id n c : related (System s run) a → run !! r = Some (Some n) →
  cache_ s !! id = Some n → heap s !! n = Some c →
  related (System (on_node n (λ c, cs_referrers (swrap 32 (referrers c - 1)) c) s) (delete r run))
    (Register (book a) (delete r (requests a))).
Proof.
  intros R Hr Hid Hc. split; cbn; [| | |by apply size_leave, R].
  - intros id' Hid'. rewrite (rel_book _ _ R _ Hid'). unfold logical. cbn.
    destruct (cache_ s !! id') as [m|]; [|done]. destruct (decide (m = n)) as [->|?].
    + by rewrite lookup_alter_eq, Hc.
    + by rewrite lookup_alter_ne.
  - eapply holds_leave; [done|done| |done]. intros r' m e Hr' Hrm Hm. apply lookup_alter_ne.
    intros ->. by eapply (private_not_cached _ _ _ _ _ id R).
  - intros id' m Hm. destruct (rel_cache _ _ R _ _ Hm) as (Hid' & c' & Hc' & Hs & Hu). cbn in *.
    split; [done|]. rewrite (users_delete r (Some n)) in Hu by done. destruct (decide (m = n)) as [->|Hmn].
    + exists (cs_referrers (swrap 32 (referrers c' - 1)) c'). cbn. rewrite lookup_alter_eq, Hc'.
      split; [done|]. split; [done|]. rewrite decide_True in Hu by done.
      pose proof (users_size n run) as H1. pose proof (rel_size _ _ R) as H2. cbn in H2.
      rewrite (users_delete r (Some n)), decide_True in H1 by done.
      rewrite Hu, swrap_id by first [done|unfold int32_max in *; lia]. lia.
    + exists c'. cbn. rewrite lookup_alter_ne by done. rewrite decide_False in Hu by congruence. done.
Qed.
(** The last one leaves: the session goes from the cache to the store. *)
Lemma related_leave_last s run a r id n c s' : related (System s run) a → run !! r = Some (Some n) →
  cache_ s !! id = Some n → heap s !! n = Some c → users n (delete r run) = 0%nat →
  cache_ s' = delete id (cache_ s) → (∀ m, m ≠ n → heap s' !! m = heap s !! m) →
  content (store_ s') id = Some (entries c) →
  (∀ id', id' ≠ id → content (store_ s') id' = content (store_ s) id') →
  related (System s' (delete r run)) (Register (book a) (delete r (requests a))).
Proof.
  intros R Hr Hid Hc Hu Hsc Hsh Hst Hst'.
  assert (∀ id' m, cache_ s !! id' = Some m → id' ≠ id → m ≠ n) as Hne.
  { intros id' m Hm Hii ->. by eapply Hii, (cache_inj _ _ id' id n R). }
  split; cbn; [| | |by apply size_leave, R].
  - intros id' Hid'. rewrite (rel_book _ _ R _ Hid'). unfold logical. cbn. rewrite Hsc.
    destruct (decide (id' = id)) as [->|Hii].
    + by rewrite lookup_delete_eq, Hid, Hst, Hc.
    + rewrite lookup_delete_ne by done. destruct (cache_ s !! id') as [m|] eqn:Em.
      * by rewrite Hsh by eauto.
      * by rewrite Hst'.
  - eapply holds_leave; [done|done|..].
    + intros r' m e Hr' Hrm Hm. apply Hsh. intros ->. by eapply (private_not_cached _ _ _ _ _ id R).
    + intros r' m id' Hr' Hrm Hm. rewrite Hsc, lookup_delete_ne; [done|]. intros <-.
      cbn in Hm. assert (m = n) as -> by congruence.
      apply (users_none n (delete r run) Hu r'). by rewrite lookup_delete_ne.
  - intros id' m. rewrite Hsc, lookup_delete_Some. intros [Hii Hm].
    destruct (rel_cache _ _ R _ _ Hm) as (Hid' & c' & Hc' & Hs & Hu'). cbn in *. split; [done|].
    exists c'. cbn. assert (m ≠ n) by eauto. rewrite Hsh by done.
    rewrite (users_delete r (Some n)), decide_False in Hu' by congruence. done.
Qed.
(** A session of one request becomes one of the book. *)
Lemma related_leave_private s run a r id n e s' : related (System s run) a → run !! r = Some (Some n) →
  private_node s run r n e → id ≠ "" → logical s id = None →
  cache_ s' = cache_ s → (∀ m, m ≠ n → heap s' !! m = heap s !! m) →
  content (store_ s') id = Some e →
  (∀ id', id' ≠ id → content (store_ s') id' = content (store_ s) id') →
  related (System s' (delete r run)) (Register (<[id := e]> (book a)) (delete r (requests a))).
Proof.
  intros R Hr Hp Hid Hnew Hsc Hsh Hst Hst'.
  assert (∀ id' m, cache_ s !! id' = Some m → m ≠ n) as Hne.
  { intros id' m Hm ->. by eapply (private_not_cached _ _ _ _ _ id' R). }
  split; cbn; [| | |by apply size_leave, R].
  - intros id' Hid'. unfold logical. rewrite Hsc. destruct (decide (id' = id)) as [->|Hii].
    + rewrite lookup_insert_eq. unfold logical in Hnew. destruct (cache_ s !! id) as [m|] eqn:Em; [|done].
      destruct (rel_cache _ _ R _ _ Em) as (_ & c & Hc & _). cbn in Hc. by rewrite Hc in Hnew.
    + rewrite lookup_insert_ne, (rel_book _ _ R _ Hid') by done. unfold logical. cbn.
      destruct (cache_ s !! id') as [m|] eqn:Em.
      * by rewrite Hsh by eauto.
      * by rewrite Hst'.
  - eapply holds_leave; [done|done|..].
    + intros r' m e' Hr' Hrm Hm. apply Hsh. intros ->. by apply Hr', Hp.
    + intros r' m id' _ _. by rewrite Hsc.
  - intros id' m. rewrite Hsc. intros Hm.
    destruct (rel_cache _ _ R _ _ Hm) as (Hid' & c' & Hc' & Hs & Hu'). cbn in *. split; [done|].
    exists c'. cbn. assert (m ≠ n) by eauto. rewrite Hsh by done.
    rewrite (users_delete r (Some n)), decide_False in Hu' by congruence. done.
Qed.

(** [after_handle], by what the request holds. *)
Lemma store_id_cookies id cookies s :
  value_ <$> cookies_to_add (fst (store_id id cookies s)) = (value_ <$> cookies_to_add cookies) ++ [id].
Proof. cbn. by rewrite fmap_app. Qed.
Lemma save_put now st cn : ∃ cn' st', st_save now st cn = (Ok cn', st') ∧
  content st' (session_id cn) = Some (entries cn) ∧
  ∀ id, id ≠ session_id cn → content st' id = content st id.
Proof. apply save_law. Qed.

Lemma leave_private s run a r n e now random cookies cookies' s' :
  related (System s run) a → run !! r = Some (Some n) → private_node s run r n e →
  random ≠ "" → logical s random = None →
  session_after now random cookies (Some n) s = (cookies', s') →
  related (System s' (delete r run)) (Register (<[random := e]> (book a)) (delete r (requests a))) ∧
  value_ <$> cookies_to_add cookies' = (value_ <$> cookies_to_add cookies) ++ [random].
Proof.
  intros R Hr Hp Hrand Hnew. pose proof Hp as [(c & Hc & Hs & Hq & Hf & <-) Ho].
  unfold session_after. cbn [heap on_node set_heap]. rewrite lookup_alter_eq, Hc. cbn [fmap option_fmap option_map].
  cbn -[st_save store_id]. rewrite Hf, Hs, Hq, orb_true_r.
  destruct (Z.ltb_spec 0 (swrap 32 (0 - 1))) as [H|_]; [by vm_compute in H|].
  rewrite (bool_decide_eq_true_2 ("" = "")) by done. cbn -[st_save swrap].
  destruct (save_put now (store_ s) (cs_ids random "" (cs_refresh true (cs_referrers (swrap 32 (0 - 1)) c))))
    as (cn' & st' & Hsave & Hst & Hst').
  cbn -[st_save swrap] in *. rewrite Hsave. intros [= <- <-].
  split; [|apply (store_id_cookies random cookies s)].
  eapply related_leave_private; try done.
  intros m Hm. cbn. by rewrite lookup_insert_ne, lookup_alter_ne.
Qed.
Lemma leave_attached s run a r n id now random cookies cookies' s' :
  related (System s run) a → run !! r = Some (Some n) → cache_ s !! id = Some n →
  session_after now random cookies (Some n) s = (cookies', s') →
  related (System s' (delete r run)) (Register (book a) (delete r (requests a))) ∧
  ∃ issued, (issued = None ∨ issued = Some id) ∧
    value_ <$> cookies_to_add cookies' =
      (value_ <$> cookies_to_add cookies) ++ match issued with Some id => [id] | None => [] end.
Proof.
  intros R Hr Hid. pose proof (rel_cache _ _ R _ _ Hid) as (Hne & c & Hc & Hs & Hu). cbn in Hc, Hu.
  unfold session_after. cbn [heap on_node set_heap]. rewrite lookup_alter_eq, Hc. cbn [fmap option_fmap option_map].
  cbn -[st_save store_id swrap]. rewrite Hs.
  destruct (Z.ltb_spec 0 (swrap 32 (referrers c - 1))) as [_|H].
  { intros [= <- <-]. split; [by eapply related_leave_shared|]. exists None. split; [by left|]. by rewrite app_nil_r. }
  rewrite !(bool_decide_eq_false_2 (id = "")) by done. rewrite orb_false_r. cbn -[st_save store_id swrap].
  set (k := swrap 32 (referrers c - 1)) in *.
  assert (users n (delete r run) = 0%nat) as Hlast.
  { pose proof (users_size n run) as H1. pose proof (rel_size _ _ R) as H2. cbn in H2.
    rewrite (users_delete r (Some n)), decide_True in Hu, H1 by done. unfold k in H.
    rewrite Hu, swrap_id in H by first [done|unfold int32_max in *; lia]. lia. }
  set (cn := cs_refresh (requested_refresh c) (cs_referrers k c)).
  destruct (save_put now (store_ s) cn) as (cn' & st' & Hsave & Hst & Hst').
  assert (session_id cn = id) as Hcn by done. rewrite Hcn in Hst, Hst'.
  destruct (requested_refresh c) eqn:Eq; cbn -[st_save swrap]; rewrite Hsave; intros [= <- <-].
  - split.
    + eapply related_leave_last; try done. intros m Hm. cbn. by rewrite lookup_insert_ne, lookup_alter_ne.
    + exists (Some id). split; [by right|]. rewrite <- Hs. exact (store_id_cookies (session_id c) cookies s).
  - split.
    + eapply related_leave_last; try done. intros m Hm. cbn. by rewrite lookup_insert_ne, lookup_alter_ne.
    + exists None. split; [by left|]. by rewrite app_nil_r.
Qed.

(** Each step of the middleware is a step of the specification. *)
Lemma refine_observe y a r ctx : related y a → running y !! r = Some ctx →
  ∃ att, requests a !! r = Some att ∧
    ctx_exists ctx = (match att with Nobody => false | _ => true end) ∧
    ∀ key, (node_of ctx (mw y) ≫= λ n, entries n !! key) = view a att !! key.
Proof.
  intros R Hr. destruct (holds_att _ _ _ _ R Hr) as (att & Ha & _). exists att. split; [done|].
  split; [by eapply sees|]. intros key. by eapply sees_key.
Qed.
Lemma refine_leave s run a r ctx now random cookies cookies' issued s' :
  related (System s run) a → run !! r = Some ctx → random ≠ "" → logical s random = None →
  session_after now random cookies ctx s = (cookies', s') →
  value_ <$> cookies_to_add cookies' =
    (value_ <$> cookies_to_add cookies) ++ match issued with Some id => [id] | None => [] end →
  ∃ a', spec_step a (Leave r issued) a' ∧ related (System s' (delete r run)) a'.
Proof.
  intros R Hr Hrand Hnew Hafter Hc. destruct (holds_att _ _ _ _ R Hr) as (att & Ha & H). cbn in Hr, H.
  destruct ctx as [n|], att as [|e|id]; try done.
  - destruct (leave_private _ _ _ _ _ _ _ _ _ _ _ R Hr H Hrand Hnew Hafter) as [R' Hc'].
    rewrite Hc' in Hc. apply app_inv_head in Hc. destruct issued as [id|]; [|done]. injection Hc as <-.
    eexists. split; [|exact R']. apply spec_leave_private; [done|done|]. by rewrite (rel_book _ _ R _ Hrand).
  - destruct (leave_attached _ _ _ _ _ _ _ _ _ _ _ R Hr H Hafter) as [R' (issued' & Hi & Hc')].
    rewrite Hc' in Hc. apply app_inv_head in Hc. eexists. split; [|exact R'].
    apply (spec_leave_attached _ _ _ _ Ha). by destruct issued as [id1|], issued' as [id2|]; simplify_eq.
  - injection Hafter as <- <-. rewrite <- (app_nil_r (_ <$> _)) in Hc at 1. apply app_inv_head in Hc.
    destruct issued; [done|]. eexists. split; [by apply spec_leave_nobody|]. by apply related_leave_nobody.
Qed.
Lemma refine_step y e y' a : related y a → step y e y' → ∃ a', spec_step a e a' ∧ related y' a'.
Proof.
  intros R H. destruct H.
  - destruct (requests a !! r) as [att|] eqn:Ha.
    { pose proof (rel_requests _ _ R r) as Hh. cbn in Hh. rewrite H, Ha in Hh. done. }
    eexists. split; [by apply spec_arrive|]. by eapply related_arrive.
  - destruct (refine_observe _ _ _ _ R H) as (att & Ha & -> & _). exists a. split; [by apply spec_exists|done].
  - destruct (refine_observe _ _ _ _ R H) as (att & Ha & _ & Hk). exists a. split; [|done].
    unfold ctx_get. cbn in Hk. rewrite Hk. by apply spec_get.
  - destruct (refine_observe _ _ _ _ R H) as (att & Ha & _ & Hk). exists a. split; [|done].
    unfold ctx_contains. cbn in Hk. rewrite Hk. by apply spec_contains.
  - destruct (refine_observe _ _ _ _ R H) as (att & Ha & _ & Hk). exists a. split; [|done].
    unfold ctx_string. cbn in Hk. rewrite Hk. by apply spec_text.
  - destruct (refine_observe _ _ _ _ R H) as (att & Ha & _). eexists. split; [by apply spec_set|].
    unfold ctx_set in *. destruct (check_node ctx s) as [n s1] eqn:En. simplify_eq.
    by eapply related_check.
  - destruct (refine_observe _ _ _ _ R H) as (att & Ha & _). eexists. split; [by apply spec_apply|].
    unfold ctx_apply in *. destruct (check_node ctx s) as [n s1] eqn:En. simplify_eq.
    by eapply related_check.
  - destruct (refine_observe _ _ _ _ R H) as (att & Ha & _). eexists. split; [by apply spec_remove|].
    destruct ctx as [n|]; cbn [ctx_remove]; [by apply related_change|].
    destruct (holds_att _ _ _ _ R H) as (att' & Ha' & Hh). unfold change. rewrite Ha'. by destruct att'.
  - destruct (refine_observe _ _ _ _ R H) as (att & Ha & _). eexists. split; [by apply spec_refresh|].
    destruct ctx as [n|]; cbn [ctx_refresh_expiration]; [|done].
    pose proof (related_change s run a r n id (cs_refresh true) R H) as R'.
    assert (change id r a = a) as Hid; [|rewrite Hid in R'; by apply R'].
    unfold change. rewrite Ha. destruct a as [b q], att as [|e|i]; cbn in *; [done| |].
    + by rewrite insert_id.
    + by rewrite alter_id.
  - by eapply refine_leave.
Qed.

(** C9: the session middleware is a book of sessions.  Steps - a request arrives, it makes one
    access to its session, it leaves - come one at a time, those of different requests in any
    order; over any store that keeps what it is given, what each access is told, and each id
    issued, is what it would be if there were one map from ids to sessions, read and changed in
    place: whether a session comes from the cache, shared with the other requests that hold
    it, or from the store, and when it is written back, cannot be told.  That a step is not
    interrupted is assumed, not proved: it is the work of the mutexes, of the middleware for
    arrivals and departures and of the session for the accesses, but contains() and
    refresh_expiration() take none (session.h:241, 307), so the claim does not cover them when
    they race with another access to the same session.  An id made at random is assumed to be
    new, which the code does not look at. *)
Theorem sessions_refine (st : T) (b : gmap string entries_t) :
  (∀ id, id ≠ "" → b !! id = content st id) →
  ∀ es y, steps (System (sessions_new st) ∅) es y →
  ∃ a, spec_steps (Register b ∅) es a ∧
    (∀ id, id ≠ "" → book a !! id = logical (mw y) id).
Proof.
  intros Hb es y Hsteps.
  assert (∀ y0 a0, related y0 a0 → steps y0 es y → ∃ a, spec_steps a0 es a ∧ related y a) as Hsim.
  { clear Hsteps. intros y0 a0 R H. revert a0 R. induction H; intros a0 R.
    - exists a0. split; [constructor|done].
    - destruct (refine_step _ _ _ _ R H) as (a1 & Hs & R1). destruct (IHsteps a1 R1) as (a2 & Hs2 & R2).
      exists a2. split; [by econstructor|done]. }
  assert (related (System (sessions_new st) ∅) (Register b ∅)) as R0 by by split.
  destruct (Hsim _ _ R0 Hsteps) as (a & Ha & R).
  exists a. split; [done|]. apply R.
Qed.
End Refinement.
