(* ===== verification/SessionFiles.v ===== *)
(** * Sessions in files

    What [FileStore] of crow/middlewares/session.h keeps: a session it has written it reads back;
    and what it does not: a session that was emptied, and a file that is not its own. *)

From stdpp Require Import gmap.
From S2P Require Import Prelude Doubles JsonRead JsonWrite JsonRoundTrip Utility QueryString Http.
From S2P Require Import Service Cookies Text Sessions.
Open Scope Z_scope.

(** ** A session is read back *)

(** Values that keep their digits: all but doubles, which the writer may cut. *)
Definition plain (v : multi_value) : Prop :=
  match v with MInt z => int64_min ≤ z ≤ int64_max | MDouble _ => False | _ => True end.

Lemma plain_storable v : plain v → storable (mv_json v) ∧ wv_nest (mv_json v) ≤ 0.
Proof. by destruct v as [[]|z|d|s]. Qed.
Lemma mv_from_json_reads `{ui : !UMapIter} r v : plain v → rv_wf r →
  wv_of_rvalue r = Ok (reread (mv_json v)) → mv_from_json r = Ok v.
Proof.
  intros Hv Hwf. destruct Hwf as [r t He Ht _ Hn _ _ _ _]. unfold mv_from_json, rv_t, rv_nt.
  rewrite He, Ht. destruct r as [rg esc key l lr t' nt ca er]. cbn in He, Ht, Hn. subst.
  unfold rv_string, rv_t. cbn [wv_of_rvalue rv_t rv_nt r_error r_t r_nt mbind result_bind].
  set (r := RV rg esc key l lr (Some t) nt ca false).
  intros E. destruct t; cbn -[rv_u rv_i rv_s rv_d mv_json reread] in E |- *; fold r in E |- *.
  all: repeat match goal with
    | H : context [match ?x with NumNull => _ | _ => _ end] |- _ => destruct x
    | H : mbind _ ?x = Ok _ |- _ => destruct x; cbn -[rv_u rv_i rv_s rv_d reread mv_json] in H |- *; [|done]
    end.
  all: destruct v as [[]|z|d'|s']; cbn in E, Hv |- *; try destruct (Z.leb_spec 0 z); simplify_eq; try done.
  - rewrite swrap_id; [done|done|unfold int64_max in *; lia].
  - by destruct (Hn eq_refl).
Qed.

Lemma slot_update_fresh f k o : k ∉ o.*1 → slot_update f k o = o ++ [(k, f WNull)].
Proof.
  induction o as [|[k' x] o IH]; [done|]. cbn. intros [Hk Ho]%not_elem_of_cons.
  rewrite decide_False by (by intros ->). by rewrite IH.
Qed.
Lemma wv_set_all {A} (f : A → wvalue) kvs o : NoDup (o ++ (prod_map id f <$> kvs)).*1 →
  foldl (λ jw kv, wv_set jw (fst kv) (f (snd kv))) (WObject o) kvs = WObject (o ++ (prod_map id f <$> kvs)).
Proof.
  revert o. induction kvs as [|[k x] kvs IH]; intros o Hnd; [by rewrite app_nil_r|].
  cbn [foldl fst snd]. unfold wv_set at 2, wv_at_key. cbn [wv_object].
  rewrite slot_update_fresh.
  - rewrite IH; [by rewrite <- app_assoc|]. by rewrite <- app_assoc.
  - rewrite fmap_app in Hnd. apply list.NoDup_app in Hnd. destruct Hnd as (_ & Hd & _).
    intros Hk. apply (Hd k Hk). by left.
Qed.

Section Files.
Context `{ui : !UMapIter} (writable : string → bool).

Definition written (e : entries_t) : list (string * multi_value) := umap_iter (map_to_list e).
Lemma written_perm e : Permutation (written e) (map_to_list e).
Proof. apply umap_iter_perm. Qed.
Lemma written_nodup e : NoDup (written e).*1.
Proof. rewrite written_perm. apply NoDup_fst_map_to_list. Qed.
Lemma keys_kept {A B} (f : A → B) (l : list (string * A)) : (prod_map id f <$> l).*1 = l.*1.
Proof. rewrite <- list_fmap_compose. by apply list_fmap_ext. Qed.
Lemma json_of_entries_object e : e ≠ ∅ → json_of_entries e = WObject (prod_map id mv_json <$> written e).
Proof.
  intros He. unfold json_of_entries. fold (written e). pose proof (written_nodup e) as Hnd.
  destruct (written e) as [|[k v] l] eqn:E.
  { exfalso. apply He, map_to_list_empty_iff. pose proof (written_perm e) as Hp. rewrite E in Hp.
    symmetry. by apply Permutation_nil_l. }
  cbn [foldl]. change (wv_set WNull _ _) with (WObject [(k, mv_json v)]).
  rewrite (wv_set_all mv_json); [done|]. by rewrite <- (keys_kept mv_json) in Hnd.
Qed.
Lemma load_entries_reads rs kvs e :
  List.Forall2 (λ r kv, key_text r = fst kv ∧ mv_from_json r = Ok (snd kv)) rs kvs →
  load_entries rs e = Ok (foldl (λ e kv, <[fst kv := snd kv]> e) e kvs).
Proof.
  intros H. revert e. induction H as [|r [k v] rs kvs [Hk Hv] _ IH]; intros e; [done|].
  cbn [load_entries fst snd foldl] in *. rewrite Hv, Hk. apply IH.
Qed.
Lemma insert_all (kvs : list (string * multi_value)) e : NoDup kvs.*1 → Permutation kvs (map_to_list e) →
  foldl (λ e kv, <[fst kv := snd kv]> e) ∅ kvs = e.
Proof.
  intros Hnd Hp.
  assert (∀ e0 : entries_t, foldl (λ e kv, <[fst kv := snd kv]> e) e0 kvs = list_to_map (rev kvs) ∪ e0) as ->.
  { clear. induction kvs as [|[k v] kvs IH] using rev_ind; intros e0; [cbn; by rewrite (left_id_L ∅ (∪))|].
    rewrite foldl_app, rev_app_distr. cbn. rewrite IH. by rewrite insert_union_l. }
  rewrite (right_id_L ∅ (∪)), <- (list_to_map_to_list e). apply list_to_map_proper.
  - by rewrite <- (Permutation_rev kvs).
  - by rewrite <- (Permutation_rev kvs).
Qed.

Lemma members_read e rest : e ≠ ∅ → map_Forall (λ _, plain) e → ws_skip rest = "" →
  let r := load (dump (json_of_entries e) +:+ rest) in
  (l ← rv_range_l r; load_entries l ∅) = Ok e.
Proof.
  intros He Hp Hws. rewrite json_of_entries_object by done.
  assert (List.Forall (λ kv : string * multi_value, plain (snd kv)) (written e)) as Hplain.
  { apply list.Forall_forall. intros [k v] Hkv. rewrite written_perm in Hkv.
    by apply elem_of_map_to_list, Hp in Hkv. }
  destruct (load_object (prod_map id mv_json <$> written e) rest) as (Hr & Ht & Hl); [| |done|].
  { rewrite keys_kept. apply written_nodup. }
  { apply list.Forall_fmap. eapply list.Forall_impl; [exact Hplain|]. intros [k v]. apply plain_storable. }
  cbn zeta. set (r := load _) in *. rewrite umap_iter_fmap in Hl. apply Forall2_fmap_r in Hl.
  unfold rv_range_l, rv_t. rewrite Hr, Ht. cbn [mbind result_bind]. rewrite decide_True by by left. cbn [mbind result_bind].
  rewrite (load_entries_reads _ (umap_iter (written e))).
  - f_equal. apply insert_all; [rewrite umap_iter_perm; apply written_nodup|].
    rewrite umap_iter_perm. apply written_perm.
  - assert (List.Forall rv_wf (r_l r)) as Hwf.
    { pose proof (load_rv_wf _ Hr) as Hwf. by destruct Hwf. }
    assert (List.Forall (λ kv : string * multi_value, plain (snd kv)) (umap_iter (written e))) as Hplain'
      by by rewrite umap_iter_perm.
    clear -Hl Hwf Hplain'. induction Hl as [|x [k v] l kvs [Hk Hv] _ IH]; [constructor|].
    apply list.Forall_cons in Hwf as [Hx Hwf]. apply list.Forall_cons in Hplain' as [Hp Hplain'].
    constructor; [|by apply IH]. split; [done|]. by apply mv_from_json_reads.
Qed.
Lemma dump_entries_ne e : e ≠ ∅ → dump (json_of_entries e) ≠ "".
Proof. intros He. rewrite json_of_entries_object by done. by rewrite dump_object. Qed.

(** C36: a session written to a file is read back.  A session that was changed and has an entry, with
    values that are booleans, integers of 64 bits and strings of any bytes, under keys of any
    bytes, is there after [save], and [load], while no key has expired, gives these entries to
    a new session of its id: [FileStore] forgets none and changes none. *)
Theorem file_session_comes_back (s s' : file_store) (cn cn' : CachedSession) (now now' : Z)
    (r : result CachedSession) :
  entries cn ≠ ∅ → map_Forall (λ _, plain) (entries cn) → dirty cn ≠ ∅ →
  writable (c_str (get_filename s (session_id cn) true)) = true →
  file_save writable now s cn = (r, s') → now' ≤ peek_first (expirations_ s') →
  session_id cn' = session_id cn → entries cn' = ∅ →
  r = Ok cn ∧ file_contains s' (session_id cn) = true ∧
  file_load now' s' cn' = (Ok (cs_entries (entries cn) cn'), s').
Proof.
  intros He Hp Hd Hw Hsave Hnow Hid He'. unfold file_save in Hsave.
  set (s1 := if requested_refresh cn then _ else s) in *.
  assert (path_ s1 = path_ s) as Hpath by (unfold s1; by destruct (requested_refresh cn)).
  assert (get_filename s1 (session_id cn) true = get_filename s (session_id cn) true) as Hname
    by (unfold get_filename; by rewrite Hpath).
  rewrite decide_False in Hsave by done. unfold write_file in Hsave. rewrite Hname, Hw in Hsave.
  injection Hsave as <- <-. split; [done|].
  set (text := dump (json_of_entries (entries cn))) in *. set (name := get_filename s (session_id cn) true) in *.
  set (s' := fs_files (<[c_str name := text]> (files s1)) s1) in *.
  assert (opened s' (session_id cn) true = Some text) as Hopen.
  { unfold opened. replace (get_filename s' (session_id cn) true) with name by by rewrite <- Hname.
    apply lookup_insert_eq. }
  split; [unfold file_contains; by rewrite Hopen|].
  unfold file_load. assert (handle_expired now' s' = s') as ->.
  { unfold handle_expired. cbn [handle_expired_loop].
    destruct (Z.ltb_spec (peek_first (expirations_ s')) now'); [lia|done]. }
  rewrite Hid, Hopen, bool_decide_eq_false_2 by by apply dump_entries_ne.
  rewrite He'. pose proof (members_read (entries cn) newline He Hp eq_refl) as Hm. cbn zeta in Hm.
  fold text in Hm. destruct (rv_range_l _) as [l|]; [|done]. cbn [mbind result_bind] in Hm |- *.
  by rewrite Hm.
Qed.
End Files.
