(* ===== verification/CookieExamples.v ===== *)
(** * Cookies and sessions at work

    Witnesses for Cookies.v, SessionsSpec.v and SessionFiles.v; and what becomes of an emptied
    session in a file, of an id with a path in it, and of an id drawn twice. *)

From stdpp Require Import gmap.
From S2P Require Import Prelude Doubles JsonRead JsonWrite Utility QueryString Http Service.
From S2P Require Import Cookies Text Sessions SessionsSpec SessionFiles.
Open Scope Z_scope.

(** ** Cookies *)

Definition two_cookies : list Cookie :=
  [cookie_httponly (cookie_path "/" (cookie_new "session" "abc")); cookie_max_age 60 (cookie_new "seen" "")].
Definition get_with (cookies : string) : request :=
  Request Get "/" "/" qs_empty [("Cookie", cookies)] "" "" 1 1 true false false.
Definition two_pairs : list string := ["session=abc"; "seen=" +:+ String DQ (String DQ "")].
Lemma cookies_come_back_witness :
  (cookie_dump <$> two_cookies) = ["session=abc; Path=/; HttpOnly";
    "seen=" +:+ String DQ (String DQ "") +:+ "; Max-Age=60"] ∧
  cookies_before (get_with (String.concat "; " two_pairs)) response_default cookie_context_new =
  (response_default, CookieContext [("session", "abc"); ("seen", "")] []).
Proof.
  split; [reflexivity|].
  apply (cookies_come_back two_cookies two_pairs (get_with (String.concat "; " two_pairs)) response_default);
    [|by apply (bool_decide_eq_true_1 (NoDup _))|reflexivity| |reflexivity].
  - repeat constructor; first [reflexivity|by repeat split].
  - constructor; [|constructor; [|constructor]].
    + split; [by repeat split|]. exists "; Path=/; HttpOnly". split; [reflexivity|]. right. by eexists.
    + split; [by repeat split|]. exists "; Max-Age=60". split; [reflexivity|]. right. by eexists.
Defined.

(** ** The tracker *)

Definition two_keys : ExpirationTracker := tracker_add "b" 5 (tracker_add "a" 9 tracker_new).
Lemma tracker_refines_map_witness :
  match pop_first two_keys with
  | Some (k, tr) => k = "b" ∧ times_ tr = {[ "a" := 9 ]}
  | None => False
  end.
Proof.
  assert (tracker_ok two_keys) as Hok
    by (unfold two_keys; do 2 apply tracker_ok_add; intros t k; split; [set_solver|done]).
  pose proof (tracker_refines_map two_keys Hok) as (_ & _ & H).
  destruct (pop_first two_keys) as [[k tr]|] eqn:E; [|by vm_compute in E].
  destruct H as (_ & _ & _ & Ht). vm_compute in E. injection E as <- <-. split; [done|]. by vm_compute.
Defined.

(** ** Requests that overlap

    A visitor gets a session; two requests with its cookie overlap, the one changes what the other
    reads, and the last to leave writes it back. *)
Definition with_id (id : string) : cookie_context := CookieContext [("session", id)] [].
Definition add_one (v : multi_value) : multi_value := match v with MInt z => MInt (z + 1) | _ => MInt 1 end.
Definition visit : list event :=
  [Arrive 1 ""; Present 1 false; Set_ 1 "n" (MInt 1); Leave 1 (Some "abc");
   Arrive 2 "abc"; Arrive 3 "abc"; Apply 2 "n" (MInt 0) add_one; Read 3 "n" (MInt 0) (MInt 2);
   Refresh 3; Leave 2 None; Remove 3 "m"; AsText 3 "n" "2"; Leave 3 (Some "abc")].
Definition no_system : system memory_store := System (sessions_new ∅) ∅.

(** The events played one by one, at one time and with one of two ids as the random one. *)
Section Play.
Context {T : Type} {store : Store T} {laws : StoreLaws T}.
Definition drawn (y : system T) : string :=
  match logical (mw y) "abc" with None => "abc" | Some _ => "xyz" end.
Definition play (y : system T) (e : event) : system T :=
  let s := mw y in let run := running y in
  let ctx r := default None (run !! r) in
  match e with
  | Arrive r id => let '(c, s') := session_before 0 (with_id id) s in System s' (<[r := c]> run)
  | Set_ r key v => let '(c, s') := ctx_set key v (ctx r) s in System s' (<[r := c]> run)
  | Apply r key arg f => let '(c, s') := ctx_apply key arg f (ctx r) s in System s' (<[r := c]> run)
  | Remove r key => System (ctx_remove key (ctx r) s) run
  | Refresh r => System (ctx_refresh_expiration (ctx r) s) run
  | Leave r _ => System (snd (session_after 0 (drawn y) cookie_context_new (ctx r) s)) (delete r run)
  | _ => y
  end.
Definition playable (y : system T) (e : event) : Prop :=
  let s := mw y in
  let ask r (P : option nat → Prop) := match running y !! r with Some ctx => P ctx | None => False end in
  match e with
  | Arrive r id => running y !! r = None ∧ (Z.of_nat (size (running y)) <? int32_max) = true ∧
      load_id (with_id id) s = id
  | Present r b => ask r (λ ctx, ctx_exists ctx = b)
  | Read r key fallback v => ask r (λ ctx, ctx_get key fallback ctx s = v)
  | Contains r key b => ask r (λ ctx, ctx_contains key ctx s = b)
  | AsText r key t => ask r (λ ctx, ctx_string key ctx s = t)
  | Leave r issued => ask r (λ ctx, drawn y ≠ "" ∧ logical s (drawn y) = None ∧
      value_ <$> cookies_to_add (fst (session_after 0 (drawn y) cookie_context_new ctx s)) =
        match issued with Some id => [id] | None => [] end)
  | Set_ r _ _ | Apply r _ _ _ | Remove r _ | Refresh r => ask r (λ _, True)
  end.
Lemma play_step y e : playable y e → step y e (play y e).
Proof.
  destruct y as [s run]. destruct e; cbn;
    try (destruct (run !! r) as [ctx|] eqn:Hr; [|done]; cbn; intros H).
  - intros (H1 & H2%Z.ltb_lt & H3). destruct (session_before 0 (with_id id) s) as [c s'] eqn:E.
    rewrite <- H3 at 1. by eapply step_arrive.
  - subst. by apply step_exists.
  - subst. by apply step_get.
  - subst. by apply step_contains.
  - subst. by apply step_text.
  - destruct (ctx_set key v ctx s) as [c s'] eqn:E. by eapply step_set.
  - destruct (ctx_apply key arg f ctx s) as [c s'] eqn:E. by eapply step_apply.
  - by apply step_remove.
  - by apply step_refresh.
  - destruct H as (H1 & H2 & H3). destruct (session_after _ _ _ _ _) as [c s'] eqn:E. cbn in *.
    by eapply step_leave.
Qed.
Fixpoint all_playable (y : system T) (es : list event) : Prop :=
  match es with [] => True | e :: es => playable y e ∧ all_playable (play y e) es end.
Lemma play_steps y es : all_playable y es → steps y es (foldl play y es).
Proof.
  revert y. induction es as [|e es IH]; intros y H; [constructor|]. destruct H as [H1 H2].
  eapply steps_cons; [by apply play_step|by apply IH].
Qed.
End Play.

Lemma sessions_refine_witness :
  ∃ a, spec_steps (Register ∅ ∅) visit a ∧ book a !! "abc" = Some {[ "n" := MInt 2 ]}.
Proof.
  assert (all_playable no_system visit) as Hplay by (vm_compute; repeat split; discriminate).
  destruct (sessions_refine (laws := memory_laws) (∅ : memory_store) ∅ (λ _ _, eq_refl) visit _ (play_steps _ _ Hplay))
    as (a & Ha & Hb).
  exists a. split; [exact Ha|]. rewrite Hb by discriminate. by vm_compute.
Defined.

(** ** Sessions in files *)

Definition everywhere : string → bool := λ _, true.
Definition folder_store (fs : gmap string string) : file_store := file_store_open "sessions" 3600 100 fs.
Definition changed (id : string) (e : entries_t) : CachedSession :=
  cs_refresh true (cs_dirty {[ "n" ]} (cs_entries e (cs_ids id "" cached_new))).
Definition two_entries : entries_t :=
  {[ "n" := MInt (-5); String DQ (String "010" "") := MString (String "092" "x") ]}.
Definition saved : file_store := snd (file_save everywhere 100 (folder_store ∅) (changed "abc" two_entries)).
Lemma file_session_comes_back_witness :
  file_contains saved "abc" = true ∧
  file_load 3700 saved (cs_ids "abc" "" cached_new) =
    (Ok (cs_entries two_entries (cs_ids "abc" "" cached_new)), saved).
Proof.
  apply (file_session_comes_back everywhere (folder_store ∅) saved (changed "abc" two_entries)
           (cs_ids "abc" "" cached_new) 100 3700 (Ok (changed "abc" two_entries)));
    [by apply (bool_decide_eq_false_1 (_ = _))| |by apply (bool_decide_eq_false_1 (_ = _))
    |reflexivity|reflexivity|by vm_compute|reflexivity|reflexivity].
  apply (map_Forall_to_list (λ _, plain) two_entries). by repeat constructor.
Defined.

(** A session whose last entry is removed is written as [null], which [load] takes for a file that
    is broken: from then on its id has no session. *)
Definition emptied : file_store := snd (file_save everywhere 100 saved (changed "abc" ∅)).
Definition cookies_mw (st : file_store) : sessions file_store := sessions_new st.
Example emptied_session_is_lost :
  files emptied !! "sessions/abc.json" = Some "null" ∧ file_contains emptied "abc" = true ∧
  fst (file_load 200 emptied (cs_ids "abc" "" cached_new)) = Throw (RuntimeError "value is not a container") ∧
  fst (session_before (store := FileStore_store everywhere) 200 (with_id "abc") (cookies_mw emptied)) = None.
Proof. by vm_compute. Qed.

(** An id is a name of a file as it comes: a cookie with a path reads a file of another folder as its
    session. *)
Example id_with_a_path :
  let mw := cookies_mw (folder_store {[ "/etc/app.json" := "{" +:+ dump_string "role" +:+ ":" +:+ dump_string "admin" +:+ "}" ]}) in
  let '(ctx, mw') := session_before (store := FileStore_store everywhere) 200 (with_id "/etc/app") mw in
  ctx_get "role" (MString "") ctx mw' = MString "admin".
Proof. by vm_compute. Qed.

(** An id drawn at random is not looked up: a new session takes the place of one that has it. *)
Example id_drawn_twice :
  let mw := sessions_new ({[ "abc" := {[ "n" := MInt 1 ]} ]} : memory_store) in
  let '(ctx, mw) := ctx_set "m" (MBool true) None mw in
  store_ (snd (session_after 0 "abc" cookie_context_new ctx mw)) !! "abc" = Some {[ "m" := MBool true ]}.
Proof. by vm_compute. Qed.
