(* ===== verification/Cors.v ===== *)
(** * CORS: crow/middlewares/cors.h

    The rules, how they are configured and found, what they put into a response, and for every
    header what it is then. *)

From S2P Require Import Prelude Doubles JsonRead JsonWrite Utility QueryString Http Service.
From S2P Require Import Middleware Text.
Open Scope Z_scope.

(** ** The rules *)

Record CORSRules : Type := Rules {
  ignore_ : bool;
  origin_ : string;
  methods_ : string;
  headers_ : string;
  exposed_headers_ : string;
  max_age_ : string;
  allow_credentials_ : bool;
}.
Definition cors_default : CORSRules := Rules false "*" "*" "*" "" "" false.

Definition add_list_item (list val : string) : string :=
  let list := if bool_decide (list = "*") then "" else list in
  let list := if bool_decide (0 < String.length list)%nat then list +:+ ", " else list in
  list +:+ val.
(** The variadic members take a list. *)
Definition cors_origin (v : string) (r : CORSRules) : CORSRules :=
  Rules (ignore_ r) v (methods_ r) (headers_ r) (exposed_headers_ r) (max_age_ r) (allow_credentials_ r).
Definition cors_methods (l : list HTTPMethod) (r : CORSRules) : CORSRules :=
  Rules (ignore_ r) (origin_ r) (foldl add_list_item (methods_ r) (method_name <$> l)) (headers_ r)
    (exposed_headers_ r) (max_age_ r) (allow_credentials_ r).
Definition cors_headers (l : list string) (r : CORSRules) : CORSRules :=
  Rules (ignore_ r) (origin_ r) (methods_ r) (foldl add_list_item (headers_ r) l)
    (exposed_headers_ r) (max_age_ r) (allow_credentials_ r).
Definition cors_expose (l : list string) (r : CORSRules) : CORSRules :=
  Rules (ignore_ r) (origin_ r) (methods_ r) (headers_ r) (foldl add_list_item (exposed_headers_ r) l)
    (max_age_ r) (allow_credentials_ r).
Definition cors_max_age (v : Z) (r : CORSRules) : CORSRules :=
  Rules (ignore_ r) (origin_ r) (methods_ r) (headers_ r) (exposed_headers_ r) (to_string v) (allow_credentials_ r).
Definition cors_allow_credentials (r : CORSRules) : CORSRules :=
  Rules (ignore_ r) (origin_ r) (methods_ r) (headers_ r) (exposed_headers_ r) (max_age_ r) true.
Definition cors_ignore (r : CORSRules) : CORSRules :=
  Rules true (origin_ r) (methods_ r) (headers_ r) (exposed_headers_ r) (max_age_ r) (allow_credentials_ r).

Definition set_header_no_override (key value : string) (res : response) : response :=
  if bool_decide (value = "") then res
  else if negb (bool_decide (get_header_value (headers res) key = "")) then res
  else add_header key value res.
Definition apply (r : CORSRules) (req : request) (res : response) : response :=
  if ignore_ r then res
  else
    let res := set_header_no_override "Access-Control-Allow-Methods" (methods_ r) res in
    let res := set_header_no_override "Access-Control-Allow-Headers" (headers_ r) res in
    let res := set_header_no_override "Access-Control-Expose-Headers" (exposed_headers_ r) res in
    let res := set_header_no_override "Access-Control-Max-Age" (max_age_ r) res in
    let '(origin_set, res) :=
      if negb (bool_decide (req_method req = Options)) && allow_credentials_ r then
        let res := set_header_no_override "Access-Control-Allow-Credentials" "true" res in
        if bool_decide (origin_ r = "*")
        then (true, set_header_no_override "Access-Control-Allow-Origin" (req_get_header_value req "Origin") res)
        else (false, res)
      else (false, res) in
    if origin_set : bool then res
    else set_header_no_override "Access-Control-Allow-Origin" (origin_ r) res.

(** ** The handler *)

Record CORSHandler : Type := Handler {
  rules : list (string * CORSRules);
  default_ : CORSRules;
}.
Definition cors_new : CORSHandler := Handler [] cors_default.
(** [prefix] and [blueprint] (with the prefix of the blueprint), and what is then done to the
    rule they return; [global]. *)
Definition cors_prefix (prefix : string) (f : CORSRules → CORSRules) (h : CORSHandler) : CORSHandler :=
  Handler (rules h ++ [(prefix, f cors_default)]) (default_ h).
Definition cors_global (f : CORSRules → CORSRules) (h : CORSHandler) : CORSHandler :=
  Handler (rules h) (f (default_ h)).
Fixpoint find_rule_in (path : string) (l : list (string * CORSRules)) (d : CORSRules) : CORSRules :=
  match l with
  | (prefix, r) :: l' => if starts_with prefix path then r else find_rule_in path l' d
  | [] => d
  end.
Definition find_rule (h : CORSHandler) (path : string) : CORSRules := find_rule_in path (rules h) (default_ h).
Definition cors_after (h : CORSHandler) (req : request) (res : response) : response :=
  apply (find_rule h (req_url req)) req res.
Definition CORS {S C : Type} (h : CORSHandler) : middleware S C :=
  Mw true (λ req res ctx, mret (res, ctx)) (λ req res ctx, mret (cors_after h req res, ctx)).

(** ** What the headers are *)

(** Keys that differ in case only are one key. *)
Lemma ci_key_eq_spec l r : ci_key_eq l r = true ↔ string_map toupper l = string_map toupper r.
Proof.
  unfold ci_key_eq, string_equals. revert r. induction l as [|c l IH]; intros [|d r].
  - done.
  - done.
  - done.
  - specialize (IH r). cbn [String.length string_equals_from string_map] in *.
    case_bool_decide as Hl; case_bool_decide as Hl'; try (exfalso; congruence).
    + split; [done|]. intros [= H1 H2]. apply IH in H2. done.
    + case_bool_decide as Hc; rewrite ?IH; [split; [done|]; intros [= ? ?]; congruence|].
      rewrite Hc. split; [by intros ->|by intros [= ->]].
Qed.
Lemma ci_key_eq_false l r : ci_key_eq l r = false ↔ string_map toupper l ≠ string_map toupper r.
Proof. rewrite <- ci_key_eq_spec. by destruct (ci_key_eq l r). Qed.

Lemma get_header_value_spec h key :
  get_header_value h key = default "" (ci_find h key).
Proof.
  unfold get_header_value, ci_count, ci_find. by destruct (filter _ h) as [|kv l].
Qed.
Lemma get_emplace h k v key : get_header_value (ci_emplace h k v) key =
  if ci_key_eq k key then v else get_header_value h key.
Proof.
  rewrite !get_header_value_spec. unfold ci_find, ci_emplace.
  cbn [filter list_filter fst]. case_decide as Hk; [by rewrite Hk|]. by destruct (ci_key_eq k key).
Qed.
Lemma get_same h k key : ci_key_eq k key = true → get_header_value h k = get_header_value h key.
Proof.
  intros Hk. rewrite !get_header_value_spec. unfold ci_find. do 3 f_equal. apply filter_elem.
  intros [k' v] _. cbn [fst]. apply ci_key_eq_spec in Hk. by rewrite !ci_key_eq_spec, Hk.
Qed.
Lemma get_no_override k v res key :
  res_get_header_value (set_header_no_override k v res) key =
  if ci_key_eq k key && bool_decide (res_get_header_value res key = "") then v
  else res_get_header_value res key.
Proof.
  unfold set_header_no_override, res_get_header_value. destruct (ci_key_eq k key) eqn:Hk; cbn [andb].
  - rewrite (get_same _ _ _ Hk). repeat case_bool_decide; try done; cbn [negb]; [congruence|].
    unfold add_header, set_headers. cbn [headers]. by rewrite get_emplace, Hk.
  - repeat case_bool_decide; try done. cbn [negb]. unfold add_header, set_headers. cbn [headers].
    by rewrite get_emplace, Hk.
Qed.

(** The value a rule has for a header; empty when it has none. *)
Definition with_credentials (r : CORSRules) (req : request) : bool :=
  allow_credentials_ r && negb (bool_decide (req_method req = Options)).
Definition cors_value (r : CORSRules) (req : request) (key : string) : string :=
  if ci_key_eq "Access-Control-Allow-Methods" key then methods_ r
  else if ci_key_eq "Access-Control-Allow-Headers" key then headers_ r
  else if ci_key_eq "Access-Control-Expose-Headers" key then exposed_headers_ r
  else if ci_key_eq "Access-Control-Max-Age" key then max_age_ r
  else if ci_key_eq "Access-Control-Allow-Credentials" key
  then if with_credentials r req then "true" else ""
  else if ci_key_eq "Access-Control-Allow-Origin" key
  then if with_credentials r req && bool_decide (origin_ r = "*")
       then req_get_header_value req "Origin" else origin_ r
  else "".
Lemma keys_differ a b key : ci_key_eq a b = false → ci_key_eq a key = true → ci_key_eq b key = false.
Proof. rewrite !ci_key_eq_false, ci_key_eq_spec. congruence. Qed.

Ltac other_keys := repeat match goal with
  | H : ci_key_eq ?a ?key = true |- context [ci_key_eq ?b ?key] => rewrite (keys_differ a b key eq_refl H)
  end.
Lemma no_override_code k v res : code_ (set_header_no_override k v res) = code_ res.
Proof. unfold set_header_no_override. by repeat case_match. Qed.
Lemma no_override_body k v res : body (set_header_no_override k v res) = body res.
Proof. unfold set_header_no_override. by repeat case_match. Qed.

(** What CORS does to a response.  After the rule that is found for the path, a header of any
    name has the value the handler gave it, if that is not empty, and otherwise the value the
    rule has for it, unless the rule says to ignore the path; the code and the body are the
    same. *)
Theorem cors_applied (h : CORSHandler) (req : request) (res : response) (key : string) :
  let r := find_rule h (req_url req) in
  let res' := cors_after h req res in
  res_get_header_value res' key =
    (if bool_decide (res_get_header_value res key = "") && negb (ignore_ r)
     then cors_value r req key else res_get_header_value res key) ∧
  code_ res' = code_ res ∧ body res' = body res.
Proof.
  intros r res'. subst res'. unfold cors_after. fold r. split.
  - unfold apply, cors_value, with_credentials. destruct (ignore_ r); [by rewrite andb_false_r|].
    cbn [negb]. rewrite andb_true_r, (andb_comm (negb _)).
    destruct (allow_credentials_ r && _); [case_bool_decide as Ho|]; cbn [andb]; rewrite !get_no_override;
      (destruct (ci_key_eq "Access-Control-Allow-Methods" key) eqn:E1;
      [|destruct (ci_key_eq "Access-Control-Allow-Headers" key) eqn:E2;
      [|destruct (ci_key_eq "Access-Control-Expose-Headers" key) eqn:E3;
      [|destruct (ci_key_eq "Access-Control-Max-Age" key) eqn:E4;
      [|destruct (ci_key_eq "Access-Control-Allow-Credentials" key) eqn:E5;
      [|destruct (ci_key_eq "Access-Control-Allow-Origin" key) eqn:E6]]]]]);
      other_keys; cbn [andb]; by repeat case_bool_decide.
  - unfold apply. destruct (ignore_ r); [done|].
    destruct (_ && _); [case_bool_decide|]; by rewrite !no_override_code, !no_override_body.
Qed.
