(* ===== verification/AppMiddlewares.v ===== *)
(** * The service's middlewares: src/main.cpp and include/auth_middleware.h

    [LoggingMiddleware], [LifecycleMiddleware], [ErrorHandlerMiddleware] and
    [AuthMiddleware], in the order of the application's tuple, over the [world]; what the
    chain admits, and how it accounts for requests in flight. *)

From S2P Require Import Prelude Doubles JsonRead JsonWrite Utility QueryString Http Service.
From S2P Require Import Backends OrderRoutes Middleware Wp.
Open Scope Z_scope.

(** The four contexts of [detail::context<...>], two of them empty. *)
Record context : Type := Context_ {
  start_time : Z;              (* of LoggingMiddleware; the clock's epoch by default *)
  counted_inflight : bool;     (* of LifecycleMiddleware *)
}.
Definition context_default : context := Context_ 0 false.

Section App.
Context `{ss : !StdSort, ui : !UMapIter, sq : !Sqlite, rd : !Redis, ev : !Environment}.
Implicit Types w : world.

(** ** ErrorHandlerMiddleware *)

Definition error_message (code : Z) : string :=
  if code =? 400 then "Bad Request"
  else if code =? 404 then "Not Found"
  else if code =? 500 then "Internal Server Error"
  else "HTTP Error".
Definition error_value (code : Z) : wvalue :=
  wv_set (wv_set WNull "error" (WString (error_message code))) "code" (WSigned code).
Definition ErrorHandler_after (req : request) (res : response) (ctx : context)
  : M world (response * context) :=
  if 400 <=? code_ res then
    _ ← spdlog warn ("Error " +:+ to_string (code_ res) +:+ " on " +:+ method_name (req_method req)
                     +:+ " " +:+ req_url req);
    if decide (body res = "") then
      let res := set_header "Content-Type" "application/json" res in
      mret (set_body (dump (error_value (code_ res))) res, ctx)
    else mret (res, ctx)
  else mret (res, ctx).
Definition ErrorHandlerMiddleware : middleware world context :=
  Mw true (λ req res ctx, mret (res, ctx)) ErrorHandler_after.

(** ** LifecycleMiddleware *)

(** [res = json_error(503, message); res.set_header("Retry-After", after); res.end();] *)
Definition reject (message after : string) (res : response) : response :=
  res_end_plain (set_header "Retry-After" after (move_assign res (json_error 503 message))).

Definition Lifecycle_before (req : request) (res : response) (ctx : context)
  : M world (response * context) :=
  if is_probe_path (req_url req) then mret (res, ctx)
  else
    down ← gets shutting_down;
    if (down : bool) then
      _ ← fetch_add shutdown_rejections 1;
      mret (reject "Server is shutting down" "5" res, ctx)
    else
      old ← fetch_add in_flight_requests 1;
      let current_inflight := old + 1 in
      limit ← gets max_inflight_requests;
      if limit <? current_inflight then
        _ ← fetch_sub in_flight_requests 1;
        _ ← fetch_add overload_rejections 1;
        mret (reject "Server overloaded" "1" res, Context_ (start_time ctx) false)
      else mret (res, Context_ (start_time ctx) true).
Definition Lifecycle_after (req : request) (res : response) (ctx : context)
  : M world (response * context) :=
  if counted_inflight ctx then _ ← fetch_sub in_flight_requests 1; mret (res, ctx)
  else mret (res, ctx).
Definition LifecycleMiddleware : middleware world context :=
  Mw true Lifecycle_before Lifecycle_after.

(** ** LoggingMiddleware *)

Definition Logging_before (req : request) (res : response) (ctx : context)
  : M world (response * context) :=
  now ← call_env env_now; mret (res, Context_ now (counted_inflight ctx)).
(** [duration_cast<milliseconds>] of a difference of nanoseconds. *)
Definition duration_ms (start_time end_time : Z) : Z := Z.quot (end_time - start_time) 1000000.
Definition Logging_after (req : request) (res : response) (ctx : context)
  : M world (response * context) :=
  end_time ← call_env env_now;
  let duration := duration_ms (start_time ctx) end_time in
  _ ← fetch_add total_requests 1;
  _ ← observe_request_duration_ms 0 duration;
  _ ← spdlog info (method_name (req_method req) +:+ " " +:+ req_url req +:+ " "
                   +:+ to_string (code_ res) +:+ " (" +:+ to_string duration +:+ " ms)");
  mret (res, ctx).
Definition LoggingMiddleware : middleware world context := Mw true Logging_before Logging_after.

(** ** AuthMiddleware *)

Definition unauthorized_body : string :=
  "{" +:+ String DQ ("error" +:+ String DQ (": " +:+ String DQ ("Unauthorized"
                                                          +:+ String DQ "}"))).
Definition Auth_before (req : request) (res : response) (ctx : context)
  : M world (response * context) :=
  if is_probe_path (req_url req) then mret (res, ctx)
  else
    let api_key_header := req_get_header_value req "Authorization" in
    key ← gets api_key;
    if decide (api_key_header ≠ key) then
      mret (res_end_plain (write unauthorized_body
              (set_header "Content-Type" "application/json" (set_code 401 res))), ctx)
    else mret (res, ctx).
Definition AuthMiddleware : middleware world context :=
  Mw true Auth_before (λ req res ctx, mret (res, ctx)).

(** [crow::App<LoggingMiddleware, LifecycleMiddleware, ErrorHandlerMiddleware,
    AuthMiddleware>]. *)
Definition app_middlewares : list (middleware world context) :=
  [LoggingMiddleware; LifecycleMiddleware; ErrorHandlerMiddleware; AuthMiddleware].

Definition before_chain (req : request) (res : response) (ctx : context)
  : M world (bool * (response * context)) :=
  middleware_call_helper only_global 0 app_middlewares req res ctx.
Definition after_chain (req : request) (res : response) (ctx : context)
  : M world (response * context) :=
  after_handlers_call_helper only_global app_middlewares req res ctx.

(** ** Lemmas *)

Lemma max_loop_spec fails d cur w :
  cur = counters w request_duration_ms_max →
  max_loop fails d cur w = if cur <? d then set_counter request_duration_ms_max d w else w.
Proof.
  intros ->. induction fails as [|n IH]; simpl; [done|].
  destruct (counters w request_duration_ms_max <? d) eqn:E; [|done]. by rewrite IH.
Qed.

(** What the middlewares leave alone. *)
Record no_backend w w' : Prop := {
  nb_db : db w' = db w;
  nb_redis : redis w' = redis w;
  nb_shutting_down : shutting_down w' = shutting_down w;
  nb_db_ready : db_ready w' = db_ready w;
  nb_api_key : api_key w' = api_key w;
  nb_max : max_inflight_requests w' = max_inflight_requests w;
}.

Definition inflight w : Z := counters w in_flight_requests.
(** No wrap-around of the counter in one request. *)
Definition inflight_range w : Prop := int32_min < inflight w < int32_max.

(** The parts of a response no middleware of the service touches: its file, and, when its
    body is wanted, the two flags about the body. *)
Record flags_kept (res res' : response) : Prop := {
  fk_skip : skip_body res = false → skip_body res' = false;
  fk_manual : skip_body res = false → manual_length_header res' = manual_length_header res;
  fk_static : is_static_type res = false → is_static_type res' = false;
}.
#[export] Instance flags_kept_preorder : PreOrder flags_kept.
Proof.
  split.
  - by intros res.
  - intros res1 res2 res3 [H1 H2 H3] [H4 H5 H6]. split; auto. intros H. rewrite H5; auto.
Qed.

(** Passing the chain. *)
Definition admitted (req : request) w (ctx : context) w' : Prop :=
  (is_probe_path (req_url req) = true ∧ inflight w' = inflight w ∧ counted_inflight ctx = false) ∨
  (is_probe_path (req_url req) = false ∧ shutting_down w = false ∧
     req_get_header_value req "Authorization" = api_key w ∧
     inflight w + 1 ≤ max_inflight_requests w ∧
     inflight w' = inflight w + 1 ∧ counted_inflight ctx = true).
(** Being turned away. *)
Definition turned_away (req : request) w (res res' : response) w' : Prop :=
  is_probe_path (req_url req) = false ∧ completed_ res' = true ∧ flags_kept res res' ∧
  inflight w' = inflight w ∧
  (code_ res' = 503 ∧ shutting_down w = true ∨
   code_ res' = 503 ∧ shutting_down w = false ∧ max_inflight_requests w < inflight w + 1 ∨
   code_ res' = 401 ∧ req_get_header_value req "Authorization" ≠ api_key w).

Lemma wp_env_now (Q : result Z → world → Prop) w :
  (∀ now e, Q (Ok now) (set_environment e w)) → wp (call_env env_now) Q w.
Proof. intros H. apply H. Qed.

Lemma wp_Logging_before req res ctx (Q : result (response * context) → world → Prop) w :
  (∀ now e, Q (Ok (res, Context_ now (counted_inflight ctx))) (set_environment e w)) →
  wp (Logging_before req res ctx) Q w.
Proof. intros H. apply wp_bind, wp_env_now. intros now e. wp_pure. apply H. Qed.

Lemma wp_Logging_after req res ctx (Q : result (response * context) → world → Prop) w :
  (∀ w', no_backend w w' → inflight w' = inflight w →
     counters w' total_requests = swrap 32 (counters w total_requests + 1) →
     Q (Ok (res, ctx)) w') →
  wp (Logging_after req res ctx) Q w.
Proof.
  intros H. unfold Logging_after, observe_request_duration_ms.
  apply wp_bind, wp_env_now. intros now e. wp_pure. apply wp_fetch_add. wp_pure.
  apply wp_fetch_add. wp_pure. apply wp_fetch_add. wp_pure. apply wp_spdlog. wp_pure.
  match goal with |- Q _ (set_log _ ?m) =>
    assert (no_backend w m ∧ inflight m = inflight w ∧
            counters m total_requests = swrap 32 (counters w total_requests + 1)) as (H1 & H2 & H3)
  end.
  { rewrite max_loop_spec by done. by destruct (_ <? _). }
  apply H; [by destruct H1|exact H2|exact H3].
Qed.

Lemma wp_Lifecycle_after req res ctx (Q : result (response * context) → world → Prop) w :
  int32_min < inflight w ≤ int32_max →
  (∀ w', no_backend w w' → inflight w' = inflight w - (if counted_inflight ctx then 1 else 0) →
     counters w' total_requests = counters w total_requests → Q (Ok (res, ctx)) w') →
  wp (Lifecycle_after req res ctx) Q w.
Proof.
  intros Hr H. unfold Lifecycle_after. destruct (counted_inflight ctx); wp_pure.
  - apply wp_fetch_add. wp_pure. apply H; [done| |done]. unfold inflight. simpl.
    rewrite fn_lookup_insert, swrap_id; [lia|lia|].
    unfold inflight, int32_min, int32_max in Hr. lia.
  - apply H; [done|lia|done].
Qed.

Lemma wp_ErrorHandler_after req res ctx (Q : result (response * context) → world → Prop) w :
  (∀ res' w', no_backend w w' → counters w' = counters w →
     code_ res' = code_ res → completed_ res' = completed_ res → flags_kept res res' →
     (400 ≤ code_ res → body res' ≠ "") →
     (code_ res < 400 ∨ body res ≠ "" → res' = res) →
     Q (Ok (res', ctx)) w') →
  wp (ErrorHandler_after req res ctx) Q w.
Proof.
  intros H. unfold ErrorHandler_after. destruct (Z.leb_spec 400 (code_ res)).
  - wp_pure. apply wp_spdlog. wp_pure. destruct (decide (body res = "")); wp_pure.
    + apply H; try done. intros Hc. by destruct Hc; [lia|].
    + by apply H.
  - wp_pure. apply H; try done. intros. lia.
Qed.

(** One middleware around the rest of a chain. *)
Lemma wp_call_cons (mw : middleware world context) mws N req res ctx
  (Q : result (bool * (response * context)) → world → Prop) w :
  is_global mw = true →
  wp (before_handle mw req res ctx) (λ r w1,
    match r with
    | Ok (res1, ctx1) =>
        if completed_ res1 then
          wp (after_handle mw req res1 ctx1) (λ r w2, Q ((λ x, (true, x)) <$> r) w2) w1
        else
          wp (middleware_call_helper only_global (N + 1) mws req res1 ctx1) (λ r w2,
            match r with
            | Ok (true, (res2, ctx2)) =>
                wp (after_handle mw req res2 ctx2) (λ r w3, Q ((λ x, (true, x)) <$> r) w3) w2
            | Ok (false, rc) => Q (Ok (false, rc)) w2
            | Throw e => Q (Throw e) w2
            end) w1
    | Throw e => Q (Throw e) w1
    end) w →
  wp (middleware_call_helper only_global N (mw :: mws) req res ctx) Q w.
Proof.
  intros Hg H. simpl. rewrite Hg. simpl. apply wp_bind. eapply wp_mono; [exact H|].
  clear H. intros [[res1 ctx1]|e] w1; [|done]. simpl. unfold is_completed.
  destruct (completed_ res1).
  - intros H. apply wp_bind. eapply wp_mono; [exact H|]. by intros [rc|e] w2.
  - intros H. apply wp_bind. eapply wp_mono; [exact H|].
    intros [[[] [res2 ctx2]]|e] w2; try done. intros H2. simpl. apply wp_bind.
    eapply wp_mono; [exact H2|]. by intros [rc|e] w3.
Qed.

#[local] Arguments middleware_call_helper : simpl never.

(** The chain from its end: Auth, then ErrorHandler around it, then Lifecycle. *)
Lemma wp_chain_auth N req res ctx (Q : result (bool * (response * context)) → world → Prop) w :
  completed_ res = false →
  (is_probe_path (req_url req) = true ∨ req_get_header_value req "Authorization" = api_key w →
     Q (Ok (false, (res, ctx))) w) →
  (is_probe_path (req_url req) = false → req_get_header_value req "Authorization" ≠ api_key w →
     ∀ res', completed_ res' = true → flags_kept res res' → code_ res' = 401 →
     Q (Ok (true, (res', ctx))) w) →
  wp (middleware_call_helper only_global N [AuthMiddleware] req res ctx) Q w.
Proof.
  intros Hres Hok Hno. apply wp_call_cons; [done|]. unfold AuthMiddleware. simpl.
  unfold Auth_before. destruct (is_probe_path (req_url req)) eqn:Hp.
  - wp_pure. rewrite Hres. wp_pure. simpl. apply Hok. by left.
  - wp_pure. destruct (decide (_ ≠ _)) as [Hk|Hk]; wp_pure.
    + unfold res_end_plain, res_end_start. simpl. rewrite Hres. destruct (skip_body res) eqn:Hsk; wp_pure; simpl;
        apply Hno; try done; split; simpl; intros; done || congruence.
    + rewrite Hres. wp_pure. apply Hok. right. by apply dec_stable.
Qed.

Lemma wp_chain_error N req res ctx (Q : result (bool * (response * context)) → world → Prop) w :
  completed_ res = false →
  (is_probe_path (req_url req) = true ∨ req_get_header_value req "Authorization" = api_key w →
     Q (Ok (false, (res, ctx))) w) →
  (is_probe_path (req_url req) = false → req_get_header_value req "Authorization" ≠ api_key w →
     ∀ res' w', no_backend w w' → counters w' = counters w →
       completed_ res' = true → flags_kept res res' → code_ res' = 401 →
       Q (Ok (true, (res', ctx))) w') →
  wp (middleware_call_helper only_global N [ErrorHandlerMiddleware; AuthMiddleware] req res ctx)
    Q w.
Proof.
  intros Hres Hok Hno. apply wp_call_cons; [done|]. unfold ErrorHandlerMiddleware at 1. simpl.
  wp_pure. rewrite Hres. apply wp_chain_auth; [done|done|].
  intros Hp Hk res1 Hc Hf1 H401. simpl. apply wp_ErrorHandler_after.
  intros res' w' Hnb Hm Hcode Hcompl Hf2 _ _. apply Hno; first [congruence|done|by etrans].
Qed.

Lemma reject_completed m a res :
  completed_ (reject m a res) = true ∧ flags_kept res (reject m a res) ∧
  code_ (reject m a res) = 503.
Proof.
  unfold reject, res_end_plain, res_end_start. simpl. destruct (skip_body res) eqn:Hsk;
    (split; [done|]; split; [|done]; split; simpl; intros; done || congruence).
Qed.

Lemma wp_chain_lifecycle N req res st (Q : result (bool * (response * context)) → world → Prop) w :
  completed_ res = false → inflight_range w →
  (∀ ctx w', no_backend w w' → counters w' total_requests = counters w total_requests →
     admitted req w ctx w' → Q (Ok (false, (res, ctx))) w') →
  (∀ res' ctx w', no_backend w w' → counters w' total_requests = counters w total_requests →
     turned_away req w res res' w' → Q (Ok (true, (res', ctx))) w') →
  wp (middleware_call_helper only_global N
        [LifecycleMiddleware; ErrorHandlerMiddleware; AuthMiddleware] req res (Context_ st false))
    Q w.
Proof.
  intros Hres Hr Hok Hno. apply wp_call_cons; [done|]. unfold LifecycleMiddleware at 1. simpl.
  unfold Lifecycle_before. destruct (is_probe_path (req_url req)) eqn:Hp.
  { wp_pure. rewrite Hres. apply wp_chain_error; [done|..].
    - intros _. apply Hok; [done|done|]. by left.
    - congruence. }
  wp_pure. destruct (shutting_down w) eqn:Hs.
  { wp_pure. apply wp_fetch_add. wp_pure.
    destruct (reject_completed "Server is shutting down" "5" res) as (Hc & Hfl & H5). rewrite Hc.
    apply wp_Lifecycle_after; [change (int32_min < inflight w ≤ int32_max); unfold inflight_range in Hr; lia|].
    intros w' Hnb Hi Ht. simpl in *.
    apply Hno; [by destruct Hnb|done|]. split_and!; try done; [|by left].
    rewrite Hi. apply Z.sub_0_r. }
  wp_pure. apply wp_fetch_add. wp_pure.
  destruct (Z.ltb_spec (max_inflight_requests w) (counters w in_flight_requests + 1)) as [Ho|Ho].
  - simpl. rewrite (proj2 (Z.ltb_lt _ _) Ho). wp_pure. apply wp_fetch_add. wp_pure.
    apply wp_fetch_add. wp_pure.
    destruct (reject_completed "Server overloaded" "1" res) as (Hc & Hfl & H5). rewrite Hc.
    match goal with |- wp _ _ ?m => assert (inflight m = inflight w) as Hm end.
    { unfold inflight. simpl. rewrite fn_lookup_insert_ne, !fn_lookup_insert by done.
      unfold inflight_range, inflight, int32_min, int32_max in Hr.
      rewrite (swrap_id 32 (counters w in_flight_requests + 1)) by lia. rewrite swrap_id; lia. }
    apply wp_Lifecycle_after; [unfold inflight_range in Hr; lia|].
    intros w' Hnb Hi Ht. rewrite Hm in Hi. cbn [counted_inflight] in Hi. rewrite Z.sub_0_r in Hi.
    apply Hno; [by destruct Hnb|exact Ht|]. split_and!; try done. right; left. by unfold inflight.
  - simpl. rewrite (proj2 (Z.ltb_ge _ _) Ho). wp_pure. rewrite Hres.
    match goal with |- wp _ _ ?m => assert (inflight m = inflight w + 1) as Hm end.
    { unfold inflight. simpl. rewrite fn_lookup_insert.
      unfold inflight_range, inflight, int32_min, int32_max in Hr. rewrite !swrap_id; lia. }
    apply wp_chain_error; [done|..].
    + intros [|Hk]; [congruence|]. apply Hok; [done|done|]. right. by split_and!.
    + intros _ Hk res' w' Hnb Hcs Hcompl Hfl H401.
      assert (inflight w' = inflight w + 1) as Hi by (unfold inflight in *; rewrite Hcs; exact Hm).
      apply wp_Lifecycle_after; [unfold inflight_range in Hr; lia|].
      intros w2 Hnb2 Hi2 Ht2. simpl in Hi2. apply Hno.
      * destruct Hnb, Hnb2. split; simpl in *; congruence.
      * rewrite Ht2, Hcs. done.
      * split_and!; [done|done|done|lia|]. by right; right.
Qed.

Lemma wp_after_chain req res ctx (Q : result (response * context) → world → Prop) w :
  int32_min < inflight w ≤ int32_max →
  (∀ res' w', no_backend w w' →
     inflight w' = inflight w - (if counted_inflight ctx then 1 else 0) →
     counters w' total_requests = swrap 32 (counters w total_requests + 1) →
     code_ res' = code_ res → completed_ res' = completed_ res → flags_kept res res' →
     (400 ≤ code_ res → body res' ≠ "") →
     (code_ res < 400 ∨ body res ≠ "" → res' = res) →
     Q (Ok (res', ctx)) w') →
  wp (after_chain req res ctx) Q w.
Proof.
  intros Hr H. unfold after_chain, after_handlers_call_helper. simpl. wp_pure.
  apply wp_ErrorHandler_after. intros res' w1 Hnb1 Hm Hcode Hcompl Hfl Hbody Hsame. wp_pure. simpl.
  assert (inflight w1 = inflight w) as Hi1 by (unfold inflight; by rewrite Hm).
  apply wp_Lifecycle_after; [by rewrite Hi1|]. intros w2 Hnb2 Hi2 Ht2. wp_pure. simpl.
  apply wp_Logging_after. intros w3 Hnb3 Hi3 Ht3. wp_pure. apply H; try done.
  - destruct Hnb1, Hnb2, Hnb3. split; congruence.
  - lia.
  - by rewrite Ht3, Ht2, Hm.
Qed.

Lemma wp_before_chain (req : request) (res : response) (st : Z)
  (Q : result (bool * (response * context)) → world → Prop) w :
  completed_ res = false → inflight_range w →
  (∀ ctx w', no_backend w w' → counters w' total_requests = counters w total_requests →
     admitted req w ctx w' → Q (Ok (false, (res, ctx))) w') →
  (∀ res' ctx w', no_backend w w' →
     counters w' total_requests = swrap 32 (counters w total_requests + 1) →
     turned_away req w res res' w' → Q (Ok (true, (res', ctx))) w') →
  wp (before_chain req res (Context_ st false)) Q w.
Proof.
  intros Hres Hr Hok Hno. apply wp_call_cons; [done|]. unfold LoggingMiddleware at 1. simpl.
  apply wp_Logging_before. intros now e. rewrite Hres.
  apply wp_chain_lifecycle; [done|done|..].
  - intros ctx w' Hnb Ht Ha. by apply Hok; [destruct Hnb|..].
  - intros res' ctx w1 Hnb1 Ht1 (Hp & Hc & Hfl & Hi1 & Hw). apply wp_Logging_after.
    intros w2 Hnb2 Hi2 Ht2. simpl in *.
    apply Hno; [destruct Hnb1, Hnb2; split; simpl in *; congruence|by rewrite Ht2, Ht1|].
    split_and!; [done|done|done|by rewrite Hi2, Hi1|done].
Qed.

(** ** Properties *)

(** C6: admission.  The before-chain of the application never throws and never touches the
    database, the cache or the configuration.  It lets a request through to the handler
    only if the path is a probe, or the service is not shutting down, the
    [Authorization] header is the configured key and the number of requests in flight,
    this one included, is within the limit; then exactly this request is counted.
    Otherwise the response is complete, a 503 or a 401 for the right reason, the in-flight
    counter is back to what it was, and the request is counted in [total_requests]. *)
Theorem admission (req : request) (res : response) (st : Z) w :
  completed_ res = false → inflight_range w →
  wp (before_chain req res (Context_ st false)) (λ r w',
    no_backend w w' ∧
    match r with
    | Ok (false, (res', ctx')) =>
        res' = res ∧ admitted req w ctx' w' ∧
        counters w' total_requests = counters w total_requests
    | Ok (true, (res', ctx')) =>
        turned_away req w res res' w' ∧
        counters w' total_requests = swrap 32 (counters w total_requests + 1)
    | Throw _ => False
    end) w.
Proof.
  intros Hres Hr. apply wp_before_chain; [done|done|..]; (split; [done|]); by split_and!.
Qed.

(** C21: accounting.  A request that passes the before-chain and whose response is later
    handed to the after-chain with the context the before-chain left, whatever happens in
    between to the rest of the world, gives back exactly what it took: the in-flight
    counter goes down by the one it went up, [total_requests] goes up by one, and an error
    response leaves with a body. *)
Theorem inflight_balanced (req : request) (res res1 : response) (st : Z) w w1 w2 ctx :
  completed_ res = false → inflight_range w →
  before_chain req res (Context_ st false) w = (Ok (false, (res1, ctx)), w1) →
  inflight_range w2 → inflight w2 = inflight w1 →
  ∀ resh, wp (after_chain req resh ctx) (λ r w', ∃ res',
    r = Ok (res', ctx) ∧ no_backend w2 w' ∧ inflight w' = inflight w ∧
    counters w' total_requests = swrap 32 (counters w2 total_requests + 1) ∧
    code_ res' = code_ resh ∧ (400 ≤ code_ resh → body res' ≠ "")) w2.
Proof.
  intros Hres Hr Hb Hr2 Hi2 resh.
  assert (wp (before_chain req res (Context_ st false)) (λ r w', ∀ rc, r = Ok (false, rc) →
            inflight w' - (if counted_inflight (snd rc) then 1 else 0) = inflight w) w) as Hin.
  { apply wp_before_chain; [done|done|..].
    - intros ctx' w' _ _ Ha rc [= <-]. simpl. destruct Ha as [(_ & Hi & ->)|(_ & _ & _ & _ & Hi & ->)]; lia.
    - by intros ? ? ? ? ? ? ? [=]. }
  unfold wp in Hin. rewrite Hb in Hin. specialize (Hin _ eq_refl). simpl in Hin.
  apply wp_after_chain; [unfold inflight_range in Hr2; lia|].
  intros res' w' Hnb Hi Ht Hcode _ _ Hbody _. exists res'. split_and!; try done. lia.
Qed.

(** [observe_request_duration_ms] keeps the sum, the number and the maximum of the
    durations, however often the weak compare-exchange of its loop fails spuriously. *)
Theorem observe_request_duration_spec (fails : nat) (d : Z) w :
  wp (observe_request_duration_ms fails d) (λ r w',
    r = Ok () ∧
    counters w' request_duration_ms_total
      = swrap 64 (counters w request_duration_ms_total + d) ∧
    counters w' request_duration_samples
      = swrap 64 (counters w request_duration_samples + 1) ∧
    counters w' request_duration_ms_max = Z.max (counters w request_duration_ms_max) d ∧
    no_backend w w') w.
Proof.
  unfold observe_request_duration_ms. apply wp_bind, wp_fetch_add, wp_bind, wp_fetch_add.
  wp_pure. rewrite max_loop_spec by done.
  set (w1 := set_counter request_duration_samples _ _).
  assert (counters w1 request_duration_ms_max = counters w request_duration_ms_max) as Hm by done.
  rewrite Hm. destruct (Z.ltb_spec (counters w request_duration_ms_max) d) as [H|H]; simpl.
  - split_and!; try done. rewrite fn_lookup_insert. lia.
  - split_and!; try done. change (counters w request_duration_ms_max = Z.max (counters w request_duration_ms_max) d). lia.
Qed.
End App.
