(* ===== verification/Trie.v ===== *)
(** * crow/routing.h, class Trie

    The search tree of route patterns: [add], [optimize] and [find].  Positions in a URL
    or a pattern are represented by the suffix they point at.  The theorems say that
    [find] computes the match with the smallest rule index among all ways to walk the
    tree, that [add] adds the matches of its pattern and loses none, and that [optimize]
    does not change them. *)

From S2P Require Import Prelude Doubles.
Open Scope Z_scope.

Inductive ParamType : Type := INT | UINT | DOUBLE | STRING | PATH | MAX.
#[export] Instance ParamType_eq_dec : EqDecision ParamType.
Proof. solve_decision. Defined.

Record routing_params : Type := RoutingParams {
  int_params : list Z;
  uint_params : list Z;
  double_params : list double;
  string_params : list string;
}.
Definition no_params : routing_params := RoutingParams [] [] [] [].

(** [params.get<T>(index)]: past the end of the vector there is no meaning. *)
Definition param_get {A} (l : list A) (index : nat) : result A :=
  match l !! index with Some x => Ok x | None => Throw (UB "routing parameter out of range") end.

(** The result of a search, before the method is filled in. *)
Record found : Type := Found {
  rule_index_ : Z;
  blueprint_indices : list Z;
  r_params : routing_params;
}.

Definition INVALID_BP_ID : Z := 65535.

(** ** Nodes *)

Inductive Node : Type :=
| MkNode (rule_index blueprint_index : Z) (key : string) (param : ParamType)
    (children : list Node).
Definition rule_index (n : Node) : Z := let 'MkNode r _ _ _ _ := n in r.
Definition blueprint_index (n : Node) : Z := let 'MkNode _ b _ _ _ := n in b.
Definition key (n : Node) : string := let 'MkNode _ _ k _ _ := n in k.
Definition param (n : Node) : ParamType := let 'MkNode _ _ _ p _ := n in p.
Definition children (n : Node) : list Node := let 'MkNode _ _ _ _ c := n in c.

(** [Node()], and with a key or a parameter type. *)
Definition node_new (k : string) (p : ParamType) : Node := MkNode 0 INVALID_BP_ID k p [].
Definition set_children (c : list Node) (n : Node) : Node :=
  MkNode (rule_index n) (blueprint_index n) (key n) (param n) c.
Definition set_rule (r : Z) (n : Node) : Node :=
  MkNode r (blueprint_index n) (key n) (param n) (children n).

Definition IsSimpleNode (n : Node) : bool :=
  (rule_index n =? 0) && (blueprint_index n =? INVALID_BP_ID)
  && (length (children n) <? 2)%nat && bool_decide (param n = MAX)
  && forallb (λ x, bool_decide (param x = MAX)) (children n).

(** ** optimize *)

(** The recursion follows the height of the tree: merging a node with its only child
    makes the tree one level lower. *)
Fixpoint height (n : Node) : nat :=
  match n with MkNode _ _ _ _ c => S (list_max (height <$> c)) end.
Fixpoint optimizeNode (fuel : nat) (node : Node) : Node :=
  match fuel with
  | O => node
  | S fuel' =>
      match children node with
      | [] => node
      | child_temp :: _ =>
          if IsSimpleNode node then
            optimizeNode fuel'
              (MkNode (rule_index child_temp) (blueprint_index child_temp)
                 (key node +:+ key child_temp) (param node) (children child_temp))
          else set_children (optimizeNode fuel' <$> children node) node
      end
  end.

(** A trie is its head node. *)
Definition trie_empty : Node := node_new "" MAX.
Definition is_empty (head_ : Node) : bool := bool_decide (length (children head_) = 0%nat).
Definition optimize (head_ : Node) : Node :=
  set_children ((λ child, optimizeNode (height child) child) <$> children head_) head_.
Definition trie_validate (head_ : Node) : result Node :=
  if negb (IsSimpleNode head_) then
    Throw (RuntimeError "Internal error: Trie header should be simple!")
  else Ok (optimize head_).

(** ** add *)

Definition paramTraits : list (ParamType * string) :=
  [(INT, "<int>"); (UINT, "<uint>"); (DOUBLE, "<float>"); (DOUBLE, "<double>");
   (STRING, "<str>"); (STRING, "<string>"); (PATH, "<path>")].
(** The first trait at the head of the pattern, and what follows it. *)
Fixpoint find_trait (l : list (ParamType * string)) (url : string) : option (ParamType * string) :=
  match l with
  | [] => None
  | (t, name) :: l' =>
      match strip_prefix name url with
      | Some rest => Some (t, rest)
      | None => find_trait l' url
      end
  end.

(** Replace the first child that satisfies [p] by the result of [f] on it, or append the
    result of [f] on a [fresh] one. *)
Definition descend (p : Node → bool) (fresh : Node) (f : Node → option (result Node))
  (idx : Node) : option (result Node) :=
  match list_find (λ c, p c = true) (children idx) with
  | Some (n, child) =>
      r ← f child;
      Some (c ← r; Ok (set_children (<[n := c]> (children idx)) idx))
  | None =>
      r ← f fresh;
      Some (c ← r; Ok (set_children (children idx ++ [c]) idx))
  end.

Definition key_starts_with (c : ascii) (n : Node) : bool :=
  bool_decide (match key n with String d _ => d | EmptyString => NUL end = c).

(** The loop from position [i] with [url] left; [None] when it does not end, which
    happens on a [<] that starts no known tag. *)
Fixpoint add_loop (fuel : nat) (whole url : string) (i rule_index_ bp_prefix_length
  blueprint_index_ : Z) (idx : Node) : option (result Node) :=
  match fuel with
  | O => None
  | S fuel' =>
      let loop rest i' :=
        add_loop fuel' whole rest i' rule_index_ bp_prefix_length blueprint_index_ in
      match url with
      | EmptyString =>
          Some (if negb (rule_index idx =? 0)
                then Throw (RuntimeError ("handler already exists for " +:+ whole))
                else Ok (set_rule rule_index_ idx))
      | String c url' =>
          if decide (c = "<"%char) then
            match find_trait paramTraits url with
            | Some (t, rest) =>
                descend (λ child, bool_decide (param child = t)) (node_new "" t)
                  (loop rest (i + slen url - slen rest)) idx
            | None => loop url i idx
            end
          else
            let has_blueprint :=
              negb (bp_prefix_length =? 0) && negb (blueprint_index_ =? INVALID_BP_ID) in
            let bp := if has_blueprint && (i =? bp_prefix_length)
                      then blueprint_index_ else INVALID_BP_ID in
            descend (key_starts_with c) (MkNode 0 bp (String c EmptyString) MAX [])
              (loop url' (i + 1)) idx
      end
  end.
Definition add (url : string) (rule_index_ bp_prefix_length blueprint_index_ : Z) (head_ : Node)
  : option (result Node) :=
  add_loop (S (String.length url)) url url 0 rule_index_ bp_prefix_length blueprint_index_ head_.

(** ** find *)

(** [strtoll] and [strtoull], base 10, on a text that does not start with white space:
    [None] when nothing is converted or [errno] is [ERANGE]. *)
Definition strto (lo hi : Z) (s : string) : option (Z * string) :=
  let '(neg, s1) := opt_sign s in
  match span is_digit s1 with
  | (EmptyString, _) => None
  | (ds, rest) =>
      let v := if neg then - digits_value 0 ds else digits_value 0 ds in
      if (v <? lo) || (hi <? v) then None else Some (v, rest)
  end.
Definition first_in (f : ascii → bool) (s : string) : bool :=
  match s with String c _ => f c | EmptyString => false end.

Definition push_int (v : Z) (p : routing_params) : routing_params :=
  RoutingParams (int_params p ++ [v]) (uint_params p) (double_params p) (string_params p).
Definition push_uint (v : Z) (p : routing_params) : routing_params :=
  RoutingParams (int_params p) (uint_params p ++ [v]) (double_params p) (string_params p).
Definition push_double (v : double) (p : routing_params) : routing_params :=
  RoutingParams (int_params p) (uint_params p) (double_params p ++ [v]) (string_params p).
Definition push_string (v : string) (p : routing_params) : routing_params :=
  RoutingParams (int_params p) (uint_params p) (double_params p) (string_params p ++ [v]).

(** Taking the edge to [child] with [s] left of the URL: what is left after it, and the
    parameters with the one it converts.  [s] is not empty. *)
Definition child_step (child : Node) (s : string) (params : routing_params)
  : option (string * routing_params) :=
  match param child with
  | INT =>
      if first_in (λ c, is_digit c || bool_decide (c = "+"%char ∨ c = "-"%char)) s then
        match strto int64_min int64_max s with
        | Some (v, r) => Some (r, push_int v params)
        | None => None
        end
      else None
  | UINT =>
      if first_in (λ c, is_digit c || bool_decide (c = "+"%char)) s then
        match strto 0 uint64_max s with
        | Some (v, r) => Some (r, push_uint v params)
        | None => None
        end
      else None
  | DOUBLE =>
      if first_in (λ c, is_digit c || bool_decide (c = "+"%char ∨ c = "-"%char ∨ c = "."%char)) s
      then
        match strtod s with
        | Some (v, erange, r) => if (erange : bool) then None else Some (r, push_double v params)
        | None => None
        end
      else None
  | STRING =>
      match span (λ c, negb (bool_decide (c = "/"%char))) s with
      | (EmptyString, _) => None
      | (v, r) => Some (r, push_string v params)
      end
  | PATH => match s with EmptyString => None | _ => Some (EmptyString, push_string s params) end
  | MAX => match strip_prefix (key child) s with Some r => Some (r, params) | None => None end
  end.

(** The variables of one activation of [find], and the [blueprints] vector it shares with
    its callers; a vector that was moved from is empty. *)
Record find_state : Type := FindState {
  fs_found : Z;
  fs_found_BP : list Z;
  fs_match_params : routing_params;
  fs_fragment : bool;
  fs_blueprints : list Z;
}.
Definition update_found (ret : found) (st : find_state) : find_state :=
  if negb (rule_index_ ret =? 0)
     && ((fs_found st =? 0) || (rule_index_ ret <? fs_found st))
  then FindState (rule_index_ ret) (blueprint_indices ret) (r_params ret) (fs_fragment st)
         (fs_blueprints st)
  else FindState (fs_found st) (blueprint_indices ret) (fs_match_params st) (fs_fragment st)
         (fs_blueprints st).
Definition set_fragment (bps : list Z) (st : find_state) : find_state :=
  FindState (fs_found st) (fs_found_BP st) (fs_match_params st) true bps.

Fixpoint find (node : Node) (req_url : string) (params : routing_params) (blueprints : list Z)
  : found * list Z :=
  match node with
  | MkNode rule _ _ _ children =>
      match req_url with
      | EmptyString => (Found rule [] params, [])
      | _ =>
          let st :=
            fold_left (λ st child,
              match child_step child req_url params with
              | None => st
              | Some (rest, params') =>
                  let bps := if blueprint_index child =? INVALID_BP_ID then fs_blueprints st
                             else fs_blueprints st ++ [blueprint_index child] in
                  let r := find child rest params' bps in
                  set_fragment (removelast (snd r)) (update_found (fst r) st)
              end) children (FindState 0 [] no_params false blueprints) in
          if fs_fragment st
          then (Found (fs_found st) (fs_found_BP st) (fs_match_params st), fs_blueprints st)
          else (Found (fs_found st) (fs_blueprints st) (fs_match_params st), [])
      end
  end.
Definition trie_find (head_ : Node) (req_url : string) : found :=
  fst (find head_ req_url no_params []).

(** ** The matches of a tree, and of a pattern *)

Definition hit : Type := Z * routing_params.

Fixpoint matches (node : Node) (s : string) (params : routing_params) : list hit :=
  match node with
  | MkNode rule _ _ _ children =>
      match s with
      | EmptyString => if rule =? 0 then [] else [(rule, params)]
      | _ =>
          flat_map (λ child,
            match child_step child s params with
            | None => []
            | Some (rest, params') => matches child rest params'
            end) children
      end
  end.
(** The matches below [child], edge included. *)
Definition edge_matches (child : Node) (s : string) (params : routing_params) : list hit :=
  match child_step child s params with
  | None => []
  | Some (rest, params') => matches child rest params'
  end.

(** The hit [find] keeps: the smallest rule index, the first one if it occurs more than
    once; [(0, _)] stands for none. *)
Definition keep (h best : hit) : hit :=
  if (fst best =? 0) || (fst h <? fst best) then h else best.
Definition best_hit (l : list hit) : hit := fold_left (λ b h, keep h b) l (0, no_params).

(** A pattern as the tokens [add] reads. *)
Inductive token : Type := TChar (c : ascii) | TParam (t : ParamType).
Fixpoint tokens_loop (fuel : nat) (url : string) : option (list token) :=
  match fuel with
  | O => None
  | S fuel' =>
      match url with
      | EmptyString => Some []
      | String c url' =>
          if decide (c = "<"%char) then
            match find_trait paramTraits url with
            | Some (t, rest) => ts ← tokens_loop fuel' rest; Some (TParam t :: ts)
            | None => None
            end
          else ts ← tokens_loop fuel' url'; Some (TChar c :: ts)
      end
  end.
Definition tokens (url : string) : option (list token) :=
  tokens_loop (S (String.length url)) url.

Definition token_node (t : token) : Node :=
  match t with
  | TChar c => node_new (String c EmptyString) MAX
  | TParam t => node_new "" t
  end.
(** The parameters with which a URL matches a pattern. *)
Fixpoint pattern_match (ts : list token) (s : string) (params : routing_params)
  : option routing_params :=
  match ts, s with
  | [], EmptyString => Some params
  | [], _ | _ :: _, EmptyString => None
  | t :: ts', _ =>
      match child_step (token_node t) s params with
      | Some (rest, params') => pattern_match ts' rest params'
      | None => None
      end
  end.
Definition pattern_hits (ts : list token) (r : Z) (s : string) (params : routing_params)
  : list hit :=
  match pattern_match ts s params with Some p => [(r, p)] | None => [] end.

(** ** Lemmas *)

Lemma Node_ind' (P : Node → Prop) :
  (∀ r b k p c, Forall P c → P (MkNode r b k p c)) → ∀ n, P n.
Proof.
  intros H. fix IH 1. intros [r b k p c]. apply H.
  induction c as [|n c IHc]; constructor; [apply IH|exact IHc].
Qed.

Definition nonzero (l : list hit) : Prop := Forall (λ h, fst h ≠ 0) l.

Lemma matches_nonzero n s p : nonzero (matches n s p).
Proof.
  revert s p. induction n as [r b k t c IH] using Node_ind'. intros s p.
  destruct s as [|x s]; simpl.
  - destruct (Z.eqb_spec r 0); unfold nonzero; by repeat constructor.
  - induction IH as [|n c Hn _ IHc]; simpl; [constructor|].
    apply Forall_app. split; [|exact IHc]. destruct (child_step _ _ _) as [[]|]; [apply Hn|constructor].
Qed.

Lemma fold_keep_from l b : nonzero l → 
  fold_left (λ b h, keep h b) l b = if fst (best_hit l) =? 0 then b else keep (best_hit l) b.
Proof.
  unfold best_hit. revert b. induction l as [|h l IH]; intros b Hl; [done|].
  apply Forall_cons in Hl as [Hh Hl]. simpl.
  change (keep h (0, no_params)) with h. rewrite (IH (keep h b) Hl), (IH h Hl).
  destruct (fold_left (λ b0 h0 : hit, keep h0 b0) l (0, no_params)) as [r p]. simpl.
  destruct (Z.eqb_spec r 0); simpl.
  { by rewrite (proj2 (Z.eqb_neq _ _) Hh). }
  unfold keep. destruct h as [r1 p1], b as [r0 p0]. simpl in *.
  destruct (Z.eqb_spec r0 0); destruct (Z.ltb_spec r1 r0); destruct (Z.eqb_spec r1 0); simpl in *;
    try lia; destruct (Z.ltb_spec r r1); simpl;
    destruct (Z.eqb_spec r 0); destruct (Z.eqb_spec r1 0); destruct (Z.ltb_spec r r0);
    destruct (Z.ltb_spec r1 r0); destruct (Z.eqb_spec r0 0); simpl; first [done|lia].
Qed.

Lemma best_hit_app l1 l2 : nonzero l1 → nonzero l2 →
  best_hit (l1 ++ l2)
  = if fst (best_hit l2) =? 0 then best_hit l1 else keep (best_hit l2) (best_hit l1).
Proof.
  intros H1 H2. unfold best_hit at 1. rewrite fold_left_app. by apply fold_keep_from.
Qed.

(** The state of [find] after the children with hits [l]. *)
Definition tracks (l : list hit) (st : find_state) : Prop :=
  nonzero l ∧ fs_found st = fst (best_hit l) ∧
  (fs_found st ≠ 0 → fs_match_params st = snd (best_hit l)).
Definition returns (l : list hit) (r : found) : Prop :=
  nonzero l ∧ rule_index_ r = fst (best_hit l) ∧
  (rule_index_ r ≠ 0 → r_params r = snd (best_hit l)).

Lemma tracks_update l l' r st bps :
  tracks l st → returns l' r → tracks (l ++ l') (set_fragment bps (update_found r st)).
Proof.
  intros (Hl & Hf & Hp) (Hl' & Hr & Hp'). split; [by apply Forall_app|].
  rewrite best_hit_app by done. unfold update_found.
  destruct (best_hit l) as [r0 p0], (best_hit l') as [r1 p1]. simpl in *.
  rewrite Hr, Hf in *. destruct (Z.eqb_spec r1 0) as [->|H1]; simpl; [by split|].
  unfold keep. simpl. destruct (_ || _); simpl; by split; auto.
Qed.

(** The body of the loop of [find]. *)
Definition find_step (url : string) (params : routing_params) (st : find_state) (child : Node)
  : find_state :=
  match child_step child url params with
  | None => st
  | Some (rest, params') =>
      let bps := if blueprint_index child =? INVALID_BP_ID then fs_blueprints st
                 else fs_blueprints st ++ [blueprint_index child] in
      let r := find child rest params' bps in
      set_fragment (removelast (snd r)) (update_found (fst r) st)
  end.
Lemma find_cons n x s p bps :
  find n (String x s) p bps =
  let st := fold_left (find_step (String x s) p) (children n) (FindState 0 [] no_params false bps) in
  if fs_fragment st
  then (Found (fs_found st) (fs_found_BP st) (fs_match_params st), fs_blueprints st)
  else (Found (fs_found st) (fs_blueprints st) (fs_match_params st), []).
Proof. by destruct n. Qed.

Lemma find_returns n s p bps : returns (matches n s p) (fst (find n s p bps)).
Proof.
  revert s p bps. induction n as [r b k t c IH] using Node_ind'. intros s p bps.
  destruct s as [|x s].
  { unfold returns. simpl. destruct (Z.eqb_spec r 0) as [->|Hr].
    - by split_and!; [constructor|..].
    - by split_and!; [repeat constructor|..]. }
  rewrite find_cons. set (url := String x s).
  change (matches (MkNode r b k t c) url p)
    with ([] ++ flat_map (λ child, edge_matches child url p) c). cbn [children].
  assert (∀ st l, tracks l st →
    tracks (l ++ flat_map (λ child, edge_matches child url p) c)
      (fold_left (find_step url p) c st)) as Hfold.
  { induction IH as [|n c Hn _ IHc]; intros st l Hst; [simpl; by rewrite app_nil_r|].
    cbn [flat_map fold_left]. rewrite app_assoc. apply IHc. unfold edge_matches, find_step.
    destruct (child_step n url p) as [[rest p']|]; [|by rewrite app_nil_r].
    by apply tracks_update. }
  destruct (Hfold (FindState 0 [] no_params false bps) []) as (Hn & Hf & Hp).
  { by split_and!; [constructor|..]. }
  by destruct (fs_fragment _).
Qed.

(** ** add *)

(** Before [optimize], an edge has either one character or a parameter. *)
Fixpoint unoptimized (n : Node) : Prop :=
  match n with
  | MkNode _ _ _ _ c =>
      foldr (λ child acc, (if decide (param child = MAX)
                           then ∃ ch, ch ≠ NUL ∧ key child = String ch EmptyString
                           else key child = EmptyString)
                          ∧ unoptimized child ∧ acc) True c
  end.
Definition edge_ok (child : Node) : Prop :=
  if decide (param child = MAX)
  then ∃ ch, ch ≠ NUL ∧ key child = String ch EmptyString else key child = EmptyString.

Lemma unoptimized_children n :
  unoptimized n ↔ Forall (λ child, edge_ok child ∧ unoptimized child) (children n).
Proof.
  destruct n as [r b k t c]. simpl. induction c as [|x c IH]; simpl.
  - split; [constructor|done].
  - rewrite Forall_cons, IH. tauto.
Qed.

Lemma child_step_eq n n' s p :
  param n = param n' → key n = key n' → child_step n s p = child_step n' s p.
Proof. unfold child_step. by intros -> ->. Qed.

Lemma matches_cons n x s p :
  matches n (String x s) p = flat_map (λ child, edge_matches child (String x s) p) (children n).
Proof. by destruct n. Qed.

Lemma flat_map_insert {A B} (f : A → list B) (l : list A) i x y extra :
  l !! i = Some x → f y ≡ₚ f x ++ extra →
  flat_map f (<[i := y]> l) ≡ₚ flat_map f l ++ extra.
Proof.
  intros Hi Hf. rewrite <- (take_drop_middle l i x Hi) at 2.
  rewrite (insert_take_drop l i y) by (by eapply lookup_lt_Some).
  rewrite !flat_map_app. simpl. rewrite Hf. solve_Permutation.
Qed.

Lemma find_trait_not_MAX l url t rest :
  Forall (λ x, fst x ≠ MAX) l → find_trait l url = Some (t, rest) → t ≠ MAX.
Proof.
  induction l as [|[t0 n0] l IH]; simpl; [done|]. intros [Ht Hl]%Forall_cons.
  destruct (strip_prefix n0 url); [by intros [= <- _]|by apply IH].
Qed.
Lemma find_trait_suffix l url t rest (P : ascii → Prop) :
  find_trait l url = Some (t, rest) → string_Forall P url → string_Forall P rest.
Proof.
  induction l as [|[t0 n0] l IH]; simpl; [done|].
  destruct (strip_prefix n0 url) as [r|] eqn:E; [|done].
  intros [= _ <-] H. apply strip_prefix_Some in E. subst url.
  by apply string_Forall_app in H as [_ ?].
Qed.

(** What a subtree has become after a pattern was added below it. *)
Record grown (ts : list token) (r : Z) (n n' : Node) : Prop := {
  gr_unoptimized : unoptimized n';
  gr_param : param n' = param n;
  gr_key : key n' = key n;
  gr_rule : ts ≠ [] → rule_index n' = rule_index n;
  gr_matches s p : matches n' s p ≡ₚ matches n s p ++ pattern_hits ts r s p;
}.

Lemma grown_edge t ts r n n' s p :
  grown ts r n n' → param n = param (token_node t) → key n = key (token_node t) → s ≠ "" →
  edge_matches n' s p ≡ₚ edge_matches n s p ++ pattern_hits (t :: ts) r s p.
Proof.
  intros [_ Hp Hk _ Hm] Ht Htk Hs. unfold edge_matches, pattern_hits.
  rewrite (child_step_eq n' n), (child_step_eq n (token_node t)) by done.
  destruct s as [|x s]; [done|]. cbn [pattern_match].
  destruct (child_step (token_node t) (String x s) p) as [[rest p']|]; [|done]. apply Hm.
Qed.

Lemma grown_leaf r n : r ≠ 0 → unoptimized n → rule_index n = 0 → grown [] r n (set_rule r n).
Proof.
  destruct n as [r0 b k t c]. simpl. intros Hr Hu ->. split; try done.
  intros s p. destruct s as [|x s]; unfold pattern_hits; simpl.
  - by rewrite (proj2 (Z.eqb_neq _ _) Hr).
  - by rewrite app_nil_r.
Qed.

Lemma descend_grown t ts r pred fresh f idx idx' :
  unoptimized idx →
  unoptimized fresh → param fresh = param (token_node t) → key fresh = key (token_node t) →
  edge_ok (token_node t) → (∀ s p, matches fresh s p = []) →
  (∀ c, edge_ok c → pred c = true →
     param c = param (token_node t) ∧ key c = key (token_node t)) →
  (∀ c c', unoptimized c → f c = Some (Ok c') → grown ts r c c') →
  descend pred fresh f idx = Some (Ok idx') → grown (t :: ts) r idx idx'.
Proof.
  intros Hu Hfu Hfp Hfk Hte Hfm Hpred Hf Hd. unfold descend in Hd.
  assert (∀ child', grown ts r fresh child' → edge_ok child') as Hok.
  { intros c' [_ Hp Hk _ _]. unfold edge_ok. by rewrite Hp, Hk, Hfp, Hfk. }
  pose proof (proj1 (unoptimized_children idx) Hu) as Hall.
  destruct (list_find _ _) as [[n child]|] eqn:Hl.
  - apply list_find_Some in Hl as (Hn & Hc & _).
    destruct (f child) as [[child'|e]|] eqn:Hfc; try done. injection Hd as <-.
    pose proof (Forall_lookup_1 _ _ _ _ Hall Hn) as [Hce Hcu].
    destruct (Hpred child Hce Hc) as [Hp Hk]. specialize (Hf _ _ Hcu Hfc).
    split; try done.
    + apply unoptimized_children. simpl. apply Forall_insert; [done|].
      destruct Hf as [Hu' Hp' Hk' _ _]. split; [|done]. unfold edge_ok. by rewrite Hp', Hk'.
    + intros s p. destruct s as [|x s].
      { unfold pattern_hits. simpl. rewrite app_nil_r. by destruct idx. }
      rewrite !matches_cons. cbn [set_children children].
      eapply flat_map_insert; [exact Hn|]. by apply grown_edge.
  - destruct (f fresh) as [[child'|e]|] eqn:Hfc; try done. injection Hd as <-.
    specialize (Hf _ _ Hfu Hfc). split; try done.
    + apply unoptimized_children. simpl. apply Forall_app. split; [done|].
      constructor; [|constructor]. split; [by apply Hok|apply Hf].
    + intros s p. destruct s as [|x s].
      { unfold pattern_hits. simpl. rewrite app_nil_r. by destruct idx. }
      rewrite !matches_cons. cbn [set_children children]. rewrite flat_map_app. simpl.
      rewrite app_nil_r, (grown_edge t ts r fresh child') by done.
      unfold edge_matches. destruct (child_step fresh _ _) as [[rest p']|]; [|done].
      by rewrite Hfm.
Qed.

Lemma add_loop_grown fuel whole url i r bpl bpi idx idx' ts :
  r ≠ 0 → string_Forall (λ c, c ≠ NUL) url → tokens_loop fuel url = Some ts → unoptimized idx →
  add_loop fuel whole url i r bpl bpi idx = Some (Ok idx') → grown ts r idx idx'.
Proof.
  intros Hr. revert url i idx idx' ts.
  induction fuel as [|fuel IH]; intros url i idx idx' ts Hnul Hts Hu Ha; [done|].
  destruct url as [|c url]; cbn [tokens_loop add_loop] in Hts, Ha.
  { injection Hts as <-. destruct (Z.eqb_spec (rule_index idx) 0); [|done].
    injection Ha as <-. by apply grown_leaf. }
  destruct (decide (c = "<"%char)).
  - destruct (find_trait paramTraits (String c url)) as [[t rest]|] eqn:Ht; [|done].
    destruct (tokens_loop fuel rest) as [ts'|] eqn:Hts'; [|done]. injection Hts as <-.
    assert (t ≠ MAX) as Hmax by (eapply find_trait_not_MAX; [|exact Ht]; by repeat constructor).
    eapply descend_grown; [exact Hu| | | | | | |..|exact Ha]; try done.
    + unfold edge_ok. simpl. by rewrite decide_False.
    + intros [|x s] p; done.
    + intros n Hn Hp. apply bool_decide_eq_true in Hp. split; [done|].
      unfold edge_ok in Hn. rewrite Hp, decide_False in Hn; done.
    + intros n n' Hn Hf. eapply IH; [by eapply find_trait_suffix|done|done|exact Hf].
  - destruct (tokens_loop fuel url) as [ts'|] eqn:Hts'; [|done]. injection Hts as <-.
    destruct Hnul as [Hc Hnul].
    eapply descend_grown; [exact Hu| | | | | | |..|exact Ha]; try done.
    + unfold edge_ok. simpl. by exists c.
    + intros [|x s] p; done.
    + intros m Hn Hp. apply bool_decide_eq_true in Hp. unfold edge_ok in Hn.
      destruct (decide (param m = MAX)).
      * destruct Hn as (ch & _ & Hk). rewrite Hk in Hp |- *. by subst.
      * rewrite Hn in Hp. by subst c.
    + intros m m' Hn Hf. by eapply IH.
Qed.

Lemma descend_total pred fresh f idx :
  (∀ c, is_Some (f c)) → is_Some (descend pred fresh f idx).
Proof.
  intros Hf. unfold descend. destruct (list_find _ _) as [[n c]|].
  - destruct (Hf c) as [r ->]. by eexists.
  - destruct (Hf fresh) as [r ->]. by eexists.
Qed.

Lemma add_loop_total fuel whole url i r bpl bpi idx :
  is_Some (tokens_loop fuel url) → is_Some (add_loop fuel whole url i r bpl bpi idx).
Proof.
  revert url i idx. induction fuel as [|fuel IH]; intros url i idx Hts; [by destruct Hts|].
  destruct url as [|c url]; cbn [tokens_loop add_loop] in *; [by eexists|].
  destruct (decide (c = "<"%char)).
  - destruct (find_trait paramTraits (String c url)) as [[t rest]|]; [|by destruct Hts].
    apply descend_total. intros m. apply IH.
    destruct (tokens_loop fuel rest); [by eexists|by destruct Hts].
  - apply descend_total. intros m. apply IH.
    destruct (tokens_loop fuel url); [by eexists|by destruct Hts].
Qed.

Lemma add_loop_stuck fuel whole url i r bpl bpi idx :
  tokens_loop fuel url = None → add_loop fuel whole url i r bpl bpi idx = None.
Proof.
  revert url i idx. induction fuel as [|fuel IH]; intros url i idx Hts; [done|].
  destruct url as [|c url]; cbn [tokens_loop add_loop] in *; [done|].
  assert (∀ pred fresh f, (∀ n, f n = None) → descend pred fresh f idx = None) as Hd.
  { intros pred fresh f Hf. unfold descend.
    destruct (list_find _ _) as [[n0 c0]|]; by rewrite Hf. }
  destruct (decide (c = "<"%char)) as [Hc|Hc].
  - destruct (find_trait paramTraits (String c url)) as [[t rest]|] eqn:Ht.
    + apply Hd. intros m. apply IH. by destruct (tokens_loop fuel rest).
    + destruct fuel as [|fuel']; [done|]. apply IH. cbn [tokens_loop].
      by rewrite decide_True, Ht.
  - apply Hd. intros m. apply IH. by destruct (tokens_loop fuel url).
Qed.

(** ** optimize *)

Fixpoint has_keys (n : Node) : Prop :=
  match n with
  | MkNode _ _ _ _ c =>
      foldr (λ child acc, (param child = MAX → key child ≠ "") ∧ has_keys child ∧ acc) True c
  end.
Lemma has_keys_children n :
  has_keys n ↔ Forall (λ c, (param c = MAX → key c ≠ "") ∧ has_keys c) (children n).
Proof.
  destruct n as [r b k t c]. simpl. induction c as [|x c IH]; simpl.
  - split; [constructor|done].
  - rewrite Forall_cons, IH. tauto.
Qed.
Lemma unoptimized_has_keys n : unoptimized n → has_keys n.
Proof.
  induction n as [r b k t c IH] using Node_ind'. intros Hu.
  apply has_keys_children. apply unoptimized_children in Hu. simpl in *.
  revert Hu. induction IH as [|n c Hn _ IHc]; [constructor|].
  intros [[He Hu] Hc]%Forall_cons. constructor; [|by apply IHc]. split; [|by apply Hn].
  intros Hp. unfold edge_ok in He. rewrite decide_True in He by done.
  by destruct He as (ch & _ & ->).
Qed.

Lemma strip_prefix_app_l k1 k2 s :
  strip_prefix (k1 +:+ k2) s = s1 ← strip_prefix k1 s; strip_prefix k2 s1.
Proof.
  revert s. induction k1 as [|c k1 IH]; intros s.
  - by rewrite string_app_nil_l.
  - rewrite string_app_cons. destruct s as [|d s]; simpl; [done|].
    case_decide; [apply IH|done].
Qed.

Lemma matches_ext n n' s p :
  rule_index n = rule_index n' → children n = children n' → matches n s p = matches n' s p.
Proof. destruct n, n'. simpl. by intros -> ->. Qed.

Lemma IsSimpleNode_inv n child c :
  IsSimpleNode n = true → children n = child :: c →
  rule_index n = 0 ∧ param n = MAX ∧ c = [] ∧ param child = MAX.
Proof.
  unfold IsSimpleNode. intros H Hc. rewrite Hc in H. simpl in H.
  repeat (apply andb_true_iff in H as [H ?]).
  apply Z.eqb_eq in H. repeat match goal with Hb : bool_decide _ = true |- _ =>
    apply bool_decide_eq_true in Hb end.
  match goal with Hl : (_ <? _)%nat = true |- _ => apply Nat.ltb_lt in Hl end.
  match goal with Hb : _ && _ = true |- _ => apply andb_true_iff in Hb as [Hb _] end.
  split_and!; try done.
  - destruct c; [done|simpl in *; lia].
  - eapply bool_decide_eq_true_1. eassumption.
Qed.

Lemma edge_matches_merge n child s p :
  rule_index n = 0 → param n = MAX → param child = MAX → key child ≠ "" →
  children n = [child] →
  edge_matches (MkNode (rule_index child) (blueprint_index child) (key n +:+ key child) (param n)
                  (children child)) s p = edge_matches n s p.
Proof.
  intros Hr Hp Hcp Hk Hc. unfold edge_matches, child_step. cbn [param key].
  rewrite Hp, strip_prefix_app_l.
  destruct (strip_prefix (key n) s) as [s1|]; cbn [mbind option_bind]; [|done].
  destruct s1 as [|x s1].
  - destruct n as [r b k t c]. simpl in *. subst. simpl. by destruct (key child).
  - rewrite matches_cons, Hc. cbn [flat_map]. rewrite app_nil_r.
    unfold edge_matches, child_step. rewrite Hcp.
    destruct (strip_prefix (key child) (String x s1)) as [s2|]; [|done].
    by apply matches_ext.
Qed.

Lemma flat_map_fmap_ext {A B} (f : A → list B) g l :
  Forall (λ x, f (g x) = f x) l → flat_map f (g <$> l) = flat_map f l.
Proof. induction 1 as [|x l Hx _ IH]; [done|]. rewrite fmap_cons. simpl. by rewrite Hx, IH. Qed.

Lemma optimizeNode_matches fuel n s p :
  (param n = MAX → key n ≠ "") → has_keys n →
  edge_matches (optimizeNode fuel n) s p = edge_matches n s p.
Proof.
  revert n s p. induction fuel as [|fuel IH]; intros n s p Hk Hu; [done|].
  cbn [optimizeNode]. destruct (children n) as [|child c] eqn:Hc; [done|].
  pose proof (proj1 (has_keys_children n) Hu) as Hall. rewrite Hc in Hall.
  destruct (IsSimpleNode n) eqn:Hs.
  - destruct (IsSimpleNode_inv _ _ _ Hs Hc) as (Hr & Hp & -> & Hcp).
    apply Forall_cons in Hall as [[Hck Hcu] _]. rewrite IH.
    + apply edge_matches_merge; auto.
    + intros _. simpl. specialize (Hk Hp). by destruct (key n).
    + apply has_keys_children. by apply has_keys_children in Hcu.
  - unfold edge_matches. rewrite (child_step_eq (set_children _ n) n) by done.
    destruct (child_step n s p) as [[[|x rest] p']|]; [| |done].
    + by destruct n.
    + rewrite !matches_cons. cbn [set_children children]. rewrite Hc.
      apply flat_map_fmap_ext. eapply Forall_impl; [exact Hall|].
      intros c0 [Hk0 Hu0]. by apply IH.
Qed.

Lemma optimize_matches h s p : has_keys h → matches (optimize h) s p = matches h s p.
Proof.
  intros Hu. apply has_keys_children in Hu. destruct s as [|x s].
  { by destruct h. }
  rewrite !matches_cons. unfold optimize. cbn [set_children children].
  apply flat_map_fmap_ext. eapply Forall_impl; [exact Hu|].
  intros c0 [Hk0 Hu0]. by apply optimizeNode_matches.
Qed.

(** ** Building a trie from routes *)

Fixpoint build (routes : list (string * Z)) (head_ : Node) : option (result Node) :=
  match routes with
  | [] => Some (Ok head_)
  | (url, r) :: routes' =>
      match add url r 0 INVALID_BP_ID head_ with
      | Some (Ok h) => build routes' h
      | x => x
      end
  end.

Definition route_ok (route : string * Z) : Prop :=
  is_Some (tokens (fst route)) ∧ string_Forall (λ c, c ≠ NUL) (fst route) ∧ snd route ≠ 0.
(** Route [route] matches [url] with parameters [p]. *)
Definition route_matches (route : string * Z) (url : string) (p : routing_params) : Prop :=
  ∃ ts, tokens (fst route) = Some ts ∧ pattern_match ts url no_params = Some p.
Definition route_hits (url : string) (route : string * Z) : list hit :=
  pattern_hits (default [] (tokens (fst route))) (snd route) url no_params.

Lemma build_matches routes h h' url :
  unoptimized h → Forall route_ok routes → build routes h = Some (Ok h') →
  unoptimized h' ∧
  matches h' url no_params ≡ₚ matches h url no_params ++ flat_map (route_hits url) routes.
Proof.
  intros Hu Hok. revert h Hu. induction Hok as [|[pat r] routes (Hts & Hnul & Hr) _ IH];
    intros h Hu Hb; simpl in Hb.
  { injection Hb as <-. simpl. by rewrite app_nil_r. }
  simpl in *. destruct Hts as [ts Hts].
  destruct (add pat r 0 INVALID_BP_ID h) as [[h1|e]|] eqn:Ha; try done.
  pose proof (add_loop_grown _ _ _ _ _ _ _ _ _ _ Hr Hnul Hts Hu Ha) as [Hu1 _ _ _ Hm].
  destruct (IH h1 Hu1 Hb) as [Hu' Hm']. split; [done|].
  rewrite Hm', Hm. unfold route_hits at 2. simpl. rewrite Hts. simpl. by rewrite app_assoc.
Qed.

Lemma best_hit_spec l : nonzero l →
  (l = [] ∧ fst (best_hit l) = 0) ∨
  (fst (best_hit l) ≠ 0 ∧ best_hit l ∈ l ∧ ∀ h, h ∈ l → fst (best_hit l) ≤ fst h).
Proof.
  induction l as [|h l IH] using rev_ind; intros Hl; [by left|].
  apply Forall_app in Hl as [Hl Hh]. right.
  rewrite best_hit_app by done. apply Forall_inv in Hh.
  assert (best_hit [h] = h) as -> by done. rewrite (proj2 (Z.eqb_neq _ _) Hh).
  unfold keep. destruct (IH Hl) as [[-> H0]|(Hn & Hin & Hmin)].
  - simpl. split_and!; [done|by left|]. intros h' [->|[]%elem_of_nil]%elem_of_cons. lia.
  - rewrite (proj2 (Z.eqb_neq _ _) Hn). simpl.
    destruct (Z.ltb_spec (fst h) (fst (best_hit l))).
    + split_and!; [done|apply elem_of_app; right; by left|].
      intros h' [H'|[->|[]%elem_of_nil]%elem_of_cons]%elem_of_app; [specialize (Hmin h' H')|]; lia.
    + split_and!; [done|apply elem_of_app; by left|].
      intros h' [H'|[->|[]%elem_of_nil]%elem_of_cons]%elem_of_app; [by apply Hmin|lia].
Qed.

Lemma elem_of_route_hits url routes h :
  Forall route_ok routes → h ∈ flat_map (route_hits url) routes →
  ∃ route, route ∈ routes ∧ snd route = fst h ∧ route_matches route url (snd h).
Proof.
  intros Hok Hin. apply list_elem_of_In, in_flat_map in Hin as (route & Hr & Hh).
  apply list_elem_of_In in Hr. exists route. split; [done|].
  rewrite Forall_forall in Hok. destruct (Hok route) as ([ts Hts] & _); [first [done|by apply list_elem_of_In]|].
  unfold route_hits, pattern_hits in Hh. rewrite Hts in Hh. simpl in Hh.
  destruct (pattern_match ts url no_params) as [p|] eqn:Hp; [|done].
  destruct Hh as [<-|[]]. split; [done|]. by exists ts.
Qed.

(** The specification of [find] on an optimized tree, for the files that use it. *)
Lemma find_first_match (routes : list (string * Z)) (head_ : Node) (url : string) :
  Forall route_ok routes → build routes trie_empty = Some (Ok head_) →
  let f := trie_find (optimize head_) url in
  (rule_index_ f = 0 ∧ ∀ route p, route ∈ routes → ¬ route_matches route url p) ∨
  (∃ route, route ∈ routes ∧ snd route = rule_index_ f ∧
     route_matches route url (r_params f) ∧
     ∀ route' p, route' ∈ routes → route_matches route' url p → rule_index_ f ≤ snd route').
Proof.
  intros Hok Hb f. destruct (build_matches _ trie_empty _ url I Hok Hb) as [Hu Hm].
  assert (matches trie_empty url no_params = []) as He by (by destruct url).
  rewrite He in Hm. simpl in Hm.
  destruct (find_returns (optimize head_) url no_params []) as (Hn & Hf & Hp).
  rewrite optimize_matches in Hn, Hf, Hp by by apply unoptimized_has_keys.
  fold (trie_find (optimize head_) url) in Hf, Hp. fold f in Hf, Hp.
  assert (∀ route p, route ∈ routes → route_matches route url p →
            (snd route, p) ∈ matches head_ url no_params) as Hin.
  { intros route p Hr (ts & Hts & Hpm). rewrite Hm. apply list_elem_of_In, in_flat_map.
    exists route. split; [by apply list_elem_of_In|]. unfold route_hits, pattern_hits.
    rewrite Hts. simpl. rewrite Hpm. by left. }
  destruct (best_hit_spec _ Hn) as [[Hnil H0]|(H0 & Hbest & Hmin)].
  - left. split; [by rewrite Hf|]. intros route p Hr Hrm. specialize (Hin _ _ Hr Hrm).
    rewrite Hnil in Hin. by apply elem_of_nil in Hin.
  - right. apply (elem_of_Permutation_proper _ _ _ Hm) in Hbest.
    destruct (elem_of_route_hits _ _ _ Hok Hbest) as (route & Hr & Hidx & Hrm).
    exists route. rewrite Hf, Hp by (by rewrite Hf). split_and!; try done.
    intros route' p Hr' Hrm'. exact (Hmin _ (Hin _ _ Hr' Hrm')).
Qed.

(** ** Properties *)

(** C22: for any route patterns the tree finds what a linear search would.  After adding
    the routes and optimizing the tree, [find] returns rule index 0 if no pattern matches
    the URL, and otherwise the smallest index of a matching route, with the parameters
    with which that route matches. *)
Theorem trie_finds_first_match (routes : list (string * Z)) (head_ : Node) (url : string) :
  Forall route_ok routes → build routes trie_empty = Some (Ok head_) →
  let f := trie_find (optimize head_) url in
  (rule_index_ f = 0 ∧ ∀ route p, route ∈ routes → ¬ route_matches route url p) ∨
  (∃ route, route ∈ routes ∧ snd route = rule_index_ f ∧
     route_matches route url (r_params f) ∧
     ∀ route' p, route' ∈ routes → route_matches route' url p → rule_index_ f ≤ snd route').
Proof. apply find_first_match. Qed.

(** [add] ends exactly on the patterns whose every [<] starts one of the seven known
    tags: on any other it loops at that character for ever. *)
Theorem add_terminates (url : string) (r bpl bpi : Z) (head_ : Node) :
  is_Some (add url r bpl bpi head_) ↔ is_Some (tokens url).
Proof.
  unfold add, tokens. split.
  - intros Ha. destruct (tokens_loop _ url) eqn:Ht; [by eexists|].
    rewrite add_loop_stuck in Ha by done. by destruct Ha.
  - apply add_loop_total.
Qed.
