(* ===== verification/AppExamples.v ===== *)
(** * Concrete runs of the middleware chain and the route tree

    The theorems of Middleware.v, AppMiddlewares.v and Trie.v applied to the service's
    own tuple of middlewares and to its own routes, over the backends of Backends.v. *)

From S2P Require Import Prelude Doubles JsonRead JsonWrite Utility QueryString Http Service.
From S2P Require Import Backends OrderRoutes Middleware AppMiddlewares Trie Wp.
Open Scope Z_scope.

Definition example_request (m : HTTPMethod) (url key : string) : request :=
  Request m url url qs_empty [("Authorization", key)] "" "" 1 1 true false false.
Definition example_world : world := toy_world ∅ [] [].
Definition example_routes : list (string * Z) :=
  [("/order/create", 2); ("/order/list", 3); ("/order/<string>", 4);
   ("/order/pay/<string>", 5); ("/healthcheck", 6)].
Definition example_head : Node :=
  match build example_routes trie_empty with Some (Ok h) => h | _ => trie_empty end.

Lemma middleware_protocol_witness :
  Forall (λ mw : middleware world context, is_global mw = true) app_middlewares ∧
  after_chain (example_request Get "/order/list" "") response_default context_default example_world
  = run_after (rev app_middlewares) (example_request Get "/order/list" "") response_default
      context_default example_world.
Proof.
  assert (Forall (λ mw : middleware world context, is_global mw = true) app_middlewares) as H
    by (by repeat constructor).
  split; [exact H|].
  exact (proj2 (middleware_protocol 0 app_middlewares
    (example_request Get "/order/list" "") response_default context_default example_world H)).
Defined.

Lemma admission_witness :
  completed_ response_default = false ∧ inflight_range example_world ∧
  wp (before_chain (example_request Get "/order/list" "1234567") response_default
        (Context_ 0 false))
    (λ r w', no_backend example_world w' ∧
      match r with
      | Ok (false, (res', ctx')) =>
          res' = response_default ∧
          admitted (example_request Get "/order/list" "1234567") example_world ctx' w' ∧
          counters w' total_requests = counters example_world total_requests
      | Ok (true, (res', ctx')) =>
          turned_away (example_request Get "/order/list" "1234567") example_world response_default
            res' w' ∧
          counters w' total_requests = swrap 32 (counters example_world total_requests + 1)
      | Throw _ => False
      end) example_world.
Proof.
  split_and!; [done|done|]. by apply admission.
Defined.

Lemma inflight_balanced_witness :
  let req := example_request Get "/order/list" "1234567" in
  let r := before_chain req response_default (Context_ 0 false) example_world in
  match r with
  | (Ok (false, (res1, ctx)), w1) =>
      counted_inflight ctx = true ∧ inflight w1 = 1 ∧
      ∀ resh, wp (after_chain req resh ctx) (λ r w', ∃ res',
        r = Ok (res', ctx) ∧ no_backend w1 w' ∧ inflight w' = inflight example_world ∧
        counters w' total_requests = swrap 32 (counters w1 total_requests + 1) ∧
        code_ res' = code_ resh ∧ (400 ≤ code_ resh → body res' ≠ "")) w1
  | _ => False
  end.
Proof.
  intros req r.
  assert (match fst r with Ok (b, (_, ctx)) => (b, counted_inflight ctx) | _ => (true, true) end
          = (false, true)) as H1 by by vm_compute.
  assert (inflight (snd r) = 1) as H2 by by vm_compute.
  destruct r as [[[b [res1 ctx]]|e] w1] eqn:E; [|done].
  injection H1 as -> H1. split_and!; [exact H1|exact H2|].
  intros resh. apply (inflight_balanced req response_default res1 0 example_world w1 w1 ctx);
    [done|done|exact E| |done].
  unfold inflight_range. change (inflight w1 = 1) in H2. rewrite H2. done.
Defined.

Lemma trie_finds_first_match_witness :
  build example_routes trie_empty = Some (Ok example_head) ∧
  rule_index_ (trie_find (optimize example_head) "/order/list") = 3 ∧
  let f := trie_find (optimize example_head) "/order/list" in
  (rule_index_ f = 0 ∧ ∀ route p, route ∈ example_routes → ¬ route_matches route "/order/list" p) ∨
  (∃ route, route ∈ example_routes ∧ snd route = rule_index_ f ∧
     route_matches route "/order/list" (r_params f) ∧
     ∀ route' p, route' ∈ example_routes → route_matches route' "/order/list" p →
       rule_index_ f ≤ snd route').
Proof.
  assert (build example_routes trie_empty = Some (Ok example_head)) as Hb by by vm_compute.
  split_and!; [exact Hb|by vm_compute|].
  apply trie_finds_first_match; [|exact Hb].
  unfold example_routes, route_ok.
  repeat constructor; try done; by eexists; vm_compute.
Defined.
