(* ===== verification/Router.v ===== *)
(** * crow/routing.h: rules, registration and dispatch

    [BaseRule] with the parts of [TaggedRule] it uses, and [Router] without the
    blueprints, which are in Blueprints.v: the registration of rules into one trie per method,
    [handle_initial], [handle] and [handle_rule] with local middlewares.  A function that holds the response by reference
    runs in the monad [R], whose state holds the response, the middlewares' context and the
    world: what it did to the response before a throw stays. *)

From S2P Require Import Prelude Doubles JsonRead JsonWrite Utility QueryString Http Service.
From S2P Require Import Middleware Trie.
Open Scope Z_scope.

Section Router.
(** [S] is the world the handlers act on, [C] the context tuple of the middlewares. *)
Context {S C : Type}.

(** ** Responses by reference *)

Definition R (A : Type) : Type := M (response * C * S) A.

Definition get_res : R response := gets (λ x, fst (fst x)).
Definition modify_res (f : response → response) : R unit :=
  modify (λ x, (f (fst (fst x)), snd (fst x), snd x)).
(** [res = r;] *)
Definition assign_res (r : response) : R unit := modify_res (λ res, move_assign res r).
(** An action on the world alone. *)
Definition lift_world {A} (m : M S A) : R A := λ x,
  let r := m (snd x) in (fst r, (fst x, snd r)).
(** Middlewares, on the response and the context. *)
Definition run_middlewares {A} (f : response → C → M S (A * (response * C))) : R A := λ x,
  match f (fst (fst x)) (snd (fst x)) (snd x) with
  | (Ok (a, rc), s') => (Ok a, (rc, s'))
  | (Throw e, s') => (Throw e, (fst x, s'))
  end.

(** What the completion handlers do; they find the response already marked complete. *)
Definition completions : Type := completion_handler → R unit.

(** [res.end()]. *)
Definition end_ (k : completions) : R unit :=
  res ← get_res;
  match res_end_start res with
  | None => mret tt
  | Some res' =>
      _ ← modify_res (λ _, res');
      if decide (complete_request_handler_ res' = no_handler) then mret tt
      else _ ← k (complete_request_handler_ res'); modify_res res_end_finish
  end.

(** [try { m } catch (...) { h }]: no handler catches an execution without meaning. *)
Definition catch_all {A} (m : R A) (h : exn → R A) : R A := λ x,
  match m x with
  | (Throw (UB why), x') => (Throw (UB why), x')
  | (Throw e, x') => h e x'
  | r => r
  end.

(** ** Rules *)

(** A handler gets the request, the routing parameters and what [res.end()] may call. *)
Definition handler : Type := request → routing_params → completions → R unit.

Record BaseRule : Type := Rule {
  rule_ : string;
  methods_ : Z;                   (* [uint32_t] *)
  name_ : string;
  added_ : bool;
  mw_indices_ : list nat;
  handler_ : option handler;
}.

(** [TaggedRule(rule)]: one method, [Get]. *)
Definition new_rule (rule : string) : BaseRule := Rule rule (Z.shiftl 1 1) "" false [] None.

(** [1 << static_cast<int>(method)], converted to [uint32_t]: a shift of an [int] by 32 or
    more has no meaning. *)
Definition method_mask (m : HTTPMethod) : result Z :=
  if (32 <=? method_index m)%nat then Throw (UB "shift of an int") else
  Ok (Z.shiftl 1 (Z.of_nat (method_index m))).
(** [rule.methods(method, ...)]: the last method replaces the set, the others join it. *)
Fixpoint methods_of (ms : list HTTPMethod) (old : Z) : result Z :=
  match ms with
  | [] => Ok old
  | [m] => method_mask m
  | m :: ms' => set ← methods_of ms' old; mask ← method_mask m; Ok (Z.lor set mask)
  end.
Definition rule_methods (ms : list HTTPMethod) (r : BaseRule) : result BaseRule :=
  set ← methods_of ms (methods_ r);
  Ok (Rule (rule_ r) set (name_ r) (added_ r) (mw_indices_ r) (handler_ r)).
Definition with_handler (h : handler) (r : BaseRule) : BaseRule :=
  Rule (rule_ r) (methods_ r) (name_ r) (added_ r) (mw_indices_ r) (Some h).
Definition set_mw_indices (l : list nat) (r : BaseRule) : BaseRule :=
  Rule (rule_ r) (methods_ r) (name_ r) (added_ r) l (handler_ r).
Definition set_added (r : BaseRule) : BaseRule :=
  Rule (rule_ r) (methods_ r) (name_ r) true (mw_indices_ r) (handler_ r).

(** [TaggedRule::validate]. *)
Definition rule_validate (r : BaseRule) : result unit :=
  match rule_ r with
  | EmptyString => Throw OutOfRange
  | String c _ =>
      if decide (c ≠ "/"%char) then
        Throw (RuntimeError "Internal error: Routes must start with a '/'")
      else if handler_ r is None then
        Throw (RuntimeError (name_ r +:+ (if decide (name_ r = "") then "" else ": ")
                             +:+ "no handler for url " +:+ rule_ r))
      else Ok tt
  end.

(** [wrapped_handler_call]: [res = response(f(req, args...)); res.end();]. *)
Definition wrapped_handler (f : request → routing_params → M S response) : handler :=
  λ req rp k,
    r ← lift_world (f req rp);
    _ ← assign_res r;
    end_ k.

(** [middleware_indices::pack]: sort and drop duplicates. *)
Fixpoint insert_index (i : nat) (l : list nat) : list nat :=
  match l with
  | [] => [i]
  | j :: l' => if (i <=? j)%nat then i :: l else j :: insert_index i l'
  end.
Definition sort_indices (l : list nat) : list nat := foldr insert_index [] l.
Fixpoint unique_indices (l : list nat) : list nat :=
  match l with
  | i :: ((j :: _) as l') => if (i =? j)%nat then unique_indices l' else i :: unique_indices l'
  | _ => l
  end.
Definition pack (l : list nat) : list nat := unique_indices (sort_indices l).
Definition merge_front (l other : list nat) : list nat := other ++ l.
Definition merge_back (l other : list nat) : list nat := l ++ other.
Definition pop_back (l other : list nat) : list nat := take (length l - length other) l.

(** ** Registration *)

Definition RULE_SPECIAL_REDIRECT_SLASH : Z := 1.

Record PerMethod : Type := MkPerMethod {
  rules : list (option BaseRule);    (* two null pointers first *)
  trie : Node;
}.
Definition per_method_new : PerMethod := MkPerMethod [None; None] trie_empty.

Record Router : Type := MkRouter {
  all_rules_ : list BaseRule;
  per_methods_ : list PerMethod;
  catchall_rule_ : option (request → R unit);
}.
Definition router_new : Router := MkRouter [] (replicate InternalMethodCount per_method_new) None.
Definition new_rule_tagged (r : BaseRule) (rt : Router) : Router :=
  MkRouter (all_rules_ rt ++ [r]) (per_methods_ rt) (catchall_rule_ rt).

Definition obind {A B} (m : option (result A)) (f : A → option (result B)) : option (result B) :=
  match m with
  | Some (Ok a) => f a
  | Some (Throw e) => Some (Throw e)
  | None => None
  end.

(** [foreach_method] from method number [method] on: the 32-bit [method_bit] is zero after
    32 shifts. *)
Fixpoint foreach_method_from {X} (todo method : nat) (method_bit set : Z)
  (f : nat → X → option (result X)) (x : X) : option (result X) :=
  match todo with
  | O => Some (Ok x)
  | Datatypes.S todo' =>
      obind (if negb (Z.land set method_bit =? 0) then f method x else Some (Ok x))
        (foreach_method_from todo' (Datatypes.S method) (uwrap 32 (Z.shiftl method_bit 1)) set f)
  end.
Definition foreach_method {X} (set : Z) (f : nat → X → option (result X)) (x : X)
  : option (result X) := foreach_method_from InternalMethodCount 0 1 set f x.

(** [rule] without its last character, when that is a slash and not the only one. *)
Fixpoint strip_slash (rule : string) : option string :=
  match rule with
  | String c EmptyString => if decide (c = "/"%char) then Some EmptyString else None
  | String c rule' => String c <$> strip_slash rule'
  | EmptyString => None
  end.
Definition rule_without_trailing_slash (rule : string) : option string :=
  if (1 <? String.length rule)%nat then strip_slash rule else None.

Definition add_to_method (rule : string) (r : BaseRule) (pm : PerMethod)
  : option (result PerMethod) :=
  let rs := rules pm ++ [Some r] in
  obind (add rule (uwrap 16 (Z.of_nat (length rs) - 1)) 0 INVALID_BP_ID (trie pm)) (λ t,
    match rule_without_trailing_slash rule with
    | Some short =>
        obind (add short RULE_SPECIAL_REDIRECT_SLASH 0 INVALID_BP_ID t) (λ t',
          Some (Ok (MkPerMethod rs t')))
    | None => Some (Ok (MkPerMethod rs t))
    end).
Definition internal_add_rule_object (rule : string) (r : BaseRule) (pms : list PerMethod)
  : option (result (list PerMethod)) :=
  let r := set_mw_indices (pack (mw_indices_ r)) r in
  foreach_method (methods_ r) (λ method pms,
    match pms !! method with
    | Some pm =>
        obind (add_to_method rule r pm) (λ pm', Some (Ok (<[method := pm']> pms)))
    | None => Some (Throw (UB "per_methods_ out of range"))
    end) pms.

Fixpoint validate_rules (rs : list BaseRule) (pms : list PerMethod)
  : option (result (list BaseRule * list PerMethod)) :=
  match rs with
  | [] => Some (Ok ([], pms))
  | r :: rs' =>
      if added_ r then
        obind (validate_rules rs' pms) (λ x, Some (Ok (r :: fst x, snd x)))
      else
        obind (Some (rule_validate r)) (λ _,
        obind (internal_add_rule_object (rule_ r) r pms) (λ pms',
        obind (validate_rules rs' pms') (λ x,
          Some (Ok (set_added (set_mw_indices (pack (mw_indices_ r)) r) :: fst x, snd x)))))
  end.
Fixpoint validate_tries (pms : list PerMethod) : result (list PerMethod) :=
  match pms with
  | [] => Ok []
  | pm :: pms' =>
      t ← trie_validate (trie pm);
      pms'' ← validate_tries pms';
      Ok (MkPerMethod (rules pm) t :: pms'')
  end.
(** [Router::validate]. *)
Definition validate (rt : Router) : option (result Router) :=
  obind (validate_rules (all_rules_ rt) (per_methods_ rt)) (λ x,
  obind (Some (validate_tries (snd x))) (λ pms,
    Some (Ok (MkRouter (fst x) pms (catchall_rule_ rt))))).

(** ** Dispatch *)

Definition no_completions : completions := λ _, mret tt.

(** [routing_handle_result]; no method is [InternalMethodCount]. *)
Record routing_handle_result : Type := RoutingHandleResult {
  rh_found : found;
  rh_method : option HTTPMethod;
}.
Definition rh_rule_index (h : routing_handle_result) : Z := rule_index_ (rh_found h).
Definition no_result : routing_handle_result := RoutingHandleResult (Found 0 [] no_params) None.

Definition trie_of (rt : Router) (m : nat) : Node :=
  default trie_empty (trie <$> per_methods_ rt !! m).
Definition find_method (rt : Router) (m : HTTPMethod) (url : string) : found :=
  trie_find (trie_of rt (method_index m)) url.
(** Some method has a rule for [url]. *)
Definition found_in_any (rt : Router) (url : string) : bool :=
  existsb (λ pm, negb (rule_index_ (trie_find (trie pm) url) =? 0)) (per_methods_ rt).

Definition default_exception_handler (e : exn) : R unit :=
  _ ← assign_res (response_code 500);
  match e with
  | BadRequest what => _ ← assign_res (response_code 400); modify_res (set_body what)
  | _ => mret tt
  end.

(** [get_error] with no blueprints. *)
Definition get_error (rt : Router) (code : Z) (req : request) : R unit :=
  _ ← modify_res (set_code code);
  match catchall_rule_ rt with
  | Some h => catch_all (h req) default_exception_handler
  | None => mret tt
  end.

(** The names appended to the [Allow] list, for the methods of [l] but [Head] that
    satisfy [p]. *)
Definition allow_list (p : HTTPMethod → bool) (l : list HTTPMethod) : string :=
  fold_left (λ allow m, if p m && negb (bool_decide (m = Head))
                        then allow +:+ ", " +:+ method_name m else allow) l "OPTIONS, HEAD".
Definition answer_options (allow : string) : R unit :=
  _ ← assign_res (response_code 204);
  _ ← modify_res (set_header "Allow" allow);
  end_ no_completions.

(** No completion handler is installed when [handle_initial] runs. *)
Definition handle_initial (rt : Router) (req : request) : R routing_handle_result :=
  let method_actual := req_method req in
  let url := req_url req in
  if decide (method_actual = Head) then
    let f := find_method rt Head url in
    if rule_index_ f =? 0 then
      let g := find_method rt Get url in
      if rule_index_ g =? 0 then
        _ ← assign_res (response_code 404);
        _ ← end_ no_completions;
        mret (RoutingHandleResult g None)
      else
        _ ← modify_res (set_skip_body true);
        mret (RoutingHandleResult g (Some Get))
    else
      _ ← modify_res (set_skip_body true);
      mret (RoutingHandleResult f (Some Head))
  else if decide (method_actual = Options) then
    if decide (url = "/*") then
      _ ← answer_options (allow_list (λ m, negb (is_empty (trie_of rt (method_index m)))) all_methods);
      mret (RoutingHandleResult (rh_found no_result) (Some Options))
    else
      let matched m := negb (rule_index_ (find_method rt m url) =? 0) in
      if existsb matched all_methods then
        _ ← answer_options (allow_list matched all_methods);
        mret (RoutingHandleResult (rh_found no_result) (Some Options))
      else
        _ ← assign_res (response_code 404);
        _ ← end_ no_completions;
        mret no_result
  else
    let f := find_method rt method_actual url in
    if rule_index_ f =? 0 then
      _ ← get_error rt (if found_in_any rt url then 405 else 404) req;
      _ ← end_ no_completions;
      mret (RoutingHandleResult f None)
    else mret (RoutingHandleResult f (Some method_actual)).

(** The meaning of the completion handlers while [rule] is handled: [glob] is the
    connection's, and [rule_handler] runs the local [after_handle]s before it. *)
Definition rule_completions (mws : list (middleware S C)) (rule : BaseRule) (req : request)
  (glob : R unit) : completions := λ h,
  match h with
  | connection_handler => glob
  | rule_handler =>
      _ ← run_middlewares (λ res ctx,
            rc ← after_handlers_call_helper (dynamic_bwd_init (mw_indices_ rule)) mws req res ctx;
            mret (tt, rc));
      glob
  | no_handler | empty_handler => mret tt
  end.
Definition install (h : completion_handler) : R unit :=
  modify_res (λ res, set_handlers h (is_alive_set res) res).

(** [handle_rule].  A rule with local middlewares runs them in front of the handler, with
    an empty completion handler, and behind it when it completes. *)
Definition handle_rule (mws : list (middleware S C)) (rule : BaseRule) (req : request)
  (rp : routing_params) (glob : R unit) : R unit :=
  match handler_ rule with
  | None => lift (Throw (UB "an empty std::function is called"))
  | Some h =>
      if decide (mw_indices_ rule = []) then h req rp (rule_completions mws rule req glob)
      else
        _ ← install empty_handler;
        _ ← run_middlewares (λ res ctx,
              middleware_call_helper (dynamic_fwd_init (mw_indices_ rule)) 0 mws req res ctx);
        res ← get_res;
        if (completed_ res : bool) then glob
        else
          _ ← install rule_handler;
          h req rp (rule_completions mws rule req glob)
  end.

(** [glob] is what the connection's completion handler does. *)
Definition handle (rt : Router) (mws : list (middleware S C)) (req : request)
  (h : routing_handle_result) (glob : R unit) : R unit :=
  match rh_method h with
  | None => lift (Throw (UB "per_methods_ out of range"))
  | Some method_actual =>
      let rs := default [] (rules <$> per_methods_ rt !! method_index method_actual) in
      let i := rh_rule_index h in
      if Z.of_nat (length rs) <=? i then
        lift (Throw (RuntimeError "Trie internal structure corrupted!"))
      else if i =? RULE_SPECIAL_REDIRECT_SLASH then
        _ ← assign_res (response_code 301);
        _ ← modify_res (add_header "Location" (req_url req +:+ "/"));
        end_ (λ h, if decide (h = connection_handler) then glob else mret tt)
      else
        match rs !! Z.to_nat i with
        | Some (Some rule) =>
            catch_all (handle_rule mws rule req (r_params (rh_found h)) glob) (λ e,
              _ ← default_exception_handler e;
              end_ (rule_completions mws rule req glob))
        | _ => lift (Throw (UB "null rule"))
        end
  end.

(** [handle_upgrade]: no rule of the service is a WebSocket rule, and the others answer
    404 ([BaseRule::handle_upgrade]). *)
Definition handle_upgrade (rt : Router) (req : request) : R unit :=
  let i := rule_index_ (find_method rt (req_method req) (req_url req)) in
  if i =? 0 then
    _ ← assign_res (response_code (if found_in_any rt (req_url req) then 405 else 404));
    end_ no_completions
  else
    let rs := default [] (rules <$> per_methods_ rt !! method_index (req_method req)) in
    if Z.of_nat (length rs) <=? i then
      lift (Throw (RuntimeError "Trie internal structure corrupted!"))
    else if i =? RULE_SPECIAL_REDIRECT_SLASH then
      _ ← assign_res (response_code 301);
      _ ← modify_res (add_header "Location" (req_url req +:+ "/"));
      end_ no_completions
    else
      catch_all (_ ← assign_res (response_code 404); end_ no_completions) (λ e,
        _ ← default_exception_handler e;
        end_ no_completions).
End Router.
Arguments BaseRule : clear implicits.
Arguments PerMethod : clear implicits.
Arguments Router : clear implicits.

(** ** Registration: what [validate] builds *)

(** The methods [foreach_method] visits. *)
Definition has_method (set : Z) (m : nat) : bool := (m <? 32)%nat && Z.testbit set (Z.of_nat m).

Lemma method_bit_step m :
  uwrap 32 (Z.shiftl (uwrap 32 (2 ^ Z.of_nat m)) 1) = uwrap 32 (2 ^ Z.of_nat (Datatypes.S m)).
Proof.
  unfold uwrap. rewrite Z.shiftl_mul_pow2 by lia. rewrite Z.mul_mod_idemp_l by done.
  rewrite Nat2Z.inj_succ, Z.pow_succ_r by lia. f_equal. lia.
Qed.

Lemma method_bit_test set m :
  negb (Z.land set (uwrap 32 (2 ^ Z.of_nat m)) =? 0) = has_method set m.
Proof.
  unfold has_method, uwrap. destruct (Nat.ltb_spec m 32) as [Hm|Hm].
  - rewrite Z.mod_small.
    2: { split; [lia|]. apply Z.pow_lt_mono_r; lia. }
    simpl. destruct (Z.testbit set (Z.of_nat m)) eqn:Ht.
    + apply negb_true_iff, Z.eqb_neq. intros H0.
      assert (Z.testbit (Z.land set (2 ^ Z.of_nat m)) (Z.of_nat m) = true) as Hb.
      { rewrite Z.land_spec, Ht, Z.pow2_bits_true by lia. done. }
      by rewrite H0, Z.bits_0 in Hb.
    + apply negb_false_iff, Z.eqb_eq. apply Z.bits_inj. intros i. rewrite Z.land_spec, Z.bits_0.
      destruct (decide (i = Z.of_nat m)) as [->|Hi]; [by rewrite Ht|].
      rewrite Z.pow2_bits_false by lia. apply andb_false_r.
  - replace (Z.of_nat m) with (Z.of_nat m - 32 + 32) by lia.
    rewrite Z.pow_add_r by lia. rewrite Z.mod_mul by done. by rewrite Z.land_0_r.
Qed.

Section Registration.
Context {S C : Type}.
Implicit Types pm : PerMethod S C.

Lemma obind_Some {A B} (m : option (result A)) (f : A → option (result B)) b :
  obind m f = Some (Ok b) ↔ ∃ a, m = Some (Ok a) ∧ f a = Some (Ok b).
Proof. destruct m as [[a|e]|]; simpl; naive_solver. Qed.

(** One operation on the entry of every method of a set. *)
Definition at_method (g : PerMethod S C → option (result (PerMethod S C))) (method : nat)
  (pms : list (PerMethod S C)) : option (result (list (PerMethod S C))) :=
  match pms !! method with
  | Some pm => obind (g pm) (λ pm', Some (Ok (<[method := pm']> pms)))
  | None => Some (Throw (UB "per_methods_ out of range"))
  end.

Lemma foreach_method_from_spec g set todo method pms pms' :
  foreach_method_from todo method (uwrap 32 (2 ^ Z.of_nat method)) set (at_method g) pms
    = Some (Ok pms') →
  length pms' = length pms ∧
  (∀ m, (m < method)%nat → pms' !! m = pms !! m) ∧
  ∀ m pm, (method ≤ m < method + todo)%nat → pms !! m = Some pm →
    if has_method set m then ∃ pm', g pm = Some (Ok pm') ∧ pms' !! m = Some pm'
    else pms' !! m = Some pm.
Proof.
  revert method pms. induction todo as [|todo IH]; intros method pms; simpl.
  { intros [= <-]. split_and!; [done|done|lia]. }
  rewrite method_bit_step, method_bit_test. intros (pms1 & Hf & Hr)%obind_Some.
  destruct (IH _ _ Hr) as (Hl & Hlt & Hge).
  assert (length pms1 = length pms ∧ (∀ m, m ≠ method → pms1 !! m = pms !! m) ∧
          ∀ pm, pms !! method = Some pm →
            if has_method set method then ∃ pm', g pm = Some (Ok pm') ∧ pms1 !! method = Some pm'
            else pms1 !! method = Some pm) as (Hl1 & Hne & Heq).
  { destruct (has_method set method); [|by injection Hf as <-].
    unfold at_method in Hf. destruct (pms !! method) as [pm|] eqn:Hpm; [|done].
    apply obind_Some in Hf as (pm' & Hg & [= <-]). split_and!.
    - by rewrite length_insert.
    - intros m Hm. by rewrite list_lookup_insert_ne.
    - intros ? [= <-]. exists pm'. split; [done|]. apply list_lookup_insert_eq.
      by eapply lookup_lt_Some. }
  split_and!; [congruence| |].
  - intros m Hm. rewrite Hlt by lia. apply Hne. lia.
  - intros m pm Hm Hpm. destruct (decide (m = method)) as [->|Hd].
    + specialize (Heq _ Hpm). rewrite Hlt by lia. done.
    + apply Hge; [lia|]. by rewrite Hne.
Qed.

(** What registering [r] as number [i] adds to a trie. *)
Definition rule_entries (i : Z) (r : BaseRule S C) : list (string * Z) :=
  (rule_ r, i) ::
  (if rule_without_trailing_slash (rule_ r) is Some short
   then [(short, RULE_SPECIAL_REDIRECT_SLASH)] else []).
Fixpoint entries (i : Z) (rs : list (BaseRule S C)) : list (string * Z) :=
  match rs with [] => [] | r :: rs' => rule_entries i r ++ entries (i + 1) rs' end.
Definition method_rules (m : nat) (rs : list (BaseRule S C)) : list (BaseRule S C) :=
  filter (λ r, has_method (methods_ r) m = true) rs.
(** The rule object after registration. *)
Definition packed (r : BaseRule S C) : BaseRule S C := set_mw_indices (pack (mw_indices_ r)) r.

Lemma build_app l1 l2 h : build (l1 ++ l2) h = obind (build l1 h) (build l2).
Proof.
  revert h. induction l1 as [|[url r] l1 IH]; intros h; simpl; [done|].
  destruct (add url r 0 INVALID_BP_ID h) as [[h'|e]|]; simpl; auto.
Qed.

Lemma add_to_method_spec r pm pm' :
  Z.of_nat (length (rules pm)) < 2 ^ 16 →
  add_to_method (rule_ r) (packed r) pm = Some (Ok pm') →
  rules pm' = rules pm ++ [Some (packed r)] ∧
  build (rule_entries (Z.of_nat (length (rules pm))) r) (trie pm) = Some (Ok (trie pm')).
Proof.
  intros Hl. unfold add_to_method, rule_entries. rewrite length_app. simpl.
  unfold uwrap. rewrite Z.mod_small by lia.
  replace (Z.of_nat (length (rules pm) + 1) - 1) with (Z.of_nat (length (rules pm))) by lia.
  intros (t & Ha & H)%obind_Some. rewrite Ha.
  destruct (rule_without_trailing_slash (rule_ r)) as [short|]; simpl.
  - apply obind_Some in H as (t' & Hs & [= <-]). simpl. rewrite Hs. done.
  - injection H as <-. done.
Qed.

(** The table of one method before and after the rules [rs] are registered. *)
Definition extends (m : nat) (rs : list (BaseRule S C)) (pm pm' : PerMethod S C) : Prop :=
  rules pm' = rules pm ++ (Some ∘ packed <$> method_rules m rs) ∧
  build (entries (Z.of_nat (length (rules pm))) (method_rules m rs)) (trie pm)
  = Some (Ok (trie pm')).

Lemma internal_add_rule_object_spec r pms pms' :
  Forall (λ pm, Z.of_nat (length (rules pm)) < 2 ^ 16) pms →
  length pms = InternalMethodCount →
  internal_add_rule_object (rule_ r) r pms = Some (Ok pms') →
  length pms' = InternalMethodCount ∧
  ∀ m pm, pms !! m = Some pm → ∃ pm', pms' !! m = Some pm' ∧ extends m [r] pm pm'.
Proof.
  intros Hs Hl H.
  change (internal_add_rule_object (rule_ r) r pms) with
    (foreach_method_from InternalMethodCount 0 (uwrap 32 (2 ^ Z.of_nat 0)) (methods_ (packed r))
       (at_method (add_to_method (rule_ r) (packed r))) pms) in H.
  apply foreach_method_from_spec in H as (Hl' & _ & H). split; [congruence|].
  intros m pm Hpm. specialize (H m pm). unfold extends, method_rules.
  rewrite filter_cons. simpl methods_ in H.
  assert (m < InternalMethodCount)%nat as Hm by (rewrite <- Hl; by eapply lookup_lt_Some).
  specialize (H ltac:(lia) Hpm). destruct (has_method (methods_ r) m) eqn:Hb.
  - destruct H as (pm' & Ha & Hpm'). exists pm'. split; [done|].
    rewrite decide_True by done. rewrite filter_nil. simpl entries. rewrite app_nil_r.
    apply add_to_method_spec in Ha; [done|].
    rewrite Forall_lookup in Hs. by eapply Hs.
  - exists pm. split; [done|]. rewrite decide_False by done. rewrite filter_nil. simpl.
    by rewrite app_nil_r.
Qed.

Lemma extends_trans m rs1 rs2 pm1 pm2 pm3 :
  extends m rs1 pm1 pm2 → extends m rs2 pm2 pm3 → extends m (rs1 ++ rs2) pm1 pm3.
Proof.
  intros [Hr1 Hb1] [Hr2 Hb2]. unfold extends, method_rules in *.
  rewrite list.filter_app, fmap_app. split; [by rewrite Hr2, Hr1, app_assoc|].
  rewrite Hr1, length_app, length_fmap in Hb2.
  assert (∀ l1 l2 i, entries i (l1 ++ l2) = entries i l1 ++ entries (i + Z.of_nat (length l1)) l2)
    as Happ.
  { induction l1 as [|r l1 IH]; intros l2 i; [simpl; by rewrite Z.add_0_r|]. cbn [app entries].
    rewrite IH, <- app_assoc. do 3 f_equal. simpl length. lia. }
  rewrite Happ, build_app, Hb1. simpl. rewrite <- Hb2. f_equal. f_equal. lia.
Qed.

Lemma validate_rules_spec rs pms x n :
  Forall (λ r, added_ r = false) rs →
  length pms = InternalMethodCount →
  Forall (λ pm, (length (rules pm) ≤ n)%nat) pms →
  Z.of_nat (n + length rs) ≤ 2 ^ 16 →
  validate_rules rs pms = Some (Ok x) →
  length (snd x) = InternalMethodCount ∧
  ∀ m pm, pms !! m = Some pm → ∃ pm', snd x !! m = Some pm' ∧ extends m rs pm pm'.
Proof.
  intros Hadd. revert pms x n. induction Hadd as [|r rs Hr _ IH]; intros pms x n Hl Hs Hn H.
  { injection H as <-. split; [done|]. intros m pm Hpm. exists pm. split; [done|].
    unfold extends. simpl. by rewrite app_nil_r. }
  cbn [validate_rules] in H. rewrite Hr in H.
  apply obind_Some in H as (_ & _ & H). apply obind_Some in H as (pms1 & H1 & H).
  apply obind_Some in H as (x2 & H2 & [= <-]). simpl.
  apply internal_add_rule_object_spec in H1 as (Hl1 & H1); [| |done].
  2: { eapply list.Forall_impl; [exact Hs|]. simpl in *. intros pm ?. lia. }
  destruct (IH pms1 x2 (Datatypes.S n)) as (Hl2 & H3); [done| | |exact H2|].
  - apply Forall_lookup. intros m pm1 Hpm1.
    assert (is_Some (pms !! m)) as [pm Hpm].
    { apply lookup_lt_is_Some. rewrite Hl, <- Hl1. by eapply lookup_lt_Some. }
    destruct (H1 m pm Hpm) as (pm1' & Hpm1' & Hrules & _).
    assert (pm1' = pm1) as -> by congruence. rewrite Hrules, length_app, length_fmap.
    rewrite Forall_lookup in Hs. specialize (Hs _ _ Hpm). simpl in Hs. unfold method_rules.
    pose proof (list.length_filter (λ r, has_method (methods_ r) m = true) [r]). simpl in *. lia.
  - simpl in *. lia.
  - split; [done|]. intros m pm Hpm. destruct (H1 m pm Hpm) as (pm1 & Hpm1 & He1).
    destruct (H3 m pm1 Hpm1) as (pm2 & Hpm2 & He2). exists pm2. split; [done|].
    apply (extends_trans m [r] rs pm pm1 pm2); done.
Qed.

Lemma validate_tries_spec (pms pms' : list (PerMethod S C)) :
  validate_tries pms = Ok pms' →
  Forall2 (λ pm pm', rules pm' = rules pm ∧ trie pm' = optimize (trie pm)) pms pms'.
Proof.
  revert pms'. induction pms as [|pm pms IH]; intros pms' H; simpl in H; [injection H as <-; done|].
  unfold trie_validate in H. destruct (negb _); [done|]. simpl in H.
  destruct (validate_tries pms) as [pms''|] eqn:E; [|done]. injection H as <-.
  constructor; [done|]. by apply IH.
Qed.

(** The table of every method of a validated router. *)
Lemma validate_spec rs c rt :
  Forall (λ r, added_ r = false) rs → Z.of_nat (length rs) < 2 ^ 16 - 2 →
  validate (MkRouter rs (replicate InternalMethodCount per_method_new) c) = Some (Ok rt) →
  catchall_rule_ rt = c ∧ length (per_methods_ rt) = InternalMethodCount ∧
  ∀ m, (m < InternalMethodCount)%nat → ∃ pm h, per_methods_ rt !! m = Some pm ∧
    rules pm = [None; None] ++ (Some ∘ packed <$> method_rules m rs) ∧
    build (entries 2 (method_rules m rs)) trie_empty = Some (Ok h) ∧
    trie pm = optimize h.
Proof.
  intros Hadd Hl H. unfold validate in H. apply obind_Some in H as (x & Hv & H).
  apply obind_Some in H as (pms & Ht & [= <-]). injection Ht as Ht.
  apply (validate_rules_spec _ _ _ 2) in Hv as (Hlx & Hv); [|done|done| |simpl; lia].
  2: { apply list.Forall_forall. by intros pm ->%elem_of_replicate_inv. }
  apply validate_tries_spec in Ht. simpl. split_and!; [done|by rewrite <- (list.Forall2_length _ _ _ Ht)|].
  intros m Hm. destruct (Hv m per_method_new) as (pm & Hpm & Hr & Hb).
  { by apply lookup_replicate_2. }
  destruct (Forall2_lookup_l _ _ _ _ _ Ht Hpm) as (pm' & Hpm' & Hr' & Ht').
  exists pm', (trie pm). split_and!; [done|by rewrite Hr', Hr|exact Hb|done].
Qed.
End Registration.

(** ** Dispatch: the first matching rule *)

Section Dispatch.
Context {S C : Type}.
Implicit Types r : BaseRule S C.

Definition rule_matches r (url : string) (p : routing_params) : Prop :=
  route_matches (rule_ r, 0) url p.
(** [url] is that of the rule without its trailing slash. *)
Definition redirects r (url : string) : Prop :=
  ∃ short p, rule_without_trailing_slash (rule_ r) = Some short ∧ route_matches (short, 0) url p.

Lemma build_tokens routes h h' :
  build routes h = Some (Ok h') → Forall (λ route, is_Some (tokens (fst route))) routes.
Proof.
  revert h. induction routes as [|[url i] routes IH]; intros h H; [constructor|]. simpl in H.
  destruct (add url i 0 INVALID_BP_ID h) as [[h1|e]|] eqn:Ha; [|done..].
  constructor; [|by apply (IH h1)]. simpl. unfold tokens.
  destruct (tokens_loop _ url) eqn:Ht; [by eexists|].
  unfold add in Ha. by rewrite add_loop_stuck in Ha.
Qed.

Lemma elem_of_entries (rs : list (BaseRule S C)) i pat n :
  (pat, n) ∈ entries i rs ↔
  ∃ k r, rs !! k = Some r ∧
    (pat = rule_ r ∧ n = i + Z.of_nat k ∨
     rule_without_trailing_slash (rule_ r) = Some pat ∧ n = RULE_SPECIAL_REDIRECT_SLASH).
Proof.
  revert i. induction rs as [|r rs IH]; intros i.
  { simpl. split; [by intros ?%elem_of_nil|]. by intros (k & r & ? & _). }
  cbn [entries]. rewrite elem_of_app, IH. unfold rule_entries.
  split.
  - intros [H|(k & r' & Hk & H)].
    + exists O, r. split; [done|]. apply elem_of_cons in H as [[= -> ->]|H]; [left; split; [done|lia]|].
      right. destruct (rule_without_trailing_slash (rule_ r)); [|by apply elem_of_nil in H].
      apply list_elem_of_singleton in H. by injection H as -> ->.
    + exists (Datatypes.S k), r'. split; [done|]. destruct H as [[-> ->]|H]; [|by right].
      left. split; [done|lia].
  - intros ([|k] & r' & Hk & H); simpl in Hk.
    + left. injection Hk as ->. destruct H as [[-> ->]|[-> ->]].
      * apply elem_of_cons. left. f_equal. lia.
      * apply elem_of_cons. right. by left.
    + right. exists k, r'. split; [done|]. destruct H as [[-> ->]|H]; [|by right].
      left. split; [done|lia].
Qed.

Lemma strip_slash_Forall P s t : strip_slash s = Some t → string_Forall P s → string_Forall P t.
Proof.
  revert t. induction s as [|c s IH]; intros t H Hs; [done|]. destruct Hs as [Hc Hs].
  simpl in H. destruct s as [|d s].
  - case_decide; [injection H as <-|]; done.
  - destruct (strip_slash (String d s)) as [t'|]; [|done]. injection H as <-.
    split; [done|]. by apply IH.
Qed.

Lemma entries_ok (rs : list (BaseRule S C)) h :
  Forall (λ r, string_Forall (λ c, c ≠ NUL) (rule_ r)) rs →
  build (entries 2 rs) trie_empty = Some (Ok h) → Forall route_ok (entries 2 rs).
Proof.
  intros Hn Hb. apply build_tokens in Hb. rewrite list.Forall_forall in Hb. rewrite list.Forall_forall in Hn.
  apply list.Forall_forall. intros [pat n] Hin.
  specialize (Hb _ Hin). apply elem_of_entries in Hin as (k & r & Hk & H).
  assert (string_Forall (λ c, c ≠ NUL) (rule_ r)) as Hr by (apply Hn; by eapply list_elem_of_lookup_2).
  split; [done|]. destruct H as [[-> ->]|[H ->]]; (split; [|simpl; unfold RULE_SPECIAL_REDIRECT_SLASH; lia]).
  - done.
  - unfold rule_without_trailing_slash in H. destruct (1 <? _)%nat; [|done].
    simpl. by eapply strip_slash_Forall.
Qed.

(** What [find] says about one method of a validated router. *)
Definition finds_first (rs : list (BaseRule S C)) (table : list (option (BaseRule S C)))
  (url : string) (f : found) : Prop :=
  (rule_index_ f = 0 ∧ ∀ r, r ∈ rs → ¬ redirects r url ∧ ∀ p, ¬ rule_matches r url p) ∨
  (rule_index_ f = RULE_SPECIAL_REDIRECT_SLASH ∧ ∃ r, r ∈ rs ∧ redirects r url) ∨
  (∃ i r, rule_index_ f = 2 + Z.of_nat i ∧ rs !! i = Some r ∧
     table !! (2 + i)%nat = Some (Some (packed r)) ∧ rule_matches r url (r_params f) ∧
     (∀ r', r' ∈ rs → ¬ redirects r' url) ∧
     ∀ j r' p, (j < i)%nat → rs !! j = Some r' → ¬ rule_matches r' url p).

Lemma finds_first_of_table (rs : list (BaseRule S C)) table h url :
  Forall (λ r, string_Forall (λ c, c ≠ NUL) (rule_ r)) rs →
  build (entries 2 rs) trie_empty = Some (Ok h) →
  table = [None; None] ++ (Some ∘ packed <$> rs) →
  finds_first rs table url (trie_find (optimize h) url).
Proof.
  intros Hn Hb ->. pose proof (entries_ok _ _ Hn Hb) as Hok.
  destruct (find_first_match _ _ url Hok Hb) as [[H0 Hno]|([pat n] & Hin & Hs & Hm & Hmin)].
  - left. split; [done|]. intros r Hr. apply list_elem_of_lookup_1 in Hr as [k Hk]. split.
    + intros (short & p & Hsh & Hp). apply (Hno (short, 1) p); [|done].
      apply elem_of_entries. exists k, r. split; [done|]. by right.
    + intros p Hp. apply (Hno (rule_ r, 2 + Z.of_nat k) p); [|done].
      apply elem_of_entries. exists k, r. split; [done|]. by left.
  - simpl in Hs. apply elem_of_entries in Hin as (k & r & Hk & [[-> Hi]|[Hsh Hi]]).
    + right; right. exists k, r. split_and!; [by rewrite <- Hs|done| |exact Hm| |].
      * simpl. by rewrite list_lookup_fmap, Hk.
      * intros r' Hr' (short & p & Hsh & Hp). apply list_elem_of_lookup_1 in Hr' as [k' Hk'].
        assert ((short, 1) ∈ entries 2 rs) as Hin'.
        { apply elem_of_entries. exists k', r'. split; [done|]. by right. }
        specialize (Hmin _ _ Hin' Hp). simpl in Hmin. lia.
      * intros j r' p Hj Hr' Hp.
        assert ((rule_ r', 2 + Z.of_nat j) ∈ entries 2 rs) as Hin'.
        { apply elem_of_entries. exists j, r'. split; [done|]. by left. }
        specialize (Hmin _ _ Hin' Hp). simpl in Hmin. lia.
    + right; left. split; [by rewrite <- Hs|]. exists r. split; [by eapply list_elem_of_lookup_2|].
      by exists pat, (r_params (trie_find (optimize h) url)).
Qed.

Lemma validated_finds rs c (rt : Router S C) m url :
  Forall (λ r, added_ r = false) rs → Z.of_nat (length rs) < 2 ^ 16 - 2 →
  Forall (λ r, string_Forall (λ c, c ≠ NUL) (rule_ r)) rs →
  validate (MkRouter rs (replicate InternalMethodCount per_method_new) c) = Some (Ok rt) →
  finds_first (method_rules (method_index m) rs)
    (default [] (rules <$> per_methods_ rt !! method_index m)) url (find_method rt m url).
Proof.
  intros Ha Hl Hn Hv. apply validate_spec in Hv as (_ & Hlen & Hv); [|done|done].
  destruct (Hv (method_index m)) as (pm & h & Hpm & Hr & Hb & Ht).
  { unfold InternalMethodCount. destruct m; simpl; lia. }
  unfold find_method, trie_of. rewrite Hpm. simpl. rewrite Ht.
  eapply finds_first_of_table; [|exact Hb|exact Hr].
  rewrite list.Forall_forall in Hn. apply list.Forall_forall.
  intros r [_ Hin]%list_elem_of_filter. by apply Hn.
Qed.
End Dispatch.

(** ** Properties *)

Section Properties.
Context {S C : Type}.
Implicit Types r : BaseRule S C.

(** C23: dispatch is first-come.  In a router validated from any fresh rules, the search
    in the table of a method finds nothing if no rule of that method matches the URL; it
    finds the redirection if the URL is that of some rule short of its trailing slash,
    even when other rules match; otherwise it finds, with the parameters it matches
    with, the first registered rule that matches, at the place of that rule's object in the
    table. *)
Theorem router_finds_first_rule (rs : list (BaseRule S C)) c (rt : Router S C) m url :
  Forall (λ r, added_ r = false) rs → Z.of_nat (length rs) < 2 ^ 16 - 2 →
  Forall (λ r, string_Forall (λ c, c ≠ NUL) (rule_ r)) rs →
  validate (MkRouter rs (replicate InternalMethodCount per_method_new) c) = Some (Ok rt) →
  finds_first (method_rules (method_index m) rs)
    (default [] (rules <$> per_methods_ rt !! method_index m)) url (find_method rt m url).
Proof. apply validated_finds. Qed.

(** The answer of [handle_initial] when it leaves nothing to [handle]. *)
Definition answered (rt : Router S C) (req : request) (res' : response) : Prop :=
  completed_ res' = true ∧
  (code_ res' = 204 ∧ req_method req = Options ∨
   code_ res' = 405 ∧ req_method req ≠ Head ∧ req_method req ≠ Options ∧
     found_in_any rt (req_url req) = true ∧
     rule_index_ (find_method rt (req_method req) (req_url req)) = 0 ∨
   code_ res' = 404 ∧
     (∀ m, m = req_method req ∨ req_method req = Head ∧ m = Get ∨
           req_method req ≠ Head →
        rule_index_ (find_method rt m (req_url req)) = 0)).

(** The rule [handle_initial] leaves to [handle]. *)
Definition selected (rt : Router S C) (req : request) (h : routing_handle_result) : Prop :=
  ∃ m, rh_method h = Some m ∧ rh_found h = find_method rt m (req_url req) ∧
    req_method req ≠ Options ∧
    (m = req_method req ∨
     req_method req = Head ∧ m = Get ∧
       rule_index_ (find_method rt Head (req_url req)) = 0).

Lemma all_methods_elem m : m ∈ all_methods.
Proof. unfold all_methods. destruct m; set_solver. Qed.

Lemma found_in_any_false (rt : Router S C) url m :
  found_in_any rt url = false → rule_index_ (find_method rt m url) = 0.
Proof.
  unfold found_in_any, find_method, trie_of. intros H.
  destruct (per_methods_ rt !! method_index m) as [pm|] eqn:Hpm; simpl.
  - destruct (rule_index_ (trie_find (trie pm) url) =? 0) eqn:E; [by apply Z.eqb_eq|].
    assert (true = false); [|done]. rewrite <- H. symmetry. apply existsb_exists.
    exists pm. split; [apply list_elem_of_In; by eapply list_elem_of_lookup_2|]. by rewrite E.
  - by destruct url.
Qed.

Lemma end_plain k res ctx (s : S) :
  completed_ res = false → complete_request_handler_ res = no_handler →
  ∃ res', end_ (C := C) k (res, ctx, s) = (Ok tt, (res', ctx, s)) ∧
          completed_ res' = true ∧ code_ res' = code_ res.
Proof.
  intros Hc Hh. unfold end_, res_end_start. simpl. unfold mbind, M_bind. simpl. rewrite Hc.
  simpl. destruct (skip_body res); simpl; rewrite Hh; eexists; split_and!; done.
Qed.

(** What [handle_initial] is to do with a request. *)
Definition initial_outcome (rt : Router S C) (req : request) (res : response)
  (h : routing_handle_result) (res' : response) : Prop :=
  if bool_decide (rh_rule_index h = 0) then answered rt req res'
  else selected rt req h ∧ completed_ res' = false ∧
       res' = if bool_decide (req_method req = Head) then set_skip_body true res else res.

(** Both ends of [handle_initial]: a rule is left to [handle], or the response ends. *)
Lemma outcome_selected (rt : Router S C) req res m :
  completed_ res = false → req_method req ≠ Options →
  m = req_method req ∨
    req_method req = Head ∧ m = Get ∧ rule_index_ (find_method rt Head (req_url req)) = 0 →
  rule_index_ (find_method rt m (req_url req)) ≠ 0 →
  initial_outcome rt req res (RoutingHandleResult (find_method rt m (req_url req)) (Some m))
    (if bool_decide (req_method req = Head) then set_skip_body true res else res).
Proof.
  intros Hc Ho Hm Hi. unfold initial_outcome, rh_rule_index. simpl.
  rewrite bool_decide_false by done. split_and!; [by exists m| |done]. by case_bool_decide.
Qed.

Lemma end_then (h : routing_handle_result) (k : completion_handler → R (S := S) (C := C) ()) res ctx (s : S) :
  completed_ res = false → complete_request_handler_ res = no_handler →
  ∃ res', (_ ← end_ k; mret h) (res, ctx, s) = (Ok h, (res', ctx, s)) ∧
          completed_ res' = true ∧ code_ res' = code_ res.
Proof.
  intros Hc Hh. destruct (end_plain k res ctx s Hc Hh) as (res' & He & Hc' & Hcode).
  exists res'. split; [|done]. unfold mbind, M_bind. by rewrite He.
Qed.

Lemma initial_head (rt : Router S C) req res ctx (s : S) :
  completed_ res = false → complete_request_handler_ res = no_handler → req_method req = Head →
  ∃ h res', handle_initial rt req (res, ctx, s) = (Ok h, (res', ctx, s)) ∧
    initial_outcome rt req res h res'.
Proof.
  intros Hc Hh Hm. unfold handle_initial. rewrite decide_True by done.
  destruct (Z.eqb_spec (rule_index_ (find_method rt Head (req_url req))) 0) as [H0|H0].
  - destruct (Z.eqb_spec (rule_index_ (find_method rt Get (req_url req))) 0) as [H1|H1].
    + destruct (end_then (RoutingHandleResult (find_method rt Get (req_url req)) None)
        no_completions (move_assign res (response_code 404)) ctx s)
        as (res' & He & Hc' & Hcode); [done|done|].
      do 2 eexists. split; [exact He|]. unfold initial_outcome, rh_rule_index. simpl.
      rewrite bool_decide_true by done. split; [done|]. right; right. split; [done|].
      intros m [->|[[_ ->]|?]]; [by rewrite Hm|done|done].
    + do 2 eexists. split; [reflexivity|].
      pose proof (outcome_selected rt req res Get Hc) as Ho.
      rewrite bool_decide_true in Ho by done. apply Ho; [by rewrite Hm|by right|done].
  - do 2 eexists. split; [reflexivity|].
    pose proof (outcome_selected rt req res Head Hc) as Ho.
    rewrite bool_decide_true in Ho by done. apply Ho; [by rewrite Hm|by left|done].
Qed.

Lemma answer_options_spec (rt : Router S C) req res allow f (ctx : C) (s : S) :
  completed_ res = false → complete_request_handler_ res = no_handler →
  req_method req = Options → rule_index_ f = 0 →
  ∃ h res', (_ ← answer_options (C := C) allow; mret (RoutingHandleResult f (Some Options))) (res, ctx, s)
    = (Ok h, (res', ctx, s)) ∧ initial_outcome rt req res h res'.
Proof.
  intros Hc Hh Ho Hf.
  destruct (end_then (RoutingHandleResult f (Some Options)) no_completions
    (set_header "Allow" allow (move_assign res (response_code 204))) ctx s)
    as (res' & He & Hc' & Hcode); [done|done|].
  do 2 eexists. split; [exact He|]. unfold initial_outcome, rh_rule_index. simpl.
  rewrite Hf. split; [done|]. by left.
Qed.

Lemma initial_options (rt : Router S C) req res (ctx : C) (s : S) :
  completed_ res = false → complete_request_handler_ res = no_handler → req_method req = Options →
  ∃ h res', handle_initial rt req (res, ctx, s) = (Ok h, (res', ctx, s)) ∧
    initial_outcome rt req res h res'.
Proof.
  intros Hc Hh Ho. unfold handle_initial. rewrite decide_False by (by rewrite Ho).
  rewrite decide_True by done.
  destruct (decide (req_url req = "/*")) as [Hu|Hu]; [by apply answer_options_spec|].
  destruct (existsb _ all_methods) eqn:Hex; [by apply answer_options_spec|].
  destruct (end_then no_result no_completions (move_assign res (response_code 404)) ctx s)
    as (res' & He & Hc' & Hcode); [done|done|].
  do 2 eexists. split; [exact He|]. unfold initial_outcome. simpl. split; [done|].
  right; right. split; [done|]. intros m _.
  destruct (rule_index_ (find_method rt m (req_url req)) =? 0) eqn:E; [by apply Z.eqb_eq|].
  assert (true = false); [|done]. rewrite <- Hex. symmetry. apply existsb_exists.
  exists m. split; [apply list_elem_of_In, all_methods_elem|]. by rewrite E.
Qed.

Lemma initial_other (rt : Router S C) req res ctx (s : S) :
  completed_ res = false → complete_request_handler_ res = no_handler →
  catchall_rule_ rt = None → req_method req ≠ Head → req_method req ≠ Options →
  ∃ h res', handle_initial rt req (res, ctx, s) = (Ok h, (res', ctx, s)) ∧
    initial_outcome rt req res h res'.
Proof.
  intros Hc Hh Hca Hm Ho. unfold handle_initial. rewrite !decide_False by done.
  destruct (Z.eqb_spec (rule_index_ (find_method rt (req_method req) (req_url req))) 0) as [H0|H0].
  - set (code := if found_in_any rt (req_url req) then 405 else 404).
    destruct (end_then (RoutingHandleResult (find_method rt (req_method req) (req_url req))
        None) no_completions (set_code code res) ctx s)
      as (res' & He & Hc' & Hcode); [done|done|].
    do 2 eexists. split; [unfold get_error; rewrite Hca; exact He|].
    unfold initial_outcome, rh_rule_index. simpl. rewrite bool_decide_true by done.
    split; [done|]. right. unfold code in Hcode.
    destruct (found_in_any rt (req_url req)) eqn:Hf; [left; by split_and!|right].
    split; [done|]. intros m _. by apply found_in_any_false.
  - do 2 eexists. split; [reflexivity|].
    pose proof (outcome_selected rt req res (req_method req) Hc) as Hs.
    rewrite bool_decide_false in Hs by done. apply Hs; [done|by left|done].
Qed.

(** What becomes of a request before its headers are read.  [handle_initial] never
    throws, and either leaves a rule of the request's method to [handle] (for HEAD also
    one of GET, when HEAD has none) having changed nothing but the mark that a HEAD
    response has no body, or completes the response: 204 for OPTIONS, 405 if some
    other method has a rule for the URL, and 404 only if no method that could serve the
    request has one. *)
Theorem handle_initial_spec (rt : Router S C) req res ctx (s : S) :
  completed_ res = false → complete_request_handler_ res = no_handler →
  catchall_rule_ rt = None →
  ∃ h res', handle_initial rt req (res, ctx, s) = (Ok h, (res', ctx, s)) ∧
    initial_outcome rt req res h res'.
Proof.
  intros Hc Hh Hca. destruct (decide (req_method req = Head)); [by apply initial_head|].
  destruct (decide (req_method req = Options)); [by apply initial_options|].
  by apply initial_other.
Qed.
End Properties.
