(* ===== verification/Blueprints.v ===== *)
(** * crow/routing.h: blueprints

    A blueprint is an object that others point at, so the blueprints of a program are the cells of
    a heap, and [blueprints_] is a list of places in it.  What is done to one of them,
    [Router::validate_bp], which hands their rules to the tries of the router, and
    [Router::get_error], which looks for a catch-all among them.  A computation that has not ended
    when its fuel has is [None], as in Router.v. *)

From S2P Require Import Prelude Doubles Text Utility Http Service Middleware Trie Router.
Open Scope Z_scope.
Local Notation last := list_basics.list.last.

Section Blueprints.
Context {S C : Type}.

(** ** Blueprints *)

Record Blueprint : Type := MkBlueprint {
  prefix_ : string;
  static_dir_ : string;
  templates_dir_ : string;
  bp_rules : list (string * BaseRule S C);    (* with their [custom_templates_base] *)
  bp_catchall : option (request → R (S := S) (C := C) unit);
  blueprints_ : list nat;
  bp_mw_indices : list nat;
  bp_added : bool;
}.
Definition heap : Type := list Blueprint.
Definition blueprint (prefix static_dir templates_dir : string) : Blueprint :=
  MkBlueprint prefix static_dir templates_dir [] None [] [] false.
(** [Blueprint(prefix)], and with a directory for static files. *)
Definition blueprint_of_prefix (prefix : string) : Blueprint := blueprint prefix prefix prefix.
Definition blueprint_with_static (prefix static_dir : string) : Blueprint := blueprint prefix static_dir "".

Definition set_dirs (p s t : string) (bp : Blueprint) : Blueprint :=
  MkBlueprint p s t (bp_rules bp) (bp_catchall bp) (blueprints_ bp) (bp_mw_indices bp) (bp_added bp).
Definition set_rules (rs : list (string * BaseRule S C)) (bp : Blueprint) : Blueprint :=
  MkBlueprint (prefix_ bp) (static_dir_ bp) (templates_dir_ bp) rs (bp_catchall bp) (blueprints_ bp)
    (bp_mw_indices bp) (bp_added bp).
Definition bp_set_children (l : list nat) (bp : Blueprint) : Blueprint :=
  MkBlueprint (prefix_ bp) (static_dir_ bp) (templates_dir_ bp) (bp_rules bp) (bp_catchall bp) l
    (bp_mw_indices bp) (bp_added bp).
Definition bp_set_catchall (h : request → R unit) (bp : Blueprint) : Blueprint :=
  MkBlueprint (prefix_ bp) (static_dir_ bp) (templates_dir_ bp) (bp_rules bp) (Some h) (blueprints_ bp)
    (bp_mw_indices bp) (bp_added bp).
(** [middlewares<App, ...>()]. *)
Definition bp_push (l : list nat) (bp : Blueprint) : Blueprint :=
  MkBlueprint (prefix_ bp) (static_dir_ bp) (templates_dir_ bp) (bp_rules bp) (bp_catchall bp)
    (blueprints_ bp) (bp_mw_indices bp ++ l) (bp_added bp).
Definition bp_set_added (bp : Blueprint) : Blueprint :=
  MkBlueprint (prefix_ bp) (static_dir_ bp) (templates_dir_ bp) (bp_rules bp) (bp_catchall bp)
    (blueprints_ bp) (bp_mw_indices bp) true.

Definition rename (url : string) (r : BaseRule S C) : BaseRule S C :=
  Rule url (methods_ r) (name_ r) (added_ r) (mw_indices_ r) (handler_ r).
(** [new_rule_tagged]: [r] is the rule as its user goes on to set it up. *)
Definition bp_new_rule (r : BaseRule S C) (bp : Blueprint) : Blueprint :=
  set_rules (bp_rules bp ++ [(templates_dir_ bp, rename ("/" +:+ prefix_ bp +:+ rule_ r) r)]) bp.

Definition under (parent bp : Blueprint) : Blueprint :=
  set_rules (prod_map id (λ r, rename ("/" +:+ prefix_ parent +:+ rule_ r) r) <$> bp_rules bp)
    (set_dirs (prefix_ parent +:+ "/" +:+ prefix_ bp) (static_dir_ parent +:+ "/" +:+ static_dir_ bp)
       (templates_dir_ parent +:+ "/" +:+ templates_dir_ bp) bp).
Fixpoint each_bp {X} (f : nat → X → option (result X)) (l : list nat) (x : X) : option (result X) :=
  match l with [] => Some (Ok x) | b :: l' => obind (f b x) (each_bp f l') end.
(** The blueprint at [p] is [this]. *)
Fixpoint apply_blueprint (fuel p b : nat) (h : heap) : option (result heap) :=
  match fuel with
  | O => None
  | Datatypes.S fuel' =>
      match h !! p, h !! b with
      | Some parent, Some bp => each_bp (apply_blueprint fuel' p) (blueprints_ bp) (<[b := under parent bp]> h)
      | _, _ => Some (Throw (UB "no such blueprint"))
      end
  end.
Definition register_blueprint (fuel p b : nat) (h : heap) : option (result heap) :=
  match h !! p, h !! b with
  | Some parent, Some bp =>
      if decide (b ∈ blueprints_ parent) then
        Some (Throw (RuntimeError ("blueprint " +:+ String DQ (prefix_ bp +:+ String DQ
          (" already exists in blueprint " +:+ String DQ (prefix_ parent +:+ String DQ ""))))))
      else obind (apply_blueprint fuel p b h) (λ h,
        Some (Ok (alter (λ parent, bp_set_children (blueprints_ parent ++ [b]) parent) p h)))
  | _, _ => Some (Throw (UB "no such blueprint"))
  end.
(** [Router::register_blueprint]. *)
Definition router_register_blueprint (b : nat) (h : heap) (registered : list nat) : result (list nat) :=
  match h !! b with
  | Some bp =>
      if decide (b ∈ registered) then
        Throw (RuntimeError ("blueprint " +:+ String DQ (prefix_ bp +:+ String DQ " already exists in router")))
      else Ok (registered ++ [b])
  | None => Throw (UB "no such blueprint")
  end.

(** ** Registration of their rules *)

(** [internal_add_rule_object] with the index of a blueprint among [blueprints]. *)
Definition add_to_method_at (len index : Z) (rule : string) (r : BaseRule S C) (pm : PerMethod S C)
  : option (result (PerMethod S C)) :=
  let rs := rules pm ++ [Some r] in
  obind (add rule (uwrap 16 (Z.of_nat (length rs) - 1)) len index (trie pm)) (λ t,
    match rule_without_trailing_slash rule with
    | Some short =>
        obind (add short RULE_SPECIAL_REDIRECT_SLASH len index t) (λ t', Some (Ok (MkPerMethod rs t')))
    | None => Some (Ok (MkPerMethod rs t))
    end).
Definition add_rule_object_at (rule : string) (r : BaseRule S C) (BP_index : Z) (blueprints : list nat)
    (h : heap) (pms : list (PerMethod S C)) : option (result (list (PerMethod S C))) :=
  let r := set_mw_indices (pack (mw_indices_ r)) r in
  foreach_method (methods_ r) (λ method pms,
    match pms !! method with
    | Some pm =>
        obind (if decide (BP_index = INVALID_BP_ID) then Some (Ok 0)
               else match b ← blueprints !! Z.to_nat BP_index; h !! b with
                    | Some bp => Some (Ok (uwrap 32 (slen (prefix_ bp))))
                    | None => Some (Throw (UB "blueprints out of range"))
                    end) (λ len,
        obind (add_to_method_at len BP_index rule r pm) (λ pm', Some (Ok (<[method := pm']> pms))))
    | None => Some (Throw (UB "per_methods_ out of range"))
    end) pms.

(** The rules of one blueprint, with the middlewares of the blueprints around it. *)
Fixpoint add_bp_rules (BP_index : Z) (blueprints : list nat) (h : heap) (current_mw : list nat)
    (rs : list (string * BaseRule S C)) (pms : list (PerMethod S C))
  : option (result (list (string * BaseRule S C) * list (PerMethod S C))) :=
  match rs with
  | [] => Some (Ok ([], pms))
  | (base, r) :: rs' =>
      if added_ r then
        obind (add_bp_rules BP_index blueprints h current_mw rs' pms) (λ x, Some (Ok ((base, r) :: fst x, snd x)))
      else
        obind (Some (rule_validate r)) (λ _,
        let r := set_mw_indices (merge_front (mw_indices_ r) current_mw) r in
        obind (add_rule_object_at (rule_ r) r BP_index blueprints h pms) (λ pms,
        obind (add_bp_rules BP_index blueprints h current_mw rs' pms) (λ x,
          Some (Ok ((base, set_added (set_mw_indices (pack (mw_indices_ r)) r)) :: fst x, snd x)))))
  end.

Definition is_empty_bp (bp : Blueprint) : bool := bool_decide (static_dir_ bp = "") && bool_decide (bp_rules bp = []).
Definition add_method (m : nat) (methods : list nat) : list nat :=
  if decide (m ∈ methods) then methods else methods ++ [m].
Fixpoint methods_of_rules (rs : list (BaseRule S C)) (methods : list nat) : option (result (list nat)) :=
  match rs with
  | [] => Some (Ok methods)
  | r :: rs' => obind (foreach_method (methods_ r) (λ m l, Some (Ok (add_method m l))) methods) (methods_of_rules rs')
  end.
Fixpoint get_recursive_child_methods (fuel : nat) (h : heap) (b : nat) (methods : list nat)
  : option (result (list nat)) :=
  match fuel with
  | O => None
  | Datatypes.S fuel' =>
      match h !! b with
      | None => Some (Throw (UB "no such blueprint"))
      | Some bp =>
          obind (if is_empty_bp bp then each_bp (get_recursive_child_methods fuel' h) (blueprints_ bp) methods
                 else Some (Ok (if bool_decide (static_dir_ bp = "") then methods
                                else methods ++ [method_index Get])))
            (methods_of_rules (snd <$> bp_rules bp))
      end
  end.
(** A blueprint with nothing of its own leaves its prefix in the tries of these methods. *)
Fixpoint add_prefixes (prefix : string) (methods : list nat) (pms : list (PerMethod S C))
  : option (result (list (PerMethod S C))) :=
  match methods with
  | [] => Some (Ok pms)
  | m :: ms =>
      match pms !! m with
      | None => Some (Throw (UB "per_methods_ out of range"))
      | Some pm =>
          obind (add prefix 0 (uwrap 32 (slen prefix)) (Z.of_nat m) (trie pm)) (λ t,
            add_prefixes prefix ms (<[m := MkPerMethod (rules pm) t]> pms))
      end
  end.

(** The heap, the tables, and [current_mw]. *)
Definition validating : Type := (heap * list (PerMethod S C) * list nat)%type.
Definition validate_one (fuel : nat) (below : list nat → validating → option (result validating))
    (blueprints : list nat) (i b : nat) (st : validating) : option (result validating) :=
  let '(h, pms, current_mw) := st in
  match h !! b with
  | None => Some (Throw (UB "no such blueprint"))
  | Some bp =>
      if bp_added bp then Some (Ok st) else
      obind (if is_empty_bp bp then
               obind (get_recursive_child_methods fuel h b []) (λ ms, add_prefixes (prefix_ bp) ms pms)
             else Some (Ok pms)) (λ pms,
      let current_mw := merge_back current_mw (bp_mw_indices bp) in
      obind (add_bp_rules (uwrap 16 (Z.of_nat i)) blueprints h current_mw (bp_rules bp) pms) (λ x,
      obind (below (blueprints_ bp) (<[b := set_rules (fst x) bp]> h, snd x, current_mw)) (λ st,
        let '(h, pms, current_mw) := st in
        Some (Ok (alter bp_set_added b h, pms, pop_back current_mw (bp_mw_indices bp))))))
  end.
Definition validate_each (one : nat → nat → validating → option (result validating))
  : nat → list nat → validating → option (result validating) :=
  fix each (i : nat) (l : list nat) (st : validating) : option (result validating) :=
    match l with [] => Some (Ok st) | b :: l' => obind (one i b st) (each (Datatypes.S i) l') end.
Fixpoint validate_bp (fuel : nat) (blueprints : list nat) (st : validating) : option (result validating) :=
  match fuel with
  | O => None
  | Datatypes.S fuel' =>
      validate_each (validate_one fuel (validate_bp fuel') blueprints) 0 blueprints st
  end.

(** [Crow::add_blueprint], and [validate] after it, as in [run()]; the rule of [add_static_dir] in
    between is one of the router's. *)
Definition CROW_STATIC_ENDPOINT : string := "/static/<path>".
Definition bp_static_handler `{!FileSystem} (static_dir : string) : handler (S := S) (C := C) := λ _ rp k,
  file_path_partial ← lift (param_get (string_params rp) 0);
  let file_path_partial := sanitize_filename file_path_partial "_" in
  _ ← modify_res (set_static_file_info_unsafe (normalize_path static_dir +:+ file_path_partial));
  end_ k.
Definition add_static_rule `{!FileSystem} (bp : Blueprint) : Blueprint :=
  if bool_decide (static_dir_ bp = "") then bp
  else bp_new_rule (with_handler (bp_static_handler (static_dir_ bp)) (new_rule CROW_STATIC_ENDPOINT)) bp.
Definition add_blueprint `{!FileSystem} (fuel : nat) (registered : list nat) (h : heap) (rt : Router S C)
  : option (result (heap * Router S C)) :=
  let h := foldl (λ h b, alter add_static_rule b h) h registered in
  obind (validate_bp fuel registered (h, per_methods_ rt, [])) (λ st,
    let '(h, pms, _) := st in Some (Ok (h, MkRouter (all_rules_ rt) pms (catchall_rule_ rt)))).
Definition run_validate `{!FileSystem} (fuel : nat) (registered : list nat) (h : heap) (rt : Router S C)
  : option (result (heap * Router S C)) :=
  obind (add_blueprint fuel registered h rt) (λ x,
  obind (validate (snd x)) (λ rt, Some (Ok (fst x, rt)))).

(** ** Errors *)

(** [blueprints.at(i)] for [blueprints[i]]. *)
Definition bp_at (blueprints : list nat) (i : Z) (h : heap) : result (nat * Blueprint) :=
  match blueprints !! Z.to_nat i with
  | Some b => match h !! b with Some bp => Ok (b, bp) | None => Throw (UB "no such blueprint") end
  | None => Throw (UB "blueprints out of range")
  end.
(** [verify_prefix]. *)
Definition verify_prefix (h : heap) (bp_i : Z) (index : nat) (blueprints : list nat)
    (found_bps : list (nat * Blueprint)) : result bool :=
  if (index =? 0)%nat then Ok false
  else if Z.of_nat (length blueprints) <=? bp_i then Ok false
  else
    next ← bp_at blueprints bp_i h;
    match found_bps !! (index - 1)%nat with
    | None => Throw (UB "found_bps out of range")
    | Some (_, parent) =>
        Ok (bool_decide (stake (String.length (prefix_ parent) + 1) (prefix_ (snd next)) = prefix_ parent +:+ "/"))
    end.
(** From [index] on; [registered] are the router's. *)
Fixpoint get_found_bp (h : heap) (registered : list nat) (bp_i : list Z) (index : nat)
    (blueprints : list nat) (found_bps : list (nat * Blueprint)) : result (list (nat * Blueprint)) :=
  match bp_i with
  | [] => Ok found_bps
  | i :: bp_i' =>
      ok ← verify_prefix h i index blueprints found_bps;
      found_bps ←
        (if (ok : bool) then next ← bp_at blueprints i h; Ok (found_bps ++ [next])
         else if (length found_bps <? 2)%nat then next ← bp_at registered i h; Ok [next]
         else
           let found_bps := removelast found_bps in
           match last found_bps with
           | Some (_, parent) => next ← bp_at (blueprints_ parent) i h; Ok (found_bps ++ [next])
           | None => Throw (UB "back of an empty vector")
           end);
      get_found_bp h registered bp_i' (Datatypes.S index)
        (default [] (blueprints_ ∘ snd <$> last found_bps)) found_bps
  end.
(** The loop from the last one found down to the second. *)
Definition find_catchall (found_bps : list (nat * Blueprint)) : option (request → R (S := S) (C := C) unit) :=
  head (omap (λ x, bp_catchall (snd x)) (rev (tail found_bps))).
(** [get_error] and [handle_initial] with blueprints. *)
Definition bp_get_error (h : heap) (registered : list nat) (rt : Router S C) (code : Z) (indices : list Z)
    (req : request) : R (S := S) (C := C) unit :=
  _ ← modify_res (set_code code);
  found_bps ← lift (get_found_bp h registered indices 0 registered []);
  match find_catchall found_bps with
  | Some f => catch_all (f req) default_exception_handler
  | None =>
      match catchall_rule_ rt with
      | Some f => catch_all (f req) default_exception_handler
      | None => mret tt
      end
  end.
Definition bp_handle_initial (h : heap) (registered : list nat) (rt : Router S C) (req : request)
  : R (S := S) (C := C) routing_handle_result :=
  if decide (req_method req = Head ∨ req_method req = Options) then handle_initial rt req
  else
    let f := find_method rt (req_method req) (req_url req) in
    if rule_index_ f =? 0 then
      _ ← bp_get_error h registered rt (if found_in_any rt (req_url req) then 405 else 404) (blueprint_indices f) req;
      _ ← end_ no_completions;
      mret (RoutingHandleResult f None)
    else mret (RoutingHandleResult f (Some (req_method req))).
End Blueprints.
