(* ===== verification/BlueprintSpec.v ===== *)
(** * Blueprints: the routes of a forest

    The blueprints of a program as a forest, that registering rules and blueprints in any order
    builds it, and that the router of a forest finds what a router with all its rules, under their
    full paths and with the middlewares around them, would find. *)

From S2P Require Import Prelude Doubles Text Utility Http Service Middleware Trie Router Blueprints.
Open Scope Z_scope.

(** ** Tries without the indices of blueprints *)

Fixpoint erase (n : Node) : Node :=
  match n with MkNode r _ k p c => MkNode r INVALID_BP_ID k p (erase <$> c) end.
Definition omap_ok {A B} (f : A → B) (m : option (result A)) : option (result B) :=
  match m with Some (Ok a) => Some (Ok (f a)) | Some (Throw e) => Some (Throw e) | None => None end.
Lemma omap_ok_obind {A B B'} (g : B → B') (m : option (result A)) f :
  omap_ok g (obind m f) = obind m (λ a, omap_ok g (f a)).
Proof. by destruct m as [[]|]. Qed.
Lemma obind_omap_ok {A A' B} (g : A → A') (m : option (result A)) (f : A' → option (result B)) :
  obind (omap_ok g m) f = obind m (λ a, f (g a)).
Proof. by destruct m as [[]|]. Qed.
Lemma obind_ext {A B} (m : option (result A)) (f g : A → option (result B)) :
  (∀ a, m = Some (Ok a) → f a = g a) → obind m f = obind m g.
Proof. destruct m as [[a|]|]; cbn; auto. Qed.
Lemma obind_assoc {A B D} (m : option (result A)) (f : A → option (result B)) (g : B → option (result D)) :
  obind (obind m f) g = obind m (λ a, obind (f a) g).
Proof. by destruct m as [[]|]. Qed.

Lemma erase_key n : key (erase n) = key n.
Proof. by destruct n. Qed.
Lemma erase_param n : param (erase n) = param n.
Proof. by destruct n. Qed.
Lemma erase_children n : children (erase n) = erase <$> children n.
Proof. by destruct n. Qed.
Lemma erase_set_children c n : erase (Trie.set_children c n) = Trie.set_children (erase <$> c) (erase n).
Proof. by destruct n. Qed.
Lemma list_find_erase (P : Node → bool) l : (∀ c, P (erase c) = P c) →
  list_find (λ c, P c = true) (erase <$> l) = prod_map id erase <$> list_find (λ c, P c = true) l.
Proof.
  intros HP. rewrite list_find_fmap. unfold compose.
  assert (list_find (λ c, P (erase c) = true) l = list_find (λ c, P c = true) l) as ->; [|done].
  apply list_find_ext. intros c. by rewrite HP.
Qed.
Lemma descend_erase (P : Node → bool) fresh f f' idx : (∀ c, P (erase c) = P c) →
  (∀ c, omap_ok erase (f c) = f' (erase c)) →
  omap_ok erase (descend P fresh f idx) = descend P (erase fresh) f' (erase idx).
Proof.
  intros HP Hf. unfold descend. rewrite erase_children, list_find_erase by done.
  destruct (list_find _ _) as [[n c]|]; cbn [fmap option_fmap option_map prod_map fst snd id].
  - rewrite <- Hf. destruct (f c) as [[c'|]|]; [|done..]. cbn [mbind option_bind result_bind omap_ok]. rewrite erase_set_children.
    by rewrite list_fmap_insert.
  - rewrite <- Hf. destruct (f fresh) as [[c'|]|]; [|done..]. cbn [mbind option_bind result_bind omap_ok]. by rewrite erase_set_children, fmap_app.
Qed.
Lemma add_loop_erase fuel : ∀ whole url i r len bpi idx,
  omap_ok erase (add_loop fuel whole url i r len bpi idx) = add_loop fuel whole url i r 0 INVALID_BP_ID (erase idx).
Proof.
  induction fuel as [|fuel IH]; intros whole url i r len bpi idx; [done|]. cbn [add_loop].
  destruct url as [|c url].
  { destruct idx as [r' b k p ch]. cbn. by destruct (r' =? 0). }
  case_decide.
  - destruct (find_trait _ _) as [[t rest]|]; [|apply IH].
    rewrite (descend_erase _ _ _ (add_loop fuel whole rest (i + slen (String c url) - slen rest) r 0 INVALID_BP_ID)).
    + done.
    + intros d. by rewrite erase_param.
    + intros d. apply IH.
  - rewrite (descend_erase _ _ _ (add_loop fuel whole url (i + 1) r 0 INVALID_BP_ID)).
    + done.
    + intros d. unfold key_starts_with. by rewrite erase_key.
    + intros d. apply IH.
Qed.
Lemma add_erase url r len bpi h : omap_ok erase (add url r len bpi h) = add url r 0 INVALID_BP_ID (erase h).
Proof. apply add_loop_erase. Qed.

Lemma matches_erase n : ∀ s p, matches (erase n) s p = matches n s p.
Proof.
  induction n as [r b k t c IH] using Node_ind'. intros s p. cbn [erase matches].
  destruct s as [|x s]; [done|]. induction IH as [|d c Hd _ IHc]; [done|].
  rewrite fmap_cons. cbn [flat_map]. rewrite IHc. f_equal.
  rewrite (child_step_eq (erase d) d) by by rewrite ?erase_param, ?erase_key.
  destruct (child_step d _ p) as [[rest p']|]; [|done]. apply Hd.
Qed.
Lemma unoptimized_erase n : unoptimized n → unoptimized (erase n).
Proof.
  induction n as [r b k t c IH] using Node_ind'. intros Hu.
  apply unoptimized_children in Hu. apply unoptimized_children. cbn [erase children] in *.
  induction IH as [|d c Hd _ IHc]; [constructor|].
  apply list.Forall_cons in Hu as [[He Hu] Hc]. rewrite fmap_cons. constructor; [|by apply IHc].
  split; [|by apply Hd]. unfold edge_ok in *. by rewrite erase_param, erase_key.
Qed.
(** Nodes that differ in their blueprints only. *)
Lemma find_erase n url : has_keys n → has_keys (erase n) →
  rule_index_ (trie_find (optimize n) url) = rule_index_ (trie_find (optimize (erase n)) url) ∧
  (rule_index_ (trie_find (optimize n) url) ≠ 0 →
   r_params (trie_find (optimize n) url) = r_params (trie_find (optimize (erase n)) url)).
Proof.
  intros H1 H2. destruct (find_returns (optimize n) url no_params []) as (_ & Hf & Hp).
  destruct (find_returns (optimize (erase n)) url no_params []) as (_ & Hf' & Hp').
  unfold trie_find. rewrite optimize_matches in Hf, Hp by done.
  rewrite optimize_matches, matches_erase in Hf', Hp' by done.
  split; [congruence|]. intros Hr. rewrite Hp, Hp'; congruence.
Qed.
Lemma IsSimpleNode_erase n : blueprint_index n = INVALID_BP_ID → IsSimpleNode (erase n) = IsSimpleNode n.
Proof.
  destruct n as [r b k t c]. cbn. intros ->. unfold IsSimpleNode. cbn. rewrite length_fmap. f_equal.
  induction c as [|d c IH]; [done|]. cbn. by rewrite erase_param, IH.
Qed.
Lemma descend_head P fresh f idx idx' : descend P fresh f idx = Some (Ok idx') →
  blueprint_index idx' = blueprint_index idx.
Proof.
  unfold descend. destruct (list_find _ _) as [[n c]|].
  - destruct (f c) as [[]|]; cbn; [|done..]. by intros [= <-].
  - destruct (f fresh) as [[]|]; cbn; [|done..]. by intros [= <-].
Qed.
Lemma add_loop_head fuel : ∀ whole url i r len bpi h h', add_loop fuel whole url i r len bpi h = Some (Ok h') →
  blueprint_index h' = blueprint_index h.
Proof.
  induction fuel as [|fuel IH]; intros whole url i r len bpi h h'; [done|]. cbn [add_loop].
  destruct url as [|c url]; [destruct (negb _); [done|]; by intros [= <-]|].
  destruct (decide _); [|apply descend_head].
  destruct (find_trait _ _) as [[t rest]|]; [apply descend_head|apply IH].
Qed.
Lemma has_keys_erase n : has_keys (erase n) ↔ has_keys n.
Proof.
  induction n as [r b k t c IH] using Node_ind'. rewrite !has_keys_children. cbn [erase children].
  induction IH as [|d c Hd _ IHc]; [done|]. rewrite fmap_cons, !list.Forall_cons, IHc, Hd.
  by rewrite erase_param, erase_key.
Qed.

(** ** Registration with and without blueprints *)

Section Registration.
Context {S C : Type}.
Implicit Types pm : PerMethod S C.
Implicit Types r : BaseRule S C.
Implicit Types h : heap (S := S) (C := C).

Definition erase_pm pm : PerMethod S C := MkPerMethod (rules pm) (erase (trie pm)).
Definition head_plain pm : Prop := blueprint_index (trie pm) = INVALID_BP_ID.
Lemma add_to_method_erase len index rule r pm :
  omap_ok erase_pm (add_to_method_at len index rule r pm) = add_to_method rule r (erase_pm pm).
Proof.
  unfold add_to_method_at, add_to_method. rewrite omap_ok_obind. cbn [erase_pm rules trie].
  rewrite <- (add_erase _ _ len index), obind_omap_ok. apply obind_ext. intros t _.
  destruct (rule_without_trailing_slash rule) as [short|]; [|done].
  rewrite omap_ok_obind, <- (add_erase _ _ len index), obind_omap_ok. by apply obind_ext.
Qed.
Lemma add_to_method_head len index rule r pm pm' : head_plain pm →
  add_to_method_at len index rule r pm = Some (Ok pm') → head_plain pm'.
Proof.
  unfold add_to_method_at, head_plain. intros Hp (t & Ht & H)%obind_Some.
  apply add_loop_head in Ht. destruct (rule_without_trailing_slash rule) as [short|].
  - apply obind_Some in H as (t' & Ht' & [= <-]). apply add_loop_head in Ht'. cbn. congruence.
  - injection H as <-. cbn. congruence.
Qed.
Lemma foreach_omap {X Y} (g : X → Y) f f' set todo : ∀ method bit x,
  (∀ m x, omap_ok g (f m x) = f' m (g x)) →
  omap_ok g (foreach_method_from todo method bit set f x) = foreach_method_from todo method bit set f' (g x).
Proof.
  induction todo as [|todo IH]; intros method bit x Hf; [done|]. cbn [foreach_method_from].
  rewrite omap_ok_obind. destruct (negb _).
  - rewrite <- Hf, obind_omap_ok. apply obind_ext. intros y _. by apply IH.
  - by apply IH.
Qed.
Lemma foreach_keeps {X} (P : X → Prop) f set todo : ∀ method bit x x',
  (∀ m x x', P x → f m x = Some (Ok x') → P x') → P x →
  foreach_method_from todo method bit set f x = Some (Ok x') → P x'.
Proof.
  induction todo as [|todo IH]; intros method bit x x' Hf Hx; [by intros [= <-]|]. cbn [foreach_method_from].
  intros (y & Hy & H)%obind_Some. eapply IH; [exact Hf| |exact H]. destruct (negb _); [by eapply Hf|congruence].
Qed.

(** The place of a blueprint of the list. *)
Definition bp_index_ok (i : Z) (blueprints : list nat) h : Prop :=
  i = INVALID_BP_ID ∨ is_Some (b ← blueprints !! Z.to_nat i; h !! b).
Lemma add_rule_object_erase rule r i blueprints h pms : bp_index_ok i blueprints h →
  omap_ok (fmap erase_pm) (add_rule_object_at rule r i blueprints h pms)
  = internal_add_rule_object rule r (erase_pm <$> pms).
Proof.
  intros Hi. unfold add_rule_object_at, internal_add_rule_object, foreach_method. apply foreach_omap.
  intros m pms1. rewrite list_lookup_fmap. destruct (pms1 !! m) as [pm|]; [|done]. cbn [fmap option_fmap option_map].
  assert (∃ len, (if decide (i = INVALID_BP_ID) then Some (Ok 0)
     else match b ← blueprints !! Z.to_nat i; h !! b with
          | Some bp => Some (Ok (uwrap 32 (slen (prefix_ bp))))
          | None => Some (Throw (UB "blueprints out of range"))
          end) = Some (Ok len)) as [len ->].
  { case_decide; [by eexists|]. destruct Hi as [|[bp ->]]; [done|by eexists]. }
  cbn [obind]. rewrite omap_ok_obind, <- (add_to_method_erase len i), obind_omap_ok.
  apply obind_ext. intros pm' _. cbn [omap_ok]. by rewrite list_fmap_insert.
Qed.
Lemma add_rule_object_head rule r i blueprints h pms pms' : List.Forall head_plain pms →
  add_rule_object_at rule r i blueprints h pms = Some (Ok pms') → List.Forall head_plain pms'.
Proof.
  intros Hp. apply foreach_keeps; [|done]. clear pms pms' Hp. intros m pms pms' Hp.
  destruct (pms !! m) as [pm|] eqn:Hpm; [|done].
  intros (len & _ & (pm' & Ha & [= <-])%obind_Some)%obind_Some. apply list.Forall_insert; [done|].
  apply add_to_method_head in Ha; [done|]. rewrite list.Forall_lookup in Hp. by eapply Hp.
Qed.
Lemma internal_add_rule_object_at rule r (pms : list (PerMethod S C)) :
  internal_add_rule_object rule r pms = add_rule_object_at rule r INVALID_BP_ID [] [] pms.
Proof. done. Qed.

(** The tables that a list of rules leads to. *)
Definition registered (rs : list (BaseRule S C)) (pms : list (PerMethod S C)) : option (result (list (PerMethod S C))) :=
  omap_ok snd (validate_rules rs pms).
Lemma registered_cons r rs pms : added_ r = false → registered (r :: rs) pms =
  obind (Some (rule_validate r)) (λ _, obind (internal_add_rule_object (rule_ r) r pms) (registered rs)).
Proof.
  intros Ha. unfold registered. cbn [validate_rules]. rewrite Ha, omap_ok_obind. apply obind_ext. intros _ _.
  rewrite omap_ok_obind. apply obind_ext. intros pms' _. rewrite omap_ok_obind.
  by destruct (validate_rules rs pms') as [[]|].
Qed.
Lemma registered_app l1 l2 : ∀ pms, registered (l1 ++ l2) pms = obind (registered l1 pms) (registered l2).
Proof.
  induction l1 as [|r l1 IH]; intros pms; [done|]. cbn [app]. destruct (added_ r) eqn:Ha.
  - specialize (IH pms). unfold registered in *. cbn [validate_rules]. rewrite Ha, !omap_ok_obind, obind_assoc.
    rewrite obind_omap_ok in IH. 
    destruct (validate_rules (l1 ++ l2) pms) as [[]|], (validate_rules l1 pms) as [[]|]; cbn in *; done.
  - rewrite !registered_cons by done. rewrite obind_assoc. apply obind_ext. intros _ _.
    rewrite obind_assoc. apply obind_ext. intros pms' _. apply IH.
Qed.
Lemma registered_erase rs : ∀ pms, omap_ok (fmap erase_pm) (registered rs pms) = registered rs (erase_pm <$> pms).
Proof.
  induction rs as [|r rs IH]; intros pms; [done|]. destruct (added_ r) eqn:Ha.
  - specialize (IH pms). unfold registered in *. cbn [validate_rules]. rewrite Ha, !omap_ok_obind.
    destruct (validate_rules rs pms) as [[]|], (validate_rules rs (erase_pm <$> pms)) as [[]|]; cbn in *; congruence.
  - rewrite !registered_cons by done. rewrite omap_ok_obind. apply obind_ext. intros _ _.
    rewrite omap_ok_obind, internal_add_rule_object_at.
    rewrite <- (add_rule_object_erase _ _ INVALID_BP_ID [] []) by by left.
    rewrite obind_omap_ok. apply obind_ext. intros pms' _. apply IH.
Qed.
Lemma registered_head rs : ∀ pms pms', List.Forall head_plain pms → registered rs pms = Some (Ok pms') →
  List.Forall head_plain pms'.
Proof.
  induction rs as [|r rs IH]; intros pms pms' Hp; [by intros [= <-]|]. destruct (added_ r) eqn:Ha.
  - intros H. apply (IH pms); [done|]. unfold registered in *. cbn [validate_rules] in H. rewrite Ha in H.
    by destruct (validate_rules rs pms) as [[]|].
  - rewrite registered_cons by done. intros (_ & _ & (pms1 & H1 & H)%obind_Some)%obind_Some.
    eapply IH; [|exact H]. eapply add_rule_object_head; [exact Hp|by rewrite <- internal_add_rule_object_at].
Qed.
End Registration.

(** ** Forests *)

Section Forests.
Context {S C : Type}.
Implicit Types r : BaseRule S C.
Implicit Types h : heap (S := S) (C := C).

(** What the program said of a blueprint, its rules with the paths they were given. *)
Record info : Type := Info {
  i_prefix : string;
  i_static : string;
  i_templates : string;
  i_rules : list (BaseRule S C);
  i_mws : list nat;
}.
(** A blueprint at its place in the heap, the blueprints registered in it, and its siblings. *)
Inductive forest : Type :=
| Leaf
| Bp (b : nat) (i : info) (inner rest : forest).
Fixpoint roots (F : forest) : list nat :=
  match F with Leaf => [] | Bp b _ _ rest => b :: roots rest end.
Fixpoint ids (F : forest) : list nat :=
  match F with Leaf => [] | Bp b _ inner rest => b :: ids inner ++ ids rest end.
Fixpoint depth (F : forest) : nat :=
  match F with Leaf => 0 | Bp _ _ inner rest => Nat.max (Datatypes.S (depth inner)) (depth rest) end.

(** The cells of a forest whose outer blueprints are called [p], [s] and [t]. *)
Definition holds (p s t : string) (i : info) (children : list nat) (bp : Blueprint (S := S) (C := C)) : Prop :=
  prefix_ bp = p +:+ i_prefix i ∧ static_dir_ bp = s +:+ i_static i ∧ templates_dir_ bp = t +:+ i_templates i ∧
  snd <$> bp_rules bp = (λ r, rename ("/" +:+ p +:+ i_prefix i +:+ rule_ r) r) <$> i_rules i ∧
  blueprints_ bp = children ∧ bp_mw_indices bp = i_mws i ∧ bp_added bp = false.
Fixpoint rep h (p s t : string) (F : forest) : Prop :=
  match F with
  | Leaf => True
  | Bp b i inner rest =>
      (∃ bp, h !! b = Some bp ∧ holds p s t i (roots inner) bp) ∧
      rep h (p +:+ i_prefix i +:+ "/") (s +:+ i_static i +:+ "/") (t +:+ i_templates i +:+ "/") inner ∧
      rep h p s t rest
  end.
(** Its rules with the whole of their paths, and the middlewares of the blueprints they are in. *)
Fixpoint routes (p : string) (mws : list nat) (F : forest) : list (BaseRule S C) :=
  match F with
  | Leaf => []
  | Bp b i inner rest =>
      ((λ r, set_mw_indices (mws ++ i_mws i ++ mw_indices_ r) (rename ("/" +:+ p +:+ i_prefix i +:+ rule_ r) r))
         <$> i_rules i)
      ++ routes (p +:+ i_prefix i +:+ "/") (mws ++ i_mws i) inner ++ routes p mws rest
  end.
Fixpoint fresh_rules (F : forest) : Prop :=
  match F with
  | Leaf => True
  | Bp b i inner rest => List.Forall (λ r, added_ r = false) (i_rules i) ∧ fresh_rules inner ∧ fresh_rules rest
  end.

Lemma rep_frame h h' F : ∀ p s t, (∀ b, b ∈ ids F → h' !! b = h !! b) → rep h p s t F → rep h' p s t F.
Proof.
  induction F as [|b i inner IHi rest IHr]; intros p s t Hf; [done|]. intros ((bp & Hb & Hh) & Hi & Hr). split_and!.
  - exists bp. by rewrite Hf by set_solver.
  - apply IHi; [|done]. intros b' Hb'. apply Hf. set_solver.
  - apply IHr; [|done]. intros b' Hb'. apply Hf. set_solver.
Qed.
Lemma rep_cells h F : ∀ p s t b, rep h p s t F → b ∈ ids F → is_Some (h !! b).
Proof.
  induction F as [|b i inner IHi rest IHr]; intros p s t b'; [set_solver|]. intros ((bp & Hb & _) & Hi & Hr).
  intros [->|[?|?]%elem_of_app]%elem_of_cons; [by eexists|by eapply IHi|by eapply IHr].
Qed.
Lemma roots_ids F b : b ∈ roots F → b ∈ ids F.
Proof. induction F as [|b' i inner IHi rest IHr]; [done|]. cbn. set_solver. Qed.

(** ** What [validate_bp] registers *)

(** [validate_bp] from [h] and [pms], compared with the registration of [rs]. *)
Definition registers (F : forest) (rs : list (BaseRule S C)) h pms mws
    (m : option (result (validating (S := S) (C := C)))) : Prop :=
  match m with
  | Some (Ok (h', pms', mws')) =>
      registered rs (erase_pm <$> pms) = Some (Ok (erase_pm <$> pms')) ∧ mws' = mws ∧
      (∀ b, b ∉ ids F → h' !! b = h !! b) ∧ (∀ b, is_Some (h !! b) → is_Some (h' !! b)) ∧
      (List.Forall head_plain pms → List.Forall head_plain pms')
  | Some (Throw e) => registered rs (erase_pm <$> pms) = Some (Throw e)
  | None => registered rs (erase_pm <$> pms) = None
  end.
Lemma add_bp_rules_registered i blueprints h mws rs : ∀ pms, bp_index_ok i blueprints h →
  List.Forall (λ r, added_ r = false) (snd <$> rs) →
  omap_ok (fmap erase_pm ∘ snd) (add_bp_rules i blueprints h mws rs pms)
  = registered ((λ r, set_mw_indices (merge_front (mw_indices_ r) mws) r) <$> (snd <$> rs)) (erase_pm <$> pms).
Proof.
  induction rs as [|[base r] rs IH]; intros pms Hi Hr; [done|].
  apply list.Forall_cons in Hr as [Hr Hrs]. cbn [snd] in *.
  rewrite !fmap_cons, registered_cons by done. cbn [add_bp_rules]. rewrite Hr, omap_ok_obind.
  apply obind_ext. intros _ _. cbv zeta. rewrite omap_ok_obind, <- (add_rule_object_erase _ _ i blueprints h), obind_omap_ok by done.
  apply obind_ext. intros pms' _. rewrite omap_ok_obind, <- (IH pms') by done.
  by destruct (add_bp_rules i blueprints h mws rs pms') as [[]|].
Qed.
Lemma add_bp_rules_head i blueprints h mws rs : ∀ pms x, List.Forall head_plain pms →
  add_bp_rules i blueprints h mws rs pms = Some (Ok x) → List.Forall head_plain (snd x).
Proof.
  induction rs as [|[base r] rs IH]; intros pms x Hp; [by intros [= <-]|]. cbn [add_bp_rules]. destruct (added_ r).
  - intros (y & Hy & [= <-])%obind_Some. exact (IH pms y Hp Hy).
  - intros (_ & _ & (pms1 & H1 & (y & Hy & [= <-])%obind_Some)%obind_Some)%obind_Some.
    refine (IH pms1 y _ Hy). by eapply add_rule_object_head.
Qed.
Lemma bp_index_of h blueprints i : (∀ b, b ∈ blueprints → is_Some (h !! b)) → (i < length blueprints)%nat →
  bp_index_ok (uwrap 16 (Z.of_nat i)) blueprints h.
Proof.
  intros Hc Hi. right. unfold uwrap.
  pose proof (Z.mod_le (Z.of_nat i) (2 ^ 16) ltac:(lia) ltac:(lia)).
  pose proof (Z.mod_pos_bound (Z.of_nat i) (2 ^ 16) ltac:(lia)).
  destruct (lookup_lt_is_Some_2 blueprints (Z.to_nat (Z.of_nat i mod 2 ^ 16))) as [b Hb]; [lia|].
  rewrite Hb. cbn. apply Hc. by eapply list_elem_of_lookup_2.
Qed.

(** No blueprint has an empty static directory.  Inside another one it cannot have: the
    directories around it are put before its own with a slash.  Of the outer ones
    [add_blueprint] says in its log that they are ignored (app.h), but [validate_bp] is run
    on them all the same; nothing is claimed of them here. *)
Fixpoint visible (s : string) (F : forest) : Prop :=
  match F with
  | Leaf => True
  | Bp _ i _ rest => s +:+ i_static i ≠ "" ∧ visible s rest
  end.
Lemma visible_inner x F : visible (x +:+ "/") F.
Proof. induction F as [|b i inner _ rest IH]; [done|]. split; [by destruct x|done]. Qed.
Lemma holds_visible p s t i l bp : holds p s t i l bp → s +:+ i_static i ≠ "" → is_empty_bp bp = false.
Proof.
  intros (_ & Hs & _) Hv. unfold is_empty_bp. rewrite Hs. by rewrite bool_decide_false.
Qed.
Lemma holds_rules p s t i l bp mws : holds p s t i l bp →
  (λ r, set_mw_indices (merge_front (mw_indices_ r) (merge_back mws (bp_mw_indices bp))) r) <$> (snd <$> bp_rules bp)
  = (λ r, set_mw_indices (mws ++ i_mws i ++ mw_indices_ r) (rename ("/" +:+ p +:+ i_prefix i +:+ rule_ r) r)) <$> i_rules i.
Proof.
  intros (_ & _ & _ & -> & _ & -> & _). rewrite <- list_fmap_compose. apply list_fmap_ext. intros k r _.
  unfold compose, merge_front, merge_back. by rewrite <- app_assoc.
Qed.
Lemma validate_forest F : ∀ f all i p s t mws h pms,
  (depth F ≤ f)%nat → NoDup (ids F) → rep h p s t F → fresh_rules F → visible s F →
  (∀ b, b ∈ all → is_Some (h !! b)) → (i + length (roots F) ≤ length all)%nat →
  registers F (routes p mws F) h pms mws
    (validate_each (validate_one (Datatypes.S f) (validate_bp f) all) i (roots F) (h, pms, mws)).
Proof.
  induction F as [|b nfo inner IHi rest IHr]; intros f all i p s t mws h pms Hf Hn Hrep Hfr Hv Hall Hi; [done|].
  destruct Hrep as ((bp & Hb & Hh) & Hri & Hrr). destruct Hfr as (Hfr & Hfi & Hfrr). destruct Hv as [Hv Hvr].
  cbn [ids] in Hn. apply list.NoDup_cons in Hn as [Hnb Hn]. apply list.NoDup_app in Hn as (Hni & Hnd & Hnr).
  cbn [depth roots length] in Hf, Hi.
  destruct f as [|f]; [lia|]. cbn [roots validate_each routes]. unfold validate_one at 1. rewrite Hb.
  pose proof Hh as (_ & _ & _ & Hrules & Hch & Hmw & Had). rewrite Had, (holds_visible _ _ _ _ _ _ Hh Hv). cbn [obind].
  pose proof (add_bp_rules_registered (uwrap 16 (Z.of_nat i)) all h (merge_back mws (bp_mw_indices bp)) (bp_rules bp) pms)
    as Hadd.
  rewrite (holds_rules _ _ _ _ _ _ mws Hh) in Hadd. set (own := _ <$> i_rules nfo) in Hadd |- *.
  specialize (Hadd ltac:(apply bp_index_of; [done|lia])).
  assert (List.Forall (λ r : BaseRule S C, added_ r = false) (snd <$> bp_rules bp)) as Hf0.
  { rewrite Hrules. apply list.Forall_fmap. by eapply list.Forall_impl; [exact Hfr|]. }
  specialize (Hadd Hf0).
  assert (∀ rs, registered (own ++ rs) (erase_pm <$> pms) = obind (registered own (erase_pm <$> pms)) (registered rs)) as Happ
    by (intros; apply registered_app).
  pose proof (add_bp_rules_head (uwrap 16 (Z.of_nat i)) all h (merge_back mws (bp_mw_indices bp)) (bp_rules bp) pms) as Hh1.
  destruct (add_bp_rules _ all _ _ _ _) as [[x|e]|]; cbn [omap_ok obind compose] in *;
    unfold registers; [|by rewrite Happ, <- Hadd..].
  set (h1 := <[b := _]> h). assert (∀ b', b' ≠ b → h1 !! b' = h !! b') as Hfr1 by (intros; by apply list_lookup_insert_ne).
  assert (∀ b', is_Some (h !! b') → is_Some (h1 !! b')) as Hs1.
  { intros b' Hb'. apply lookup_lt_is_Some_1 in Hb'. apply lookup_lt_is_Some_2. unfold h1, heap. by rewrite length_insert. }
  assert (rep h1 (p +:+ i_prefix nfo +:+ "/") (s +:+ i_static nfo +:+ "/") (t +:+ i_templates nfo +:+ "/") inner) as Hri1.
  { eapply rep_frame; [|exact Hri]. intros b' Hb'. apply Hfr1. set_solver. }
  specialize (IHi f (roots inner) 0%nat _ _ _ (merge_back mws (bp_mw_indices bp)) h1 (snd x) ltac:(lia) Hni Hri1 Hfi
    ltac:(rewrite <- string_app_assoc; apply visible_inner)
    ltac:(intros b' Hb'; eapply rep_cells; [exact Hri1|by apply roots_ids]) ltac:(lia)).
  rewrite Hch. cbn [validate_bp]. unfold registers in IHi.
  unfold merge_back in *. rewrite Hmw in *.
  destruct (validate_each _ 0 (roots inner) _) as [[[[h2 pms2] mws2]|e]|]; cbn [obind];
    [|by rewrite Happ, <- Hadd; cbn [obind]; rewrite registered_app, IHi..].
  destruct IHi as (Hreg2 & -> & Hfr2 & Hs2 & Hh2).
  assert (pop_back (mws ++ i_mws nfo) (i_mws nfo) = mws) as ->.
  { unfold pop_back. rewrite length_app, Nat.add_sub. by rewrite take_app_length. }
  set (h3 := alter bp_set_added b h2).
  assert (∀ b', b' ∉ b :: ids inner → h3 !! b' = h !! b') as Hfr3.
  { intros b' Hb'. unfold h3, heap. rewrite list_lookup_alter_ne by set_solver. rewrite Hfr2, Hfr1 by set_solver. done. }
  assert (∀ b', is_Some (h !! b') → is_Some (h3 !! b')) as Hs3.
  { intros b' Hb'. apply Hs1, Hs2, lookup_lt_is_Some_1 in Hb'. apply lookup_lt_is_Some_2. unfold h3, heap. by rewrite length_alter. }
  specialize (IHr (Datatypes.S f) all (Datatypes.S i) p s t mws h3 pms2 ltac:(lia) Hnr
    ltac:(eapply rep_frame; [|exact Hrr]; intros b' Hb'; apply Hfr3; set_solver) Hfrr Hvr
    ltac:(intros b' Hb'; by apply Hs3, Hall) ltac:(lia)).
  rewrite Happ, <- Hadd. cbn [obind]. rewrite registered_app, Hreg2. cbn [obind].
  unfold registers in IHr.
  destruct (validate_each _ (Datatypes.S i) (roots rest) _) as [[[[h4 pms4] mws4]|e]|]; [|done..].
  destruct IHr as (Hreg4 & -> & Hfr4 & Hs4 & Hh4). split_and!; [done|done| | |].
  - intros b' Hb'. rewrite Hfr4, Hfr3 by set_solver. done.
  - intros b' Hb'. by apply Hs4, Hs3.
  - intros Hp. apply Hh4, Hh2, Hh1; done.
Qed.

(** ** Building a forest *)

Fixpoint append (F T : forest) : forest :=
  match F with Leaf => T | Bp b i inner rest => Bp b i inner (append rest T) end.
Fixpoint update (b : nat) (f : info → info) (F : forest) : forest :=
  match F with
  | Leaf => Leaf
  | Bp b' i inner rest => Bp b' (if decide (b = b') then f i else i) (update b f inner) (update b f rest)
  end.
Fixpoint graft (q : nat) (T F : forest) : forest :=
  match F with
  | Leaf => Leaf
  | Bp b i inner rest => Bp b i (if decide (q = b) then append inner T else graft q T inner) (graft q T rest)
  end.
(** The outer blueprint [b] and the rest of the forest. *)
Fixpoint take_root (b : nat) (F : forest) : option (info * forest * forest) :=
  match F with
  | Leaf => None
  | Bp b' i inner rest =>
      if decide (b = b') then Some (i, inner, rest)
      else '(i', inner', rest') ← take_root b rest; Some (i', inner', Bp b' i inner rest')
  end.
Lemma roots_append F T : roots (append F T) = roots F ++ roots T.
Proof. induction F as [|b i inner _ rest IH]; [done|]. cbn. by rewrite IH. Qed.
Lemma ids_append F T : ids (append F T) = ids F ++ ids T.
Proof. induction F as [|b i inner _ rest IH]; [done|]. cbn. by rewrite IH, <- app_assoc. Qed.
Lemma rep_append h F T : ∀ p s t, rep h p s t (append F T) ↔ rep h p s t F ∧ rep h p s t T.
Proof.
  induction F as [|b i inner _ rest IH]; intros p s t; [by split; [|intros [_ ?]]|]. cbn [append rep].
  rewrite IH. by rewrite !(assoc and).
Qed.
Lemma roots_update b f F : roots (update b f F) = roots F.
Proof. induction F as [|b' i inner _ rest IH]; [done|]. cbn. by rewrite IH. Qed.
Lemma ids_update b f F : ids (update b f F) = ids F.
Proof. induction F as [|b' i inner IHi rest IH]; [done|]. cbn. by rewrite IH, IHi. Qed.
Lemma roots_graft q T F : roots (graft q T F) = roots F.
Proof. induction F as [|b i inner _ rest IH]; [done|]. cbn. by rewrite IH. Qed.
Lemma graft_out q T F : q ∉ ids F → graft q T F = F.
Proof.
  induction F as [|b i inner IHi rest IH]; [done|]. cbn. intros Hq.
  rewrite decide_False by set_solver. by rewrite IHi, IH by set_solver.
Qed.
Lemma ids_graft q T F : NoDup (ids F) → q ∈ ids F → ids (graft q T F) ≡ₚ ids T ++ ids F.
Proof.
  induction F as [|b i inner IHi rest IHr]; [set_solver|]. cbn [ids graft].
  intros (Hb & (Hni & Hd & Hnr)%list.NoDup_app)%list.NoDup_cons Hq. case_decide as Hqb; cbn [ids].
  - subst q. rewrite graft_out, ids_append by set_solver. solve_Permutation.
  - destruct (decide (q ∈ ids inner)) as [Hi|Hi].
    + rewrite (graft_out _ _ rest), IHi by (done || by apply Hd). solve_Permutation.
    + rewrite (graft_out _ _ inner), IHr by (done || set_solver). solve_Permutation.
Qed.
Lemma take_root_ids b F i inner rest : take_root b F = Some (i, inner, rest) → ids F ≡ₚ b :: ids inner ++ ids rest.
Proof.
  revert i inner rest. induction F as [|b' i' inner' _ rest' IH]; intros i inner rest; [done|]. cbn. case_decide as Hb.
  - intros [= -> -> ->]. by subst.
  - destruct (take_root b rest') as [[[i1 inner1] rest1]|]; [|done]. intros [= <- <- <-].
    rewrite (IH _ _ _ eq_refl). cbn. solve_Permutation.
Qed.
Lemma take_root_rep h b F i inner rest p s t : take_root b F = Some (i, inner, rest) → rep h p s t F →
  rep h p s t (Bp b i inner Leaf) ∧ rep h p s t rest.
Proof.
  revert i inner rest. induction F as [|b' i' inner' _ rest' IH]; intros i inner rest; [done|]. cbn [take_root]. case_decide as Hb.
  - intros [= -> -> ->]. subst b'. by intros (Hc & Hi & Hr).
  - destruct (take_root b rest') as [[[i1 inner1] rest1]|]; [|done]. intros [= <- <- <-] (Hc & Hi & Hr).
    destruct (IH _ _ _ eq_refl Hr) as [H1 H2]. by split.
Qed.
Lemma rep_children h F q bp : ∀ p s t, rep h p s t F → q ∈ ids F → h !! q = Some bp →
  ∀ b, b ∈ blueprints_ bp → b ∈ ids F.
Proof.
  induction F as [|b i inner IHi rest IHr]; intros p s t; [set_solver|].
  intros ((bp' & Hb & Hh) & Hi & Hr) Hq Hbp b' Hb'. cbn in Hq |- *.
  apply elem_of_cons in Hq as [->|[Hq|Hq]%elem_of_app].
  - assert (bp' = bp) as -> by congruence. destruct Hh as (_ & _ & _ & _ & Hc & _). rewrite Hc in Hb'.
    apply roots_ids in Hb'. set_solver.
  - specialize (IHi _ _ _ Hi Hq Hbp _ Hb'). set_solver.
  - specialize (IHr _ _ _ Hr Hq Hbp _ Hb'). set_solver.
Qed.

(** A forest that was held as those of [p], [s] and [t] is held as those of [par]. *)
Lemma holds_under par p s t i l bp : holds p s t i l bp →
  holds (prefix_ par +:+ "/" +:+ p) (static_dir_ par +:+ "/" +:+ s) (templates_dir_ par +:+ "/" +:+ t) i l (under par bp).
Proof.
  intros (Hp & Hs & Ht & Hr & Hc & Hm & Ha). unfold holds, under. cbn. rewrite Hp, Hs, Ht, !string_app_assoc.
  split_and!; try done. rewrite <- list_fmap_compose.
  change (snd ∘ prod_map id ?f) with (f ∘ @snd string (BaseRule S C)).
  rewrite list_fmap_compose, Hr, <- list_fmap_compose. apply list_fmap_ext. intros k r _. unfold compose, rename. cbn.
  by rewrite !string_app_assoc.
Qed.
Lemma apply_forest q par F : ∀ fuel p s t h, (depth F ≤ fuel)%nat → NoDup (ids F) → q ∉ ids F →
  h !! q = Some par → rep h p s t F →
  ∃ h', each_bp (apply_blueprint fuel q) (roots F) h = Some (Ok h') ∧
    rep h' (prefix_ par +:+ "/" +:+ p) (static_dir_ par +:+ "/" +:+ s) (templates_dir_ par +:+ "/" +:+ t) F ∧
    (∀ b, b ∉ ids F → h' !! b = h !! b) ∧ length h' = length h.
Proof.
  induction F as [|b i inner IHi rest IHr]; intros fuel p s t h Hf Hn Hq Hpar Hrep; [by exists h|].
  destruct Hrep as ((bp & Hb & Hh) & Hri & Hrr). cbn [ids depth] in *.
  apply list.NoDup_cons in Hn as [Hnb (Hni & Hnd & Hnr)%list.NoDup_app].
  destruct fuel as [|fuel]; [lia|]. cbn [roots each_bp apply_blueprint]. rewrite Hpar, Hb.
  pose proof Hh as (_ & _ & _ & _ & Hch & _). rewrite Hch. set (h1 := <[b := under par bp]> h).
  assert (∀ b', b' ≠ b → h1 !! b' = h !! b') as Hf1 by (intros; by apply list_lookup_insert_ne).
  assert (h1 !! b = Some (under par bp)) as Hb1 by (apply list_lookup_insert_eq; by eapply lookup_lt_Some).
  destruct (IHi fuel (p +:+ i_prefix i +:+ "/") (s +:+ i_static i +:+ "/") (t +:+ i_templates i +:+ "/") h1)
    as (h2 & -> & Hr2 & Hf2 & Hl2); [lia|done|set_solver|rewrite Hf1 by set_solver; done| |].
  { eapply rep_frame; [|exact Hri]. intros b' Hb'. apply Hf1. set_solver. }
  assert (∀ b', b' ∉ b :: ids inner → h2 !! b' = h !! b') as Hf2'.
  { intros b' Hb'. rewrite Hf2, Hf1 by set_solver. done. }
  destruct (IHr (Datatypes.S fuel) p s t h2) as (h3 & H3 & Hr3 & Hf3 & Hl3);
    [lia|done|set_solver|rewrite Hf2' by set_solver; done| |].
  { eapply rep_frame; [|exact Hrr]. intros b' Hb'. apply Hf2'. set_solver. }
  exists h3. cbn [obind]. split_and!; [exact H3|cbn [rep]; split_and!; [| |exact Hr3]| |].
  - exists (under par bp). split; [rewrite Hf3, Hf2 by set_solver; exact Hb1|by apply holds_under].
  - assert (∀ x y z : string, (x +:+ "/" +:+ y) +:+ z +:+ "/" = x +:+ "/" +:+ (y +:+ z +:+ "/")) as E
      by (intros; by rewrite !string_app_assoc).
    rewrite !E. eapply rep_frame; [|exact Hr2]. intros b' Hb'. apply Hf3. set_solver.
  - intros b' Hb'. rewrite Hf3, Hf2' by set_solver. done.
  - rewrite Hl3, Hl2. unfold h1, heap. by rewrite length_insert.
Qed.
Lemma rep_graft h h' q par T F : ∀ p s t, NoDup (ids F) → q ∈ ids F → h !! q = Some par →
  (∀ b, b ∈ ids F → b ≠ q → h' !! b = h !! b) →
  h' !! q = Some (bp_set_children (blueprints_ par ++ roots T) par) →
  rep h' (prefix_ par +:+ "/") (static_dir_ par +:+ "/") (templates_dir_ par +:+ "/") T →
  rep h p s t F → rep h' p s t (graft q T F).
Proof.
  induction F as [|b i inner IHi rest IHr]; intros p s t Hn Hq Hpar Hf Hq' HT Hrep; [done|].
  destruct Hrep as ((bp & Hb & Hh) & Hri & Hrr). cbn [ids] in *.
  apply list.NoDup_cons in Hn as [Hnb (Hni & Hnd & Hnr)%list.NoDup_app]. cbn [graft rep].
  destruct (decide (q = b)) as [->|Hqb].
  - assert (bp = par) as -> by congruence. rewrite roots_append, (graft_out _ _ rest) by set_solver.
    pose proof Hh as (Hp & Hs & Ht & Hr & Hc & Hm & Ha). split_and!.
    + eexists. split; [exact Hq'|]. rewrite Hc. by split_and!.
    + apply rep_append. split; [eapply rep_frame; [|exact Hri]; intros b' Hb'; apply Hf; set_solver|].
      rewrite Hp, Hs, Ht, !string_app_assoc in HT. exact HT.
    + eapply rep_frame; [|exact Hrr]. intros b' Hb'. apply Hf; set_solver.
  - assert (h' !! b = Some bp) as Hb' by (rewrite Hf by set_solver; done).
    destruct (decide (q ∈ ids inner)) as [Hi|Hi].
    + assert (q ∉ ids rest) as Hnq by by apply Hnd. rewrite (graft_out _ _ rest) by done. split_and!.
      * exists bp. by rewrite roots_graft.
      * apply IHi; try done. intros b' ? ?. apply Hf; set_solver.
      * eapply rep_frame; [|exact Hrr]. intros b'' Hb''. apply Hf; set_solver.
    + rewrite (graft_out _ _ inner) by done. split_and!.
      * by exists bp.
      * eapply rep_frame; [|exact Hri]. intros b'' Hb''. apply Hf; set_solver.
      * apply IHr; try done; [set_solver|]. intros b' ? ?. apply Hf; set_solver.
Qed.
Lemma rep_update h b (f : info → info) (g : Blueprint (S := S) (C := C) → Blueprint) F : ∀ p s t, NoDup (ids F) →
  (∀ i p s t l bp, holds p s t i l bp → holds p s t (f i) l (g bp)) → (∀ i, i_prefix (f i) = i_prefix i) →
  (∀ i, i_static (f i) = i_static i) → (∀ i, i_templates (f i) = i_templates i) →
  rep h p s t F → rep (alter g b h) p s t (update b f F).
Proof.
  intros p s t Hn Hg Hp Hs Ht. revert p s t Hn.
  induction F as [|b' i inner IHi rest IHr]; intros p s t Hn Hrep; [done|].
  destruct Hrep as ((bp & Hb & Hh) & Hri & Hrr). cbn [ids] in *.
  apply list.NoDup_cons in Hn as [Hnb (Hni & Hnd & Hnr)%list.NoDup_app]. cbn [update rep].
  rewrite roots_update. specialize (IHi _ _ _ Hni Hri). specialize (IHr _ _ _ Hnr Hrr).
  destruct (decide (b = b')) as [->|Hd].
  - rewrite Hp, Hs, Ht. split_and!; [|done..]. exists (g bp). split; [|by apply Hg].
    unfold heap in *. by rewrite list_lookup_alter_eq, Hb.
  - split_and!; [|done..]. exists bp. split; [|done]. unfold heap in *. by rewrite list_lookup_alter_ne.
Qed.

Lemma fresh_append F T : fresh_rules (append F T) ↔ fresh_rules F ∧ fresh_rules T.
Proof.
  induction F as [|b i inner _ rest IH]; [by split; [|intros [_ ?]]|]. cbn [append fresh_rules].
  rewrite IH. by rewrite !(assoc and).
Qed.
Lemma fresh_graft q T F : fresh_rules T → fresh_rules F → fresh_rules (graft q T F).
Proof.
  intros HT. induction F as [|b i inner IHi rest IHr]; [done|]. cbn. intros (H1 & H2 & H3).
  split_and!; [done| |by apply IHr]. case_decide; [by apply fresh_append|by apply IHi].
Qed.
Lemma fresh_update b f F : (∀ i, List.Forall (λ r, added_ r = false) (i_rules i) →
  List.Forall (λ r, added_ r = false) (i_rules (f i))) → fresh_rules F → fresh_rules (update b f F).
Proof.
  intros Hf. induction F as [|b' i inner IHi rest IHr]; [done|]. cbn. intros (H1 & H2 & H3).
  split_and!; [|by apply IHi|by apply IHr]. case_decide; auto.
Qed.
Lemma fresh_take b F i inner rest : take_root b F = Some (i, inner, rest) → fresh_rules F →
  fresh_rules (Bp b i inner Leaf) ∧ fresh_rules rest.
Proof.
  revert i inner rest. induction F as [|b' i' inner' _ rest' IH]; intros i inner rest; [done|]. cbn [take_root]. case_decide.
  - intros [= -> -> ->] (H1 & H2 & H3). by split.
  - destruct (take_root b rest') as [[[i1 inner1] rest1]|]; [|done]. intros [= <- <- <-] (H1 & H2 & H3).
    destruct (IH _ _ _ eq_refl H3). by split.
Qed.
Lemma depth_ids F : (depth F ≤ length (ids F))%nat.
Proof. induction F as [|b i inner IHi rest IHr]; cbn; rewrite ?length_app; lia. Qed.

(** ** Programs *)

Inductive bp_op : Type :=
| Make (prefix static_dir templates_dir : string)
| AddRule (b : nat) (r : BaseRule S C)
| Middlewares (b : nat) (l : list nat)
| Catchall (b : nat) (f : request → R (S := S) (C := C) unit)
| Register (q b : nat).
Definition on_cell (f : Blueprint (S := S) (C := C) → Blueprint) (b : nat) h : option (result heap) :=
  if h !! b is Some _ then Some (Ok (alter f b h)) else Some (Throw (UB "no such blueprint")).
Definition run_op (fuel : nat) (o : bp_op) h : option (result heap) :=
  match o with
  | Make p s t => Some (Ok (h ++ [blueprint p s t]))
  | AddRule b r => on_cell (bp_new_rule r) b h
  | Middlewares b l => on_cell (bp_push l) b h
  | Catchall b f => on_cell (bp_set_catchall f) b h
  | Register q b => register_blueprint fuel q b h
  end.
Fixpoint run_ops (fuel : nat) (os : list bp_op) h : option (result heap) :=
  match os with [] => Some (Ok h) | o :: os' => obind (run_op fuel o h) (run_ops fuel os') end.

Definition add_info_rule r (i : info) : info :=
  Info (i_prefix i) (i_static i) (i_templates i) (i_rules i ++ [r]) (i_mws i).
Definition add_info_mws (l : list nat) (i : info) : info :=
  Info (i_prefix i) (i_static i) (i_templates i) (i_rules i) (i_mws i ++ l).
(** What a program means for a forest of [n] blueprints.  A blueprint is registered in one other
    blueprint at most, and in none that is registered in it. *)
Definition plan_op (o : bp_op) (nF : nat * forest) : option (nat * forest) :=
  let '(n, F) := nF in
  match o with
  | Make p s t => Some (Datatypes.S n, append F (Bp n (Info p s t [] []) Leaf Leaf))
  | AddRule b r => if decide (b ∈ ids F ∧ added_ r = false) then Some (n, update b (add_info_rule r) F) else None
  | Middlewares b l => if decide (b ∈ ids F) then Some (n, update b (add_info_mws l) F) else None
  | Catchall b _ => if decide (b ∈ ids F) then Some nF else None
  | Register q b =>
      '(i, inner, rest) ← take_root b F;
      if decide (q ∈ ids rest) then Some (n, graft q (Bp b i inner Leaf) rest) else None
  end.
Fixpoint plan (os : list bp_op) (nF : nat * forest) : option (nat * forest) :=
  match os with [] => Some nF | o :: os' => nF ← plan_op o nF; plan os' nF end.
(** The heap holds the forest. *)
Record planned (nF : nat * forest) h : Prop := {
  pl_rep : rep h "" "" "" (snd nF);
  pl_ids : NoDup (ids (snd nF));
  pl_fresh : fresh_rules (snd nF);
  pl_size : length h = fst nF;
  pl_all : length (ids (snd nF)) = fst nF;
}.

Lemma planned_update n F h b f g : planned (n, F) h →
  (∀ i p s t l bp, holds p s t i l bp → holds p s t (f i) l (g bp)) → (∀ i, i_prefix (f i) = i_prefix i) →
  (∀ i, i_static (f i) = i_static i) → (∀ i, i_templates (f i) = i_templates i) →
  (∀ i, List.Forall (λ r, added_ r = false) (i_rules i) → List.Forall (λ r, added_ r = false) (i_rules (f i))) →
  b ∈ ids F →
  ∃ h', on_cell g b h = Some (Ok h') ∧ planned (n, update b f F) h'.
Proof.
  intros [Hr Hi Hf Hl Ha] Hg Hp Hs Ht Hfr Hb. cbn [fst snd] in *. unfold on_cell.
  destruct (rep_cells _ _ _ _ _ _ Hr Hb) as [bp ->]. eexists. split; [done|]. split; cbn [fst snd].
  - by apply rep_update.
  - by rewrite ids_update.
  - by apply fresh_update.
  - unfold heap in *. by rewrite length_alter.
  - by rewrite ids_update.
Qed.
Lemma planned_make n F h p s t : planned (n, F) h →
  planned (Datatypes.S n, append F (Bp n (Info p s t [] []) Leaf Leaf)) (h ++ [blueprint p s t]).
Proof.
  intros [Hr Hi Hf Hl Ha]. cbn [fst snd] in *.
  assert (∀ b, b ∈ ids F → (b < length h)%nat) as Hlt.
  { intros b Hb. apply lookup_lt_is_Some_1. by eapply rep_cells. }
  split; cbn [fst snd].
  - apply rep_append. split.
    + eapply rep_frame; [|exact Hr]. intros b Hb. unfold heap in *. by apply lookup_app_l, Hlt.
    + split_and!; [|done..]. exists (blueprint p s t). split; [|by split_and!].
      rewrite <- Hl. by apply list_lookup_middle.
  - rewrite ids_append. cbn. apply list.NoDup_app. split_and!; [done| |apply list.NoDup_singleton].
    intros b Hb ->%list_elem_of_singleton. specialize (Hlt _ Hb). lia.
  - apply fresh_append. split; [done|]. by repeat constructor.
  - unfold heap in *. rewrite length_app. cbn. lia.
  - rewrite ids_append, length_app. cbn. lia.
Qed.
Lemma planned_register n F h fuel q b i inner rest : planned (n, F) h → (n ≤ fuel)%nat →
  take_root b F = Some (i, inner, rest) → q ∈ ids rest →
  ∃ h', register_blueprint fuel q b h = Some (Ok h') ∧ planned (n, graft q (Bp b i inner Leaf) rest) h'.
Proof.
  intros [Hr Hi Hf Hl Ha] Hfuel Htake Hq. cbn [fst snd] in *.
  pose proof (take_root_ids _ _ _ _ _ Htake) as Hids.
  destruct (take_root_rep _ _ _ _ _ _ _ _ _ Htake Hr) as [HrT Hrr].
  destruct (fresh_take _ _ _ _ _ Htake Hf) as [HfT Hfr].
  assert (NoDup (b :: ids inner ++ ids rest)) as Hnd by by rewrite <- Hids.
  apply list.NoDup_cons in Hnd as [Hnb (Hni & Hd & Hnr)%list.NoDup_app].
  set (T := Bp b i inner Leaf) in *.
  assert (NoDup (ids T)) as HnT.
  { cbn. rewrite app_nil_r. apply list.NoDup_cons. split; [set_solver|done]. }
  assert (∀ b', b' ∈ ids T → b' ∉ ids rest) as HdT.
  { cbn. rewrite app_nil_r. intros b' [->|Hb']%elem_of_cons; [set_solver|by apply Hd]. }
  destruct (rep_cells _ _ _ _ _ q Hrr Hq) as [par Hpar].
  destruct (rep_cells _ _ _ _ _ b HrT ltac:(by left)) as [bp Hbp].
  unfold register_blueprint. rewrite Hpar, Hbp, decide_False.
  2: { intros Hb. eapply (rep_children _ _ _ _ _ _ _ Hrr Hq Hpar), HdT in Hb; [done|by left]. }
  destruct (apply_forest q par T fuel "" "" "" h) as (h1 & Ha1 & Hr1 & Hf1 & Hl1); try done.
  { pose proof (depth_ids F). pose proof (depth_ids T). cbn in *. rewrite Hids in *. cbn in *.
    rewrite ?length_app in *. cbn in *. lia. }
  { intros Hq'. by eapply HdT. }
  change (roots T) with [b] in Ha1. cbn [each_bp] in Ha1.
  assert (apply_blueprint fuel q b h = Some (Ok h1)) as ->.
  { by destruct (apply_blueprint fuel q b h) as [[]|]. }
  cbn [obind]. eexists. split; [done|].
  assert (h1 !! q = Some par) as Hpar1 by (rewrite Hf1; [done|]; intros Hq'; by eapply HdT).
  split; cbn [fst snd].
  - eapply (rep_graft h1 _ q par); try done.
    + intros b' Hb' Hne. unfold heap in *. by rewrite list_lookup_alter_ne.
    + unfold heap in *. by rewrite list_lookup_alter_eq, Hpar1.
    + rewrite !string_app_nil_r in Hr1. eapply rep_frame; [|exact Hr1]. intros b' Hb'. unfold heap in *.
      rewrite list_lookup_alter_ne; [done|]. intros ->. by eapply HdT.
    + eapply rep_frame; [|exact Hrr]. intros b' Hb'. apply Hf1. intros Hb2. by eapply HdT.
  - rewrite ids_graft by done. apply list.NoDup_app. split_and!; [done|done|done].
  - by apply fresh_graft.
  - unfold heap in *. rewrite length_alter. congruence.
  - rewrite ids_graft by done. rewrite Hids in Ha. cbn in *. rewrite ?length_app in *. cbn. lia.
Qed.
Lemma plan_op_runs o nF nF' h fuel : planned nF h → (fst nF ≤ fuel)%nat → plan_op o nF = Some nF' →
  ∃ h', run_op fuel o h = Some (Ok h') ∧ planned nF' h'.
Proof.
  destruct nF as [n F]. intros HP Hf. destruct o as [p s t|b r|b l|b f|q b]; cbn [plan_op run_op].
  - intros [= <-]. eexists. split; [done|]. by apply planned_make.
  - case_decide as Hb; [|done]. intros [= <-]. apply planned_update; try done; [| |apply Hb].
    + intros i p s t l bp (Hp & Hs & Ht & Hr & Hc & Hm & Ha). split_and!; try done. cbn.
      rewrite !fmap_app, Hr, Hp. cbn. by rewrite !string_app_assoc.
    + intros i Hi. apply list.Forall_app. split; [done|]. by constructor; [apply Hb|].
  - case_decide as Hb; [|done]. intros [= <-]. apply planned_update; try done.
    intros i p s t l' bp (Hp & Hs & Ht & Hr & Hc & Hm & Ha). split_and!; try done. cbn. by rewrite Hm.
  - case_decide as Hb; [|done]. intros [= <-].
    destruct (planned_update n F h b id (bp_set_catchall f) HP) as (h' & H1 & H2); try done.
    exists h'. split; [done|]. assert (update b id F = F) as Hid; [|by rewrite Hid in H2].
    clear. induction F as [|b' i inner IHi rest IHr]; [done|]. cbn. rewrite IHi, IHr. by case_decide.
  - destruct (take_root b F) as [[[i inner] rest]|] eqn:Ht; [|done]. cbn [mbind option_bind].
    case_decide; [|done]. intros [= <-]. by apply planned_register with (F := F).
Qed.
Lemma plan_size os : ∀ nF nF', plan os nF = Some nF' → (fst nF ≤ fst nF')%nat.
Proof.
  induction os as [|o os IH]; intros nF nF'; [by intros [= <-]|]. cbn.
  destruct (plan_op o nF) as [nF1|] eqn:E; [|done]. cbn. intros H%IH. destruct nF as [n F].
  destruct o as [p s t|b r|b l|b f|q b]; cbn in E; try (case_decide; [|done]); try (injection E as <-; cbn in *; lia).
  destruct (take_root b F) as [[[i inner] rest]|]; [|done]. cbn in E. case_decide; [|done].
  injection E as <-. cbn in *. lia.
Qed.
Lemma plan_runs os : ∀ nF nF' h fuel, planned nF h → (fst nF' ≤ fuel)%nat → plan os nF = Some nF' →
  ∃ h', run_ops fuel os h = Some (Ok h') ∧ planned nF' h'.
Proof.
  induction os as [|o os IH]; intros nF nF' h fuel HP Hf; [intros [= <-]; by exists h|]. cbn.
  destruct (plan_op o nF) as [nF1|] eqn:E; [|done]. cbn. intros H. pose proof (plan_size _ _ _ H) as Hs.
  destruct (plan_op_runs o nF nF1 h fuel) as (h1 & -> & HP1); [done| |done|].
  { pose proof (plan_size [o] nF nF1) as Hs1. cbn in Hs1. rewrite E in Hs1. specialize (Hs1 eq_refl). lia. }
  by apply (IH nF1 nF' h1).
Qed.

(** ** Running *)

(** The rules for static files that [run()] adds to the outer blueprints. *)
Definition add_info_static `{!FileSystem} (i : info) : info :=
  if bool_decide (i_static i = "") then i
  else add_info_rule (with_handler (bp_static_handler (i_static i)) (new_rule CROW_STATIC_ENDPOINT)) i.
Fixpoint with_static `{!FileSystem} (F : forest) : forest :=
  match F with Leaf => Leaf | Bp b i inner rest => Bp b (add_info_static i) inner (with_static rest) end.
Lemma roots_static `{!FileSystem} F : roots (with_static F) = roots F.
Proof. induction F as [|b i inner _ rest IH]; [done|]. cbn. by rewrite IH. Qed.
Lemma ids_static `{!FileSystem} F : ids (with_static F) = ids F.
Proof. induction F as [|b i inner _ rest IH]; [done|]. cbn. by rewrite IH. Qed.
Lemma depth_static `{!FileSystem} F : depth (with_static F) = depth F.
Proof. induction F as [|b i inner _ rest IH]; [done|]. cbn. by rewrite IH. Qed.
Lemma add_info_static_dirs `{!FileSystem} i : i_prefix (add_info_static i) = i_prefix i ∧
  i_static (add_info_static i) = i_static i ∧ i_templates (add_info_static i) = i_templates i ∧
  i_mws (add_info_static i) = i_mws i.
Proof. unfold add_info_static. by case_bool_decide. Qed.
Lemma fresh_static `{!FileSystem} F : fresh_rules F → fresh_rules (with_static F).
Proof.
  induction F as [|b i inner _ rest IH]; [done|]. cbn. intros (H1 & H2 & H3). split_and!; [|done|by apply IH].
  unfold add_info_static. case_bool_decide; [done|]. apply list.Forall_app. split; [done|]. by constructor.
Qed.
Lemma visible_static `{!FileSystem} F : visible "" F → visible "" (with_static F).
Proof.
  induction F as [|b i inner _ rest IH]; [done|]. cbn. intros [Hv Hr]. split; [|by apply IH].
  by destruct (add_info_static_dirs i) as (_ & -> & _).
Qed.
Lemma holds_static `{!FileSystem} p t i l bp : holds p "" t i l bp → holds p "" t (add_info_static i) l (add_static_rule bp).
Proof.
  intros Hh. pose proof Hh as (Hp & Hs & Ht & Hr & Hc & Hm & Ha). unfold add_info_static, add_static_rule.
  rewrite string_app_nil_l in Hs. rewrite Hs. destruct (bool_decide (i_static i = "")); [exact Hh|]. split_and!; try done. cbn.
  rewrite !fmap_app, Hr, Hp. cbn. by rewrite !string_app_assoc.
Qed.
Lemma rep_static `{!FileSystem} F : ∀ h p t, NoDup (ids F) → rep h p "" t F →
  rep (foldl (λ h b, alter add_static_rule b h) h (roots F)) p "" t (with_static F) ∧
  ∀ b, b ∉ roots F → foldl (λ h b, alter add_static_rule b h) h (roots F) !! b = h !! b.
Proof.
  induction F as [|b i inner _ rest IH]; intros h p t Hn; [done|]. intros ((bp & Hb & Hh) & Hi & Hr).
  cbn [ids] in Hn. apply list.NoDup_cons in Hn as [Hnb (Hni & Hd & Hnr)%list.NoDup_app].
  cbn [roots foldl with_static rep]. set (h1 := alter add_static_rule b h).
  assert (∀ b', b' ≠ b → h1 !! b' = h !! b') as Hf1.
  { intros b' ?. unfold h1, heap in *. by rewrite list_lookup_alter_ne. }
  assert (h1 !! b = Some (add_static_rule bp)) as Hb1.
  { unfold h1, heap in *. by rewrite list_lookup_alter_eq, Hb. }
  destruct (IH h1 p t Hnr) as [Hr1 Hf2].
  { eapply rep_frame; [|exact Hr]. intros b' Hb'. apply Hf1. set_solver. }
  pose proof (roots_ids rest) as Hri. destruct (add_info_static_dirs i) as (Hp & Hs & Ht & _). split; [split_and!|].
  - exists (add_static_rule bp). rewrite Hf2 by set_solver. split; [done|]. by apply holds_static.
  - rewrite Hp, Hs, Ht. eapply rep_frame; [|exact Hi]. intros b' Hb'. rewrite Hf2, Hf1 by set_solver. done.
  - done.
  - intros b' Hb'. rewrite Hf2, Hf1 by set_solver. done.
Qed.
End Forests.

(** ** The tables of a router with blueprints *)

Section Tables.
Context {S C : Type} `{fs : !FileSystem}.
Implicit Types pms : list (PerMethod S C).

(** What [validate] makes of the tables. *)
Lemma validate_registered rs pms c : omap_ok per_methods_ (validate (MkRouter rs pms c))
  = obind (registered rs pms) (λ pms, Some (validate_tries pms)).
Proof.
  unfold validate, registered. cbn [all_rules_ per_methods_]. rewrite omap_ok_obind, obind_omap_ok.
  apply obind_ext. intros x _. by destruct (validate_tries (snd x)) as [|].
Qed.
Lemma validate_tries_erase pms : List.Forall head_plain pms →
  match validate_tries pms, validate_tries (erase_pm <$> pms) with
  | Ok l, Ok l' => Forall2 (λ pm pm', rules pm' = rules pm ∧ trie pm' = optimize (trie pm)) pms l ∧
      Forall2 (λ pm pm', rules pm' = rules pm ∧ trie pm' = optimize (erase (trie pm))) pms l'
  | Throw e, Throw e' => e = e'
  | _, _ => False
  end.
Proof.
  induction 1 as [|pm pms Hp _ IH]; [by split; constructor|]. cbn [validate_tries fmap list_fmap].
  unfold trie_validate. cbn [erase_pm trie rules]. rewrite IsSimpleNode_erase by exact Hp.
  destruct (negb (IsSimpleNode (trie pm))); [done|]. cbn [mbind result_bind].
  destruct (validate_tries pms) as [l|e], (validate_tries (erase_pm <$> pms)) as [l'|e']; try done.
  destruct IH as [H1 H2]. cbn. by split; constructor.
Qed.
Lemma finds_first_ext (rs : list (BaseRule S C)) table url f f' : rule_index_ f' = rule_index_ f →
  (rule_index_ f ≠ 0 → r_params f' = r_params f) → finds_first rs table url f → finds_first rs table url f'.
Proof.
  intros Hi Hp H. unfold finds_first in *. rewrite Hi. destruct H as [H|[H|(i & r & Hx & H)]]; [by left|by right; left|].
  right; right. exists i, r. rewrite Hp by lia. by split.
Qed.
(** In the tables [pms] that [rs] was registered in, but for blueprints. *)
Lemma tables_find rs pms m pm pm' url :
  List.Forall (λ r, added_ r = false) rs → Z.of_nat (length rs) < 2 ^ 16 - 2 →
  List.Forall (λ r : BaseRule S C, string_Forall (λ c, c ≠ NUL) (rule_ r)) rs →
  registered rs (replicate InternalMethodCount per_method_new) = Some (Ok (erase_pm <$> pms)) →
  pms !! m = Some pm → rules pm' = rules pm → trie pm' = optimize (trie pm) →
  finds_first (method_rules m rs) (rules pm') url (trie_find (trie pm') url).
Proof.
  intros Ha Hl Hn Hr Hpm -> ->. unfold registered in Hr.
  destruct (validate_rules rs _) as [[x|]|] eqn:Hv; [|done..]. cbn in Hr. injection Hr as Hx.
  apply (validate_rules_spec _ _ _ 2) in Hv as (Hlx & Hv); [|done|done| |lia].
  2: { apply list.Forall_forall. by intros ? ->%elem_of_replicate_inv. }
  assert (snd x !! m = Some (erase_pm pm)) as Hxm by by rewrite Hx, list_lookup_fmap, Hpm.
  assert (m < InternalMethodCount)%nat as Hm by (rewrite <- Hlx; by eapply lookup_lt_Some).
  destruct (Hv m per_method_new) as (pm1 & Hpm1 & Hrules & Hb); [by apply lookup_replicate_2|].
  assert (pm1 = erase_pm pm) as -> by congruence. cbn [erase_pm rules trie] in Hrules, Hb.
  assert (List.Forall (λ r : BaseRule S C, string_Forall (λ c, c ≠ NUL) (rule_ r)) (method_rules m rs)) as Hn'.
  { rewrite list.Forall_forall in Hn |- *. intros r [_ Hin]%list_elem_of_filter. by apply Hn. }
  pose proof (entries_ok _ _ Hn' Hb) as Hok. destruct (build_matches _ trie_empty _ url I Hok Hb) as [Hu _].
  apply unoptimized_has_keys in Hu. pose proof (proj1 (has_keys_erase _) Hu) as Hu'.
  destruct (find_erase (trie pm) url Hu' Hu) as [Hi Hp].
  eapply (finds_first_ext _ _ _ (trie_find (optimize (erase (trie pm))) url)); [done|by intros; apply Hp; congruence|].
  by apply finds_first_of_table.
Qed.

(** The router that the rules of the forest and of the application would make without blueprints. *)
Definition flat_rules (F : forest) (rs : list (BaseRule S C)) : list (BaseRule S C) :=
  routes "" [] (with_static F) ++ rs.
Lemma run_validate_flat F h rs c fuel : rep h "" "" "" F → NoDup (ids F) → fresh_rules F → visible "" F →
  (depth F < fuel)%nat →
  let new := replicate InternalMethodCount per_method_new in
  match run_validate fuel (roots F) h (MkRouter rs new c) with
  | Some (Ok (_, rt)) => ∃ pms, registered (flat_rules F rs) new = Some (Ok (erase_pm <$> pms)) ∧
      List.Forall head_plain pms ∧ validate_tries pms = Ok (per_methods_ rt) ∧ catchall_rule_ rt = c
  | m => omap_ok per_methods_ (validate (MkRouter (flat_rules F rs) new c))
         = match m with Some (Throw e) => Some (Throw e) | _ => None end
  end.
Proof.
  intros Hrep Hn Hfr Hv Hf new. unfold run_validate, add_blueprint. cbn [per_methods_ all_rules_ catchall_rule_].
  set (h1 := foldl _ h (roots F)). destruct (rep_static F h "" "" Hn Hrep) as [Hr1 _].
  destruct fuel as [|fuel]; [lia|]. cbn [validate_bp]. rewrite validate_registered. unfold flat_rules.
  pose proof (validate_forest (with_static F) fuel (roots F) 0 "" "" "" [] h1 new) as H.
  rewrite roots_static in H. rewrite depth_static, ids_static in H.
  specialize (H ltac:(lia) Hn Hr1 (fresh_static _ Hfr) (visible_static _ Hv)).
  specialize (H ltac:(intros b Hb; eapply rep_cells; [exact Hr1|rewrite ids_static; by apply roots_ids]) ltac:(lia)).
  assert (erase_pm <$> new = new) as Hnew by done. unfold registers in H. rewrite Hnew in H.
  rewrite !registered_app.
  destruct (validate_each _ 0 (roots F) _) as [[[[h2 pms2] mws2]|e]|]; cbn [obind]; [|by rewrite H..].
  destruct H as (Hreg & -> & _ & _ & Hh). rewrite Hreg. cbn [obind]. rewrite <- registered_erase.
  assert (List.Forall head_plain pms2) as Hh2 by (apply Hh; by apply list.Forall_replicate).
  pose proof (validate_registered rs pms2 c) as Hval. unfold snd at 1.
  pose proof (registered_head rs pms2) as Hhead.
  destruct (registered rs pms2) as [[pms3|e]|]; cbn [omap_ok obind] in *.
  - specialize (Hhead pms3 Hh2 eq_refl). pose proof (validate_tries_erase pms3 Hhead) as He.
    destruct (validate (MkRouter rs pms2 c)) as [[rt|e]|] eqn:Hrt; cbn [obind omap_ok] in *; [|injection Hval as Hval|done].
    + injection Hval as Hval. exists pms3. split_and!; [done|done|done|].
      unfold validate in Hrt. apply obind_Some in Hrt as (x & _ & (y & _ & [= <-])%obind_Some). done.
    + rewrite <- Hval in He. by destruct (validate_tries (erase_pm <$> pms3)); [|subst].
  - by destruct (validate (MkRouter rs pms2 c)) as [[rt|e']|]; cbn in *; [|congruence|].
  - by destruct (validate (MkRouter rs pms2 c)) as [[rt|e']|].
Qed.
Lemma tables_length rs pms : List.Forall (λ r : BaseRule S C, added_ r = false) rs → Z.of_nat (length rs) < 2 ^ 16 - 2 →
  registered rs (replicate InternalMethodCount per_method_new) = Some (Ok (erase_pm <$> pms)) →
  length pms = InternalMethodCount.
Proof.
  intros Ha Hl Hr. unfold registered in Hr.
  destruct (validate_rules rs _) as [[x|]|] eqn:Hv; [|done..]. cbn in Hr. injection Hr as Hx.
  apply (validate_rules_spec _ _ _ 2) in Hv as (Hlx & _); [|done|done| |lia].
  - by rewrite <- Hlx, Hx, length_fmap.
  - apply list.Forall_forall. by intros ? ->%elem_of_replicate_inv.
Qed.
Lemma routes_fresh F : ∀ p mws, fresh_rules F → List.Forall (λ r : BaseRule S C, added_ r = false) (routes p mws F).
Proof.
  induction F as [|b i inner IHi rest IHr]; intros p mws; [constructor|]. intros (H1 & H2 & H3). cbn [routes].
  rewrite !list.Forall_app. split_and!; [|by apply IHi|by apply IHr]. apply list.Forall_fmap.
  by eapply list.Forall_impl; [exact H1|].
Qed.
End Tables.

(** ** Properties *)

Section Properties.
Context {S C : Type} `{fs : !FileSystem}.

(** C25: a program that makes blueprints, gives them rules and middlewares and registers them in
    one another builds the forest it describes, in whatever order it does so: registered before
    or after it was given its rules and its own blueprints, a blueprint ends with the prefixes
    and the directories of all the blueprints around it, and its rules with their paths.  No
    step fails or goes on for ever, as long as a blueprint is registered at most once and not in
    one that is registered in it. *)
Theorem blueprints_planned (os : list (bp_op (S := S) (C := C))) n F fuel :
  plan os (0%nat, Leaf) = Some (n, F) → (n ≤ fuel)%nat →
  ∃ h, run_ops fuel os [] = Some (Ok h) ∧ rep h "" "" "" F ∧ NoDup (ids F) ∧ fresh_rules F ∧
    length (ids F) = length h.
Proof.
  intros HP Hf. destruct (plan_runs os (0%nat, Leaf) (n, F) [] fuel) as (h & Hh & [Hr Hn Hfr Hl Ha]); [|done|done|].
  - by split; [|constructor| | |].
  - exists h. split_and!; [done..|cbn [fst snd] in *; congruence].
Qed.

(** C24: blueprints change where the rules are written and not what is found.  For a forest of
    blueprints on the heap, the outer ones each with a static directory (of the others the log
    says that they are ignored), [run()] gets as far with them, or fails in the same way, as it
    would with one list of rules: in preorder, the rules of each blueprint under the prefixes
    around it, with the middlewares of the blueprints around it before their own, and then the
    rules of the application.  And the router then finds, for each method and URL, the first
    rule of that list for the method that matches.  The rules are new, without NUL bytes in
    their paths, and fewer than 2^16 - 2. *)
Theorem blueprint_routes_found (F : forest) (h : heap (S := S) (C := C)) rs c fuel :
  rep h "" "" "" F → NoDup (ids F) → fresh_rules F → visible "" F → (depth F < fuel)%nat →
  List.Forall (λ r, added_ r = false) rs → Z.of_nat (length (flat_rules F rs)) < 2 ^ 16 - 2 →
  List.Forall (λ r, string_Forall (λ c, c ≠ NUL) (rule_ r)) (flat_rules F rs) →
  let new := replicate InternalMethodCount per_method_new in
  match run_validate fuel (roots F) h (MkRouter rs new c), validate (MkRouter (flat_rules F rs) new c) with
  | Some (Ok (_, rt)), Some (Ok flat) => catchall_rule_ rt = c ∧ ∀ m url,
      (rules <$> per_methods_ rt !! method_index m) = (rules <$> per_methods_ flat !! method_index m) ∧
      finds_first (method_rules (method_index m) (flat_rules F rs))
        (default [] (rules <$> per_methods_ rt !! method_index m)) url (find_method rt m url)
  | Some (Throw e), Some (Throw e') => e = e'
  | None, None => True
  | _, _ => False
  end.
Proof.
  intros Hrep Hn Hfr Hv Hf Ha Hl Hnul new. pose proof (run_validate_flat F h rs c fuel Hrep Hn Hfr Hv Hf) as H.
  cbv zeta in H. fold new in H. pose proof (validate_registered (flat_rules F rs) new c) as Hflat.
  destruct (run_validate _ _ _ _) as [[[h' rt]|e]|].
  2, 3: by destruct (validate _) as [[flat|e']|]; cbn in *; [|congruence|].
  destruct H as (pms & Hreg & Hh & Hrt & Hc). rewrite Hreg in Hflat. cbn [obind] in Hflat.
  pose proof (validate_tries_erase pms Hh) as He. rewrite Hrt in He.
  destruct (validate_tries (erase_pm <$> pms)) as [l|]; [|done]. destruct He as [Hp1 Hp2].
  destruct (validate _) as [[flat|]|]; [|done..]. injection Hflat as Hl'. split; [done|]. intros m url.
  assert (List.Forall (λ r : BaseRule S C, added_ r = false) (flat_rules F rs)) as Hall.
  { apply list.Forall_app. split; [by apply routes_fresh, fresh_static|done]. }
  destruct (lookup_lt_is_Some_2 pms (method_index m)) as [pm Hpm].
  { rewrite (tables_length _ _ Hall Hl Hreg). unfold InternalMethodCount. destruct m; cbn; lia. }
  destruct (Forall2_lookup_l _ _ _ _ _ Hp1 Hpm) as (pm1 & Hpm1 & Hr1 & Ht1).
  destruct (Forall2_lookup_l _ _ _ _ _ Hp2 Hpm) as (pm2 & Hpm2 & Hr2 & _).
  unfold find_method, trie_of. rewrite Hl', Hpm1, Hpm2. cbn. split; [congruence|].
  by apply (tables_find _ pms (method_index m) pm).
Qed.
End Properties.

(** ** Which catch-all is called *)

Section Errors.
Context {S C : Type}.
Implicit Types h : heap (S := S) (C := C).

(** The blueprints [l], each registered in the one before it ([parent], the first time), under the
    indices [idxs] that [Trie::find] collects. *)
Fixpoint within h (parent : Blueprint (S := S) (C := C)) (idxs : list Z) (l : list (nat * Blueprint)) : Prop :=
  match idxs, l with
  | [], [] => True
  | i :: idxs', x :: l' =>
      bp_at (blueprints_ parent) i h = Ok x ∧ 0 ≤ i ∧ (∃ name, prefix_ (snd x) = prefix_ parent +:+ "/" +:+ name) ∧
      within h (snd x) idxs' l'
  | _, _ => False
  end.
Lemma bp_at_lt blueprints i h x : bp_at blueprints i h = Ok x → 0 ≤ i → i < Z.of_nat (length blueprints).
Proof.
  unfold bp_at. destruct (blueprints !! Z.to_nat i) as [b|] eqn:E; [|done]. intros _ Hi.
  apply lookup_lt_Some in E. lia.
Qed.
Lemma within_found h registered idxs : ∀ found b parent l, list_basics.list.last found = Some (b, parent) →
  within h parent idxs l → get_found_bp h registered idxs (length found) (blueprints_ parent) found = Ok (found ++ l).
Proof.
  induction idxs as [|i idxs IH]; intros found b parent [|x l] Hlast Hw; try done; [by rewrite app_nil_r|].
  destruct Hw as (Hx & Hi & [name Hname] & Hw). cbn [get_found_bp]. unfold verify_prefix.
  assert (0 < length found)%nat as Hpos by (destruct found; [done|cbn; lia]).
  rewrite (proj2 (Nat.eqb_neq _ _)) by lia. rewrite (proj2 (Z.leb_gt _ _)) by by eapply bp_at_lt.
  rewrite Hx. cbn [mbind result_bind].
  assert (found !! (length found - 1)%nat = Some (b, parent)) as ->.
  { rewrite <- Hlast, last_lookup. f_equal. lia. }
  rewrite bool_decide_true; [|rewrite Hname; replace (String.length (prefix_ parent) + 1)%nat
    with (String.length (prefix_ parent +:+ "/")) by (by rewrite string_length_app);
    rewrite <- string_app_assoc; apply stake_app].
  cbn [mbind result_bind]. rewrite last_snoc. cbn [fmap option_fmap option_map default from_option compose].
  destruct x as [b' bp']. replace (Datatypes.S (length found)) with (length (found ++ [(b', bp')]))
    by (rewrite length_app; cbn; lia).
  rewrite (IH _ b' bp' l); [by rewrite <- app_assoc|apply last_snoc|done].
Qed.
(** An error is told to the innermost blueprint on the path that has a catch-all, except the
    outermost one. *)
Lemma catchall_of_path h registered i idxs x l rt code req : bp_at registered i h = Ok x → within h (snd x) idxs l →
  bp_get_error h registered rt code (i :: idxs) req
  = (_ ← modify_res (set_code code);
     match head (omap (λ y, bp_catchall (snd y)) (rev l)) with
     | Some f => catch_all (f req) default_exception_handler
     | None => match catchall_rule_ rt with
               | Some f => catch_all (f req) default_exception_handler
               | None => mret tt
               end
     end).
Proof.
  intros Hx Hw. unfold bp_get_error.
  assert (get_found_bp h registered (i :: idxs) 0 registered [] = Ok (x :: l)) as ->; [|done].
  cbn [get_found_bp verify_prefix Nat.eqb mbind result_bind length Nat.ltb Nat.leb]. rewrite Hx. cbn [mbind result_bind].
  destruct x as [b bp]. by apply (within_found h registered idxs [(b, bp)] b bp l).
Qed.
End Errors.
