(* ===== verification/BlueprintExamples.v ===== *)
(** * Blueprints: examples

    The theorems of BlueprintSpec.v at a program with two blueprints, and what the code does with
    blueprints that the theorems leave out. *)

From S2P Require Import Prelude Doubles Text Utility Http Service Middleware Trie Router Blueprints.
From S2P Require Import BlueprintSpec.
Open Scope Z_scope.

#[local] Instance no_static_files : FileSystem := {| fs_stat := λ _, None; fs_read := λ _, "" |}.
Definition plain_rule (url : string) (m : HTTPMethod) : BaseRule unit unit :=
  Rule url (Z.shiftl 1 (Z.of_nat (method_index m))) "" false [] (Some (λ _ _ k, end_ k)).
Definition no_tables : list (PerMethod unit unit) := replicate InternalMethodCount per_method_new.

(** [v1] gets a rule before it is registered in [api], and another one afterwards. *)
Definition api_program : list (bp_op (S := unit) (C := unit)) :=
  [Make "api" "api" "api"; Make "v1" "v1" "v1"; AddRule 1 (plain_rule "/orders" Get); Middlewares 1 [2%nat];
   Register 0 1; AddRule 0 (plain_rule "/ping" Get); Middlewares 0 [1%nat]; AddRule 1 (plain_rule "/orders/<int>" Post)].
Definition api_forest : forest :=
  Bp 0 (Info "api" "api" "api" [plain_rule "/ping" Get] [1%nat])
    (Bp 1 (Info "v1" "v1" "v1" [plain_rule "/orders" Get; plain_rule "/orders/<int>" Post] [2%nat]) Leaf Leaf) Leaf.
Definition heap_of (m : option (result (heap (S := unit) (C := unit)))) : heap :=
  match m with Some (Ok h) => h | _ => [] end.
Definition api_heap : heap := heap_of (run_ops 2 api_program []).

Lemma blueprints_planned_witness :
  plan api_program (0%nat, Leaf) = Some (2%nat, api_forest) ∧ (2 ≤ 2)%nat ∧
  ∃ h, run_ops 2 api_program [] = Some (Ok h) ∧ rep h "" "" "" api_forest ∧ NoDup (ids api_forest) ∧
    fresh_rules api_forest ∧ length (ids api_forest) = length h.
Proof.
  split; [reflexivity|]. split; [lia|]. apply (blueprints_planned api_program 2 api_forest 2); [reflexivity|lia].
Defined.
Example api_routes : (λ r, (rule_ r, mw_indices_ r)) <$> flat_rules api_forest [plain_rule "/" Get]
  = [("/api/ping", [1%nat]); ("/api/static/<path>", [1%nat]); ("/api/v1/orders", [1%nat; 2%nat]);
     ("/api/v1/orders/<int>", [1%nat; 2%nat]); ("/", [])].
Proof. reflexivity. Qed.
Lemma api_heap_held : rep api_heap "" "" "" api_forest.
Proof.
  assert (∀ b i l p, is_Some (api_heap !! b) → holds p p p i l (default (blueprint "" "" "") (api_heap !! b)) →
    ∃ bp, api_heap !! b = Some bp ∧ holds p p p i l bp) as H by (intros b i l p [bp ->] ?; by exists bp).
  cbn [rep api_forest]. split_and!; try exact I; (apply H; [eexists; reflexivity|]);
    unfold holds; split_and!; reflexivity.
Qed.
Lemma blueprint_routes_found_witness :
  rep api_heap "" "" "" api_forest ∧
  match run_validate 3 [0%nat] api_heap (MkRouter [plain_rule "/" Get] no_tables None),
        validate (MkRouter (flat_rules api_forest [plain_rule "/" Get]) no_tables None) with
  | Some (Ok (_, rt)), Some (Ok flat) => catchall_rule_ rt = None ∧ ∀ m url,
      (rules <$> per_methods_ rt !! method_index m) = (rules <$> per_methods_ flat !! method_index m) ∧
      finds_first (method_rules (method_index m) (flat_rules api_forest [plain_rule "/" Get]))
        (default [] (rules <$> per_methods_ rt !! method_index m)) url (find_method rt m url)
  | Some (Throw e), Some (Throw e') => e = e'
  | None, None => True
  | _, _ => False
  end.
Proof.
  split; [exact api_heap_held|]. apply (blueprint_routes_found api_forest api_heap [plain_rule "/" Get] None 3).
  - exact api_heap_held.
  - repeat constructor; set_solver.
  - repeat constructor.
  - by split.
  - cbn. lia.
  - by repeat constructor.
  - vm_compute. reflexivity.
  - by repeat constructor.
Defined.
(** And it does start. *)
Example api_starts : match run_validate 3 [0%nat] api_heap (MkRouter [plain_rule "/" Get] no_tables None) with
  | Some (Ok (_, rt)) => rule_index_ (find_method rt Get "/api/v1/orders") = 4 ∧
      r_params (find_method rt Post "/api/v1/orders/7") = RoutingParams [7] [] [] []
  | _ => False
  end.
Proof. by vm_compute. Qed.

(** ** What goes wrong *)

(** The rules that a blueprint had when it was registered keep the directory for templates that it
    had then. *)
Example template_base_stays :
  (λ bp, (templates_dir_ bp, fst <$> bp_rules bp)) <$> api_heap !! 1%nat = Some ("api/v1", ["v1"; "api/v1"]).
Proof. vm_compute. reflexivity. Qed.
(** A blueprint without rules and static directory: its prefix is put into a trie without the
    slash, so that the application does not start. *)
Definition bare_program : list (bp_op (S := unit) (C := unit)) :=
  [Make "api" "" ""; Make "v1" "v1" "v1"; AddRule 1 (plain_rule "/orders" Get); Register 0 1].
Example bare_blueprint_fails :
  run_validate 3 [0%nat] (heap_of (run_ops 2 bare_program [])) (MkRouter [] no_tables None)
  = Some (Throw (RuntimeError "Internal error: Trie header should be simple!")).
Proof. vm_compute. reflexivity. Qed.
(** The outermost blueprint is asked for a catch-all by no request. *)
Lemma outer_catchall_unused h registered i (rt : Router unit unit) code req x : bp_at registered i h = Ok x →
  bp_get_error h registered rt code [i] req = bp_get_error [] [] rt code [] req.
Proof. intros Hx. by rewrite (catchall_of_path h registered i [] x []). Qed.
(** Its index is in the trie of a method only if one of its own rules has the method.  An unknown
    path under the second of the blueprints in it is then looked for among the router's. *)
Definition posts_program : list (bp_op (S := unit) (C := unit)) :=
  [Make "api" "api" ""; Make "v1" "v1" ""; Make "v2" "v2" ""; AddRule 1 (plain_rule "/orders" Post);
   AddRule 2 (plain_rule "/orders" Post); Register 0 1; Register 0 2].
Example unknown_path_out_of_range :
  match run_validate 3 [0%nat] (heap_of (run_ops 3 posts_program [])) (MkRouter [] no_tables None) with
  | Some (Ok (h, rt)) =>
      get_found_bp h [0%nat] (blueprint_indices (find_method rt Post "/api/v2/nothing")) 0 [0%nat] []
      = Throw (UB "blueprints out of range")
  | _ => False
  end.
Proof. vm_compute. reflexivity. Qed.
