(* ===== verification/Main.v ===== *)
(** * src/main.cpp: configuration, the probe handlers and the route table

    Start-up from the environment variables, the handlers main.cpp defines itself, the
    watcher that turns a signal into a drain, and the application's rules with the
    static file rule [run()] adds (crow/app.h). *)

From S2P Require Import Prelude Doubles JsonRead JsonWrite Utility QueryString Http Service.
From S2P Require Import OrderRoutes Wp Middleware AppMiddlewares Trie Router.
Open Scope Z_scope.

(** ** Environment variables *)

(** [get_env], over what [getenv] answers. *)
Definition get_env (getenv : string → option string) (var default_val : string) : string :=
  default default_val (getenv var).

Definition parse_log_level (raw_level : string) : log_level :=
  let level := string_map tolower raw_level in
  if decide (level = "trace") then trace
  else if decide (level = "debug") then debug
  else if decide (level = "warn" ∨ level = "warning") then warn
  else if decide (level = "error") then err
  else if decide (level = "critical") then critical
  else if decide (level = "off") then off
  else info.

Section Main.
Context `{ss : !StdSort, ui : !UMapIter, sq : !Sqlite, rd : !Redis, ev : !Environment}.
Implicit Types w : world.

(** ** Start-up *)

(** What the libraries answer at start-up: what [basic_logger_mt] throws when it cannot open
    its file; whether [sqlite3_open] and the [CREATE TABLE] succeed, with the messages of
    their failures; and the connection to Redis, pinged, or the [what()] of the exception. *)
Record surroundings : Type := Surroundings {
  getenv : string → option string;
  logger_error : option exn;
  open_error : option string;
  exec_error : option string;
  connect_redis : string → rd_state + string;
}.

(** [false]: the process exits with status 1. *)
Definition init_db (x : surroundings) : M world bool :=
  match open_error x with
  | Some m =>
      _ ← spdlog err ("Can't open DB: " +:+ m);
      _ ← modify (set_db_ready false); mret false
  | None =>
      match exec_error x with
      | Some m =>
          _ ← spdlog err ("SQL error: " +:+ m);
          _ ← modify (set_db_ready false); mret false
      | None => _ ← modify (set_db_ready true); mret true
      end
  end.

Definition init_redis (x : surroundings) : M world unit :=
  let redis_host := get_env (getenv x) "REDIS_HOST" "127.0.0.1" in
  match connect_redis x ("tcp://" +:+ redis_host +:+ ":6379") with
  | inl r => _ ← modify (set_redis (Some r)); modify (set_redis_available true)
  | inr what =>
      _ ← modify (set_redis None);
      _ ← modify (set_redis_available false);
      spdlog warn ("Redis unavailable at startup: " +:+ what
                   +:+ ". Service will run in degraded mode.")
  end.

(** What [main] goes on to serve with. *)
Record settings : Type := Settings { set_level : log_level; port : Z; shutdown_drain_ms : Z }.

(** [main] up to the routes; [None] is [exit(1)], and an exception is uncaught. *)
Definition start (x : surroundings) : M world (option settings) :=
  _ ← lift (match logger_error x with Some e => Throw e | None => Ok tt end);
  let level := parse_log_level (get_env (getenv x) "LOG_LEVEL" "info") in
  ok ← init_db x;
  if negb ok then mret None
  else
    _ ← modify (set_api_key (get_env (getenv x) "API_KEY" "1234567"));
    ttl ← lift (stoi (get_env (getenv x) "CACHE_TTL_SECONDS" "300"));
    _ ← modify (set_cache_ttl_seconds (Z.max 1 ttl));
    n ← lift (stoi (get_env (getenv x) "MAX_INFLIGHT_REQUESTS" "64"));
    _ ← modify (set_max_inflight_requests (Z.max 1 n));
    _ ← init_redis x;
    port ← lift (stoi (get_env (getenv x) "SERVER_PORT" "8080"));
    drain ← lift (stoi (get_env (getenv x) "SHUTDOWN_DRAIN_MS" "250"));
    (* [port(std::uint16_t)] *)
    mret (Some (Settings level (uwrap 16 port) (Z.max 0 drain))).

(** ** The probe handlers *)

Definition healthcheck : M world response :=
  mret (response_json 200 (wv_set WNull "status" (WString "ok"))).

Definition readiness_value (status : string) (ready db_ready redis_available : bool) : wvalue :=
  wv_set (wv_set (wv_set (wv_set WNull "status" (WString status)) "ready" (wv_bool ready))
    "db_ready" (wv_bool db_ready)) "redis_available" (wv_bool redis_available).
Definition readiness : M world response :=
  status ← gets readiness_status;
  ready ← gets is_ready;
  d ← gets db_ready;
  r ← gets redis_available;
  ready' ← gets is_ready;
  mret (response_json (if (ready' : bool) then 200 else 503) (readiness_value status ready d r)).

(** [os << d] with the default precision. *)
Definition show_double (d : double) : string := format_g 6 d.
Definition show_bit (b : bool) : string := if b then "1" else "0".
Definition NL : string := String "010" "".
Definition line (name value : string) : string := name +:+ " " +:+ value +:+ NL.
Definition ratio (a b : Z) : double :=
  if b =? 0 then dzero else ddiv (double_of_Z a) (double_of_Z b).

Definition metrics_text w (cache_total : Z) : string :=
  let n c := to_string (counters w c) in
  "# TYPE total_requests counter" +:+ NL
  +:+ line "total_requests" (n total_requests)
  +:+ line "orders_created" (n orders_created)
  +:+ line "orders_paid" (n orders_paid)
  +:+ line "cache_hits" (n cache_hits)
  +:+ line "cache_misses" (n cache_misses)
  +:+ line "overload_rejections" (n overload_rejections)
  +:+ line "shutdown_rejections" (n shutdown_rejections)
  +:+ line "redis_errors" (n redis_errors)
  +:+ line "sqlite_errors" (n sqlite_errors)
  +:+ line "in_flight_requests" (n in_flight_requests)
  +:+ line "redis_available" (show_bit (redis_available w))
  +:+ line "service_ready" (show_bit (is_ready w))
  +:+ line "cache_hit_ratio" (show_double (ratio (counters w cache_hits) cache_total))
  +:+ line "http_request_duration_ms_total" (n request_duration_ms_total)
  +:+ line "http_request_duration_ms_count" (n request_duration_samples)
  +:+ line "http_request_duration_ms_avg"
        (show_double (ratio (counters w request_duration_ms_total)
                            (counters w request_duration_samples)))
  +:+ line "http_request_duration_ms_max" (n request_duration_ms_max).
(** The sum of the two [int]s has no meaning when it overflows. *)
Definition metrics_handler : M world response :=
  w ← get;
  let cache_total := counters w cache_hits + counters w cache_misses in
  if (cache_total <? int32_min) || (int32_max <? cache_total) then throw (UB "int overflow")
  else
    mret (write (metrics_text w cache_total)
            (set_header "Content-Type" "text/plain" (set_code 200 response_default))).

(** ** Routes *)

(** The handlers run inside a server with a state of its own, [K]. *)
Context {K : Type}.
Context `{fs : !FileSystem}.

Definition app_handler : Type := handler (S := K * world) (C := context).
Definition on_world {A} (m : M world A) : M (K * world) A := λ x,
  let r := m (snd x) in (fst r, (fst x, snd r)).
(** [CROW_ROUTE(app, url).methods(m)(f)]. *)
Definition route (url : string) (m : HTTPMethod) (h : app_handler)
  : result (BaseRule (K * world) context) := r ← rule_methods [m] (new_rule url); Ok (with_handler h r).

(** A handler of the request, and one of the string parameter. *)
Definition of_request (f : request → M world response) : app_handler :=
  wrapped_handler (λ req _, on_world (f req)).
Definition of_string (f : string → M world response) : app_handler :=
  wrapped_handler (λ _ rp, on_world (s ← lift (param_get (string_params rp) 0); f s)).

(** The handler of [add_static_dir], which takes the response. *)
Definition CROW_STATIC_DIRECTORY : string := "static/".
Definition static_handler : app_handler := λ _ rp k,
  file_path_partial ← lift (param_get (string_params rp) 0);
  let file_path_partial := sanitize_filename file_path_partial "_" in
  _ ← modify_res (set_static_file_info_unsafe
        (normalize_path CROW_STATIC_DIRECTORY +:+ file_path_partial));
  end_ k.

(** In the order of main.cpp, and [add_static_dir] of [run()] last. *)
Definition app_rules : result (list (BaseRule (K * world) context)) :=
  r1 ← route "/healthcheck" Get (of_request (λ _, healthcheck));
  r2 ← route "/readiness" Get (of_request (λ _, readiness));
  r3 ← route "/order/create" Post (of_request create_order);
  r4 ← route "/order/get/<string>" Get (of_string get_order);
  r5 ← route "/order/pay" Post (of_request pay_order);
  r6 ← route "/order/list" Get (of_request list_orders);
  r7 ← route "/order/delete/<string>" Http.Delete (of_string delete_order);
  r8 ← route "/metrics" Get (of_request (λ _, metrics_handler));
  let r9 := with_handler static_handler (new_rule "/static/<path>") in
  Ok [r1; r2; r3; r4; r5; r6; r7; r8; r9].
Definition app_router : option (result (Router (K * world) context)) :=
  obind (Some app_rules) (λ rs, validate (foldl (λ rt r, new_rule_tagged r rt) router_new rs)).
End Main.

(** ** The signal watcher *)

(** The flags the watcher thread reads, whether it sleeps through the drain, and how often
    it has called [app.stop()]. *)
Record watcher : Type := Watcher {
  signal_received : bool;
  w_shutting_down : bool;
  draining : bool;
  stops : nat;
  finished : bool;
}.
Inductive watcher_step : watcher → watcher → Prop :=
| signal_arrives w :
    watcher_step w (Watcher true (w_shutting_down w) (draining w) (stops w) (finished w))
| enter_drain sd n :
    sd = false →
    watcher_step (Watcher true sd false n false) (Watcher true true true n false)
| already_down n :
    watcher_step (Watcher true true false n false) (Watcher true true false n true)
| drained s n :
    watcher_step (Watcher s true true n false) (Watcher s true false (S n) true)
| stop_watcher s sd n :   (* [run()] returned by itself *)
    watcher_step (Watcher s sd false n false) (Watcher s sd false n true).

(** ** Lemmas: the patterns of the service *)

#[export] Instance string_Forall_dec P `{!∀ c, Decision (P c)} s : Decision (string_Forall P s).
Proof. induction s as [|c s IH]; simpl; apply _. Defined.

(** The parameters with which a URL matches a literal, a literal before [<string>] and a
    literal before [<path>]. *)
Definition literal_match (pat url : string) : option routing_params :=
  if decide (url = pat) then Some no_params else None.
Definition string_match (pre url : string) : option routing_params :=
  match strip_prefix pre url with
  | Some s =>
      if decide (s ≠ "" ∧ string_Forall (λ c, c ≠ "/"%char) s) then Some (push_string s no_params)
      else None
  | None => None
  end.
Definition path_match (pre url : string) : option routing_params :=
  match strip_prefix pre url with
  | Some s => if decide (s = "") then None else Some (push_string s no_params)
  | None => None
  end.

Definition chars (s : string) : list token := TChar <$> String.list_ascii_of_string s.

Lemma pattern_match_chars pre ts url p :
  pattern_match (chars pre ++ ts) url p
  = match strip_prefix pre url with Some r => pattern_match ts r p | None => None end.
Proof.
  revert url. induction pre as [|c pre IH]; intros url; [done|].
  destruct url as [|d url]; [done|]. cbn [chars String.list_ascii_of_string fmap list_fmap app].
  cbn [pattern_match]. unfold child_step. simpl. case_decide; [|done].
  apply IH.
Qed.

Lemma span_not_slash s :
  match span (λ c, negb (bool_decide (c = "/"%char))) s with
  | (v, EmptyString) => v = s ∧ string_Forall (λ c, c ≠ "/"%char) s
  | (_, String _ _) => ¬ string_Forall (λ c, c ≠ "/"%char) s
  end.
Proof.
  induction s as [|c s IH]; [done|]. simpl. destruct (decide (c = "/"%char)) as [->|Hc].
  - rewrite bool_decide_true by done. simpl. naive_solver.
  - rewrite bool_decide_false by done. simpl.
    destruct (span _ s) as [v [|d r]]; [|naive_solver]. destruct IH as [-> IH]. done.
Qed.

Section Patterns.
Context {S C : Type}.
Implicit Types r : BaseRule S C.

Lemma rule_matches_iff r ts url p :
  tokens (rule_ r) = Some ts → rule_matches r url p ↔ pattern_match ts url no_params = Some p.
Proof.
  intros Ht. unfold rule_matches, route_matches. simpl. rewrite Ht. split; [|by eauto].
  by intros (? & [= <-] & ?).
Qed.

Lemma literal_rule r url p :
  tokens (rule_ r) = Some (chars (rule_ r)) →
  rule_matches r url p ↔ literal_match (rule_ r) url = Some p.
Proof.
  intros Ht. rewrite (rule_matches_iff _ _ _ _ Ht), <- (app_nil_r (chars _)), pattern_match_chars.
  unfold literal_match. destruct (strip_prefix (rule_ r) url) as [t|] eqn:E.
  - apply strip_prefix_Some in E as ->. destruct t as [|c t].
    + rewrite string_app_nil_r, decide_True by done. done.
    + rewrite decide_False; [done|]. intros H. rewrite <- string_app_nil_r in H.
      by apply string_app_inj_l in H.
  - rewrite decide_False; [done|]. intros ->. rewrite <- (string_app_nil_r (rule_ r)) in E at 2.
    by rewrite strip_prefix_app in E.
Qed.

Lemma string_rule r pre url p :
  tokens (rule_ r) = Some (chars pre ++ [TParam STRING]) →
  rule_matches r url p ↔ string_match pre url = Some p.
Proof.
  intros Ht. rewrite (rule_matches_iff _ _ _ _ Ht), pattern_match_chars. unfold string_match.
  destruct (strip_prefix pre url) as [[|c s]|]; [by rewrite decide_False by naive_solver| |done].
  cbn [pattern_match token_node]. unfold child_step. cbn [param node_new].
  pose proof (span_not_slash (String c s)) as H.
  destruct (span _ (String c s)) as [v [|d t]] eqn:E.
  - destruct H as [-> H]. by rewrite decide_True by done.
  - rewrite decide_False by naive_solver. by destruct v.
Qed.

Lemma path_rule r pre url p :
  tokens (rule_ r) = Some (chars pre ++ [TParam PATH]) →
  rule_matches r url p ↔ path_match pre url = Some p.
Proof.
  intros Ht. rewrite (rule_matches_iff _ _ _ _ Ht), pattern_match_chars. unfold path_match.
  by destruct (strip_prefix pre url) as [[|c s]|].
Qed.
End Patterns.

(** ** Which rule serves a URL *)

(** The first handler whose pattern matches. *)
Fixpoint first_match {H} (l : list (option routing_params * H)) : option (H * routing_params) :=
  match l with
  | [] => None
  | (Some p, h) :: _ => Some (h, p)
  | (None, _) :: l' => first_match l'
  end.

Section FirstMatch.
Context {S C : Type}.

(** [l] lists what the rules [rs] match [url] with, and their handlers. *)
Definition describes (url : string) (r : BaseRule S C)
  (x : option routing_params * handler (S := S) (C := C)) : Prop :=
  (∀ p, rule_matches r url p ↔ fst x = Some p) ∧ handler_ r = Some (snd x) ∧
  mw_indices_ r = [] ∧ rule_without_trailing_slash (rule_ r) = None.

(** [f] is the rule at its place in [table], without local middlewares. *)
Definition routes_to (table : list (option (BaseRule S C))) (f : found)
  (x : option (handler (S := S) (C := C) * routing_params)) : Prop :=
  match x with
  | Some (h, p) =>
      ∃ r, 2 ≤ rule_index_ f ∧ table !! Z.to_nat (rule_index_ f) = Some (Some r) ∧
           handler_ r = Some h ∧ mw_indices_ r = [] ∧ r_params f = p
  | None => rule_index_ f = 0
  end.

Lemma first_match_spec (rs : list (BaseRule S C)) l url i r p :
  Forall2 (describes url) rs l → rs !! i = Some r → rule_matches r url p →
  (∀ j r' p', (j < i)%nat → rs !! j = Some r' → ¬ rule_matches r' url p') →
  ∃ h, first_match l = Some (h, p) ∧ handler_ r = Some h ∧ mw_indices_ r = [].
Proof.
  intros Hl. revert i. induction Hl as [|r0 [o h] rs l (Hm & Hh & Hw & _) _ IH]; intros i Hi Hp Hlt.
  { done. }
  destruct i as [|i]; simpl in Hi.
  - injection Hi as ->. apply Hm in Hp. simpl in Hp. subst o. by exists h.
  - destruct o as [p0|].
    + exfalso. apply (Hlt O r0 p0); [lia|done|]. by apply Hm.
    + apply (IH i); [done|done|]. intros j r' p' Hj Hr'. apply (Hlt (Datatypes.S j)); [lia|done].
Qed.

Lemma first_match_none (rs : list (BaseRule S C)) l url :
  Forall2 (describes url) rs l → (∀ r p, r ∈ rs → ¬ rule_matches r url p) → first_match l = None.
Proof.
  induction 1 as [|r [o h] rs l (Hm & _) _ IH]; intros Hno; [done|]. simpl.
  destruct o as [p|]; [|apply IH; intros; apply Hno; by right].
  exfalso. apply (Hno r p); [by left|]. by apply Hm.
Qed.

Lemma finds_first_routes (rs : list (BaseRule S C)) table url f l :
  Forall2 (describes url) rs l → finds_first rs table url f → routes_to table f (first_match l).
Proof.
  intros Hl [[H0 Hno]|[(_ & r & Hr & short & p & Hsh & _)|(i & r & Hi & Hr & Ht & Hm & _ & Hlt)]].
  - rewrite (first_match_none _ _ _ Hl); [done|]. intros r p Hr. by apply Hno.
  - apply list_elem_of_lookup_1 in Hr as [k Hk].
    destruct (Forall2_lookup_l _ _ _ _ _ Hl Hk) as (x & _ & _ & _ & _ & Hns). congruence.
  - destruct (first_match_spec _ _ _ _ _ _ Hl Hr Hm Hlt) as (h & -> & Hh & Hw).
    exists (packed r). rewrite Hi. split_and!; [lia| |done| |done].
    + by replace (Z.to_nat (2 + Z.of_nat i)) with (2 + i)%nat by lia.
    + unfold packed. simpl. by rewrite Hw.
Qed.

(** The rules of the three shapes, fresh and without local middlewares. *)
Definition plain_rule (r : BaseRule S C) (h : handler (S := S) (C := C)) : Prop :=
  handler_ r = Some h ∧ mw_indices_ r = [] ∧ rule_without_trailing_slash (rule_ r) = None.

Lemma literal_describes url r pat h :
  rule_ r = pat → tokens pat = Some (chars pat) → plain_rule r h →
  describes url r (literal_match pat url, h).
Proof. intros <- Ht [Hh Hw]. split; [|by split]. intros p. by apply literal_rule. Qed.
Lemma string_describes url r pre h :
  tokens (rule_ r) = Some (chars pre ++ [TParam STRING]) → plain_rule r h →
  describes url r (string_match pre url, h).
Proof. intros Ht [Hh Hw]. split; [|by split]. intros p. by apply string_rule. Qed.
Lemma path_describes url r pre h :
  tokens (rule_ r) = Some (chars pre ++ [TParam PATH]) → plain_rule r h →
  describes url r (path_match pre url, h).
Proof. intros Ht [Hh Hw]. split; [|by split]. intros p. by apply path_rule. Qed.
End FirstMatch.

Section Routes.
Context `{ss : !StdSort, ui : !UMapIter, sq : !Sqlite, rd : !Redis, ev : !Environment}.
Context {K : Type}.
Context `{fs : !FileSystem}.

Definition rule_of (url : string) (mask : Z) (h : app_handler (K := K)) : BaseRule (K * world) context :=
  Rule url mask "" false [] (Some h).
Definition nine_rules (h1 h2 h3 h4 h5 h6 h7 h8 h9 : app_handler (K := K)) : list (BaseRule (K * world) context) :=
  [rule_of "/healthcheck" 2 h1; rule_of "/readiness" 2 h2; rule_of "/order/create" 8 h3;
   rule_of "/order/get/<string>" 2 h4; rule_of "/order/pay" 8 h5; rule_of "/order/list" 2 h6;
   rule_of "/order/delete/<string>" 1 h7; rule_of "/metrics" 2 h8;
   rule_of "/static/<path>" 2 h9].
Definition the_rules : list (BaseRule (K * world) context) :=
  nine_rules (of_request (λ _, healthcheck)) (of_request (λ _, readiness))
    (of_request create_order) (of_string get_order) (of_request pay_order)
    (of_request list_orders) (of_string delete_order) (of_request (λ _, metrics_handler))
    static_handler.

Lemma app_rules_eq : app_rules = Ok the_rules.
Proof. reflexivity. Qed.

(** The routes of the service, from the source's table. *)
Definition app_route (m : HTTPMethod) (url : string) : option (app_handler (K := K) * routing_params) :=
  match m with
  | Get => first_match
      [(literal_match "/healthcheck" url, of_request (λ _, healthcheck));
       (literal_match "/readiness" url, of_request (λ _, readiness));
       (string_match "/order/get/" url, of_string get_order);
       (literal_match "/order/list" url, of_request list_orders);
       (literal_match "/metrics" url, of_request (λ _, metrics_handler));
       (path_match "/static/" url, static_handler)]
  | Post => first_match
      [(literal_match "/order/create" url, of_request create_order);
       (literal_match "/order/pay" url, of_request pay_order)]
  | Http.Delete => first_match [(string_match "/order/delete/" url, of_string delete_order)]
  | _ => None
  end.

Lemma nine_rules_validate h1 h2 h3 h4 h5 h6 h7 h8 h9 :
  match validate (MkRouter (nine_rules h1 h2 h3 h4 h5 h6 h7 h8 h9)
                    (replicate InternalMethodCount per_method_new) None) with
  | Some (Ok rt) =>
      bool_decide (length (per_methods_ rt) = InternalMethodCount) &&
      match catchall_rule_ rt with None => true | Some _ => false end
  | _ => false
  end = true.
Proof. by vm_compute. Qed.

Lemma app_router_validated :
  ∃ rt, app_router (K := K) = Some (Ok rt) ∧
    validate (MkRouter the_rules (replicate InternalMethodCount per_method_new) None)
    = Some (Ok rt) ∧
    length (per_methods_ rt) = InternalMethodCount ∧ catchall_rule_ rt = None.
Proof.
  unfold app_router. rewrite app_rules_eq. simpl obind.
  change (foldl (λ rt r, new_rule_tagged r rt) router_new the_rules) with
    (MkRouter the_rules (replicate InternalMethodCount per_method_new) None).
  pose proof (nine_rules_validate (of_request (λ _, healthcheck)) (of_request (λ _, readiness))
    (of_request create_order) (of_string get_order) (of_request pay_order)
    (of_request list_orders) (of_string delete_order) (of_request (λ _, metrics_handler))
    static_handler) as Hv.
  change (nine_rules _ _ _ _ _ _ _ _ _) with the_rules in Hv.
  destruct (validate _) as [[rt|e]|]; [|done..]. apply andb_true_iff in Hv as [Hl Hc].
  exists rt. split_and!; [done..|by apply bool_decide_eq_true in Hl|by destruct (catchall_rule_ rt)].
Qed.

Lemma app_finds rt m url :
  app_router = Some (Ok rt) →
  routes_to (default [] (rules <$> per_methods_ rt !! method_index m)) (find_method rt m url)
    (app_route m url).
Proof.
  intros Hrt. destruct app_router_validated as (rt' & Hrt' & Hv & _).
  rewrite Hrt in Hrt'. injection Hrt' as <-.
  assert (finds_first (method_rules (method_index m) the_rules)
    (default [] (rules <$> per_methods_ rt !! method_index m)) url (find_method rt m url)) as Hf.
  { eapply validated_finds; [by repeat constructor|done| |exact Hv].
    unfold the_rules, nine_rules. by repeat constructor. }
  assert (∀ l, Forall2 (describes url) (method_rules (method_index m) the_rules) l →
    routes_to (default [] (rules <$> per_methods_ rt !! method_index m)) (find_method rt m url)
      (first_match l)) as Hl by (intros l Hl; by eapply finds_first_routes).
  destruct m; try by apply (Hl []).
  all: apply Hl; repeat (apply list.Forall2_cons_2;
    [lazymatch goal with
     | |- describes _ _ (literal_match _ _, _) => apply literal_describes
     | |- describes _ _ (string_match _ _, _) => apply string_describes
     | |- describes _ _ (path_match _ _, _) => apply path_describes
     end; by try split_and!|]).
  all: constructor.
Qed.

Lemma routes_to_index {S C} (table : list (option (BaseRule S C))) f x :
  routes_to table f x → rule_index_ f = 0 ↔ x = None.
Proof. destruct x as [[h p]|]; [|done]. intros (r & Hi & _). split; [lia|done]. Qed.
Lemma app_index rt m url :
  app_router (K := K) = Some (Ok rt) →
  rule_index_ (find_method rt m url) = 0 ↔ app_route m url = None.
Proof. intros Hrt. by eapply routes_to_index, app_finds. Qed.
Lemma find_method_at (rt : Router (K * world) context) m pm url :
  per_methods_ rt !! method_index m = Some pm → find_method rt m url = trie_find (trie pm) url.
Proof. intros H. unfold find_method, trie_of. by rewrite H. Qed.
#[local] Opaque app_route find_method.

(** *** Requests *)

(** Some method has a route for [url]. *)
Definition routed_anywhere (url : string) : bool :=
  existsb (λ m, bool_decide (is_Some (app_route m url))) all_methods.
(** The method whose routes serve requests of method [m]. *)
Definition serving (m : HTTPMethod) : HTTPMethod := if decide (m = Head) then Get else m.

(** What [handle_initial] is to do with a request to the service: leave the matching route
    to [handle], or end the response. *)
Definition app_outcome (rt : Router (K * world) context) (req : request) (res : response)
  (h : routing_handle_result) (res' : response) : Prop :=
  let m := req_method req in
  let url := req_url req in
  let ended code := rule_index_ (rh_found h) = 0 ∧ completed_ res' = true ∧ code_ res' = code in
  if decide (m = Options) then
    ended (if bool_decide (url = "/*") || routed_anywhere url then 204 else 404)
  else match app_route (serving m) url with
  | Some x =>
      rh_method h = Some (serving m) ∧
      routes_to (default [] (rules <$> per_methods_ rt !! method_index (serving m))) (rh_found h)
        (Some x) ∧
      res' = if decide (m = Head) then set_skip_body true res else res
  | None => ended (if negb (bool_decide (m = Head)) && routed_anywhere url then 405 else 404)
  end.

Lemma matched_anywhere rt url : app_router (K := K) = Some (Ok rt) →
  existsb (λ m, negb (rule_index_ (find_method rt m url) =? 0)) all_methods = routed_anywhere url.
Proof.
  intros Hrt. unfold routed_anywhere. induction all_methods as [|m l IH]; [done|]. cbn [existsb].
  rewrite IH. f_equal. pose proof (app_index rt m url Hrt) as [H1 H2].
  destruct (Z.eqb_spec (rule_index_ (find_method rt m url)) 0) as [E|E]; cbn [negb].
  - rewrite bool_decide_false; [done|]. rewrite H1 by done. by intros [? ?].
  - rewrite bool_decide_true; [done|]. destruct (app_route m url); [done|]. by destruct E; apply H2.
Qed.
Lemma method_of_index i : (i < InternalMethodCount)%nat → ∃ m, method_index m = i.
Proof.
  intros Hi. exists (nth i all_methods Get). unfold InternalMethodCount in Hi.
  do 34 (destruct i as [|i]; [reflexivity|]). lia.
Qed.
Lemma found_anywhere rt url : app_router (K := K) = Some (Ok rt) →
  length (per_methods_ rt) = InternalMethodCount → found_in_any rt url = routed_anywhere url.
Proof.
  intros Hrt Hlen. rewrite <- (matched_anywhere rt url Hrt).
  destruct (existsb _ all_methods) eqn:Hm.
  - apply existsb_exists in Hm as (m & _ & Hm). apply not_false_iff_true. intros Hf.
    by rewrite (found_in_any_false rt url m Hf) in Hm.
  - apply not_true_iff_false. intros (pm & Hpm & Hf)%existsb_exists.
    apply list_elem_of_In, list_elem_of_lookup_1 in Hpm as [i Hi].
    destruct (method_of_index i) as [m <-]; [rewrite <- Hlen; by eapply lookup_lt_Some|].
    assert (true = false) as [=]. rewrite <- Hm. symmetry. apply existsb_exists. exists m.
    split; [apply list_elem_of_In, all_methods_elem|]. by rewrite (find_method_at _ _ _ url Hi).
Qed.

Lemma app_ended rt req res (ctx : context) (s : K * world) h r code :
  completed_ r = false → complete_request_handler_ r = no_handler → code_ r = code →
  rule_index_ (rh_found h) = 0 →
  (∀ res', rule_index_ (rh_found h) = 0 ∧ completed_ res' = true ∧ code_ res' = code →
     app_outcome rt req res h res') →
  ∃ h' res', (_ ← end_ (C := context) no_completions; mret h) (r, ctx, s) = (Ok h', (res', ctx, s)) ∧
    app_outcome rt req res h' res'.
Proof.
  intros Hc Hh Hcode Hi Ho. destruct (end_then h no_completions r ctx s Hc Hh) as (res' & He & Hc' & Hc2).
  exists h, res'. split; [exact He|]. apply Ho. split_and!; [done|done|congruence].
Qed.
Lemma app_initial rt req res (ctx : context) (s : K * world) :
  app_router (K := K) = Some (Ok rt) → length (per_methods_ rt) = InternalMethodCount →
  catchall_rule_ rt = None → completed_ res = false → complete_request_handler_ res = no_handler →
  ∃ h res', handle_initial rt req (res, ctx, s) = (Ok h, (res', ctx, s)) ∧
    app_outcome rt req res h res'.
Proof.
  intros Hrt Hlen Hca Hc Hh. set (url := req_url req).
  pose proof (λ m, app_index rt m url Hrt) as Hidx.
  assert (∀ m, serving (req_method req) = m → req_method req ≠ Options →
    rule_index_ (find_method rt m url) ≠ 0 →
    app_outcome rt req res (RoutingHandleResult (find_method rt m url) (Some m))
      (if decide (req_method req = Head) then set_skip_body true res else res)) as Hsel.
  { intros m Hm Ho Hi. unfold app_outcome. rewrite decide_False by done. fold url. rewrite Hm.
    pose proof (app_finds rt m url Hrt) as Hf.
    specialize (Hidx m). revert Hf Hidx. generalize (app_route m url). intros [x|] Hf Hidx.
    - split; [reflexivity|]. split; [exact Hf|reflexivity].
    - destruct Hi. by apply Hidx. }
  assert (∀ h res', app_route (serving (req_method req)) url = None → req_method req ≠ Options →
    rule_index_ (rh_found h) = 0 ∧ completed_ res' = true ∧
    code_ res' = (if negb (bool_decide (req_method req = Head)) && routed_anywhere url then 405 else 404) →
    app_outcome rt req res h res') as Hend.
  { intros h res' Hno Ho H. unfold app_outcome. rewrite decide_False by done. fold url. by rewrite Hno. }
  unfold handle_initial. fold url. destruct (decide (req_method req = Head)) as [Hm|Hm].
  { assert (serving (req_method req) = Get) as Hg by (unfold serving; by rewrite decide_True).
    rewrite (proj2 (Hidx Head)) by done. cbn [Z.eqb].
    destruct (Z.eqb_spec (rule_index_ (find_method rt Get url)) 0) as [H1|H1].
    - apply (app_ended _ _ _ _ _ _ (move_assign res (response_code 404)) 404); [done..|].
      intros res' H. apply Hend; [rewrite Hg; by apply Hidx|by rewrite Hm|].
      by rewrite bool_decide_true.
    - do 2 eexists. split; [reflexivity|]. by apply Hsel; [|rewrite Hm|]. }
  destruct (decide (req_method req = Options)) as [Ho|Ho].
  { assert (∀ h res' code, code = (if bool_decide (url = "/*") || routed_anywhere url then 204 else 404) →
      rule_index_ (rh_found h) = 0 ∧ completed_ res' = true ∧ code_ res' = code →
      app_outcome rt req res h res') as Hopt.
    { intros h res' code -> H. unfold app_outcome. by rewrite decide_True. }
    rewrite (matched_anywhere rt url Hrt). destruct (decide (url = "/*")) as [Hu|Hu].
    - apply (app_ended _ _ _ _ _ _ (set_header "Allow" _ (move_assign res (response_code 204))) 204); [done..|].
      intros res' H. eapply Hopt; [|exact H]. by rewrite bool_decide_true.
    - destruct (routed_anywhere url) eqn:Ha.
      + apply (app_ended _ _ _ _ _ _ (set_header "Allow" _ (move_assign res (response_code 204))) 204); [done..|].
        intros res' H. eapply Hopt; [|exact H]. by rewrite orb_true_r.
      + apply (app_ended _ _ _ _ _ _ (move_assign res (response_code 404)) 404); [done..|].
        intros res' H. eapply Hopt; [|exact H]. by rewrite bool_decide_false. }
  assert (serving (req_method req) = req_method req) as Hs by (unfold serving; by rewrite decide_False).
  destruct (Z.eqb_spec (rule_index_ (find_method rt (req_method req) url)) 0) as [H0|H0].
  - unfold get_error. rewrite Hca, (found_anywhere rt url Hrt Hlen).
    apply (app_ended _ _ _ _ _ _ (set_code (if routed_anywhere url then 405 else 404) res)
      (if routed_anywhere url then 405 else 404)); [done..|].
    intros res' H. apply Hend; [rewrite Hs; by apply Hidx|done|]. by rewrite bool_decide_false.
  - do 2 eexists. split; [reflexivity|]. by apply Hsel.
Qed.
End Routes.

(** ** Properties *)

Section Properties.
Context `{ss : !StdSort, ui : !UMapIter, sq : !Sqlite, rd : !Redis, ev : !Environment}.
Context {K : Type}.
Context `{fs : !FileSystem}.
Implicit Types w : world.

(** C20: the service's route table works as written.  Its nine rules validate; in the
    resulting router the search in the table of a method finds the handler of the one rule of
    [app_route] that matches the URL, with the matched text as its parameter, and nothing if
    none matches; and of requests [handle_initial] makes the following.  A HEAD request is
    served by the routes of GET, with the mark that the response has no body, and one of any
    other method but OPTIONS by the routes of its own: the handler found is left to
    [handle], and nothing else is changed.  If there is none, the response is ended: a 405 if
    another method has a route for the URL, except for HEAD, and a 404 otherwise.  OPTIONS
    never reaches a handler: it is answered 204 for "/*" and for a URL that some method has
    a route for, and 404 for others. *)
Theorem app_dispatch :
  ∃ rt, app_router (K := K) = Some (Ok rt) ∧
    (∀ m url, routes_to (default [] (rules <$> per_methods_ rt !! method_index m))
                (find_method rt m url) (app_route m url)) ∧
    ∀ req res ctx (s : K * world),
      completed_ res = false → complete_request_handler_ res = no_handler →
      ∃ h res', handle_initial rt req (res, ctx, s) = (Ok h, (res', ctx, s)) ∧
        app_outcome rt req res h res'.
Proof.
  destruct (app_router_validated (K := K)) as (rt & Hrt & _ & Hlen & Hca). exists rt.
  split; [done|]. split; [intros m url; by apply app_finds|].
  intros req res ctx s Hc Hh. by apply app_initial.
Qed.

(** The variables [main] reads with [stoi], in that order. *)
Definition numeric_variables : list string :=
  ["CACHE_TTL_SECONDS"; "MAX_INFLIGHT_REQUESTS"; "SERVER_PORT"; "SHUTDOWN_DRAIN_MS"].
(** The exception of the first of them that is set and that [stoi] does not take. *)
Definition malformed (x : surroundings) : option exn :=
  head (omap (λ var, t ← getenv x var; match stoi t with Throw e => Some e | Ok _ => None end)
    numeric_variables).
(** The variable is set and begins with the number [v], of the range of [int], or it is not
    set and [v] is the default. *)
Definition int_variable (x : surroundings) (var : string) (d v : Z) : Prop :=
  match getenv x var with
  | Some t => stoi t = Ok v ∧ int32_min ≤ v ≤ int32_max
  | None => v = d
  end.

Lemma stoi_range s v : stoi s = Ok v → int32_min ≤ v ≤ int32_max.
Proof.
  unfold stoi. destruct (opt_sign _) as [neg s1]. destruct (span is_digit s1) as [[|c ds] r]; [done|].
  cbv zeta. destruct (_ || _) eqn:E; [done|]. intros [= <-].
  apply orb_false_iff in E as [E1%Z.ltb_ge E2%Z.ltb_ge]. done.
Qed.

(** What [main] serves with, of its environment. *)
Record configured (x : surroundings) w (s : settings) w' : Prop := {
  cf_level : set_level s = parse_log_level (default "info" (getenv x "LOG_LEVEL"));
  cf_api_key : api_key w' = default "1234567" (getenv x "API_KEY");
  cf_ttl : ∃ v, int_variable x "CACHE_TTL_SECONDS" 300 v ∧ cache_ttl_seconds w' = Z.max 1 v;
  cf_max_inflight :
    ∃ v, int_variable x "MAX_INFLIGHT_REQUESTS" 64 v ∧ max_inflight_requests w' = Z.max 1 v;
  cf_port : ∃ v, int_variable x "SERVER_PORT" 8080 v ∧ port s = v mod 2 ^ 16;
  cf_drain : ∃ v, int_variable x "SHUTDOWN_DRAIN_MS" 250 v ∧ shutdown_drain_ms s = Z.max 0 v;
  cf_redis :
    match connect_redis x ("tcp://" +:+ default "127.0.0.1" (getenv x "REDIS_HOST") +:+ ":6379") with
    | inl r => redis w' = Some r ∧ redis_available w' = true
    | inr _ => redis w' = None ∧ redis_available w' = false
    end;
  cf_db_ready : db_ready w' = true;
  cf_kept : shutting_down w' = shutting_down w ∧ db w' = db w ∧ open_stmts w' = open_stmts w ∧
    environment w' = environment w ∧ counters w' = counters w;
}.

(** How [start] ends. *)
Definition start_outcome (x : surroundings) w (r : result (option settings)) w' : Prop :=
  match logger_error x with
  | Some e => r = Throw e ∧ w' = w
  | None =>
      match open_error x, exec_error x with
      | None, None =>
          match malformed x with
          | Some e => r = Throw e
          | None => ∃ s, r = Ok (Some s) ∧ configured x w s w'
          end
      | _, _ => r = Ok None ∧ ∃ m, w' = set_db_ready false (set_log ((err, m) :: log w) w)
      end
  end.

(** A numeric variable that is read: its value, or the exception [main] ends with. *)
Lemma stoi_env x var text d : stoi text = Ok d →
  match stoi (get_env (getenv x) var text) with
  | Ok v => int_variable x var d v ∧
      (t ← getenv x var; match stoi t with Throw e => Some e | Ok _ => None end) = None
  | Throw e => (t ← getenv x var; match stoi t with Throw e => Some e | Ok _ => None end) = Some e
  end.
Proof.
  intros Hd. unfold get_env, int_variable. destruct (getenv x var) as [t|]; cbn.
  - destruct (stoi t) as [v|e] eqn:E; [|done]. split; [|done]. split; [done|]. by eapply stoi_range.
  - by rewrite Hd.
Qed.

(** C40: start-up.  When the logger cannot be made [main] ends with that exception, having
    done nothing.  When SQLite does not open the database or make the table it exits with
    status 1, the database marked as not ready.  When one of the four numeric variables is
    set to a text that [stoi] does not take, it ends with the exception of the first of
    these in the order in which they are read.  And otherwise it serves: with each
    setting from its variable if that is set, also when it is empty, and from the default
    in the code if it is not, the cache lifetime and the in-flight limit raised to 1, the
    drain time to 0, and the port cut to 16 bits; with the database marked as ready; and
    with the Redis of the host configured, marked available, or, if that cannot be
    reached, without Redis and marked so. *)
Theorem startup_configuration (x : surroundings) w :
  wp (start x) (start_outcome x w) w.
Proof.
  pose proof (stoi_env x "CACHE_TTL_SECONDS" "300" 300 eq_refl) as H1.
  pose proof (stoi_env x "MAX_INFLIGHT_REQUESTS" "64" 64 eq_refl) as H2.
  pose proof (stoi_env x "SERVER_PORT" "8080" 8080 eq_refl) as H3.
  pose proof (stoi_env x "SHUTDOWN_DRAIN_MS" "250" 250 eq_refl) as H4.
  unfold start, start_outcome, init_db, init_redis. wp_pure.
  destruct (logger_error x) as [e|]; [done|].
  destruct (open_error x) as [m|]; [split; [done|by eexists]|]. wp_pure.
  destruct (exec_error x) as [m|]; [split; [done|by eexists]|]. wp_pure. cbn [negb]. wp_pure.
  unfold malformed, numeric_variables. cbn [omap list_omap].
  destruct (stoi (get_env (getenv x) "CACHE_TTL_SECONDS" "300")) as [ttl|e]; [|by rewrite H1].
  destruct H1 as [H1 ->]. wp_pure.
  destruct (stoi (get_env (getenv x) "MAX_INFLIGHT_REQUESTS" "64")) as [n|e]; [|by rewrite H2].
  destruct H2 as [H2 ->]. wp_pure.
  destruct (connect_redis x _) as [r|what] eqn:Hr; wp_pure;
    (destruct (stoi (get_env (getenv x) "SERVER_PORT" "8080")) as [p|e]; [|by rewrite H3]);
    destruct H3 as [H3 ->]; wp_pure;
    (destruct (stoi (get_env (getenv x) "SHUTDOWN_DRAIN_MS" "250")) as [dr|e]; [|by rewrite H4]);
    destruct H4 as [H4 ->]; cbn [head]; wp_pure; eexists; (split; [done|]);
    unfold get_env in Hr; split; cbn; try rewrite Hr; try done; eauto.
Qed.

(** The readiness probe is consistent.  It answers 200 exactly when the database is
    ready and the service is not draining, and 503 otherwise; the status it names is
    ["ready"] or ["degraded"] exactly with a 200, and ["degraded"] exactly when it is
    ready without Redis; it changes nothing. *)
Theorem readiness_consistent w :
  ∃ res status, readiness w = (Ok res, w) ∧
    body res = dump (readiness_value status (is_ready w) (db_ready w) (redis_available w)) ∧
    (code_ res = 200 ↔ db_ready w = true ∧ shutting_down w = false) ∧
    (code_ res = 200 ∨ code_ res = 503) ∧
    (code_ res = 200 ↔ status ∈ ["ready"; "degraded"]) ∧
    (status = "degraded" ↔ code_ res = 200 ∧ redis_available w = false).
Proof.
  eexists _, (readiness_status w). split; [done|]. simpl. split; [done|].
  unfold is_ready, readiness_status.
  destruct (db_ready w), (shutting_down w), (redis_available w); simpl; set_solver by lia.
Qed.
End Properties.

(** The watcher before any signal. *)
Definition watcher_init : watcher := Watcher false false false 0 false.

Definition watcher_inv (w : watcher) : Prop :=
  (finished w = false → stops w = O) ∧
  (draining w = true → finished w = false ∧ w_shutting_down w = true ∧ signal_received w = true) ∧
  (stops w ≤ 1)%nat ∧
  ((0 < stops w)%nat → signal_received w = true ∧ w_shutting_down w = true).

Lemma watcher_reachable w : rtc watcher_step watcher_init w → watcher_inv w.
Proof.
  apply (rtc_ind_r watcher_inv); [unfold watcher_inv; simpl; split_and!; (done || lia)|].
  unfold watcher_inv. intros w1 w2 _ H12 (IH1 & IH2 & IH3 & IH4).
  destruct H12; simpl in *;
    try (specialize (IH1 eq_refl)); try (specialize (IH2 eq_refl) as (? & ? & ?)); subst;
    split_and!; intros; try done; try lia; naive_solver.
Qed.

(** Drain before stop: in every state the watcher reaches, [app.stop()] has been
    called at most once, only after a signal, and only after requests were being turned
    away; and while it waits for the drain nothing has been stopped yet. *)
Theorem drain_before_stop (w : watcher) :
  rtc watcher_step watcher_init w →
  (stops w ≤ 1)%nat ∧
  ((0 < stops w)%nat → signal_received w = true ∧ w_shutting_down w = true ∧ finished w = true) ∧
  (draining w = true → w_shutting_down w = true ∧ stops w = O ∧ finished w = false).
Proof.
  intros (H1 & H2 & H3 & H4)%watcher_reachable. split; [done|]. split.
  - intros Hs. destruct (H4 Hs) as [? ?]. split_and!; try done.
    destruct (finished w); [done|]. specialize (H1 eq_refl). lia.
  - intros Hd. destruct (H2 Hd) as (Hf & ? & ?). split_and!; auto.
Qed.

Lemma drain_before_stop_witness :
  rtc watcher_step watcher_init (Watcher true true false 1 true) ∧
  stops (Watcher true true false 1 true) = 1%nat ∧
  signal_received (Watcher true true false 1 true) = true.
Proof.
  assert (rtc watcher_step watcher_init (Watcher true true false 1 true)) as Hr.
  { eapply rtc_l; [apply signal_arrives|]. eapply rtc_l; [by apply enter_drain|].
    eapply rtc_l; [apply drained|]. apply rtc_refl. }
  split_and!; [exact Hr|done|].
  apply (proj1 (proj2 (drain_before_stop _ Hr))). simpl. lia.
Defined.
