(* ===== verification/Connection.v ===== *)
(** * crow/http_connection.h and crow/parser.h

    [HTTPParser]'s callbacks and the [Connection] they drive, with the application of
    main.cpp behind it.  The tokenizer (Tokenizer.v) is represented by the callbacks it makes
    ([event]s), and Session.v puts the two together; a callback that leaves an error in the
    parser ends the feed.  Timers are not represented, and a write on an open socket succeeds. *)

From S2P Require Import Prelude Doubles JsonRead JsonWrite Utility QueryString Http Service.
From S2P Require Import OrderRoutes Middleware AppMiddlewares Trie Router Main.
Open Scope Z_scope.

(** ** State *)

(** The members of [HTTPParser] and [Connection] except the response, the context and the
    middlewares, which the router's monad holds. *)
Record connection : Type := Connection_ {
  req_ : request;
  header_field : string;
  header_value : string;
  header_building_state : Z;
  message_complete : bool;
  in_message : bool;                    (* the tokenizer's state is not the start state *)
  parse_error : bool;                   (* [http_errno] is not [CHPE_OK] *)
  routing_handle_result_ : option routing_handle_result;
  close_connection_ : bool;
  continue_requested : bool;
  need_to_call_after_handlers_ : bool;
  need_to_start_read_after_complete_ : bool;
  add_keep_alive_ : bool;
  buffers_ : string;
  is_open : bool;                       (* [adaptor_.is_open()] *)
  reading : bool;                       (* a read is pending *)
  wire : list string;                   (* what was written, a message an element, newest first *)
}.
Definition connection_new : connection :=
  Connection_ request_empty "" "" 0 false false false None false false false false false "" true
    true [].

Definition set_req (r : request) (c : connection) : connection :=
  Connection_ r (header_field c) (header_value c) (header_building_state c) (message_complete c)
    (in_message c) (parse_error c) (routing_handle_result_ c) (close_connection_ c)
    (continue_requested c) (need_to_call_after_handlers_ c) (need_to_start_read_after_complete_ c)
    (add_keep_alive_ c) (buffers_ c) (is_open c) (reading c) (wire c).
Definition set_header_parts (f v : string) (st : Z) (c : connection) : connection :=
  Connection_ (req_ c) f v st (message_complete c) (in_message c) (parse_error c)
    (routing_handle_result_ c) (close_connection_ c) (continue_requested c)
    (need_to_call_after_handlers_ c) (need_to_start_read_after_complete_ c) (add_keep_alive_ c)
    (buffers_ c) (is_open c) (reading c) (wire c).
Definition set_parser (complete inm error : bool) (c : connection) : connection :=
  Connection_ (req_ c) (header_field c) (header_value c) (header_building_state c) complete inm
    error (routing_handle_result_ c) (close_connection_ c) (continue_requested c)
    (need_to_call_after_handlers_ c) (need_to_start_read_after_complete_ c) (add_keep_alive_ c)
    (buffers_ c) (is_open c) (reading c) (wire c).
Definition set_routing (h : routing_handle_result) (c : connection) : connection :=
  Connection_ (req_ c) (header_field c) (header_value c) (header_building_state c)
    (message_complete c) (in_message c) (parse_error c) (Some h) (close_connection_ c)
    (continue_requested c) (need_to_call_after_handlers_ c) (need_to_start_read_after_complete_ c)
    (add_keep_alive_ c) (buffers_ c) (is_open c) (reading c) (wire c).
Definition set_close (b : bool) (c : connection) : connection :=
  Connection_ (req_ c) (header_field c) (header_value c) (header_building_state c)
    (message_complete c) (in_message c) (parse_error c) (routing_handle_result_ c) b
    (continue_requested c) (need_to_call_after_handlers_ c) (need_to_start_read_after_complete_ c)
    (add_keep_alive_ c) (buffers_ c) (is_open c) (reading c) (wire c).
Definition set_continue (b : bool) (c : connection) : connection :=
  Connection_ (req_ c) (header_field c) (header_value c) (header_building_state c)
    (message_complete c) (in_message c) (parse_error c) (routing_handle_result_ c)
    (close_connection_ c) b (need_to_call_after_handlers_ c)
    (need_to_start_read_after_complete_ c) (add_keep_alive_ c) (buffers_ c) (is_open c)
    (reading c) (wire c).
Definition set_need_after (b : bool) (c : connection) : connection :=
  Connection_ (req_ c) (header_field c) (header_value c) (header_building_state c)
    (message_complete c) (in_message c) (parse_error c) (routing_handle_result_ c)
    (close_connection_ c) (continue_requested c) b (need_to_start_read_after_complete_ c)
    (add_keep_alive_ c) (buffers_ c) (is_open c) (reading c) (wire c).
Definition set_need_read (b : bool) (c : connection) : connection :=
  Connection_ (req_ c) (header_field c) (header_value c) (header_building_state c)
    (message_complete c) (in_message c) (parse_error c) (routing_handle_result_ c)
    (close_connection_ c) (continue_requested c) (need_to_call_after_handlers_ c) b
    (add_keep_alive_ c) (buffers_ c) (is_open c) (reading c) (wire c).
Definition set_keep_alive (b : bool) (c : connection) : connection :=
  Connection_ (req_ c) (header_field c) (header_value c) (header_building_state c)
    (message_complete c) (in_message c) (parse_error c) (routing_handle_result_ c)
    (close_connection_ c) (continue_requested c) (need_to_call_after_handlers_ c)
    (need_to_start_read_after_complete_ c) b (buffers_ c) (is_open c) (reading c) (wire c).
Definition set_buffers (s : string) (c : connection) : connection :=
  Connection_ (req_ c) (header_field c) (header_value c) (header_building_state c)
    (message_complete c) (in_message c) (parse_error c) (routing_handle_result_ c)
    (close_connection_ c) (continue_requested c) (need_to_call_after_handlers_ c)
    (need_to_start_read_after_complete_ c) (add_keep_alive_ c) s (is_open c) (reading c) (wire c).
Definition set_socket (open rd : bool) (c : connection) : connection :=
  Connection_ (req_ c) (header_field c) (header_value c) (header_building_state c)
    (message_complete c) (in_message c) (parse_error c) (routing_handle_result_ c)
    (close_connection_ c) (continue_requested c) (need_to_call_after_handlers_ c)
    (need_to_start_read_after_complete_ c) (add_keep_alive_ c) (buffers_ c) open rd (wire c).
Definition set_wire (l : list string) (c : connection) : connection :=
  Connection_ (req_ c) (header_field c) (header_value c) (header_building_state c)
    (message_complete c) (in_message c) (parse_error c) (routing_handle_result_ c)
    (close_connection_ c) (continue_requested c) (need_to_call_after_handlers_ c)
    (need_to_start_read_after_complete_ c) (add_keep_alive_ c) (buffers_ c) (is_open c)
    (reading c) l.

(** ** The parser's wrapper *)

(** [HTTPParser::clear]; the error stays. *)
Definition parser_clear (c : connection) : connection :=
  set_req request_empty (set_header_parts "" "" 0 (set_parser false false (parse_error c) c)).
(** [HTTPParser::done]: end of input inside a message is an error. *)
Definition parser_done (c : connection) : connection :=
  if message_complete c || parse_error c then c
  else if in_message c then set_parser false true true c else c.

(** [set_connection_parameters], from the version and the flags of the tokenizer. *)
Definition set_connection_parameters (major minor : Z) (flag_keep_alive flag_close upgrade : bool)
  (r : request) : request :=
  let http10 := (major =? 1) && (minor =? 0) in
  let http11 := (major =? 1) && (minor =? 1) in
  Request (req_method r) (req_raw_url r) (req_url r) (req_url_params r) (req_headers r)
    (req_body r) (req_remote_ip_address r) major minor
    (if http10 then flag_keep_alive else http11)
    (if http10 then negb flag_keep_alive else if http11 then flag_close else false)
    upgrade.

Definition req_set_method (m : HTTPMethod) (r : request) : request :=
  Request m (req_raw_url r) (req_url r) (req_url_params r) (req_headers r) (req_body r)
    (req_remote_ip_address r) (req_http_ver_major r) (req_http_ver_minor r) (req_keep_alive r)
    (req_close_connection r) (req_upgrade r).
(** [on_url] on one part of the URL; [qs_point] is where the tokenizer saw a [?]. *)
Definition req_append_url (part : string) (qs_point : Z) (r : request) : request :=
  let raw := req_raw_url r +:+ part in
  Request (req_method r) raw
    (if qs_point =? 0 then raw else String.substring 0 (Z.to_nat qs_point) raw)
    (query_string_of raw true) (req_headers r) (req_body r) (req_remote_ip_address r)
    (req_http_ver_major r) (req_http_ver_minor r) (req_keep_alive r) (req_close_connection r)
    (req_upgrade r).
Definition req_append_body (part : string) (r : request) : request :=
  Request (req_method r) (req_raw_url r) (req_url r) (req_url_params r) (req_headers r)
    (req_body r +:+ part) (req_remote_ip_address r) (req_http_ver_major r) (req_http_ver_minor r)
    (req_keep_alive r) (req_close_connection r) (req_upgrade r).
Definition req_set_remote (ip : string) (r : request) : request :=
  Request (req_method r) (req_raw_url r) (req_url r) (req_url_params r) (req_headers r)
    (req_body r) ip (req_http_ver_major r) (req_http_ver_minor r) (req_keep_alive r)
    (req_close_connection r) (req_upgrade r).

Definition on_header_field (part : string) (c : connection) : connection :=
  if header_building_state c =? 0 then
    let c := if decide (header_value c = "") then c
             else set_header_parts (header_field c) "" 0
                    (set_req (req_add_header (req_ c) (header_field c) (header_value c)) c) in
    set_header_parts part (header_value c) 1 c
  else set_header_parts (header_field c +:+ part) (header_value c) 1 c.
Definition on_header_value (part : string) (c : connection) : connection :=
  if header_building_state c =? 0
  then set_header_parts (header_field c) (header_value c +:+ part) 0 c
  else set_header_parts (header_field c) part 0 c.
(** The last header is stored even if its value is empty. *)
Definition flush_header (c : connection) : connection :=
  if decide (header_field c = "") then c
  else set_header_parts "" "" (header_building_state c)
         (set_req (req_add_header (req_ c) (header_field c) (header_value c)) c).

(** ** The connection *)

Definition status_lines : list (Z * string) :=
  [(100, "HTTP/1.1 100 Continue"); (101, "HTTP/1.1 101 Switching Protocols");
   (200, "HTTP/1.1 200 OK"); (201, "HTTP/1.1 201 Created"); (202, "HTTP/1.1 202 Accepted");
   (203, "HTTP/1.1 203 Non-Authoritative Information"); (204, "HTTP/1.1 204 No Content");
   (205, "HTTP/1.1 205 Reset Content"); (206, "HTTP/1.1 206 Partial Content");
   (300, "HTTP/1.1 300 Multiple Choices"); (301, "HTTP/1.1 301 Moved Permanently");
   (302, "HTTP/1.1 302 Found"); (303, "HTTP/1.1 303 See Other");
   (304, "HTTP/1.1 304 Not Modified"); (307, "HTTP/1.1 307 Temporary Redirect");
   (308, "HTTP/1.1 308 Permanent Redirect");
   (400, "HTTP/1.1 400 Bad Request"); (401, "HTTP/1.1 401 Unauthorized");
   (403, "HTTP/1.1 403 Forbidden"); (404, "HTTP/1.1 404 Not Found");
   (405, "HTTP/1.1 405 Method Not Allowed"); (406, "HTTP/1.1 406 Not Acceptable");
   (407, "HTTP/1.1 407 Proxy Authentication Required"); (409, "HTTP/1.1 409 Conflict");
   (410, "HTTP/1.1 410 Gone"); (413, "HTTP/1.1 413 Payload Too Large");
   (415, "HTTP/1.1 415 Unsupported Media Type"); (416, "HTTP/1.1 416 Range Not Satisfiable");
   (417, "HTTP/1.1 417 Expectation Failed"); (428, "HTTP/1.1 428 Precondition Required");
   (429, "HTTP/1.1 429 Too Many Requests"); (451, "HTTP/1.1 451 Unavailable For Legal Reasons");
   (500, "HTTP/1.1 500 Internal Server Error"); (501, "HTTP/1.1 501 Not Implemented");
   (502, "HTTP/1.1 502 Bad Gateway"); (503, "HTTP/1.1 503 Service Unavailable");
   (504, "HTTP/1.1 504 Gateway Timeout"); (506, "HTTP/1.1 506 Variant Also Negotiates")].
Definition status_text (code : Z) : option string :=
  match list_find (λ kv : Z * string, fst kv = code) status_lines with
  | Some (_, (_, line)) => Some (line +:+ crlf)
  | None => None
  end.

(** [status.substr(9)]: the code and the reason, with the line end. *)
Definition reason (code : Z) : string :=
  match status_text code with
  | Some l => String.substring 9 (String.length l) l
  | None => ""
  end.

Section Connection.
Context `{ss : !StdSort, ui : !UMapIter, sq : !Sqlite, rd : !Redis, ev : !Environment}.
Context `{fs : !FileSystem}.
(** The [Server] header, the cached [Date] text and the peer's address. *)
Context (server_name date_str peer : string).
Context (rt : Router (connection * world) context).

Definition W : Type := connection * world.
Definition CR (A : Type) : Type := R (S := W) (C := context) A.

Definition get_conn : CR connection := gets (λ x, fst (snd x)).
Definition modify_conn (f : connection → connection) : CR unit :=
  modify (λ x, (fst x, (f (fst (snd x)), snd (snd x)))).
Definition set_ctx (ctx : context) : CR unit := modify (λ x, (fst (fst x), ctx, snd x)).

(** The global middlewares act on the world. *)
Definition world_mws {A} (f : response → context → M world (A * (response * context))) : CR A :=
  run_middlewares (λ res ctx, on_world (f res ctx)).

(** The header's text: the status line, a line a header, and the ones [Connection] adds. *)
Definition header_line (k v : string) : string := k +:+ ": " +:+ v +:+ crlf.
Definition head_of (res : response) (add_keep_alive : bool) : string :=
  default "" (status_text (code_ res))
  +:+ String.concat "" ((λ kv, header_line (fst kv) (snd kv)) <$> umap_iter (headers res))
  +:+ (if negb (manual_length_header res)
          && bool_decide (ci_count (headers res) "content-length" = 0%nat)
       then header_line "Content-Length" (to_string (Z.of_nat (String.length (body res)))) else "")
  +:+ (if bool_decide (ci_count (headers res) "server" = 0%nat)
          && negb (bool_decide (server_name = ""))
       then header_line "Server" server_name else "")
  +:+ (if bool_decide (ci_count (headers res) "date" = 0%nat)
       then header_line "Date" date_str else "")
  +:+ (if add_keep_alive then "Connection: Keep-Alive" +:+ crlf else "")
  +:+ crlf.
(** The response as it is sent: an unknown code is 500, and an error has a body. *)
Definition normalize (res : response) : response :=
  let res := if decide (status_text (code_ res) = None) then set_code 500 res else res in
  if (400 <=? code_ res) && bool_decide (body res = "") then set_body (reason (code_ res)) res
  else res.
Definition prepare_buffers : CR unit :=
  _ ← modify_res (set_handlers no_handler false);
  c ← get_conn;
  if negb (is_open c) then mret tt
  else
    _ ← modify_res normalize;
    res ← get_res;
    modify_conn (set_buffers (head_of res (add_keep_alive_ c))).

(** [asio::write]: without an error code it throws. *)
Definition do_write_sync (text : string) : CR unit :=
  _ ← modify_conn (λ c, if is_open c then set_wire (text :: wire c) c else c);
  _ ← modify_res res_clear;
  modify_conn (λ c, if continue_requested c then set_continue false c else parser_clear c).
Definition write_or_throw (text : string) : CR unit :=
  c ← get_conn;
  if is_open c then modify_conn (set_wire (text :: wire c))
  else throw (RuntimeError "asio::write").
Definition close_if_asked : CR unit :=
  modify_conn (λ c, if close_connection_ c then set_socket false (reading c) c else c).
(** The end of the two functions that do not go through one [do_write_sync]. *)
Definition after_stream : CR unit :=
  _ ← close_if_asked;
  _ ← end_ no_completions;
  _ ← modify_res res_clear;
  modify_conn (λ c, parser_clear (set_buffers "" c)).

(** The pieces of [n] characters a text is sent in. *)
Fixpoint pieces (fuel n : nat) (s : string) : list string :=
  match fuel, s with
  | _, EmptyString | O, _ => []
  | Datatypes.S fuel', _ =>
      String.substring 0 n s :: pieces fuel' n (String.substring n (String.length s - n) s)
  end.
Fixpoint write_pieces (l : list string) : CR unit :=
  match l with [] => mret tt | x :: l' => _ ← do_write_sync x; write_pieces l' end.
Definition chunks (s : string) : list string := pieces (String.length s) (Z.to_nat 16384) s.

Definition do_write_static : CR unit :=
  c ← get_conn;
  res ← get_res;
  _ ← write_or_throw (buffers_ c);
  _ ← (if sf_statResult (file_info res) =? 0
       then write_pieces (chunks (fs_read (c_str (sf_path (file_info res))))) else mret tt);
  after_stream.

Definition res_stream_threshold_ : Z := 1048576.
Definition start_read : CR unit := modify_conn (λ c,
  if need_to_start_read_after_complete_ c then set_socket (is_open c) true (set_need_read false c)
  else c).
(** The chunks are read through a pointer into the body [do_write_sync] clears: the
    characters stay where they are. *)
Definition do_write_general : CR unit :=
  c ← get_conn;
  res ← get_res;
  if slen (body res) <? res_stream_threshold_ then
    _ ← do_write_sync (buffers_ c +:+ body res);
    start_read
  else
    _ ← write_or_throw (buffers_ c);
    _ ← write_pieces (chunks (body res));
    after_stream.

(** Call the after handlers, if they are due, and write the response. *)
Definition complete_request : CR unit :=
  _ ← modify_res (λ res, set_handlers (complete_request_handler_ res) false res);
  c ← get_conn;
  _ ← (if need_to_call_after_handlers_ c then
         _ ← modify_conn (set_need_after false);
         world_mws (λ res ctx, rc ← after_chain (req_ c) res ctx; mret (tt, rc))
       else mret tt);
  _ ← prepare_buffers;
  res ← get_res;
  if is_static_type res then do_write_static else do_write_general.

Definition handle_url : CR unit :=
  c ← get_conn;
  h ← handle_initial rt (req_ c);
  _ ← modify_conn (set_routing h);
  if rh_rule_index h =? 0 then
    _ ← modify_conn parser_done;
    _ ← modify_conn (set_need_after true);
    complete_request
  else mret tt.

Definition handle_header : CR unit :=
  c ← get_conn;
  if check_version (req_ c) 1 1
     && bool_decide (req_get_header_value (req_ c) "expect" = "100-continue") then
    _ ← modify_conn (set_continue true);
    let text := "HTTP/1.1 100 Continue" +:+ crlf +:+ crlf in
    _ ← modify_conn (set_buffers text);
    do_write_sync text
  else mret tt.

(** The request passes the global middlewares, then the router. *)
Definition handle_valid : CR unit :=
  _ ← modify_res (set_handlers no_handler true);
  c ← get_conn;
  _ ← world_mws (λ res ctx, before_chain (req_ c) res ctx);
  res ← get_res;
  if (completed_ res : bool) then complete_request
  else
    _ ← modify_res (λ res, set_handlers connection_handler (is_alive_set res) res);
    _ ← modify_conn (set_need_after true);
    c ← get_conn;
    match routing_handle_result_ c with
    | None => throw (UB "null routing result")
    | Some h =>
        _ ← handle rt [] (req_ c) h complete_request;
        c ← get_conn;
        if add_keep_alive_ c then modify_res (set_header "connection" "Keep-Alive") else mret tt
    end.
Definition handle_upgraded : CR unit :=
  c ← get_conn;
  _ ← world_mws (λ res ctx, before_chain (req_ c) res ctx);
  _ ← modify_conn (set_close true);
  handle_upgrade rt (req_ c).
Definition conn_handle : CR unit :=
  _ ← set_ctx context_default;
  _ ← modify_conn (λ c, set_req (req_set_remote peer (req_ c)) c);
  c ← get_conn;
  let req := req_ c in
  _ ← modify_conn (λ c, set_close (req_close_connection req) (set_keep_alive (req_keep_alive req) c));
  let http11 := check_version req 1 1 in
  if http11 && bool_decide (ci_count (req_headers req) "host" = 0%nat) then
    _ ← assign_res (response_code 400);
    _ ← modify_conn (set_need_after false);
    complete_request
  else if http11 && req_upgrade req
          && negb (starts_with "h2" (req_get_header_value req "upgrade")) then handle_upgraded
  else
    _ ← modify_conn (set_need_after false);
    handle_valid.

(** ** Callbacks *)

(** What the tokenizer reports. *)
Inductive event : Type :=
| OnMethod (m : HTTPMethod)
| OnUrl (part : string) (qs_point : Z)
| OnHeaderField (part : string)
| OnHeaderValue (part : string)
| OnHeadersComplete (major minor : Z) (flag_keep_alive flag_close upgrade : bool)
| OnBody (part : string)
| OnMessageComplete.

Definition on_event (e : event) : CR unit :=
  match e with
  | OnMethod m => modify_conn (λ c,
      set_parser (message_complete c) true (parse_error c) (set_req (req_set_method m (req_ c)) c))
  | OnUrl part qs_point =>
      _ ← modify_conn (λ c, set_req (req_append_url part qs_point (req_ c)) c);
      handle_url
  | OnHeaderField part => modify_conn (on_header_field part)
  | OnHeaderValue part => modify_conn (on_header_value part)
  | OnHeadersComplete major minor ka cl up =>
      _ ← modify_conn (λ c, let c := flush_header c in
            set_req (set_connection_parameters major minor ka cl up (req_ c)) c);
      handle_header
  | OnBody part => modify_conn (λ c, set_req (req_append_body part (req_ c)) c)
  | OnMessageComplete =>
      _ ← modify_conn (λ c, set_parser true (in_message c) (parse_error c) c);
      conn_handle
  end.
Fixpoint execute (evs : list event) : CR unit :=
  match evs with
  | [] => mret tt
  | e :: evs' =>
      _ ← on_event e;
      c ← get_conn;
      if parse_error c then mret tt else execute evs'
  end.
(** [feed]: [consumed] says that the tokenizer took every byte of the buffer. *)
Definition feed (evs : list event) (consumed : bool) : CR bool :=
  c ← get_conn;
  if message_complete c then mret true
  else if parse_error c then mret false
  else
    _ ← execute evs;
    c ← get_conn;
    mret (negb (parse_error c) && consumed).

(** The handler of [async_read_some]; [None] is a read error. *)
Definition on_read (input : option (list event * bool)) : CR unit :=
  _ ← modify_conn (λ c, set_socket (is_open c) false c);
  ret ← match input with
        | Some (evs, consumed) => feed evs consumed
        | None => mret false
        end;
  c ← get_conn;
  if negb (ret && is_open c) then
    modify_conn (λ c, set_socket false false (parser_done c))
  else if close_connection_ c then modify_conn parser_done
  else if negb (need_to_call_after_handlers_ c) then
    modify_conn (λ c, set_socket (is_open c) true c)
  else modify_conn (set_need_read true).
End Connection.
