(* ===== verification/ConnectionSpec.v ===== *)
(** * One request, one response

    Rules for the functions of Connection.v, and what [conn_handle] does with a complete
    request: exactly one response on the wire, the accounting balanced, and the
    connection ready for the next request. *)

From S2P Require Import Prelude Doubles JsonRead JsonWrite Utility QueryString Http Service.
From S2P Require Import OrderRoutes Wp Middleware AppMiddlewares Trie Router Main Connection.
Open Scope Z_scope.

(** The chunks of a text are the text. *)
Lemma pieces_concat fuel n s :
  (0 < n)%nat → (String.length s ≤ fuel)%nat → String.concat "" (pieces fuel n s) = s.
Proof.
  intros Hn. revert s. induction fuel as [|fuel IH]; intros s Hs; [destruct s; [done|simpl in Hs; lia]|].
  destruct s as [|c s]; [done|]. cbn [pieces]. rewrite string_concat_cons, IH.
  - apply substring_split.
  - destruct (decide (n ≤ String.length (String c s))%nat) as [Hle|Hgt].
    + rewrite substring_length by done. simpl in *. lia.
    + assert (String.length (String c s) - n = 0)%nat as -> by lia.
      assert (∀ t k, String.length (String.substring k 0 t) = 0)%nat as ->; [|lia].
      induction t as [|d t IHt]; intros [|k]; simpl; auto.
Qed.
Lemma chunks_concat s : String.concat "" (chunks s) = s.
Proof. apply pieces_concat; lia. Qed.

(** One bind with a plain update or a read in front. *)
Ltac wp_step :=
  apply wp_bind; first [apply wp_gets|apply wp_modify|apply wp_ret]; cbn beta iota; cbn [fst snd].

Section Spec.
Context `{ss : !StdSort, ui : !UMapIter, sq : !Sqlite, rd : !Redis, ev : !Environment}.
Context `{fs : !FileSystem}.
Context (server_name date_str peer : string).
Context (rt : Router (connection * world) context).
Implicit Types (w : world) (c : connection) (res : response) (ctx : context).

Abbreviation state := (response * context * (connection * world))%type.

(** The body a response is sent with. *)
Definition payload res : string :=
  if is_static_type res then
    if sf_statResult (file_info res) =? 0 then fs_read (c_str (sf_path (file_info res))) else ""
  else body res.
(** The whole message. *)
Definition message (keep_alive : bool) res : string :=
  head_of server_name date_str (normalize res) keep_alive +:+ payload (normalize res).

(** [c'] is [c] after [text] was sent and the parser reset. *)
Record sent (text : string) c c' : Prop := {
  sn_wire : ∃ new, wire c' = new ++ wire c ∧ String.concat "" (rev new) = text;
  sn_req : req_ c' = request_empty;
  sn_field : header_field c' = "";
  sn_value : header_value c' = "";
  sn_state : header_building_state c' = 0;
  sn_complete : message_complete c' = false;
  sn_in : in_message c' = false;
  sn_error : parse_error c' = parse_error c;
  sn_after : need_to_call_after_handlers_ c' = need_to_call_after_handlers_ c;
  sn_continue : continue_requested c' = false;
  sn_close : close_connection_ c' = close_connection_ c;
  sn_keep_alive : add_keep_alive_ c' = add_keep_alive_ c;
  sn_read : need_to_start_read_after_complete_ c' = need_to_start_read_after_complete_ c;
  sn_open : is_open c' = is_open c ∨ is_open c' = false ∧ close_connection_ c = true;
}.

Lemma wp_do_write_sync text (Q : result () → state → Prop) res ctx c w :
  is_open c = true → continue_requested c = false →
  Q (Ok ()) (res_clear res, ctx, (parser_clear (set_wire (text :: wire c) c), w)) →
  wp (do_write_sync text) Q (res, ctx, (c, w)).
Proof.
  intros Ho Hc H. unfold do_write_sync, modify_conn, modify_res. wp_pure. simpl. rewrite Ho. simpl.
  by rewrite Hc.
Qed.

Lemma parser_clear_wire l l' c :
  parser_clear (set_wire (l ++ wire (parser_clear (set_wire l' c))) (parser_clear (set_wire l' c)))
  = parser_clear (set_wire (l ++ l') c).
Proof. by destruct c. Qed.

Lemma wp_write_pieces l (Q : result () → state → Prop) res ctx c w :
  is_open c = true → continue_requested c = false →
  (∀ res' c', (l = [] ∧ res' = res ∧ c' = c ∨
               res' = res_clear res ∧ c' = parser_clear (set_wire (rev l ++ wire c) c)) →
     Q (Ok ()) (res', ctx, (c', w))) →
  wp (write_pieces l) Q (res, ctx, (c, w)).
Proof.
  intros Ho Hc. revert res c Ho Hc. induction l as [|x l IH]; intros res c Ho Hc H; simpl.
  { apply wp_ret, H. by left. }
  wp_pure. apply wp_do_write_sync; [done|done|]. apply IH; [done|done|].
  intros res' c' [(-> & -> & ->)|[-> ->]]; apply H; right; (split; [reflexivity|]).
  - reflexivity.
  - rewrite parser_clear_wire. simpl rev. by rewrite <- app_assoc.
Qed.

(** ** Sending a response *)

Lemma normalize_flags res :
  completed_ (normalize res) = completed_ res ∧ skip_body (normalize res) = skip_body res ∧
  manual_length_header (normalize res) = manual_length_header res ∧
  complete_request_handler_ (normalize res) = complete_request_handler_ res ∧
  is_alive_set (normalize res) = is_alive_set res ∧ headers (normalize res) = headers res ∧
  file_info (normalize res) = file_info res.
Proof. unfold normalize. destruct (decide _), (_ && _); by split_and!. Qed.

Lemma normalize_handlers h a res :
  normalize (set_handlers h a res) = set_handlers h a (normalize res).
Proof.
  unfold normalize. simpl. destruct (decide (status_text (code_ res) = None)); simpl.
  - by destruct (bool_decide _).
  - by destruct (_ && _).
Qed.
Lemma message_handlers ka h a res : message ka (set_handlers h a res) = message ka res.
Proof. unfold message. by rewrite normalize_handlers. Qed.

(** What a code with no status line becomes. *)
Lemma normalize_spec res :
  is_Some (status_text (code_ (normalize res))) ∧
  (400 ≤ code_ (normalize res) → body (normalize res) ≠ "") ∧
  (code_ (normalize res) = code_ res ∨ code_ (normalize res) = 500 ∧ status_text (code_ res) = None).
Proof.
  assert (∀ code, is_Some (status_text code) → reason code ≠ "") as Hreason.
  { intros code (t & Ht). unfold reason. rewrite Ht. unfold status_text in Ht.
    destruct (list_find _ status_lines) as [[i [k l]]|] eqn:E; [|done]. injection Ht as <-.
    apply list_find_Some in E as (Hi & _ & _). unfold status_lines in Hi.
    repeat (destruct i as [|i]; [injection Hi as <- <-; by vm_compute|]). done. }
  unfold normalize. destruct (decide (status_text (code_ res) = None)) as [Hn|Hn].
  - simpl. destruct (bool_decide (body res = "")) eqn:Hb; simpl.
    + split_and!; [done|by intros _; apply Hreason|by right].
    + apply bool_decide_eq_false in Hb. split_and!; [done|done|by right].
  - apply not_eq_None_Some in Hn. destruct (Z.leb_spec 400 (code_ res)); simpl.
    + destruct (bool_decide (body res = "")) eqn:Hb; simpl.
      * split_and!; [done|by intros _; apply Hreason|by left].
      * apply bool_decide_eq_false in Hb. split_and!; [done|done|by left].
    + split_and!; [done|lia|by left].
Qed.

(** Sending leaves the response of a new request. *)
Definition send : CR () :=
  _ ← prepare_buffers server_name date_str;
  res ← get_res;
  if is_static_type res then do_write_static else do_write_general.

Lemma sent_sync text c :
  continue_requested c = false → sent text c (parser_clear (set_wire (text :: wire c) c)).
Proof.
  intros Hc. split; try by destruct c.
  - exists [text]. by destruct c.
  - left. by destruct c.
Qed.

Lemma sent_transfer text c1 c2 c' :
  sent text c1 c' → wire c1 = wire c2 → parse_error c1 = parse_error c2 →
  need_to_call_after_handlers_ c1 = need_to_call_after_handlers_ c2 →
  close_connection_ c1 = close_connection_ c2 → add_keep_alive_ c1 = add_keep_alive_ c2 →
  need_to_start_read_after_complete_ c1 = need_to_start_read_after_complete_ c2 →
  is_open c1 = is_open c2 → sent text c2 c'.
Proof. intros [] Hw H1 H2 H3 H4 H5 H6. split; congruence || (rewrite <- ?Hw, <- ?H3, <- ?H6; done). Qed.

(** The streaming path: a first write, the chunks, and the end of the stream. *)
Lemma wp_stream first l (Q : result () → state → Prop) res ctx c w :
  is_open c = true → continue_requested c = false → skip_body res = false →
  manual_length_header res = false → complete_request_handler_ res = no_handler →
  is_alive_set res = false →
  (∀ c', sent (first +:+ String.concat "" l) c c' → Q (Ok ()) (response_default, ctx, (c', w))) →
  wp (_ ← write_or_throw first; _ ← write_pieces l; after_stream) Q (res, ctx, (c, w)).
Proof.
  intros Ho Hc Hs Hm Hh Ha H. unfold write_or_throw, get_conn. wp_pure. simpl. rewrite Ho.
  unfold modify_conn at 1. wp_pure. simpl.
  apply wp_write_pieces; [by destruct c|by destruct c|]. intros res' c' Hw.
  assert (sent (first +:+ String.concat "" l) c
    (parser_clear (set_buffers "" (if close_connection_ c then set_socket false (reading c) c' else c'))))
    as Hsent.
  { destruct (close_connection_ c) eqn:Hcl; destruct Hw as [(-> & -> & ->)|[-> ->]];
      split; try (by destruct c); try (destruct c; simpl in *; by auto).
    all: try (exists [first]; split; [by destruct c|simpl; by rewrite string_app_nil_r]).
    all: exists (rev l ++ [first]); rewrite rev_app_distr, rev_involutive;
      (split; [destruct c; simpl; by rewrite <- app_assoc|]);
      change (rev [first] ++ l) with (first :: l); by rewrite string_concat_cons. }
  assert (skip_body res' = false ∧ manual_length_header res' = false ∧
    complete_request_handler_ res' = no_handler ∧ is_alive_set res' = false) as (Hs' & Hm' & Hh' & Ha').
  { by destruct Hw as [(_ & -> & _)|[-> _]]. }
  assert (close_connection_ c' = close_connection_ c ∧ reading c' = reading c) as [Hcl Hrd].
  { destruct Hw as [(_ & _ & ->)|[_ ->]]; by destruct c. }
  specialize (H _ Hsent). unfold after_stream, close_if_asked, end_, modify_conn, modify_res, get_res.
  wp_pure. cbn [fst snd]. rewrite Hcl, Hrd.
  assert (res_clear res' = response_default) as Hclear.
  { destruct res'. simpl in *. by subst. }
  unfold res_end_start. destruct (completed_ res'); wp_pure; cbn [fst snd].
  - by rewrite Hclear.
  - change (skip_body (set_completed true res')) with (skip_body res'). rewrite Hs'.
    change (complete_request_handler_ (set_completed true res')) with (complete_request_handler_ res').
    rewrite Hh'. rewrite decide_True by done. wp_pure. cbn [fst snd].
    change (res_clear (set_completed true res')) with (res_clear res'). by rewrite Hclear.
Qed.

(** The response a connection is about to send, and the connection it goes out on. *)
Record sendable res c : Prop := {
  sd_open : is_open c = true;
  sd_continue : continue_requested c = false;
  sd_skip : skip_body res = false;
  sd_manual : manual_length_header res = false;
}.

Lemma wp_send (Q : result () → state → Prop) res ctx c w :
  sendable res c → need_to_start_read_after_complete_ c = false →
  (∀ c', sent (message (add_keep_alive_ c) res) c c' →
     Q (Ok ()) (response_default, ctx, (c', w))) →
  wp send Q (res, ctx, (c, w)).
Proof.
  intros [Ho Hc Hs Hm] Hnr H. unfold send, prepare_buffers, get_conn, get_res, modify_res, modify_conn.
  wp_pure. cbn [fst snd]. rewrite Ho. cbn [negb]. wp_pure. cbn [fst snd].
  set (res1 := set_handlers no_handler false res).
  destruct (normalize_flags res1) as (_ & Hns & Hnm & Hnh & Hna & _ & _).
  set (head := head_of server_name date_str (normalize res1) (add_keep_alive_ c)).
  set (c1 := set_buffers head c).
  assert (∀ text c', sent text c1 c' → text = message (add_keep_alive_ c) res →
            Q (Ok ()) (response_default, ctx, (c', w))) as Hdone.
  { intros text c' Hc' ->. apply H. eapply sent_transfer; [exact Hc'|by destruct c..]. }
  assert (head +:+ payload (normalize res1) = message (add_keep_alive_ c) res) as Htext.
  { rewrite <- (message_handlers _ no_handler false). done. }
  destruct (is_static_type (normalize res1)) eqn:Hst.
  - unfold do_write_static, get_conn, get_res. do 2 wp_step.
    unfold payload in Htext. rewrite Hst in Htext.
    change (buffers_ c1) with head.
    destruct (sf_statResult (file_info (normalize res1)) =? 0).
    + apply wp_stream; [by destruct c|by destruct c|by rewrite Hns|by rewrite Hnm|done|done|].
      intros c' Hsent. eapply Hdone; [exact Hsent|]. by rewrite chunks_concat.
    + apply (wp_stream head []); [by destruct c|by destruct c|by rewrite Hns|by rewrite Hnm|done|done|].
      intros c' Hsent. by eapply Hdone; [exact Hsent|].
  - unfold do_write_general, get_conn, get_res. do 2 wp_step.
    unfold payload in Htext. rewrite Hst in Htext. change (buffers_ c1) with head.
    destruct (slen (body (normalize res1)) <? res_stream_threshold_).
    + apply wp_bind, wp_do_write_sync; [by destruct c|by destruct c|].
      unfold start_read, modify_conn. wp_pure. cbn [fst snd].
      match goal with |- context [if ?b then _ else _] =>
        assert (b = false) as -> by (by destruct c) end.
      assert (res_clear (normalize res1) = response_default) as ->.
      { unfold res_clear. rewrite Hns, Hnm, Hnh, Hna. unfold res1. simpl. by rewrite Hs, Hm. }
      eapply Hdone; [by apply sent_sync; destruct c|done].
    + apply wp_stream; [by destruct c|by destruct c|by rewrite Hns|by rewrite Hnm|done|done|].
      intros c' Hsent. eapply Hdone; [exact Hsent|]. by rewrite chunks_concat.
Qed.

(** ** Completing a request *)

Lemma wp_world_mws {A} f (Q : result A → state → Prop) res ctx c w :
  wp (f res ctx) (λ r w', match r with
    | Ok (a, rc) => Q (Ok a) (rc, (c, w'))
    | Throw e => Q (Throw e) (res, ctx, (c, w'))
    end) w →
  wp (world_mws f) Q (res, ctx, (c, w)).
Proof.
  unfold wp, world_mws, run_middlewares, on_world. simpl.
  by destruct (f res ctx w) as [[[a rc]|e] w'].
Qed.

Abbreviation complete := (complete_request server_name date_str).

Lemma wp_complete_now (Q : result () → state → Prop) res ctx c w :
  sendable res c → need_to_start_read_after_complete_ c = false →
  need_to_call_after_handlers_ c = false →
  (∀ c', sent (message (add_keep_alive_ c) res) c c' →
     Q (Ok ()) (response_default, ctx, (c', w))) →
  wp complete Q (res, ctx, (c, w)).
Proof.
  intros Hsd Hnr Hna H. unfold complete_request, modify_res at 1, get_conn at 1.
  do 2 wp_step. rewrite Hna. wp_step.
  apply (wp_send Q (set_handlers (complete_request_handler_ res) false res)).
  - destruct Hsd; by split.
  - done.
  - intros c' Hc'. rewrite message_handlers in Hc'. by apply H.
Qed.

Lemma wp_complete_after (Q : result () → state → Prop) res ctx c w :
  sendable res c → need_to_start_read_after_complete_ c = false →
  need_to_call_after_handlers_ c = true → int32_min < inflight w ≤ int32_max →
  (∀ res' w' c', no_backend w w' →
     inflight w' = inflight w - (if counted_inflight ctx then 1 else 0) →
     code_ res' = code_ res → (400 ≤ code_ res → body res' ≠ "") →
     (code_ res < 400 ∨ body res ≠ "" → body res' = body res) →
     sent (message (add_keep_alive_ c) res') (set_need_after false c) c' →
     Q (Ok ()) (response_default, ctx, (c', w'))) →
  wp complete Q (res, ctx, (c, w)).
Proof.
  intros [Ho Hc Hs Hm] Hnr Hna Hr H. unfold complete_request, modify_res at 1, get_conn at 1.
  do 2 wp_step. rewrite Hna. unfold modify_conn at 1. apply wp_bind. wp_step.
  apply wp_world_mws, wp_bind, wp_after_chain; [done|].
  intros res' w' Hnb Hi _ Hcode _ Hfl Hbody Hsame. apply wp_ret. cbn beta iota.
  apply (wp_send Q res' ctx (set_need_after false c)).
  - destruct Hfl as [Hf1 Hf2 _]. split; [by destruct c|by destruct c|by apply Hf1|].
    by rewrite Hf2.
  - by destruct c.
  - intros c' Hc'. apply (H res' w' c'); try done. intros Hb. by rewrite Hsame.
Qed.

(** ** The route's handler *)

(** What the router makes of a handler's result. *)
Definition answer (r : result response) : response :=
  match r with
  | Ok res => res
  | Throw (BadRequest m) => response_code_body 400 m
  | Throw _ => response_code 500
  end.

(** The handler of the route in [h]: [f] of the request and the parameters. *)
Definition routed (h : routing_handle_result)
  (f : request → routing_params → M world response) : Prop :=
  ∃ m r, rh_method h = Some m ∧ 2 ≤ rh_rule_index h ∧
    default [] (rules <$> per_methods_ rt !! method_index m) !! Z.to_nat (rh_rule_index h)
      = Some (Some r) ∧
    mw_indices_ r = [] ∧
    handler_ r = Some (wrapped_handler (λ req rp, on_world (f req rp))).

(** A handler that gives a meaning to every request, leaves the in-flight counter alone and
    returns a response nobody has completed. *)
Definition good_at (f : M world response) w : Prop :=
  wp f (λ r w', inflight w' = inflight w ∧ (∀ why, r ≠ Throw (UB why)) ∧
                completed_ (answer r) = false) w.
Definition good_handler (f : M world response) : Prop := ∀ w, good_at f w.

Lemma wp_end_connection (k : completions (S := W) (C := context)) (Q : result () → state → Prop)
  res ctx c w :
  completed_ res = false → skip_body res = false →
  complete_request_handler_ res = connection_handler →
  wp (k connection_handler) (λ r x, match r with
    | Ok _ => ∃ ctx' c' w', x = (response_default, ctx', (c', w')) ∧
                Q (Ok ()) (response_default, ctx', (c', w'))
    | Throw e => Q (Throw e) x
    end) (set_completed true res, ctx, (c, w)) →
  wp (end_ k) Q (res, ctx, (c, w)).
Proof.
  intros Hc Hs Hh H. unfold end_, get_res, modify_res. wp_step.
  unfold res_end_start. rewrite Hc.
  change (skip_body (set_completed true res)) with (skip_body res). rewrite Hs. wp_step.
  change (complete_request_handler_ (set_completed true res)) with (complete_request_handler_ res).
  rewrite Hh, decide_False by done. apply wp_bind. eapply wp_mono; [exact H|].
  intros [[]|e] x; [|done]. intros (ctx' & c' & w' & -> & HQ). by apply wp_modify.
Qed.

Lemma wp_routed h f mws req (Q : result () → state → Prop) res ctx c w :
  routed h f → good_at (f req (r_params (rh_found h))) w →
  sendable res c → need_to_start_read_after_complete_ c = false →
  need_to_call_after_handlers_ c = true → complete_request_handler_ res = connection_handler →
  int32_min < inflight w ≤ int32_max →
  (∀ r w1 res' w' c', f req (r_params (rh_found h)) w = (r, w1) → no_backend w1 w' →
     inflight w' = inflight w - (if counted_inflight ctx then 1 else 0) →
     code_ res' = code_ (answer r) → (400 ≤ code_ res' → body res' ≠ "") →
     (code_ res' < 400 → body res' = body (answer r)) →
     sent (message (add_keep_alive_ c) res') (set_need_after false c) c' →
     Q (Ok ()) (response_default, ctx, (c', w'))) →
  wp (handle rt mws req h complete) Q (res, ctx, (c, w)).
Proof.
  intros (m & r & Hm & Hi & Hr & Hmw & Hh) Hgood Hsd Hnr Hna Hch Hrange H.
  unfold good_at, wp in Hgood.
  destruct (f req (r_params (rh_found h)) w) as [rr w1] eqn:Hf. cbn [fst snd] in Hgood.
  destruct Hgood as (Hinf & Hub & Hcompl).
  assert (wp (end_ (rule_completions mws r req complete)) (λ r x, r = Ok () ∧ Q r x)
            (move_assign res (answer rr), ctx, (c, w1))) as Hend.
  { apply wp_end_connection; [done|by destruct Hsd|done|].
    change (wp complete (λ r x, match r with
      | Ok _ => ∃ ctx' c' w', x = (response_default, ctx', (c', w')) ∧
                Ok () = Ok () ∧ Q (Ok ()) (response_default, ctx', (c', w'))
      | Throw e => Throw e = Ok () ∧ Q (Throw e) x
      end) (set_completed true (move_assign res (answer rr)), ctx, (c, w1))).
    apply wp_complete_after; [destruct Hsd; by split|done|done|by rewrite Hinf|].
    intros res' w' c' Hnb Hi' Hcode Hbody Hsame Hsent. exists ctx, c', w'. split; [done|].
    split; [done|]. change (code_ (set_completed true (move_assign res (answer rr)))) with (code_ (answer rr))
      in *.
    eapply H; [done|exact Hnb|by rewrite Hi', Hinf|done|by rewrite Hcode| |exact Hsent].
    rewrite Hcode. intros Hlt. rewrite Hsame by by left. done. }
  unfold handle. rewrite Hm. cbv zeta.
  assert (Z.to_nat (rh_rule_index h) < length (default [] (rules <$> per_methods_ rt !! method_index m)))%nat
    as Hlt by by eapply lookup_lt_Some.
  rewrite (proj2 (Z.leb_gt _ _)) by lia. rewrite (proj2 (Z.eqb_neq _ _)) by (unfold RULE_SPECIAL_REDIRECT_SLASH; lia).
  rewrite Hr. unfold wp, catch_all, handle_rule. rewrite Hh, decide_True by done.
  unfold wrapped_handler, lift_world, on_world, assign_res, modify_res, modify, mbind, M_bind.
  cbn [fst snd]. rewrite Hf. unfold wp in Hend. destruct rr as [a|e]; cbn [fst snd].
  - unfold answer in Hend. destruct (end_ _ _) as [r' x] eqn:E. destruct Hend as [Hr' HQ].
    cbn [fst snd] in *. by subst r'.
  - destruct Hend as [Hr' HQ]. destruct e; try (by destruct (Hub why)); exact HQ.
Qed.

(** ** A whole request *)

(** The request the handlers see, and the connection with its flags set from it. *)
Definition seen c : request := req_set_remote peer (req_ c).
Definition accepted c : connection :=
  set_need_after false (set_close (req_close_connection (seen c))
    (set_keep_alive (req_keep_alive (seen c)) (set_req (seen c) c))).

(** A response nobody has touched, on a connection that can send it. *)
Record fresh res c : Prop := {
  fr_completed : completed_ res = false;
  fr_sendable : sendable res c;
  fr_read : need_to_start_read_after_complete_ c = false;
}.
(** An HTTP/1.1 request with a Host that does not ask for another protocol. *)
Record ordinary (req : request) : Prop := {
  or_version : check_version req 1 1 = true;
  or_host : ci_count (req_headers req) "host" ≠ 0%nat;
  or_upgrade : req_upgrade req = false;
}.

Lemma sendable_accepted res c h a b : sendable res c →
  sendable (set_handlers h a res) (set_need_after b (accepted c)).
Proof. intros []. split; by destruct c. Qed.

Lemma wp_conn_handle_valid (Q : result () → state → Prop) res ctx c w :
  ordinary (req_ c) →
  wp (handle_valid server_name date_str rt) Q (res, context_default, (accepted c, w)) →
  wp (conn_handle server_name date_str peer rt) Q (res, ctx, (c, w)).
Proof.
  intros [Hv Hh Hu] H. unfold conn_handle, set_ctx, modify_conn, get_conn. do 4 wp_step. cbv zeta.
  change (check_version _ 1 1) with (check_version (req_ c) 1 1). rewrite Hv.
  change (ci_count _ "host") with (ci_count (req_headers (req_ c)) "host").
  rewrite bool_decide_false by done.
  change (req_upgrade _) with (req_upgrade (req_ c)) at 1. rewrite Hu. cbn [andb].
  wp_step. exact H.
Qed.

Lemma wp_handle_valid h f (Q : result () → state → Prop) res c w :
  fresh res c → routing_handle_result_ c = Some h → routed h f →
  (∀ w1, no_backend w w1 → good_at (f (seen c) (r_params (rh_found h))) w1) → inflight_range w →
  (∀ res1 ctx' c' w', turned_away (seen c) w res res1 w' → no_backend w w' →
     sent (message (req_keep_alive (seen c)) res1) (accepted c) c' →
     Q (Ok ()) (response_default, ctx', (c', w'))) →
  (∀ w1 r w2 res1 res' ctx' c' w', no_backend w w1 → (∃ ctx1, admitted (seen c) w ctx1 w1) →
     f (seen c) (r_params (rh_found h)) w1 = (r, w2) → no_backend w2 w' →
     inflight w' = inflight w →
     code_ res1 = code_ (answer r) → (400 ≤ code_ res1 → body res1 ≠ "") →
     (code_ res1 < 400 → body res1 = body (answer r)) →
     sent (message (req_keep_alive (seen c)) res1) (accepted c) c' →
     (∀ c2, is_open c2 = true → continue_requested c2 = false →
        need_to_start_read_after_complete_ c2 = false → fresh res' c2) →
     Q (Ok ()) (res', ctx', (c', w'))) →
  wp (handle_valid server_name date_str rt) Q (res, context_default, (accepted c, w)).
Proof.
  intros [Hc Hsd Hnr] Hroute Hrd Hgood Hr Haway Hserved.
  unfold handle_valid, modify_res at 1, get_conn at 1. do 2 wp_step.
  change (req_ (accepted c)) with (seen c).
  apply wp_bind, wp_world_mws. unfold context_default at 1.
  set (res0 := set_handlers no_handler true res).
  assert (∀ b, sendable res0 (set_need_after b (accepted c))) as Hsd0
    by (intros b; by apply sendable_accepted).
  eapply wp_mono with (Q := λ r w1, ∃ b rc, r = Ok (b, rc) ∧ no_backend w w1 ∧
    if b : bool then turned_away (seen c) w res0 (fst rc) w1
    else fst rc = res0 ∧ admitted (seen c) w (snd rc) w1).
  { apply wp_before_chain; [done|done|..].
    - intros ctx1 w1 Hnb _ Ha. by exists false, (res0, ctx1).
    - intros res1 ctx1 w1 Hnb _ Ha. by exists true, (res1, ctx1). }
  intros r w1 (b & [res1 ctx1] & -> & Hnb & Hb). cbn beta iota. unfold get_res. wp_step.
  destruct b; cbn [fst snd] in Hb.
  - destruct Hb as (Hp & Hc1 & Hfl & Hi & Hwhy). rewrite Hc1.
    apply wp_complete_now; [|by destruct c|by destruct c|].
    + destruct (Hsd0 false) as [H1 H2 H3 H4], Hfl as [Hf1 Hf2 _].
      split; [by destruct c|by destruct c|by apply Hf1|]. by rewrite Hf2.
    + intros c' Hsent. eapply Haway; [|exact Hnb|exact Hsent]. split_and!; try done.
      destruct Hfl as [Hf1 Hf2 Hf3]. by split.
  - destruct Hb as [-> Ha]. change (completed_ res0) with (completed_ res). rewrite Hc.
    unfold modify_res at 1, modify_conn, get_conn. do 3 wp_step.
    change (routing_handle_result_ _) with (routing_handle_result_ c) at 1. rewrite Hroute.
    apply wp_bind. eapply (wp_routed h f);
      [exact Hrd|by apply Hgood|destruct (Hsd0 true); by split|by destruct c|by destruct c|done| |].
    { unfold inflight_range in Hr. destruct Ha as [(_ & -> & _)|(_ & _ & _ & _ & -> & _)]; lia. }
    intros r w2 res1 w' c' Hf Hnb2 Hi Hcode Hbody Hsame Hsent. cbn beta iota. wp_step.
    assert (sent (message (req_keep_alive (seen c)) res1) (accepted c) c') as Hsent'.
    { eapply sent_transfer; [exact Hsent|by destruct c..]. }
    assert (inflight w' = inflight w) as Hiw.
    { destruct Ha as [(_ & Hi1 & Hct)|(_ & _ & _ & _ & Hi1 & Hct)]; rewrite Hct in Hi; lia. }
    destruct (add_keep_alive_ c').
    + apply wp_modify. cbn [fst snd]. by eapply Hserved; eauto.
    + apply wp_ret. by eapply Hserved; eauto.
Qed.

(** C4: one request, one response.  For a route whose handler is well behaved, whatever it
    does to the database and the cache, and whatever it throws, a complete HTTP/1.1
    request on a fresh response is answered by exactly one message, the header and the
    body of one response: of a rejection, in which case the handler did not run and
    database and cache are as before; or of the handler's answer, run once on a world the
    middlewares admitted, an error if it threw.  An error has a body.  The in-flight
    counter ends where it was, and connection, parser and response are ready for the next
    request. *)
Theorem one_response (h : routing_handle_result) f res ctx c w :
  ordinary (req_ c) → fresh res c → routing_handle_result_ c = Some h → routed h f →
  good_handler (f (seen c) (r_params (rh_found h))) → inflight_range w →
  wp (conn_handle server_name date_str peer rt) (λ r x, ∃ res1 res' ctx' c' w',
    r = Ok () ∧ x = (res', ctx', (c', w')) ∧
    sent (message (req_keep_alive (seen c)) res1) (accepted c) c' ∧
    inflight w' = inflight w ∧
    (is_open c' = true → fresh res' c') ∧
    (turned_away (seen c) w res res1 w' ∧ no_backend w w' ∨
     ∃ w1 ctx1 r w2, no_backend w w1 ∧ admitted (seen c) w ctx1 w1 ∧
       f (seen c) (r_params (rh_found h)) w1 = (r, w2) ∧
       no_backend w2 w' ∧ code_ res1 = code_ (answer r) ∧
       (400 ≤ code_ res1 → body res1 ≠ "") ∧
       (code_ res1 < 400 → body res1 = body (answer r)))) (res, ctx, (c, w)).
Proof.
  intros Ho Hf Hroute Hrd Hgood Hr. apply wp_conn_handle_valid; [done|].
  eapply (wp_handle_valid h f); [exact Hf|exact Hroute|exact Hrd|by intros; apply Hgood|exact Hr| |].
  - intros res1 ctx' c' w' Ha Hnb Hsent.
    exists res1, response_default, ctx', c', w'. split_and!; try done.
    + by destruct Ha as (_ & _ & _ & ? & _).
    + intros Ho'. split; [done| |by rewrite (sn_read _ _ _ Hsent); apply Hf].
      split; [done|by destruct Hsent|done|done].
    + by left.
  - intros w1 r w2 res1 res' ctx' c' w' Hnb1 [ctx1 Had] Hfr Hnb2 Hi Hcode Hbody Hsame Hsent Hfresh.
    exists res1, res', ctx', c', w'. split_and!; try done.
    + intros Ho'. apply Hfresh; [done|by destruct Hsent|by rewrite (sn_read _ _ _ Hsent); apply Hf].
    + right. by exists w1, ctx1, r, w2.
Qed.

(** ** Upgrade requests *)

(** An HTTP/1.1 request for another protocol than HTTP/2. *)
Record asks_upgrade (req : request) : Prop := {
  au_version : check_version req 1 1 = true;
  au_host : ci_count (req_headers req) "host" ≠ 0%nat;
  au_upgrade : req_upgrade req = true;
  au_protocol : starts_with "h2" (req_get_header_value req "upgrade") = false;
}.
(** The service would let it through. *)
Record would_pass (req : request) w : Prop := {
  wo_probe : is_probe_path (req_url req) = false;
  wo_up : shutting_down w = false;
  wo_key : req_get_header_value req "Authorization" = api_key w;
  wo_limit : inflight w + 1 ≤ max_inflight_requests w;
}.

Lemma handle_upgrade_silent req res ctx (x : W) :
  complete_request_handler_ res = no_handler →
  rule_index_ (find_method rt (req_method req) (req_url req))
    < Z.of_nat (length (default [] (rules <$> per_methods_ rt !! method_index (req_method req)))) →
  ∃ res', handle_upgrade rt req (res, ctx, x) = (Ok (), (res', ctx, x)).
Proof.
  intros Hh Hlt.
  assert (∀ k res0, complete_request_handler_ res0 = no_handler → completed_ res0 = false →
    ∃ res', end_ (C := context) k (res0, ctx, x) = (Ok (), (res', ctx, x))) as Hend.
  { intros k res0 H1 H2. destruct (end_plain k res0 ctx x H2 H1) as (res' & He & _). eauto. }
  unfold handle_upgrade. destruct (rule_index_ _ =? 0).
  { unfold assign_res, modify_res, modify, mbind, M_bind. cbn [fst snd]. by apply Hend. }
  rewrite (proj2 (Z.leb_gt _ _)) by done. destruct (_ =? RULE_SPECIAL_REDIRECT_SLASH).
  { unfold assign_res, modify_res, modify, mbind, M_bind. cbn [fst snd]. by apply Hend. }
  unfold catch_all, assign_res, modify_res, modify, mbind, M_bind. cbn [fst snd].
  destruct (Hend no_completions (move_assign res (response_code 404))) as [res' He]; [done..|].
  unfold W in *. rewrite He. by exists res'.
Qed.

Lemma wp_handle_upgrade req (Q : result () → state → Prop) res ctx x :
  complete_request_handler_ res = no_handler →
  rule_index_ (find_method rt (req_method req) (req_url req))
    < Z.of_nat (length (default [] (rules <$> per_methods_ rt !! method_index (req_method req)))) →
  (∀ res', Q (Ok ()) (res', ctx, x)) → wp (handle_upgrade rt req) Q (res, ctx, x).
Proof.
  intros Hh Hlt H. destruct (handle_upgrade_silent req res ctx x Hh Hlt) as [res' He].
  unfold wp, W in *. rewrite He. apply H.
Qed.

(** An upgrade request leaks a place.  An admissible request that asks for another
    protocol, on a route or not, is counted in flight, is never answered and is never
    counted off again, while the connection is marked to be closed: each one takes a
    place of [max_inflight_requests] for good. *)
Theorem upgrade_leaks_inflight res ctx c w :
  asks_upgrade (req_ c) → would_pass (seen c) w →
  completed_ res = false → complete_request_handler_ res = no_handler → inflight_range w →
  rule_index_ (find_method rt (req_method (req_ c)) (req_url (req_ c)))
    < Z.of_nat (length (default [] (rules <$> per_methods_ rt !! method_index (req_method (req_ c))))) →
  wp (conn_handle server_name date_str peer rt) (λ r x, ∃ res' ctx' c' w',
    r = Ok () ∧ x = (res', ctx', (c', w')) ∧
    inflight w' = inflight w + 1 ∧ wire c' = wire c ∧ close_connection_ c' = true ∧
    need_to_call_after_handlers_ c' = need_to_call_after_handlers_ c) (res, ctx, (c, w)).
Proof.
  intros [Hv Hh Hu Hp] [Hpr Hup Hk Hl] Hc Hch Hr Hlt.
  unfold conn_handle, set_ctx, modify_conn, get_conn. do 4 wp_step. cbv zeta.
  change (check_version _ 1 1) with (check_version (req_ c) 1 1). rewrite Hv.
  change (ci_count _ "host") with (ci_count (req_headers (req_ c)) "host").
  rewrite bool_decide_false by done.
  change (req_upgrade _) with (req_upgrade (req_ c)) at 1. rewrite Hu.
  change (starts_with _ _) with (starts_with "h2" (req_get_header_value (req_ c) "upgrade")).
  rewrite Hp. cbn [andb negb]. unfold handle_upgraded, get_conn at 1. wp_step.
  apply wp_bind, wp_world_mws. unfold context_default.
  change (req_ _) with (seen c) at 1. apply wp_before_chain; [done|done|..].
  - intros ctx1 w1 Hnb _ Ha. cbn beta iota. unfold modify_conn. wp_step.
    apply (wp_handle_upgrade (seen c)); [exact Hch|exact Hlt|]. intros res'.
    eexists res', ctx1, _, w1. split_and!; [done|done| |done|done|done].
    destruct Ha as [(Hp' & _)|(_ & _ & _ & _ & Hi & _)]; [congruence|done].
  - intros res1 ctx1 w1 _ _ (_ & _ & _ & _ & [[_ Hs]|[(_ & _ & Hs)|[_ Hs]]]); [congruence|lia|done].
Qed.
End Spec.
