(* ===== verification/ConnectionExamples.v ===== *)
(** * Runs of whole connections

    The theorem of ConnectionSpec.v applied to a request of the service, and three
    sequences of requests on which the connection and the middlewares disagree about what
    is in flight, or about what was sent. *)

From S2P Require Import Prelude Doubles JsonRead JsonWrite Utility QueryString Http Service.
From S2P Require Import Backends OrderRoutes Wp Middleware AppMiddlewares Trie Router Main.
From S2P Require Import Connection ConnectionSpec.
Open Scope Z_scope.

#[export] Instance no_files : FileSystem := {| fs_stat := λ _, None; fs_read := λ _, "" |}.

Definition example_rt : Router (connection * world) context :=
  match app_router (K := connection) with Some (Ok r) => r | _ => router_new end.
Abbreviation state := (response * context * (connection * world))%type.
Definition state_0 : state := (response_default, context_default, (connection_new, toy_world ∅ [] [])).

Definition header_events (k v : string) : list event := [OnHeaderField k; OnHeaderValue v].
(** What the tokenizer reports for a request without a body. *)
Definition request_events (m : HTTPMethod) (url key : string) (upgrade : bool) : list event :=
  [OnMethod m; OnUrl url 0] ++ header_events "Host" "localhost"
  ++ header_events "Authorization" key
  ++ (if upgrade then header_events "Upgrade" "websocket" else [])
  ++ [OnHeadersComplete 1 1 false false upgrade; OnMessageComplete].
(** One buffer a request. *)
Definition run_connection (rqs : list (list event)) : result () * state :=
  foldl (λ x evs, match x with
    | (Ok _, st) => on_read "Crow" "now" "10.0.0.1" example_rt (Some (evs, true)) st
    | _ => x
    end) (Ok (), state_0) rqs.
Definition messages (x : result () * state) : list string := rev (wire (fst (snd (snd x)))).
Definition in_flight (x : result () * state) : Z :=
  counters (snd (snd (snd x))) in_flight_requests.
Definition status_line (s : string) : string := String.substring 0 12 s.
(** What follows the first empty line. *)
Fixpoint body_of (s : string) : string :=
  match strip_prefix (crlf +:+ crlf) s with
  | Some b => b
  | None => match s with String _ s' => body_of s' | EmptyString => "" end
  end.

(** Some text in another. *)
Fixpoint contains (sub s : string) : bool :=
  match strip_prefix sub s, s with
  | Some _, _ => true
  | None, String _ s' => contains sub s'
  | None, EmptyString => false
  end.

(** An unknown route undercounts.  A client that sends one good request and then, on
    the same connection, one for a path without a route makes the in-flight counter
    negative: the 404 is answered before the context is renewed, so the after-chain takes
    the first request off the counter a second time. *)
Theorem unknown_route_undercounts :
  let one := request_events Get "/order/list" "1234567" false in
  let unknown := request_events Get "/nope" "" false in
  in_flight (run_connection [one]) = 0 ∧ in_flight (run_connection [unknown]) = 0 ∧
  in_flight (run_connection [one; unknown]) = -1 ∧
  (status_line <$> messages (run_connection [one; unknown])) = ["HTTP/1.1 200"; "HTTP/1.1 404"].
Proof. by vm_compute. Qed.

(** A rejected HEAD spoils the next answer.  A HEAD request turned away by the
    authorization leaves the mark that there is no body to send: its own answer has a
    body, longer than its Content-Length, and the next request on the connection, a GET,
    is answered 200 without one. *)
Theorem rejected_head_spoils_next :
  let head := request_events Head "/order/list" "wrong" false in
  let one := request_events Get "/order/list" "1234567" false in
  (status_line <$> messages (run_connection [head; one])) = ["HTTP/1.1 401"; "HTTP/1.1 200"] ∧
  (String.length ∘ body_of <$> messages (run_connection [head])) = [33%nat] ∧
  (contains "Content-Length: 25" <$> messages (run_connection [head])) = [true] ∧
  (body_of <$> messages (run_connection [head; one])) !! 1%nat = Some "" ∧
  (String.length ∘ body_of <$> messages (run_connection [one])) = [15%nat].
Proof. by vm_compute. Qed.

(** A connection that has read a request up to its headers, [selected] by the router. *)
Definition example_conn (upgrade : bool) : connection :=
  set_routing (RoutingHandleResult (Found 2 [] no_params) (Some Get))
    (set_req (Request Get "/healthcheck" (if upgrade then "/order/list" else "/healthcheck")
                qs_empty ([("Upgrade", "websocket"); ("Authorization", "1234567"); ("Host", "x")])
                "" "" 1 1 true false upgrade) connection_new).

Lemma healthcheck_good : good_handler (healthcheck (sq := toy_Sqlite)).
Proof. intros w. by split_and!. Qed.

Lemma example_rt_ok : app_router (K := connection) = Some (Ok example_rt).
Proof.
  unfold example_rt. destruct (app_router_validated (K := connection)) as (rt & -> & _). done.
Qed.

Lemma example_routed :
  routed example_rt (RoutingHandleResult (Found 2 [] no_params) (Some Get)) (λ _ _, healthcheck).
Proof.
  pose proof (app_finds example_rt Get "/healthcheck" example_rt_ok) as Hf.
  destruct Hf as (r & Hi & Hr & Hh & Hm & Hp). exists Get, r. split_and!; try done.
Qed.

Lemma one_response_witness :
  let c := example_conn false in
  let w := toy_world ∅ [] [] in
  ordinary (req_ c) ∧ fresh response_default c ∧ inflight_range w ∧
  wp (conn_handle "Crow" "now" "10.0.0.1" example_rt) (λ r x, ∃ res1 res' ctx' c' w',
    r = Ok () ∧ x = (res', ctx', (c', w')) ∧
    sent (message "Crow" "now" (req_keep_alive (seen "10.0.0.1" c)) res1)
      (accepted "10.0.0.1" c) c' ∧
    inflight w' = inflight w ∧
    (is_open c' = true → fresh res' c') ∧
    (turned_away (seen "10.0.0.1" c) w response_default res1 w' ∧ no_backend w w' ∨
     ∃ w1 ctx1 r w2, no_backend w w1 ∧ admitted (seen "10.0.0.1" c) w ctx1 w1 ∧
       healthcheck w1 = (r, w2) ∧
       no_backend w2 w' ∧ code_ res1 = code_ (answer r) ∧
       (400 ≤ code_ res1 → body res1 ≠ "") ∧
       (code_ res1 < 400 → body res1 = body (answer r))))
    (response_default, context_default, (c, w)).
Proof.
  intros c w.
  assert (ordinary (req_ c)) as Ho by by split.
  assert (fresh response_default c) as Hf by (split; [done|by split|done]).
  assert (inflight_range w) as Hr by done.
  split_and!; [exact Ho|exact Hf|exact Hr|].
  exact (one_response "Crow" "now" "10.0.0.1" example_rt _ (λ _ _, healthcheck)
    response_default context_default c w Ho Hf eq_refl example_routed healthcheck_good Hr).
Defined.

Lemma upgrade_leaks_inflight_witness :
  let c := example_conn true in
  let w := toy_world ∅ [] [] in
  asks_upgrade (req_ c) ∧ would_pass (seen "10.0.0.1" c) w ∧
  wp (conn_handle "Crow" "now" "10.0.0.1" example_rt) (λ r x, ∃ res' ctx' c' w',
    r = Ok () ∧ x = (res', ctx', (c', w')) ∧
    inflight w' = inflight w + 1 ∧ wire c' = wire c ∧ close_connection_ c' = true ∧
    need_to_call_after_handlers_ c' = need_to_call_after_handlers_ c)
    (response_default, context_default, (c, w)).
Proof.
  intros c w.
  assert (asks_upgrade (req_ c)) as Ha by by split.
  assert (would_pass (seen "10.0.0.1" c) w) as Hw by by split.
  split_and!; [exact Ha|exact Hw|].
  apply (upgrade_leaks_inflight "Crow" "now" "10.0.0.1" example_rt); [exact Ha|exact Hw|done..|].
  by vm_compute.
Defined.

(** ** Dispatch in the service's router *)

Definition example_rules : list (BaseRule (connection * world) context) := the_rules (K := connection).

Lemma example_rules_ok :
  Forall (λ r, added_ r = false) example_rules ∧ Z.of_nat (length example_rules) < 2 ^ 16 - 2 ∧
  Forall (λ r, string_Forall (λ c, c ≠ NUL) (rule_ r)) example_rules.
Proof. split_and!; [by repeat constructor|done|by repeat constructor]. Qed.

Lemma example_rt_validated :
  validate (MkRouter example_rules (replicate InternalMethodCount per_method_new) None)
    = Some (Ok example_rt).
Proof.
  unfold example_rt. destruct (app_router_validated (K := connection)) as (rt & -> & Hv & _). exact Hv.
Qed.

Lemma example_rt_catchall : catchall_rule_ example_rt = None.
Proof. destruct example_rules_ok as (Ha & Hl & _). by apply (validate_spec _ _ _ Ha Hl example_rt_validated). Qed.

Lemma router_finds_first_rule_witness :
  Forall (λ r, added_ r = false) example_rules ∧ Z.of_nat (length example_rules) < 2 ^ 16 - 2 ∧
  Forall (λ r, string_Forall (λ c, c ≠ NUL) (rule_ r)) example_rules ∧
  finds_first (method_rules (method_index Get) example_rules)
    (default [] (rules <$> per_methods_ example_rt !! method_index Get)) "/order/get/A-7"
    (find_method example_rt Get "/order/get/A-7").
Proof.
  destruct example_rules_ok as (Ha & Hl & Hn).
  refine (conj Ha (conj Hl (conj Hn _))).
  exact (router_finds_first_rule example_rules None example_rt Get "/order/get/A-7" Ha Hl Hn
           example_rt_validated).
Defined.

(** A request for a route of another method, answered 405. *)
Definition wrong_method : request :=
  Request Post "/order/list" "/order/list" qs_empty [] "" "" 1 1 true false false.

Lemma handle_initial_spec_witness :
  catchall_rule_ example_rt = None ∧
  ∃ h res', handle_initial example_rt wrong_method
      (response_default, context_default, (connection_new, toy_world ∅ [] []))
    = (Ok h, (res', context_default, (connection_new, toy_world ∅ [] []))) ∧
    initial_outcome example_rt wrong_method response_default h res'.
Proof.
  refine (conj example_rt_catchall _).
  exact (handle_initial_spec example_rt wrong_method response_default context_default
           (connection_new, toy_world ∅ [] []) eq_refl eq_refl example_rt_catchall).
Defined.

(** HEAD for a route of GET, by the theorem about the service's own router. *)
Definition head_metrics : request :=
  Request Head "/metrics" "/metrics" qs_empty [] "" "" 1 1 true false false.
Lemma app_dispatch_witness :
  ∃ rt h, app_router (K := connection) = Some (Ok rt) ∧
    handle_initial rt head_metrics state_0 =
      (Ok h, (set_skip_body true response_default, snd (fst state_0), snd state_0)) ∧
    rh_method h = Some Get.
Proof.
  destruct (app_dispatch (K := connection)) as (rt & Hrt & _ & H).
  destruct (H head_metrics response_default context_default (connection_new, toy_world ∅ [] []) eq_refl eq_refl)
    as (h & res' & He & Ho).
  exists rt, h. destruct Ho as (Hm & _ & Hr). subst res'. exact (conj Hrt (conj He Hm)).
Defined.
