(* ===== verification/Tokenizer.v ===== *)
(** * crow/http_parser_merged.h

    The tokenizer of the HTTP server, [http_parser_execute]: the state machine that turns
    the bytes of a connection into callbacks.  A pointer into [data] is the suffix it points
    at, so [p - mark] is a difference of lengths and [p == data + len] an empty suffix.  The
    callbacks get the parser by reference and may change it, throw, and act on a state [U].
    A failed assertion, which ends the process unless NDEBUG is defined, is [UB]. *)

From S2P Require Import Prelude Doubles JsonRead JsonWrite Utility QueryString Http Service.
Open Scope Z_scope.

(** ** Data *)

Inductive state : Type :=
| s_dead
| s_start_req
| s_req_method | s_req_spaces_before_url | s_req_schema | s_req_schema_slash
| s_req_schema_slash_slash | s_req_server_start | s_req_server | s_req_server_with_at
| s_req_path | s_req_query_string_start | s_req_query_string
| s_req_http_start | s_req_http_H | s_req_http_HT | s_req_http_HTT | s_req_http_HTTP
| s_req_http_I | s_req_http_IC | s_req_http_major | s_req_http_dot | s_req_http_minor
| s_req_http_end | s_req_line_almost_done
| s_header_field_start | s_header_field | s_header_value_discard_ws
| s_header_value_discard_ws_almost_done | s_header_value_discard_lws
| s_header_value_start | s_header_value | s_header_value_lws | s_header_almost_done
| s_chunk_size_start | s_chunk_size | s_chunk_parameters | s_chunk_size_almost_done
| s_headers_almost_done | s_headers_done
| s_chunk_data | s_chunk_data_almost_done | s_chunk_data_done
| s_body_identity | s_body_identity_eof
| s_message_done.
#[export] Instance state_eq_dec : EqDecision state.
Proof. solve_decision. Defined.

(** [CROW_PARSING_HEADER]: the states up to [s_headers_done]. *)
Definition parsing_header (s : state) : bool :=
  match s with
  | s_chunk_data | s_chunk_data_almost_done | s_chunk_data_done | s_body_identity
  | s_body_identity_eof | s_message_done => false
  | _ => true
  end.

Inductive header_states : Type :=
| h_general | h_C | h_CO | h_CON
| h_matching_connection | h_matching_proxy_connection | h_matching_content_length
| h_matching_transfer_encoding | h_matching_upgrade
| h_connection | h_content_length | h_content_length_num | h_content_length_ws
| h_transfer_encoding | h_upgrade
| h_matching_transfer_encoding_token_start | h_matching_transfer_encoding_chunked
| h_matching_transfer_encoding_token
| h_matching_connection_keep_alive | h_matching_connection_close
| h_transfer_encoding_chunked | h_connection_keep_alive | h_connection_close.
#[export] Instance header_states_eq_dec : EqDecision header_states.
Proof. solve_decision. Defined.

Inductive http_errno : Type :=
| CHPE_OK
| CHPE_CB_message_begin | CHPE_CB_method | CHPE_CB_url | CHPE_CB_header_field
| CHPE_CB_header_value | CHPE_CB_headers_complete | CHPE_CB_body | CHPE_CB_message_complete
| CHPE_CB_status
| CHPE_INVALID_EOF_STATE | CHPE_HEADER_OVERFLOW | CHPE_CLOSED_CONNECTION
| CHPE_INVALID_VERSION | CHPE_INVALID_STATUS | CHPE_INVALID_METHOD | CHPE_INVALID_URL
| CHPE_INVALID_HOST | CHPE_INVALID_PORT | CHPE_INVALID_PATH | CHPE_INVALID_QUERY_STRING
| CHPE_INVALID_FRAGMENT | CHPE_LF_EXPECTED | CHPE_INVALID_HEADER_TOKEN
| CHPE_INVALID_CONTENT_LENGTH | CHPE_UNEXPECTED_CONTENT_LENGTH | CHPE_INVALID_CHUNK_SIZE
| CHPE_INVALID_CONSTANT | CHPE_INVALID_INTERNAL_STATE | CHPE_STRICT | CHPE_UNKNOWN
| CHPE_INVALID_TRANSFER_ENCODING.
#[export] Instance http_errno_eq_dec : EqDecision http_errno.
Proof. solve_decision. Defined.

Definition F_CHUNKED : Z := Z.shiftl 1 0.
Definition F_CONNECTION_KEEP_ALIVE : Z := Z.shiftl 1 1.
Definition F_CONNECTION_CLOSE : Z := Z.shiftl 1 2.
Definition F_TRAILING : Z := Z.shiftl 1 3.
Definition F_UPGRADE : Z := Z.shiftl 1 4.
Definition F_SKIPBODY : Z := Z.shiftl 1 5.
Definition F_CONTENTLENGTH : Z := Z.shiftl 1 6.

(** [http_parser] without the user's pointer. *)
Record http_parser : Type := HttpParser {
  flags : Z;
  hp_state : state;
  header_state : header_states;
  index : Z;                         (* 5 bits *)
  uses_transfer_encoding : bool;
  allow_chunked_length : bool;
  lenient_http_headers : bool;
  hp_nread : Z;                      (* [uint32_t] *)
  content_length : Z;                (* [uint64_t] *)
  qs_point : Z;
  http_major : Z;
  http_minor : Z;
  hp_method : HTTPMethod;
  hp_errno : http_errno;
  upgrade : bool;
}.
(** [http_parser_init]: every field zero. *)
Definition http_parser_init : http_parser :=
  HttpParser 0 s_start_req h_general 0 false false false 0 0 0 0 0 Http.Delete CHPE_OK false.

Definition set_flags (x : Z) (h : http_parser) : http_parser :=
  HttpParser x (hp_state h) (header_state h) (index h) (uses_transfer_encoding h)
    (allow_chunked_length h) (lenient_http_headers h) (hp_nread h) (content_length h)
    (qs_point h) (http_major h) (http_minor h) (hp_method h) (hp_errno h) (upgrade h).
Definition set_state (x : state) (h : http_parser) : http_parser :=
  HttpParser (flags h) x (header_state h) (index h) (uses_transfer_encoding h)
    (allow_chunked_length h) (lenient_http_headers h) (hp_nread h) (content_length h)
    (qs_point h) (http_major h) (http_minor h) (hp_method h) (hp_errno h) (upgrade h).
Definition set_header_state (x : header_states) (h : http_parser) : http_parser :=
  HttpParser (flags h) (hp_state h) x (index h) (uses_transfer_encoding h)
    (allow_chunked_length h) (lenient_http_headers h) (hp_nread h) (content_length h)
    (qs_point h) (http_major h) (http_minor h) (hp_method h) (hp_errno h) (upgrade h).
Definition set_index (x : Z) (h : http_parser) : http_parser :=
  HttpParser (flags h) (hp_state h) (header_state h) (uwrap 5 x) (uses_transfer_encoding h)
    (allow_chunked_length h) (lenient_http_headers h) (hp_nread h) (content_length h)
    (qs_point h) (http_major h) (http_minor h) (hp_method h) (hp_errno h) (upgrade h).
Definition set_uses_te (x : bool) (h : http_parser) : http_parser :=
  HttpParser (flags h) (hp_state h) (header_state h) (index h) x
    (allow_chunked_length h) (lenient_http_headers h) (hp_nread h) (content_length h)
    (qs_point h) (http_major h) (http_minor h) (hp_method h) (hp_errno h) (upgrade h).
Definition set_hp_nread (x : Z) (h : http_parser) : http_parser :=
  HttpParser (flags h) (hp_state h) (header_state h) (index h) (uses_transfer_encoding h)
    (allow_chunked_length h) (lenient_http_headers h) x (content_length h)
    (qs_point h) (http_major h) (http_minor h) (hp_method h) (hp_errno h) (upgrade h).
Definition set_content_length (x : Z) (h : http_parser) : http_parser :=
  HttpParser (flags h) (hp_state h) (header_state h) (index h) (uses_transfer_encoding h)
    (allow_chunked_length h) (lenient_http_headers h) (hp_nread h) x
    (qs_point h) (http_major h) (http_minor h) (hp_method h) (hp_errno h) (upgrade h).
Definition set_qs_point (x : Z) (h : http_parser) : http_parser :=
  HttpParser (flags h) (hp_state h) (header_state h) (index h) (uses_transfer_encoding h)
    (allow_chunked_length h) (lenient_http_headers h) (hp_nread h) (content_length h)
    x (http_major h) (http_minor h) (hp_method h) (hp_errno h) (upgrade h).
Definition set_version (major minor : Z) (h : http_parser) : http_parser :=
  HttpParser (flags h) (hp_state h) (header_state h) (index h) (uses_transfer_encoding h)
    (allow_chunked_length h) (lenient_http_headers h) (hp_nread h) (content_length h)
    (qs_point h) major minor (hp_method h) (hp_errno h) (upgrade h).
Definition set_method (x : HTTPMethod) (h : http_parser) : http_parser :=
  HttpParser (flags h) (hp_state h) (header_state h) (index h) (uses_transfer_encoding h)
    (allow_chunked_length h) (lenient_http_headers h) (hp_nread h) (content_length h)
    (qs_point h) (http_major h) (http_minor h) x (hp_errno h) (upgrade h).
Definition set_errno (x : http_errno) (h : http_parser) : http_parser :=
  HttpParser (flags h) (hp_state h) (header_state h) (index h) (uses_transfer_encoding h)
    (allow_chunked_length h) (lenient_http_headers h) (hp_nread h) (content_length h)
    (qs_point h) (http_major h) (http_minor h) (hp_method h) x (upgrade h).
Definition set_upgrade (x : bool) (h : http_parser) : http_parser :=
  HttpParser (flags h) (hp_state h) (header_state h) (index h) (uses_transfer_encoding h)
    (allow_chunked_length h) (lenient_http_headers h) (hp_nread h) (content_length h)
    (qs_point h) (http_major h) (http_minor h) (hp_method h) (hp_errno h) x.

(** [parser->flags & f] and [parser->flags |= f]. *)
Definition has_flag (f : Z) (h : http_parser) : bool := negb (Z.land (flags h) f =? 0).
Definition add_flag (f : Z) (h : http_parser) : http_parser := set_flags (Z.lor (flags h) f) h.

(** ** Character classes *)

Definition CR : ascii := "013".
Definition LF : ascii := "010".
Definition SP : ascii := " ".
Definition TAB : ascii := "009".
Definition FF : ascii := "012".

(** [(unsigned char)(c | 0x20)]. *)
Definition CROW_LOWER (c : ascii) : ascii := chr (Z.lor (code c) 0x20).
Definition CROW_IS_ALPHA (c : ascii) : bool :=
  (97 <=? code (CROW_LOWER c)) && (code (CROW_LOWER c) <=? 122).
Definition CROW_IS_NUM (c : ascii) : bool := is_digit c.
Definition CROW_IS_ALPHANUM (c : ascii) : bool := CROW_IS_ALPHA c || CROW_IS_NUM c.
Definition CROW_IS_MARK (c : ascii) : bool := memchr c "-_.!~*'()".
Definition CROW_IS_USERINFO_CHAR (c : ascii) : bool :=
  CROW_IS_ALPHANUM c || CROW_IS_MARK c || memchr c "%;:&=+$,".
(** [tokens]: the characters of a token in lower case, and zero for the others. *)
Definition CROW_TOKEN (c : ascii) : ascii :=
  if CROW_IS_ALPHA c then CROW_LOWER c
  else if CROW_IS_NUM c || memchr c "!#$%&'*+-.^_`|~" then c
  else NUL.
(** [normal_url_char]: one bit a character; the upper half of the table is zero. *)
Definition normal_url_char : list Z :=
  [0; 0; 0; 0; 2 + 4 + 16 + 32 + 64 + 128; 255; 255; 127;
   255; 255; 255; 255; 255; 255; 255; 127] ++ replicate 16 0.
Definition CROW_BIT_AT (a : list Z) (i : Z) : bool :=
  negb (Z.land (nth (Z.to_nat (Z.shiftr i 3)) a 0) (Z.shiftl 1 (Z.land i 7)) =? 0).
Definition CROW_IS_URL_CHAR (c : ascii) : bool := CROW_BIT_AT normal_url_char (code c).
Definition CROW_IS_HEADER_CHAR (c : ascii) : bool :=
  bool_decide (c = CR) || bool_decide (c = LF) || (code c =? 9)
  || ((31 <? code c) && negb (code c =? 127)).
(** [unhex]: the initialiser has 128 values, so the upper half of the table is zero. *)
Definition unhex (c : ascii) : Z :=
  if 128 <=? code c then 0
  else if is_digit c then code c - 48
  else if (97 <=? code c) && (code c <=? 102) then code c - 87
  else if (65 <=? code c) && (code c <=? 70) then code c - 55
  else -1.

(** A character of a C string; the terminator is the last. *)
Definition c_char (s : string) (i : Z) : ascii := default NUL (String.get (Z.to_nat i) s).
(** The same for an index that is not known to be inside. *)
Definition c_index (s : string) (i : Z) : result ascii :=
  if (i <? 0) || (slen s <? i) then Throw (UB "index out of bounds") else Ok (c_char s i).

Definition CROW_PROXY_CONNECTION : string := "proxy-connection".
Definition CROW_CONNECTION : string := "connection".
Definition CROW_CONTENT_LENGTH : string := "content-length".
Definition CROW_TRANSFER_ENCODING : string := "transfer-encoding".
Definition CROW_UPGRADE : string := "upgrade".
Definition CROW_CHUNKED : string := "chunked".
Definition CROW_KEEP_ALIVE : string := "keep-alive".
Definition CROW_CLOSE : string := "close".

Definition CROW_ULLONG_MAX : Z := 2 ^ 64 - 1.
Definition max_header_size : Z := 80 * 1024.

(** ** URLs *)

(** [p - url_mark], for pointers into one array; [url_start_mark] stays null in a call that
    begins inside a URL, and the difference is the address [p]. *)
Definition url_offset (address : Z) (data p : string) (url_mark : option string) : Z :=
  match url_mark with
  | Some m => slen m - slen p
  | None => address + (slen data - slen p)
  end.

Definition parse_url_char (s : state) (ch : ascii) (offset : Z) (h : http_parser)
  : state * http_parser :=
  if bool_decide (ch = SP ∨ ch = CR ∨ ch = LF) then (s_dead, h)
  else if bool_decide (ch = TAB ∨ ch = FF) then (s_dead, h)
  else
    let server :=
      if decide (ch = "/"%char) then (s_req_path, h)
      else if decide (ch = "?"%char) then (s_req_query_string_start, set_qs_point offset h)
      else if decide (ch = "@"%char) then (s_req_server_with_at, h)
      else if CROW_IS_USERINFO_CHAR ch || bool_decide (ch = "["%char ∨ ch = "]"%char)
      then (s_req_server, h)
      else (s_dead, h) in
    match s with
    | s_req_spaces_before_url =>
        if bool_decide (ch = "/"%char ∨ ch = "*"%char) then (s_req_path, h)
        else if CROW_IS_ALPHA ch then (s_req_schema, h)
        else (s_dead, h)
    | s_req_schema =>
        if CROW_IS_ALPHA ch then (s, h)
        else if decide (ch = ":"%char) then (s_req_schema_slash, h)
        else (s_dead, h)
    | s_req_schema_slash =>
        if decide (ch = "/"%char) then (s_req_schema_slash_slash, h) else (s_dead, h)
    | s_req_schema_slash_slash =>
        if decide (ch = "/"%char) then (s_req_server_start, h) else (s_dead, h)
    | s_req_server_with_at =>
        if decide (ch = "@"%char) then (s_dead, h) else server
    | s_req_server_start | s_req_server => server
    | s_req_path =>
        if CROW_IS_URL_CHAR ch then (s, h)
        else if decide (ch = "?"%char) then (s_req_query_string_start, set_qs_point offset h)
        else (s_dead, h)
    | s_req_query_string_start | s_req_query_string =>
        if CROW_IS_URL_CHAR ch then (s_req_query_string, h)
        else if decide (ch = "?"%char) then (s_req_query_string, h)
        else (s_dead, h)
    | _ => (s_dead, h)
    end.

(** ** Methods *)

(** The first letter, and the branches of the [CROW_XX] switch. *)
Definition method_of_letter (ch : ascii) : option HTTPMethod :=
  match ch with
  | "A" => Some Acl | "B" => Some Bind | "C" => Some Connect | "D" => Some Http.Delete
  | "G" => Some Get | "H" => Some Head | "L" => Some Lock | "M" => Some MkCol
  | "N" => Some Notify | "O" => Some Options | "P" => Some Post | "R" => Some Report
  | "S" => Some Subscribe | "T" => Some Trace | "U" => Some Unlock
  | _ => None
  end%char.
Definition method_switch (m : HTTPMethod) (pos : Z) (ch : ascii) : option HTTPMethod :=
  let XX (meth : HTTPMethod) (i : Z) (c : ascii) : bool :=
    bool_decide (m = meth) && (pos =? i) && bool_decide (ch = c) in
  if XX Post 1 "U"%char then Some Put
  else if XX Post 1 "A"%char then Some Patch
  else if XX Post 1 "R"%char then Some Propfind
  else if XX Put 2 "R"%char then Some Purge
  else if XX Connect 1 "H"%char then Some Checkout
  else if XX Connect 2 "P"%char then Some Copy
  else if XX MkCol 1 "O"%char then Some Move
  else if XX MkCol 1 "E"%char then Some Http.Merge
  else if XX MkCol 1 "-"%char then Some MSearch
  else if XX MkCol 2 "A"%char then Some MkActivity
  else if XX MkCol 3 "A"%char then Some MkCalendar
  else if XX Subscribe 1 "E"%char then Some Search
  else if XX Subscribe 1 "O"%char then Some Source
  else if XX Report 2 "B"%char then Some Rebind
  else if XX Propfind 4 "P"%char then Some Proppatch
  else if XX Lock 1 "I"%char then Some Link
  else if XX Unlock 2 "S"%char then Some Unsubscribe
  else if XX Unlock 2 "B"%char then Some Unbind
  else if XX Unlock 3 "I"%char then Some Unlink
  else None.

(** ** The call *)

(** The local variables of [http_parser_execute]; a mark is a pointer or null. *)
Record frame : Type := Frame {
  parser : http_parser;
  p : string;
  nread : Z;                         (* [uint32_t] *)
  header_field_mark : option string;
  header_value_mark : option string;
  url_mark : option string;
  url_start_mark : option string;
  body_mark : option string;
}.
Definition set_parser (x : http_parser) (t : frame) : frame :=
  Frame x (p t) (nread t) (header_field_mark t) (header_value_mark t) (url_mark t)
    (url_start_mark t) (body_mark t).
Definition upd (f : http_parser → http_parser) (t : frame) : frame := set_parser (f (parser t)) t.
Definition set_p (x : string) (t : frame) : frame :=
  Frame (parser t) x (nread t) (header_field_mark t) (header_value_mark t) (url_mark t)
    (url_start_mark t) (body_mark t).
Definition set_nread (x : Z) (t : frame) : frame :=
  Frame (parser t) (p t) x (header_field_mark t) (header_value_mark t) (url_mark t)
    (url_start_mark t) (body_mark t).
Definition goto (s : state) (t : frame) : frame := upd (set_state s) t.

(** The four marks with a data callback. *)
Inductive data_for : Type := d_url | d_header_field | d_header_value | d_body.
#[export] Instance data_for_eq_dec : EqDecision data_for.
Proof. solve_decision. Defined.
Definition mark_of (f : data_for) (t : frame) : option string :=
  match f with
  | d_url => url_mark t | d_header_field => header_field_mark t
  | d_header_value => header_value_mark t | d_body => body_mark t
  end.
Definition set_mark (f : data_for) (m : option string) (t : frame) : frame :=
  match f with
  | d_url => Frame (parser t) (p t) (nread t) (header_field_mark t) (header_value_mark t) m
               (url_start_mark t) (body_mark t)
  | d_header_field => Frame (parser t) (p t) (nread t) m (header_value_mark t) (url_mark t)
               (url_start_mark t) (body_mark t)
  | d_header_value => Frame (parser t) (p t) (nread t) (header_field_mark t) m (url_mark t)
               (url_start_mark t) (body_mark t)
  | d_body => Frame (parser t) (p t) (nread t) (header_field_mark t) (header_value_mark t)
               (url_mark t) (url_start_mark t) m
  end.
(** [CROW_MARK]. *)
Definition CROW_MARK (f : data_for) (t : frame) : frame :=
  match mark_of f t with Some _ => t | None => set_mark f (Some (p t)) t end.
Definition mark_url_start (t : frame) : frame :=
  match url_start_mark t with
  | Some _ => t
  | None => Frame (parser t) (p t) (nread t) (header_field_mark t) (header_value_mark t)
              (url_mark t) (Some (p t)) (body_mark t)
  end.

(** [http_parser_settings]: what is called, with its text. *)
Inductive callback : Type :=
| on_message_begin
| on_method
| on_url (at_ : string)
| on_header_field (at_ : string)
| on_header_value (at_ : string)
| on_headers_complete
| on_body (at_ : string)
| on_message_complete.
Definition errno_of (c : callback) : http_errno :=
  match c with
  | on_message_begin => CHPE_CB_message_begin | on_method => CHPE_CB_method
  | on_url _ => CHPE_CB_url | on_header_field _ => CHPE_CB_header_field
  | on_header_value _ => CHPE_CB_header_value
  | on_headers_complete => CHPE_CB_headers_complete
  | on_body _ => CHPE_CB_body | on_message_complete => CHPE_CB_message_complete
  end.
Definition on_data (f : data_for) (at_ : string) : callback :=
  match f with
  | d_url => on_url at_ | d_header_field => on_header_field at_
  | d_header_value => on_header_value at_ | d_body => on_body at_
  end.

(** How the code for one character ends: at the [break] of the [switch], at [reexecute] with
    a character, at [error] with the errno set, or with a [return]. *)
Inductive jump : Type :=
| Break (t : frame)
| Reexecute (ch : ascii) (t : frame)
| Error (t : frame)
| Return (t : frame) (n : Z).

Section Execute.
Context {U : Type}.
Context (settings : callback → http_parser → M U (Z * http_parser)).
Context (address : Z) (data : string).

Definition assert {A} (b : bool) (k : M U A) : M U A :=
  if b then k else throw (UB "assertion failed").

(** [p - data]. *)
Definition offset (t : frame) : Z := slen data - slen (p t).

Definition CROW_SET_ERRNO (e : http_errno) (t : frame) : frame :=
  upd (λ h, set_errno e (set_hp_nread (nread t) h)) t.
Definition error (e : http_errno) (t : frame) : M U jump := mret (Error (CROW_SET_ERRNO e t)).

(** [CROW_CALLBACK_NOTIFY_]: [er] is what it returns when the parser is in error after the
    callback. *)
Definition call_ (c : callback) (er : Z) (t : frame) (k : frame → M U jump) : M U jump :=
  assert (bool_decide (hp_errno (parser t) = CHPE_OK))
    (x ← settings c (parser t);
     let t := set_parser (snd x) t in
     let t := if fst x =? 0 then t else CROW_SET_ERRNO (errno_of c) t in
     if decide (hp_errno (parser t) = CHPE_OK) then k t else mret (Return t er)).
Definition CROW_CALLBACK_NOTIFY (c : callback) (t : frame) (k : frame → M U jump) : M U jump :=
  call_ c (offset t + 1) t k.
Definition CROW_CALLBACK_NOTIFY_NOADVANCE (c : callback) (t : frame) (k : frame → M U jump)
  : M U jump := call_ c (offset t) t k.
(** [CROW_CALLBACK_DATA_]: the text has [p - mark + more] characters. *)
Definition CROW_CALLBACK_DATA_ (f : data_for) (more er : Z) (t : frame) (k : frame → M U jump)
  : M U jump :=
  assert (bool_decide (hp_errno (parser t) = CHPE_OK))
    match mark_of f t with
    | None => k t
    | Some m =>
        let length := Z.to_nat (slen m - slen (p t) + more) in
        call_ (on_data f (String.substring 0 length m)) er t (λ t, k (set_mark f None t))
    end.
Definition CROW_CALLBACK_DATA (f : data_for) (t : frame) (k : frame → M U jump) : M U jump :=
  CROW_CALLBACK_DATA_ f 0 (offset t + 1) t k.
Definition CROW_CALLBACK_DATA_NOADVANCE (f : data_for) (t : frame) (k : frame → M U jump)
  : M U jump := CROW_CALLBACK_DATA_ f 0 (offset t) t k.

Definition CROW_COUNT_HEADER_SIZE (v : Z) (t : frame) (k : frame → M U jump) : M U jump :=
  let t := set_nread (uwrap 32 (nread t + v)) t in
  if max_header_size <? nread t then error CHPE_HEADER_OVERFLOW t else k t.

Definition break_ (t : frame) : M U jump := mret (Break t).
Definition CROW_REEXECUTE (ch : ascii) (t : frame) : M U jump := mret (Reexecute ch t).
Definition CROW_STRICT_CHECK (cond : bool) (t : frame) (k : M U jump) : M U jump :=
  if cond then error CHPE_STRICT t else k.

(** *** The request line *)

Definition case_start_req (ch : ascii) (t : frame) : M U jump :=
  if decide (ch = CR ∨ ch = LF) then break_ t
  else
    let t := upd (λ h, set_content_length CROW_ULLONG_MAX (set_uses_te false (set_flags 0 h))) t in
    if negb (CROW_IS_ALPHA ch) then error CHPE_INVALID_METHOD t
    else
      let t := upd (λ h, set_index 1 (set_method Http.Delete h)) t in
      match method_of_letter ch with
      | None => error CHPE_INVALID_METHOD t
      | Some m =>
          CROW_CALLBACK_NOTIFY on_message_begin (goto s_req_method (upd (set_method m) t)) break_
      end.

Definition case_req_method (ch : ascii) (t : frame) : M U jump :=
  let matched (t : frame) : M U jump :=
    CROW_CALLBACK_NOTIFY_NOADVANCE on_method t
      (λ t, break_ (upd (λ h, set_index (index h + 1) h) t)) in
  if decide (ch = NUL) then error CHPE_INVALID_METHOD t
  else
    let h := parser t in
    let matcher := method_name (hp_method h) in
    let c := c_char matcher (index h) in
    if slen matcher <? index h then throw (UB "index out of bounds")
    else if bool_decide (ch = SP) && bool_decide (c = NUL)
    then matched (goto s_req_spaces_before_url t)
    else if decide (ch = c) then matched t
    else if ((65 <=? schar ch) && (schar ch <=? 90)) || bool_decide (ch = "-"%char) then
      match method_switch (hp_method h) (index h) ch with
      | Some m => matched (upd (set_method m) t)
      | None => error CHPE_INVALID_METHOD t
      end
    else error CHPE_INVALID_METHOD t.

(** The new state of a URL, or an error. *)
Definition url_char (ch : ascii) (t : frame) : M U jump :=
  let '(s, h) := parse_url_char (hp_state (parser t)) ch
                   (url_offset address data (p t) (url_start_mark t)) (parser t) in
  let t := goto s (set_parser h t) in
  if decide (s = s_dead) then error CHPE_INVALID_URL t else break_ t.
Definition case_req_spaces_before_url (ch : ascii) (t : frame) : M U jump :=
  if decide (ch = SP) then break_ t
  else
    let t := mark_url_start (CROW_MARK d_url t) in
    url_char ch (if decide (hp_method (parser t) = Connect) then goto s_req_server_start t else t).
Definition case_req_schema (ch : ascii) (t : frame) : M U jump :=
  if decide (ch = SP ∨ ch = CR ∨ ch = LF) then error CHPE_INVALID_URL t else url_char ch t.
Definition case_req_path (ch : ascii) (t : frame) : M U jump :=
  if decide (ch = SP) then CROW_CALLBACK_DATA d_url (goto s_req_http_start t) break_
  else if decide (ch = CR ∨ ch = LF) then
    if decide (hp_method (parser t) ≠ Get) then error CHPE_INVALID_VERSION (goto s_dead t)
    else
      CROW_CALLBACK_DATA d_url
        (goto (if decide (ch = CR) then s_req_line_almost_done else s_header_field_start)
           (upd (set_version 0 9) t)) break_
  else url_char ch t.

Definition case_req_http_start (ch : ascii) (t : frame) : M U jump :=
  if decide (ch = SP) then break_ t
  else if decide (ch = "H"%char) then break_ (goto s_req_http_H t)
  else if decide (ch = "I"%char ∧ hp_method (parser t) = Source) then break_ (goto s_req_http_I t)
  else error CHPE_INVALID_CONSTANT t.
(** One letter of the constant. *)
Definition case_req_http (expected ch : ascii) (next : state) (t : frame) : M U jump :=
  CROW_STRICT_CHECK (bool_decide (ch ≠ expected)) t (break_ (goto next t)).
Definition case_req_http_major (ch : ascii) (t : frame) : M U jump :=
  if negb (CROW_IS_NUM ch) then error CHPE_INVALID_VERSION t
  else break_ (goto s_req_http_dot (upd (λ h, set_version (code ch - 48) (http_minor h) h) t)).
Definition case_req_http_dot (ch : ascii) (t : frame) : M U jump :=
  if decide (ch ≠ "."%char) then error CHPE_INVALID_VERSION t else break_ (goto s_req_http_minor t).
Definition case_req_http_minor (ch : ascii) (t : frame) : M U jump :=
  if negb (CROW_IS_NUM ch) then error CHPE_INVALID_VERSION t
  else break_ (goto s_req_http_end (upd (λ h, set_version (http_major h) (code ch - 48) h) t)).
Definition case_req_http_end (ch : ascii) (t : frame) : M U jump :=
  if decide (ch = CR) then break_ (goto s_req_line_almost_done t)
  else if decide (ch = LF) then break_ (goto s_header_field_start t)
  else error CHPE_INVALID_VERSION t.
Definition case_req_line_almost_done (ch : ascii) (t : frame) : M U jump :=
  if decide (ch ≠ LF) then error CHPE_LF_EXPECTED t else break_ (goto s_header_field_start t).

(** *** Header names *)

Definition case_header_field_start (ch : ascii) (t : frame) : M U jump :=
  if decide (ch = CR) then break_ (goto s_headers_almost_done t)
  else if decide (ch = LF) then CROW_REEXECUTE ch (goto s_headers_almost_done t)
  else
    let c := CROW_TOKEN ch in
    if decide (c = NUL) then error CHPE_INVALID_HEADER_TOKEN t
    else
      let t := CROW_MARK d_header_field t in
      let t := goto s_header_field (upd (set_index 0) t) in
      break_ (upd (set_header_state
        (if decide (c = "c"%char) then h_C
         else if decide (c = "p"%char) then h_matching_proxy_connection
         else if decide (c = "t"%char) then h_matching_transfer_encoding
         else if decide (c = "u"%char) then h_matching_upgrade
         else h_general)) t).

(** A matcher's step: the index goes on, and the state falls back to [other] or, at the end
    of [str], changes to [found]. *)
Definition matching (str : string) (found other : header_states) (c : ascii)
  (hs : header_states) (h : http_parser) : result (header_states * http_parser) :=
  let h := set_index (index h + 1) h in
  if slen str <? index h then Ok (other, h)
  else
    d ← c_index str (index h);
    Ok (if bool_decide (c ≠ d) then (other, h)
        else if index h =? slen str - 1 then (found, h)
        else (hs, h)).
Definition field_match (str : string) (found : header_states) (c : ascii) (h : http_parser)
  : result http_parser :=
  x ← matching str found h_general c (header_state h) h; Ok (set_header_state (fst x) (snd x)).

(** The [switch] over the header state for the character [ch], whose token is [c];
    [h_general] is the caller's. *)
Definition field_switch (ch c : ascii) (h : http_parser) : result http_parser :=
  let next (hs : header_states) : http_parser :=
    set_header_state hs (set_index (index h + 1) h) in
  match header_state h with
  | h_general => Ok h
  | h_C => Ok (next (if decide (c = "o"%char) then h_CO else h_general))
  | h_CO => Ok (next (if decide (c = "n"%char) then h_CON else h_general))
  | h_CON =>
      Ok (next (if decide (c = "n"%char) then h_matching_connection
                else if decide (c = "t"%char) then h_matching_content_length else h_general))
  | h_matching_connection => field_match CROW_CONNECTION h_connection c h
  | h_matching_proxy_connection => field_match CROW_PROXY_CONNECTION h_connection c h
  | h_matching_content_length => field_match CROW_CONTENT_LENGTH h_content_length c h
  | h_matching_transfer_encoding =>
      h ← field_match CROW_TRANSFER_ENCODING h_transfer_encoding c h;
      Ok (if decide (header_state h = h_transfer_encoding) then set_uses_te true h else h)
  | h_matching_upgrade => field_match CROW_UPGRADE h_upgrade c h
  | h_connection | h_content_length | h_transfer_encoding | h_upgrade =>
      Ok (if decide (ch ≠ SP) then set_header_state h_general h else h)
  | _ => Throw (UB "assertion failed")
  end.
(** [while (p+1 < pe && CROW_TOKEN(p[1])) p++], with [n] characters before [pe]. *)
Fixpoint token_skip (n : nat) (p : string) : string :=
  match n, p with
  | S n', String _ (String d _ as p') => if decide (CROW_TOKEN d = NUL) then p else token_skip n' p'
  | _, _ => p
  end.
Definition limit (p : string) : nat := Z.to_nat (Z.min (slen p) max_header_size).
(** The loop over the name; [fuel] bounds its turns by the characters left. *)
Fixpoint header_field_loop (fuel : nat) (h : http_parser) (p : string)
  : result (http_parser * string) :=
  match p with
  | EmptyString => Ok (h, p)
  | String ch p' =>
      let c := CROW_TOKEN ch in
      if decide (c = NUL) then Ok (h, p)
      else
        match fuel with
        | O => Throw (UB "out of fuel")
        | S fuel' =>
            match header_state h with
            | h_general =>
                match token_skip (limit p - 1) p with
                | String _ q => header_field_loop fuel' h q
                | EmptyString => Ok (h, EmptyString)
                end
            | _ => h' ← field_switch ch c h; header_field_loop fuel' h' p'
            end
        end
  end.
(** [--p] at the end of the data. *)
Definition back (q start : string) : string :=
  String.substring (String.length start - 1) 1 start +:+ q.

Definition case_header_field (t : frame) : M U jump :=
  let start := p t in
  r ← lift (header_field_loop (String.length start) (parser t) start);
  let t := set_p (snd r) (set_parser (fst r) t) in
  match p t with
  | EmptyString =>
      CROW_COUNT_HEADER_SIZE (slen start - 1) (set_p (back EmptyString start) t) break_
  | String ch _ =>
      CROW_COUNT_HEADER_SIZE (slen start - slen (p t)) t (λ t,
        if decide (ch = ":"%char)
        then CROW_CALLBACK_DATA d_header_field (goto s_header_value_discard_ws t) break_
        else error CHPE_INVALID_HEADER_TOKEN t)
  end.

(** *** Header values *)

Definition case_header_value_start (ch : ascii) (t : frame) : M U jump :=
  let t := goto s_header_value (upd (set_index 0) (CROW_MARK d_header_value t)) in
  let c := CROW_LOWER ch in
  let go (hs : header_states) : M U jump := break_ (upd (set_header_state hs) t) in
  match header_state (parser t) with
  | h_upgrade =>
      let is_h2 := match p t with
                   | String _ (String d _) => bool_decide (ch = "h"%char ∧ d = "2"%char)
                   | _ => false
                   end in
      break_ (upd (set_header_state h_general) (if is_h2 then t else upd (add_flag F_UPGRADE) t))
  | h_transfer_encoding =>
      go (if decide (c = "c"%char) then h_matching_transfer_encoding_chunked
          else h_matching_transfer_encoding_token)
  | h_matching_transfer_encoding_token_start => break_ t
  | h_content_length =>
      if negb (CROW_IS_NUM ch) then error CHPE_INVALID_CONTENT_LENGTH t
      else if has_flag F_CONTENTLENGTH (parser t) then error CHPE_UNEXPECTED_CONTENT_LENGTH t
      else
        break_ (upd (λ h, set_header_state h_content_length_num
          (set_content_length (code ch - 48) (add_flag F_CONTENTLENGTH h))) t)
  | h_content_length_ws => break_ t
  | h_connection =>
      if decide (c = "k"%char) then go h_matching_connection_keep_alive
      else if decide (c = "c"%char) then go h_matching_connection_close
      else if decide (c = SP ∨ c = TAB) then break_ t
      else go h_general
  | _ => go h_general
  end.
Definition case_header_value_discard_ws (ch : ascii) (t : frame) : M U jump :=
  if decide (ch = SP ∨ ch = TAB) then break_ t
  else if decide (ch = CR) then break_ (goto s_header_value_discard_ws_almost_done t)
  else if decide (ch = LF) then break_ (goto s_header_value_discard_lws t)
  else case_header_value_start ch t.

(** The loop over a value keeps the header state in [hs].  How it ends: *)
Inductive value_end : Type :=
| v_cr (hs : header_states) (h : http_parser) (p : string)
| v_lf (hs : header_states) (h : http_parser) (p : string)
| v_data (hs : header_states) (h : http_parser)             (* [p == data + len] *)
| v_error (e : http_errno) (h : http_parser) (p : string).

(** The [switch] for the character [ch], except [h_general]. *)
Definition content_length_digit (ch : ascii) (h : http_parser)
  : result (header_states * http_parser) + http_errno :=
  if decide (ch = SP) then inl (Ok (h_content_length_ws, h))
  else if negb (CROW_IS_NUM ch) then inr CHPE_INVALID_CONTENT_LENGTH
  else
    let u := uwrap 64 (uwrap 64 (content_length h * 10) + (code ch - 48)) in
    if (CROW_ULLONG_MAX - 10) / 10 <? content_length h then inr CHPE_INVALID_CONTENT_LENGTH
    else inl (Ok (h_content_length_num, set_content_length u h)).
Definition value_switch (ch : ascii) (hs : header_states) (h : http_parser)
  : result (header_states * http_parser) + http_errno :=
  let c := CROW_LOWER ch in
  match hs with
  | h_connection | h_transfer_encoding => inl (Throw (UB "assertion failed"))
  | h_content_length =>
      if decide (ch = SP) then inl (Ok (hs, h)) else content_length_digit ch h
  | h_content_length_num => content_length_digit ch h
  | h_content_length_ws =>
      if decide (ch = SP) then inl (Ok (hs, h)) else inr CHPE_INVALID_CONTENT_LENGTH
  | h_matching_transfer_encoding_token_start =>
      inl (Ok (if decide (c = "c"%char) then h_matching_transfer_encoding_chunked
               else if decide (CROW_TOKEN c ≠ NUL) then h_matching_transfer_encoding_token
               else if decide (c = SP ∨ c = TAB) then hs
               else h_general, h))
  | h_matching_transfer_encoding_chunked =>
      inl (matching CROW_CHUNKED h_transfer_encoding_chunked
             h_matching_transfer_encoding_token c hs h)
  | h_matching_transfer_encoding_token =>
      inl (Ok (if decide (ch = ","%char)
               then (h_matching_transfer_encoding_token_start, set_index 0 h) else (hs, h)))
  | h_matching_connection_keep_alive =>
      inl (matching CROW_KEEP_ALIVE h_connection_keep_alive h_general c hs h)
  | h_matching_connection_close =>
      inl (matching CROW_CLOSE h_connection_close h_general c hs h)
  | h_transfer_encoding_chunked =>
      inl (Ok (if decide (ch ≠ SP) then h_matching_transfer_encoding_token else hs, h))
  | h_connection_keep_alive | h_connection_close =>
      inl (Ok (if decide (ch ≠ SP) then h_general else hs, h))
  | _ => inl (Ok (h_general, set_state s_header_value h))
  end.
(** [h_general] runs ahead to [pe], [n] characters on; then the outer loop's [p++]. *)
Fixpoint general_run (lenient : bool) (n : nat) (p : string) : option string * string :=
  match n, p with
  | _, EmptyString => (Some EmptyString, p)
  | O, String _ p' => (Some p', p)
  | S n', String ch p' =>
      if decide (ch = CR ∨ ch = LF) then (Some p, p)
      else if negb lenient && negb (CROW_IS_HEADER_CHAR ch) then (None, p)
      else general_run lenient n' p'
  end.
Fixpoint header_value_loop (fuel : nat) (hs : header_states) (h : http_parser) (p : string)
  : result value_end :=
  match p with
  | EmptyString => Ok (v_data hs h)
  | String ch p' =>
      if decide (ch = CR) then Ok (v_cr hs h p)
      else if decide (ch = LF) then Ok (v_lf hs h p)
      else if negb (lenient_http_headers h) && negb (CROW_IS_HEADER_CHAR ch)
      then Ok (v_error CHPE_INVALID_HEADER_TOKEN h p)
      else
        match fuel with
        | O => Throw (UB "out of fuel")
        | S fuel' =>
            match hs with
            | h_general =>
                match general_run (lenient_http_headers h) (limit p) p with
                | (Some q, _) => header_value_loop fuel' hs h q
                | (None, q) => Ok (v_error CHPE_INVALID_HEADER_TOKEN h q)
                end
            | _ =>
                match value_switch ch hs h with
                | inl r => x ← r; header_value_loop fuel' (fst x) (snd x) p'
                | inr e => Ok (v_error e (set_header_state
                    (if decide (hs = h_content_length) then h_content_length_num else hs) h) p)
                end
            end
        end
  end.
Definition case_header_value (t : frame) : M U jump :=
  let start := p t in
  r ← lift (header_value_loop (String.length start) (header_state (parser t)) (parser t) start);
  match r with
  | v_cr hs h q =>
      let t := goto s_header_almost_done (set_p q (set_parser (set_header_state hs h) t)) in
      CROW_CALLBACK_DATA d_header_value t (λ t,
        CROW_COUNT_HEADER_SIZE (slen start - slen q) (upd (set_header_state hs) t) break_)
  | v_lf hs h q =>
      let t := goto s_header_almost_done (set_p q (set_parser h t)) in
      CROW_COUNT_HEADER_SIZE (slen start - slen q) t (λ t,
        CROW_CALLBACK_DATA_NOADVANCE d_header_value (upd (set_header_state hs) t)
          (CROW_REEXECUTE LF))
  | v_data hs h =>
      let t := set_p (back EmptyString start) (set_parser (set_header_state hs h) t) in
      CROW_COUNT_HEADER_SIZE (slen start - 1) t break_
  | v_error e h q => error e (set_p q (set_parser h t))
  end.

Definition case_header_almost_done (ch : ascii) (t : frame) : M U jump :=
  if decide (ch ≠ LF) then error CHPE_LF_EXPECTED t else break_ (goto s_header_value_lws t).
Definition case_header_value_lws (ch : ascii) (t : frame) : M U jump :=
  if decide (ch = SP ∨ ch = TAB) then
    let t := if decide (header_state (parser t) = h_content_length_num)
             then upd (set_header_state h_content_length_ws) t else t in
    CROW_REEXECUTE ch (goto s_header_value_start t)
  else
    let t := match header_state (parser t) with
             | h_connection_keep_alive => upd (add_flag F_CONNECTION_KEEP_ALIVE) t
             | h_connection_close => upd (add_flag F_CONNECTION_CLOSE) t
             | h_transfer_encoding_chunked => upd (add_flag F_CHUNKED) t
             | _ => t
             end in
    CROW_REEXECUTE ch (goto s_header_field_start t).
Definition case_header_value_discard_ws_almost_done (ch : ascii) (t : frame) : M U jump :=
  CROW_STRICT_CHECK (bool_decide (ch ≠ LF)) t (break_ (goto s_header_value_discard_lws t)).
Definition case_header_value_discard_lws (ch : ascii) (t : frame) : M U jump :=
  if decide (ch = SP ∨ ch = TAB) then break_ (goto s_header_value_discard_ws t)
  else
    CROW_CALLBACK_DATA_NOADVANCE d_header_value (goto s_header_field_start (CROW_MARK d_header_value t))
      (CROW_REEXECUTE ch).

(** *** The end of the headers *)

(** [Transfer-Encoding] and [Content-Length] together. *)
Definition length_conflict (h : http_parser) : bool :=
  uses_transfer_encoding h && has_flag F_CONTENTLENGTH h
  && (if has_flag F_CHUNKED h then negb (allow_chunked_length h)
      else negb (lenient_http_headers h)).
Definition case_headers_almost_done (ch : ascii) (t : frame) : M U jump :=
  CROW_STRICT_CHECK (bool_decide (ch ≠ LF)) t
    (if has_flag F_TRAILING (parser t) then CROW_CALLBACK_NOTIFY on_message_complete t break_
     else if length_conflict (parser t) then error CHPE_UNEXPECTED_CONTENT_LENGTH t
     else
       let t := goto s_headers_done t in
       let h := parser t in
       let t := set_parser (set_upgrade
                  (has_flag F_UPGRADE h || bool_decide (hp_method h = Connect)) h) t in
       x ← settings on_headers_complete (parser t);
       let t := set_parser (snd x) t in
       let save (t : frame) : frame := upd (set_hp_nread (nread t)) t in
       let continue_ (t : frame) : M U jump :=
         if decide (hp_errno (parser t) ≠ CHPE_OK) then mret (Return (save t) (offset t))
         else CROW_REEXECUTE ch t in
       if fst x =? 0 then continue_ t
       else if fst x =? 2 then continue_ (upd (λ h, add_flag F_SKIPBODY (set_upgrade true h)) t)
       else if fst x =? 1 then continue_ (upd (add_flag F_SKIPBODY) t)
       else mret (Return (CROW_SET_ERRNO CHPE_CB_headers_complete t) (offset t))).

Definition case_headers_done (ch : ascii) (t : frame) : M U jump :=
  CROW_STRICT_CHECK (bool_decide (ch ≠ LF)) t
    (let t := set_nread 0 (upd (set_hp_nread 0) t) in
     let h := parser t in
     let complete := CROW_CALLBACK_NOTIFY on_message_complete t in
     if upgrade h then
       complete (λ t, mret (Return (upd (set_hp_nread (nread t)) t) (offset t + 1)))
     else if has_flag F_SKIPBODY h then complete break_
     else if has_flag F_CHUNKED h then break_ (goto s_chunk_size_start t)
     else if uses_transfer_encoding h then
       if negb (lenient_http_headers h)
       then mret (Return (CROW_SET_ERRNO CHPE_INVALID_TRANSFER_ENCODING t) (offset t))
       else break_ (goto s_body_identity_eof t)
     else if content_length h =? 0 then complete break_
     else if negb (content_length h =? CROW_ULLONG_MAX) then break_ (goto s_body_identity t)
     else complete break_).

(** *** Bodies *)

(** [to_read] characters are taken; [p] stays on the last of them. *)
Definition take_body (t : frame) : frame :=
  let to_read := Z.min (content_length (parser t)) (slen (p t)) in
  let t := CROW_MARK d_body t in
  let t := upd (λ h, set_content_length (content_length h - to_read) h) t in
  let n := Z.to_nat (to_read - 1) in
  set_p (String.substring n (String.length (p t) - n) (p t)) t.
Definition body_expected (h : http_parser) : bool :=
  negb (content_length h =? 0) && negb (content_length h =? CROW_ULLONG_MAX).
Definition case_body_identity (ch : ascii) (t : frame) : M U jump :=
  assert (body_expected (parser t))
    (let t := take_body t in
     if content_length (parser t) =? 0 then
       let t := goto s_message_done t in
       CROW_CALLBACK_DATA_ d_body 1 (offset t) t (CROW_REEXECUTE ch)
     else break_ t).
Definition case_body_identity_eof (t : frame) : M U jump :=
  let t := CROW_MARK d_body t in
  break_ (set_p (back EmptyString (p t)) t).
Definition case_message_done (t : frame) : M U jump :=
  CROW_CALLBACK_NOTIFY on_message_complete t break_.

Definition chunked (t : frame) (k : M U jump) : M U jump :=
  assert (has_flag F_CHUNKED (parser t)) k.
Definition case_chunk_size_start (ch : ascii) (t : frame) : M U jump :=
  assert (nread t =? 1) (chunked t
    (if unhex ch =? -1 then error CHPE_INVALID_CHUNK_SIZE t
     else break_ (goto s_chunk_size (upd (set_content_length (unhex ch)) t)))).
Definition case_chunk_size (ch : ascii) (t : frame) : M U jump :=
  chunked t
    (if decide (ch = CR) then break_ (goto s_chunk_size_almost_done t)
     else if unhex ch =? -1 then
       if decide (ch = ";"%char ∨ ch = SP) then break_ (goto s_chunk_parameters t)
       else error CHPE_INVALID_CHUNK_SIZE t
     else
       let h := parser t in
       let u := uwrap 64 (uwrap 64 (content_length h * 16) + unhex ch) in
       if (CROW_ULLONG_MAX - 16) / 16 <? content_length h then error CHPE_INVALID_CONTENT_LENGTH t
       else break_ (upd (set_content_length u) t)).
Definition case_chunk_parameters (ch : ascii) (t : frame) : M U jump :=
  chunked t (if decide (ch = CR) then break_ (goto s_chunk_size_almost_done t) else break_ t).
Definition case_chunk_size_almost_done (ch : ascii) (t : frame) : M U jump :=
  chunked t (CROW_STRICT_CHECK (bool_decide (ch ≠ LF)) t
    (let t := set_nread 0 (upd (set_hp_nread 0) t) in
     if content_length (parser t) =? 0
     then break_ (goto s_header_field_start (upd (add_flag F_TRAILING) t))
     else break_ (goto s_chunk_data t))).
Definition case_chunk_data (t : frame) : M U jump :=
  chunked t (assert (body_expected (parser t))
    (let t := take_body t in
     if content_length (parser t) =? 0 then break_ (goto s_chunk_data_almost_done t)
     else break_ t)).
Definition case_chunk_data_almost_done (ch : ascii) (t : frame) : M U jump :=
  chunked t (assert (content_length (parser t) =? 0)
    (CROW_STRICT_CHECK (bool_decide (ch ≠ CR)) t
       (CROW_CALLBACK_DATA d_body (goto s_chunk_data_done t) break_))).
Definition case_chunk_data_done (ch : ascii) (t : frame) : M U jump :=
  chunked t (CROW_STRICT_CHECK (bool_decide (ch ≠ LF)) t
    (break_ (goto s_chunk_size_start (set_nread 0 (upd (set_hp_nread 0) t))))).

Definition case_dead (ch : ascii) (t : frame) : M U jump :=
  if decide (ch = CR ∨ ch = LF) then break_ t else error CHPE_CLOSED_CONNECTION t.

(** *** The loop *)

Definition switch (ch : ascii) (t : frame) : M U jump :=
  match hp_state (parser t) with
  | s_dead => case_dead ch t
  | s_start_req => case_start_req ch t
  | s_req_method => case_req_method ch t
  | s_req_spaces_before_url => case_req_spaces_before_url ch t
  | s_req_schema | s_req_schema_slash | s_req_schema_slash_slash | s_req_server_start =>
      case_req_schema ch t
  | s_req_server | s_req_server_with_at | s_req_path | s_req_query_string_start
  | s_req_query_string => case_req_path ch t
  | s_req_http_start => case_req_http_start ch t
  | s_req_http_H => case_req_http "T" ch s_req_http_HT t
  | s_req_http_HT => case_req_http "T" ch s_req_http_HTT t
  | s_req_http_HTT => case_req_http "P" ch s_req_http_HTTP t
  | s_req_http_I => case_req_http "C" ch s_req_http_IC t
  | s_req_http_IC => case_req_http "E" ch s_req_http_HTTP t
  | s_req_http_HTTP => case_req_http "/" ch s_req_http_major t
  | s_req_http_major => case_req_http_major ch t
  | s_req_http_dot => case_req_http_dot ch t
  | s_req_http_minor => case_req_http_minor ch t
  | s_req_http_end => case_req_http_end ch t
  | s_req_line_almost_done => case_req_line_almost_done ch t
  | s_header_field_start => case_header_field_start ch t
  | s_header_field => case_header_field t
  | s_header_value_discard_ws => case_header_value_discard_ws ch t
  | s_header_value_start => case_header_value_start ch t
  | s_header_value => case_header_value t
  | s_header_almost_done => case_header_almost_done ch t
  | s_header_value_lws => case_header_value_lws ch t
  | s_header_value_discard_ws_almost_done => case_header_value_discard_ws_almost_done ch t
  | s_header_value_discard_lws => case_header_value_discard_lws ch t
  | s_headers_almost_done => case_headers_almost_done ch t
  | s_headers_done => case_headers_done ch t
  | s_body_identity => case_body_identity ch t
  | s_body_identity_eof => case_body_identity_eof t
  | s_message_done => case_message_done t
  | s_chunk_size_start => case_chunk_size_start ch t
  | s_chunk_size => case_chunk_size ch t
  | s_chunk_parameters => case_chunk_parameters ch t
  | s_chunk_size_almost_done => case_chunk_size_almost_done ch t
  | s_chunk_data => case_chunk_data t
  | s_chunk_data_almost_done => case_chunk_data_almost_done ch t
  | s_chunk_data_done => case_chunk_data_done ch t
  end.

(** The label [reexecute]; [n] bounds its turns, which are one more than the jumps back to it. *)
Fixpoint reexecute (n : nat) (ch : ascii) (t : frame) : M U jump :=
  match n with
  | O => throw (UB "out of fuel")
  | S n' =>
      j ← switch ch t;
      match j with Reexecute ch' t' => reexecute n' ch' t' | _ => mret j end
  end.
Definition reexecutions : nat := 4.

(** After the loop: the marks left over. *)
Definition is_set {A} (m : option A) : nat := match m with Some _ => 1 | None => 0 end.
Definition leftover (t : frame) : M U jump :=
  assert (is_set (header_field_mark t) + is_set (header_value_mark t) + is_set (url_mark t)
          + is_set (body_mark t) <=? 1)%nat
    (CROW_CALLBACK_DATA_NOADVANCE d_header_field t (λ t,
     CROW_CALLBACK_DATA_NOADVANCE d_header_value t (λ t,
     CROW_CALLBACK_DATA_NOADVANCE d_url t (λ t,
     CROW_CALLBACK_DATA_NOADVANCE d_body t (λ t,
     mret (Return (upd (set_hp_nread (nread t)) t) (slen data))))))).
(** The label [error]; the errno is set wherever it is jumped to. *)
Definition at_error (t : frame) : http_parser * Z :=
  let t := if decide (hp_errno (parser t) = CHPE_OK) then CROW_SET_ERRNO CHPE_UNKNOWN t else t in
  (set_hp_nread (nread t) (parser t), offset t).

Fixpoint execute_loop (fuel : nat) (t : frame) : M U (http_parser * Z) :=
  let finish (j : jump) (k : frame → M U (http_parser * Z)) : M U (http_parser * Z) :=
    match j with
    | Break t => k t
    | Error t => mret (at_error t)
    | Return t n => mret (parser t, n)
    | Reexecute _ _ => throw (UB "out of fuel")
    end in
  match p t with
  | EmptyString => j ← leftover t; finish j (λ _, throw (UB "unreachable"))
  | String ch _ =>
      match fuel with
      | O => throw (UB "out of fuel")
      | S fuel' =>
          j ← (if parsing_header (hp_state (parser t))
               then CROW_COUNT_HEADER_SIZE 1 t (reexecute reexecutions ch)
               else reexecute reexecutions ch t);
          finish j (λ t,
            execute_loop fuel' (set_p (match p t with String _ q => q | EmptyString => EmptyString end) t))
      end
  end.

(** The marks of a call that begins inside a name, a value or a URL. *)
Definition start_frame (h : http_parser) : frame :=
  let mark (b : bool) : option string := if b then Some data else None in
  Frame h data (hp_nread h)
    (mark (bool_decide (hp_state h = s_header_field)))
    (mark (bool_decide (hp_state h = s_header_value)))
    (mark (match hp_state h with
           | s_req_path | s_req_schema | s_req_schema_slash | s_req_schema_slash_slash
           | s_req_server_start | s_req_server | s_req_server_with_at
           | s_req_query_string_start | s_req_query_string => true
           | _ => false
           end))
    None None.

Definition http_parser_execute (h : http_parser) : M U (http_parser * Z) :=
  if decide (hp_errno h ≠ CHPE_OK) then mret (h, 0)
  else if decide (data = EmptyString) then
    match hp_state h with
    | s_body_identity_eof =>
        j ← CROW_CALLBACK_NOTIFY_NOADVANCE on_message_complete (start_frame h) (λ t, mret (Return t 0));
        match j with Return t n => mret (parser t, n) | _ => throw (UB "unreachable") end
    | s_dead | s_start_req => mret (h, 0)
    | _ => mret (set_errno CHPE_INVALID_EOF_STATE h, 1)
    end
  else execute_loop (String.length data) (start_frame h).
End Execute.

Definition http_body_is_final (h : http_parser) : bool := bool_decide (hp_state h = s_message_done).
