(* ===== verification/TokenizerSpec.v ===== *)
(** * The tokenizer is safe

    Whatever bytes a client sends, [http_parser_execute] returns: it reads no table out of
    bounds, its counters do not wrap, and, apart from the assertion that a NUL can reach, no
    assertion fails. *)

From S2P Require Import Prelude Doubles JsonRead JsonWrite Utility QueryString Http Service.
From S2P Require Import OrderRoutes Wp Tokenizer.
Open Scope Z_scope.

(** ** The invariant *)

(** The header states a name, and a value, can be in. *)
Definition field_state (hs : header_states) : bool :=
  match hs with
  | h_general | h_C | h_CO | h_CON | h_matching_connection | h_matching_proxy_connection
  | h_matching_content_length | h_matching_transfer_encoding | h_matching_upgrade
  | h_connection | h_content_length | h_transfer_encoding | h_upgrade => true
  | _ => false
  end.
Definition value_state (hs : header_states) : bool :=
  match hs with h_connection | h_transfer_encoding => false | _ => true end.

(** What holds in a state; [n] is the number of header bytes before this one. *)
Definition state_ok (h : http_parser) (n : Z) : Prop :=
  match hp_state h with
  | s_req_method => 1 ≤ index h ≤ slen (method_name (hp_method h))
  | s_header_field => field_state (header_state h) = true
  | s_header_value | s_header_value_start | s_header_almost_done | s_header_value_lws =>
      value_state (header_state h) = true
  | s_chunk_size_start => has_flag F_CHUNKED h = true ∧ n = 0
  | s_chunk_size | s_chunk_parameters | s_chunk_size_almost_done =>
      has_flag F_CHUNKED h = true ∧ content_length h < CROW_ULLONG_MAX
  | s_chunk_data => has_flag F_CHUNKED h = true ∧ body_expected h = true
  | s_chunk_data_almost_done => has_flag F_CHUNKED h = true ∧ content_length h = 0
  | s_chunk_data_done => has_flag F_CHUNKED h = true
  | s_body_identity => body_expected h = true
  | _ => True
  end.
Record parser_ok (n : Z) (h : http_parser) : Prop := {
  po_errno : hp_errno h = CHPE_OK;
  po_length : 0 ≤ content_length h ≤ CROW_ULLONG_MAX;
  po_index : 0 ≤ index h < 32;
  po_state : state_ok h n;
}.

(** The mark that may be set in a state. *)
Definition marked (s : state) : option data_for :=
  match s with
  | s_header_field => Some d_header_field
  | s_header_value => Some d_header_value
  | s_req_schema | s_req_schema_slash | s_req_schema_slash_slash | s_req_server_start
  | s_req_server | s_req_server_with_at | s_req_path | s_req_query_string_start
  | s_req_query_string => Some d_url
  | s_chunk_data | s_chunk_data_almost_done | s_body_identity | s_body_identity_eof => Some d_body
  | _ => None
  end.
Definition marks_ok (t : frame) : Prop :=
  ∀ f, mark_of f t ≠ None → marked (hp_state (parser t)) = Some f.
Definition no_marks (t : frame) : Prop := ∀ f, mark_of f t = None.

(** [counted] header bytes include this one. *)
Record frame_ok (counted : Z) (t : frame) : Prop := {
  fo_parser : parser_ok (nread t - counted) (parser t);
  fo_nread : 0 ≤ nread t ≤ max_header_size;
  fo_marks : marks_ok t;
  fo_clean : string_Forall (λ c, c ≠ NUL) (p t);
}.

(** How often the code of a state can jump back to [reexecute]. *)
Definition rank (s : state) : nat :=
  match s with
  | s_header_value_lws | s_header_value_discard_lws => 4
  | s_header_field_start => 3
  | s_headers_almost_done | s_header_value | s_body_identity => 2
  | _ => 1
  end.

(** A callback may set the errno, move [qs_point] and start a new message, as
    [HTTPParser::clear] does, and throw. *)
Definition polite (h h' : http_parser) : Prop :=
  ∃ e q, h' = set_errno e (set_qs_point q h) ∨
         h' = set_state s_start_req (set_errno e (set_qs_point q h)).
Definition proper (e : exn) : Prop := match e with UB _ => False | _ => True end.

(** [q] points into what [s] points at. *)
Definition suffix (q s : string) : Prop := ∃ x, s = x +:+ q.
Lemma suffix_refl s : suffix s s.
Proof. by exists EmptyString. Qed.
Lemma suffix_cons c q s : suffix q s → suffix q (String c s).
Proof. intros [x ->]. by exists (String c x). Qed.
Lemma suffix_trans q r s : suffix q r → suffix r s → suffix q s.
Proof. intros [x ->] [y ->]. exists (y +:+ x). by rewrite string_app_assoc. Qed.
Lemma suffix_len q s : suffix q s → (String.length q ≤ String.length s)%nat.
Proof. intros [x ->]. rewrite string_length_app. lia. Qed.
Lemma suffix_clean (P : ascii → Prop) q s : suffix q s → string_Forall P s → string_Forall P q.
Proof. intros [x ->]. rewrite string_Forall_app. tauto. Qed.
Lemma substring_suffix n s : suffix (String.substring n (String.length s - n) s) s.
Proof. exists (String.substring 0 n s). by rewrite substring_split. Qed.
Lemma back_suffix s : suffix (back EmptyString s) s.
Proof.
  unfold back. rewrite string_app_nil_r. destruct s as [|c s]; [by exists EmptyString|].
  pose proof (substring_suffix (String.length s) (String c s)) as H. cbn [String.length] in *.
  replace (S (String.length s) - String.length s)%nat with 1%nat in H by lia.
  by replace (S (String.length s) - 1)%nat with (String.length s) by lia.
Qed.
#[local] Hint Resolve suffix_refl suffix_cons back_suffix : core.

Section Safe.
Context {U : Type}.
Context (settings : callback → http_parser → M U (Z * http_parser)).
Context (address : Z) (data : string).
Context (Hset : ∀ c h u, wp (settings c h) (λ r _,
  match r with Ok x => polite h (snd x) | Throw e => proper e end) u).
Context (Hlen : slen data < 2 ^ 31).

Abbreviation len s := (String.length s).

(** What one character's code may end with, from [t]. *)
Definition jump_ok (t : frame) (j : jump) : Prop :=
  match j with
  | Break t' => frame_ok 0 t' ∧ (1 ≤ len (p t') ≤ len (p t))%nat
  | Reexecute ch t' =>
      frame_ok 1 t' ∧ (1 ≤ len (p t') ≤ len (p t))%nat ∧ ch ≠ NUL ∧
      (rank (hp_state (parser t')) < rank (hp_state (parser t)))%nat
  | Error t' =>
      hp_errno (parser t') ≠ CHPE_OK ∧ (len (p t') ≤ len (p t))%nat
  | Return t' n =>
      0 ≤ n ≤ slen data ∧
      (hp_errno (parser t') = CHPE_OK →
       parser_ok (hp_nread (parser t')) (parser t') ∧ 0 ≤ hp_nread (parser t') ≤ max_header_size ∧
       (n = slen data ∨ upgrade (parser t') = true))
  end.
Definition safe (t : frame) (r : result jump) (_ : U) : Prop :=
  match r with Ok j => jump_ok t j | Throw e => proper e end.

Lemma safe_break t t' u :
  frame_ok 0 t' → (1 ≤ len (p t') ≤ len (p t))%nat → wp (break_ t') (safe t) u.
Proof. by split. Qed.
Lemma safe_error e t t' u :
  e ≠ CHPE_OK → (len (p t') ≤ len (p t))%nat → wp (error e t') (safe t) u.
Proof. by split. Qed.
Lemma safe_reexecute ch t t' u :
  frame_ok 1 t' → (1 ≤ len (p t') ≤ len (p t))%nat → ch ≠ NUL →
  (rank (hp_state (parser t')) < rank (hp_state (parser t)))%nat →
  wp (CROW_REEXECUTE ch t') (safe t) u.
Proof. intros Hf Hp Hc Hr. exact (conj Hf (conj Hp (conj Hc Hr))). Qed.

Lemma polite_refl h : polite h h.
Proof. exists (hp_errno h), (qs_point h). left. by destruct h. Qed.

Lemma safe_call c er t t' k u :
  hp_errno (parser t') = CHPE_OK → 0 ≤ er ≤ slen data →
  (∀ h' u', polite (parser t') h' → hp_errno h' = CHPE_OK →
     wp (k (set_parser h' t')) (safe t) u') →
  wp (call_ settings c er t' k) (safe t) u.
Proof using Hset.
  intros He Her Hk. unfold call_, assert. rewrite bool_decide_eq_true_2 by done.
  apply wp_bind. eapply wp_mono; [apply Hset|]. intros [[n h']|e] u' Hp; cbn in Hp |- *; [|done].
  destruct (n =? 0).
  - destruct (decide _) as [E|E]; [by apply Hk|]. by apply wp_ret.
  - rewrite decide_False by (by destruct c). apply wp_ret. split; [done|]. by destruct c.
Qed.

Lemma set_mark_None f t : mark_of f t = None → set_mark f None t = t.
Proof. by destruct t, f; cbn; intros ->. Qed.
Lemma set_parser_id t : set_parser (parser t) t = t.
Proof. by destruct t. Qed.

Lemma safe_data f more er t t' k u :
  hp_errno (parser t') = CHPE_OK → 0 ≤ er ≤ slen data →
  (∀ h' u', polite (parser t') h' → hp_errno h' = CHPE_OK →
     wp (k (set_mark f None (set_parser h' t'))) (safe t) u') →
  wp (CROW_CALLBACK_DATA_ settings f more er t' k) (safe t) u.
Proof using Hset.
  intros He Her Hk. unfold CROW_CALLBACK_DATA_, assert. rewrite bool_decide_eq_true_2 by done.
  destruct (mark_of f t') as [m|] eqn:Hm; [by apply safe_call|].
  specialize (Hk (parser t') u (polite_refl _) He). by rewrite set_parser_id, set_mark_None in Hk.
Qed.

Lemma uwrap32_small n : 0 ≤ n < 2 ^ 32 → uwrap 32 n = n.
Proof. apply Z.mod_small. Qed.

Lemma safe_count v t t' k u :
  0 ≤ nread t' ≤ max_header_size → 0 ≤ v < 2 ^ 31 → (len (p t') ≤ len (p t))%nat →
  (nread t' + v ≤ max_header_size → wp (k (set_nread (nread t' + v) t')) (safe t) u) →
  wp (CROW_COUNT_HEADER_SIZE v t' k) (safe t) u.
Proof.
  unfold max_header_size. intros Hn Hv Hp Hk. unfold CROW_COUNT_HEADER_SIZE.
  rewrite uwrap32_small by lia. cbn. unfold max_header_size.
  destruct (Z.ltb_spec (80 * 1024) (nread t' + v)); [by apply safe_error|]. by apply Hk.
Qed.

(** What a polite callback leaves of the invariant. *)
Lemma parser_ok_polite n h h' :
  parser_ok n h → polite h h' → hp_errno h' = CHPE_OK → parser_ok n h'.
Proof.
  intros [He Hl Hi Hs] (e & q & [-> | ->]) He'; split; cbn in *; try done; by destruct h.
Qed.
Lemma parser_ok_n n m h :
  hp_state h ≠ s_chunk_size_start → parser_ok n h → parser_ok m h.
Proof. intros Hst [He Hl Hi Hs]. split; [done..|]. unfold state_ok in *. by destruct (hp_state h). Qed.

Lemma no_marks_ok t : no_marks t → marks_ok t.
Proof. intros H f Hf. by destruct Hf. Qed.
Lemma marks_ok_none t : marks_ok t → marked (hp_state (parser t)) = None → no_marks t.
Proof.
  intros H Hs f. destruct (mark_of f t) eqn:E; [|done].
  specialize (H f). rewrite E, Hs in H. by specialize (H ltac:(done)).
Qed.
Lemma marks_ok_clear f t :
  marks_ok t → marked (hp_state (parser t)) = Some f → no_marks (set_mark f None t).
Proof.
  intros H Hs g. destruct (decide (mark_of g (set_mark f None t) = None)) as [E|E]; [done|].
  assert (mark_of g t ≠ None) as Hg by (revert E; by destruct f, g).
  specialize (H g Hg). rewrite Hs in H. injection H as ->. by destruct g.
Qed.

(** ** Each state's code *)

(** The situation in which the code of state [s] runs. *)
Record at_state (s : state) (c : Z) (ch : ascii) (t : frame) : Prop := {
  as_frame : frame_ok c t;
  as_state : hp_state (parser t) = s;
  as_p : (1 ≤ len (p t) ≤ len data)%nat;
  as_char : ch ≠ NUL;
}.

Lemma offset_bounds t : (1 ≤ len (p t) ≤ len data)%nat → 0 ≤ offset data t < slen data.
Proof. unfold offset, slen. lia. Qed.

Lemma uwrap5_bounds n : 0 ≤ uwrap 5 n < 32.
Proof. unfold uwrap. apply Z.mod_pos_bound. done. Qed.

(** Unpacks the situation; [Hs] is what the invariant says of the state. *)
Ltac at_state_ :=
  intros [Hf Hst Hp Hc];
  pose proof Hf as [[He Hl Hi Hs] Hn Hm Hcl];
  unfold state_ok in Hs; rewrite Hst in Hs;
  pose proof (offset_bounds _ Hp).
Ltac unmarked :=
  lazymatch goal with
  | Hm : marks_ok ?t, Hst : hp_state (parser ?t) = _ |- _ =>
      let H := fresh "Hno" in
      assert (no_marks t) as H by (apply marks_ok_none; [exact Hm|by rewrite Hst])
  end.
Ltac no_marks_ :=
  apply no_marks_ok;
  let f := fresh "f" in intros f;
  lazymatch goal with Hno : no_marks ?t |- _ => destruct f;
    first [exact (Hno d_url)|exact (Hno d_header_field)|exact (Hno d_header_value)|exact (Hno d_body)]
  end.
Ltac state_ok_ :=
  unfold state_ok; cbn;
  try (lazymatch goal with Hst : hp_state _ = _ |- _ => rewrite Hst end); auto.
Ltac bounds_ :=
  first [done|apply uwrap5_bounds|cbn in *; unfold CROW_ULLONG_MAX, max_header_size in *; lia|idtac].
Ltac frame_ :=
  split; [split; [done|cbn -[uwrap]; bounds_..|state_ok_]|cbn -[uwrap]; bounds_|try no_marks_|try done].
Ltac offset_ := unfold offset in *; cbn in *; lia.
Ltac break_now := apply safe_break; [frame_|cbn in *; lia].
Ltac error_now := apply safe_error; [done|cbn in *; lia].
(** After a callback: the parser it leaves, in the two forms it can have. *)
Ltac after_call h' u' :=
  let e := fresh "e" in let q := fresh "q" in let He' := fresh "He'" in
  intros h' u' (e & q & [-> | ->]) He'; cbn in He'; subst e.

Lemma case_dead_safe ch t u : at_state s_dead 1 ch t → wp (case_dead ch t) (safe t) u.
Proof.
  at_state_. unmarked. unfold case_dead. destruct (decide _); [break_now|error_now].
Qed.

Lemma case_start_req_safe ch t u :
  at_state s_start_req 1 ch t → wp (case_start_req settings data ch t) (safe t) u.
Proof using Hset.
  at_state_. unmarked. unfold case_start_req. destruct (decide _); [break_now|].
  destruct (negb _); [error_now|]. destruct (method_of_letter ch) as [m|]; [|error_now].
  apply safe_call; [done|offset_|]. after_call h' u'; break_now.
  all: split; [done|by destruct m].
Qed.

Lemma get_beyond n s : (len s ≤ n)%nat → String.get n s = None.
Proof.
  revert n. induction s as [|c s IH]; intros n Hn; [done|]. destruct n as [|n]; cbn in *; [lia|].
  apply IH. lia.
Qed.
Lemma c_char_inside s i : 0 ≤ i → c_char s i ≠ NUL → i < slen s.
Proof.
  intros Hi Hc. unfold slen. destruct (Z.lt_ge_cases i (Z.of_nat (len s))); [done|].
  unfold c_char in Hc. by rewrite get_beyond in Hc by lia.
Qed.
Lemma method_name_short m : slen (method_name m) ≤ 11.
Proof. by destruct m. Qed.
Lemma method_switch_inside m i ch m' :
  method_switch m i ch = Some m' → 1 ≤ i + 1 ≤ slen (method_name m').
Proof.
  unfold method_switch. intros H.
  repeat (let E := fresh "E" in destruct (_ && _) eqn:E in H;
    [injection H as <-; apply andb_prop in E as [[_ E%Z.eqb_eq]%andb_prop _]; rewrite E; done|clear E]).
  done.
Qed.

Lemma case_req_method_safe ch t u :
  at_state s_req_method 1 ch t → wp (case_req_method settings data ch t) (safe t) u.
Proof using Hset.
  at_state_. unmarked. unfold case_req_method. destruct (decide _) as [|Hnul]; [error_now|].
  destruct (Z.ltb_spec (slen (method_name (hp_method (parser t)))) (index (parser t))); [lia|].
  assert (∀ m, 1 ≤ index (parser t) + 1 ≤ slen (method_name m) →
    uwrap 5 (index (parser t) + 1) = index (parser t) + 1) as Hw.
  { intros m Hm'. pose proof (method_name_short m). apply Z.mod_small. lia. }
  destruct (_ && _).
  { apply safe_call; [done|offset_|]. after_call h' u'; break_now. }
  destruct (decide _) as [Hch|Hch].
  { assert (1 ≤ index (parser t) + 1 ≤ slen (method_name (hp_method (parser t)))) as Hin.
    { pose proof (c_char_inside (method_name (hp_method (parser t))) (index (parser t))) as H1.
      rewrite <- Hch in H1. specialize (H1 ltac:(lia) Hc). lia. }
    apply safe_call; [done|offset_|]. after_call h' u'; break_now. by rewrite (Hw _ Hin). }
  destruct (_ || _); [|error_now].
  destruct (method_switch _ _ _) as [m|] eqn:Hsw; [|error_now].
  apply method_switch_inside in Hsw.
  apply safe_call; [done|offset_|]. after_call h' u'; break_now. by rewrite (Hw _ Hsw).
Qed.

(** A URL's state leads to such a state, to [s_dead] or to its end. *)
Lemma parse_url_char_spec s ch o h :
  let r := parse_url_char s ch o h in
  (fst r = s_dead ∨ marked (fst r) = Some d_url) ∧
  (snd r = h ∨ snd r = set_qs_point o h).
Proof.
  unfold parse_url_char.
  repeat (first [case_bool_decide|case_match]; cbn; auto).
Qed.

(** The invariant without the state, and with one mark at most. *)
Record base_ok (t : frame) : Prop := {
  bo_errno : hp_errno (parser t) = CHPE_OK;
  bo_length : 0 ≤ content_length (parser t) ≤ CROW_ULLONG_MAX;
  bo_index : 0 ≤ index (parser t) < 32;
  bo_nread : 0 ≤ nread t ≤ max_header_size;
  bo_clean : string_Forall (λ c, c ≠ NUL) (p t);
}.
Definition only_mark (f : data_for) (t : frame) : Prop := ∀ g, g ≠ f → mark_of g t = None.

Lemma only_mark_state f t :
  marks_ok t → marked (hp_state (parser t)) = Some f → only_mark f t.
Proof.
  intros H Hs g Hg. destruct (mark_of g t) eqn:E; [|done].
  specialize (H g). rewrite E, Hs in H. specialize (H ltac:(done)). by injection H as ->.
Qed.
Lemma only_mark_no f t : no_marks t → only_mark f t.
Proof. intros H g _. apply H. Qed.
Lemma only_mark_CROW_MARK f t : only_mark f t → only_mark f (CROW_MARK f t).
Proof.
  intros H g Hg. unfold CROW_MARK. destruct (mark_of f t); [by apply H|].
  specialize (H g Hg). by destruct f, g.
Qed.
Lemma only_mark_clear f t : only_mark f t → no_marks (set_mark f None t).
Proof.
  intros H g. destruct (decide (g = f)) as [->|Hg]; [by destruct f|].
  specialize (H g Hg). by destruct f, g.
Qed.
Lemma only_mark_ok f t : only_mark f t → marked (hp_state (parser t)) = Some f → marks_ok t.
Proof.
  intros H Hs g Hg. destruct (decide (g = f)) as [->|Hgf]; [done|]. by rewrite (H g Hgf) in Hg.
Qed.

Lemma frame_ok_base c t : frame_ok c t → base_ok t.
Proof. by intros [[] ? ? ?]. Qed.
Lemma frame_ok_intro c f t :
  base_ok t → only_mark f t → marked (hp_state (parser t)) = Some f →
  state_ok (parser t) (nread t - c) → frame_ok c t.
Proof. intros [?????] ???. split; [by split|done|by eapply only_mark_ok|done]. Qed.

(** After the callback of the one mark, in a state the code before chose. *)
Lemma safe_data_break f er t t' u :
  base_ok t' → only_mark f t' → state_ok (parser t') (nread t') → 0 ≤ er ≤ slen data →
  (1 ≤ len (p t') ≤ len (p t))%nat →
  wp (CROW_CALLBACK_DATA_ settings f 0 er t' break_) (safe t) u.
Proof using Hset.
  intros [He Hl Hi Hn Hcl] Hm Hs Her Hp. apply safe_data; [done..|]. intros h' u' Hpol He'.
  pose proof (only_mark_clear f t' Hm) as Hno.
  apply safe_break; [|by destruct f].
  assert (parser_ok (nread t') (parser t')) as Hok by by split.
  pose proof (parser_ok_polite _ _ _ Hok Hpol He') as Hok'.
  split; [|by destruct f|apply no_marks_ok|by destruct f].
  - rewrite Z.sub_0_r. by destruct f.
  - intros g. specialize (Hno g). by destruct f, g.
Qed.

Lemma url_char_safe ch t t' u :
  base_ok t' → only_mark d_url t' → (1 ≤ len (p t') ≤ len (p t))%nat →
  wp (url_char address data ch t') (safe t) u.
Proof.
  intros [He Hl Hi Hn Hcl] Hm Hp. unfold url_char.
  pose proof (parse_url_char_spec (hp_state (parser t')) ch
    (url_offset address data (p t') (url_start_mark t')) (parser t')) as [Hs Hh].
  destruct (parse_url_char _ _ _ _) as [s h]. cbn [fst snd] in *.
  destruct (decide _) as [->|Hd]; [apply safe_error; [done|cbn; lia]|].
  destruct Hs as [|Hs]; [done|].
  apply safe_break; [|done]. apply (frame_ok_intro 0 d_url); [|done|done|].
  - by destruct Hh as [-> | ->].
  - unfold state_ok. cbn. by destruct s.
Qed.

Lemma case_req_spaces_before_url_safe ch t u :
  at_state s_req_spaces_before_url 1 ch t →
  wp (case_req_spaces_before_url address data ch t) (safe t) u.
Proof.
  at_state_. unmarked. unfold case_req_spaces_before_url. destruct (decide _); [break_now|].
  assert (base_ok (mark_url_start (CROW_MARK d_url t)) ∧
          only_mark d_url (mark_url_start (CROW_MARK d_url t)) ∧
          p (mark_url_start (CROW_MARK d_url t)) = p t) as (Hb & Ho & Hpp).
  { unfold CROW_MARK, mark_url_start. rewrite (Hno d_url). cbn.
    split_and!; [|intros [] ?; try done|].
    - destruct (url_start_mark t); by split.
    - destruct (url_start_mark t); apply (Hno d_header_field).
    - destruct (url_start_mark t); apply (Hno d_header_value).
    - destruct (url_start_mark t); apply (Hno d_body).
    - by destruct (url_start_mark t). }
  case_decide; apply url_char_safe; cbn; rewrite ?Hpp; try done; try lia.
  by destruct Hb; split.
Qed.

Lemma case_req_schema_safe s ch t u :
  marked s = Some d_url → at_state s 1 ch t → wp (case_req_schema address data ch t) (safe t) u.
Proof.
  intros Hmk. at_state_. unfold case_req_schema. destruct (decide _); [error_now|].
  apply url_char_safe; [by eapply frame_ok_base|apply only_mark_state; [done|by rewrite Hst]|lia].
Qed.
Lemma case_req_path_safe s ch t u :
  marked s = Some d_url → at_state s 1 ch t →
  wp (case_req_path settings address data ch t) (safe t) u.
Proof using Hset.
  intros Hmk. at_state_. unfold case_req_path.
  assert (only_mark d_url t) as Ho by (apply only_mark_state; [done|by rewrite Hst]).
  pose proof (frame_ok_base _ _ Hf) as [].
  destruct (decide _); [|destruct (decide _) as [Hcr|]].
  - apply safe_data_break; [by split|by intros g Hg; apply Ho|done|offset_|cbn; lia].
  - destruct (decide _); [error_now|].
    apply safe_data_break; [by split|by intros g Hg; apply Ho| |offset_|cbn; lia].
    by destruct (decide (ch = CR)).
  - apply url_char_safe; [by eapply frame_ok_base|done|lia].
Qed.

Lemma case_req_http_start_safe ch t u :
  at_state s_req_http_start 1 ch t → wp (case_req_http_start ch t) (safe t) u.
Proof.
  at_state_. unmarked. unfold case_req_http_start.
  repeat (destruct (decide _); [break_now|]). error_now.
Qed.
Lemma case_req_http_safe s expected ch next t u :
  marked s = None → (∀ h n, state_ok (set_state next h) n) →
  at_state s 1 ch t → wp (case_req_http expected ch next t) (safe t) u.
Proof.
  intros Hmk Hnx. at_state_. unmarked. unfold case_req_http, CROW_STRICT_CHECK.
  destruct (bool_decide _); [error_now|break_now; apply Hnx].
Qed.
Lemma case_req_http_major_safe ch t u :
  at_state s_req_http_major 1 ch t → wp (case_req_http_major ch t) (safe t) u.
Proof.
  at_state_. unmarked. unfold case_req_http_major. destruct (negb _); [error_now|break_now].
Qed.
Lemma case_req_http_dot_safe ch t u :
  at_state s_req_http_dot 1 ch t → wp (case_req_http_dot ch t) (safe t) u.
Proof.
  at_state_. unmarked. unfold case_req_http_dot. destruct (decide _); [error_now|break_now].
Qed.
Lemma case_req_http_minor_safe ch t u :
  at_state s_req_http_minor 1 ch t → wp (case_req_http_minor ch t) (safe t) u.
Proof.
  at_state_. unmarked. unfold case_req_http_minor. destruct (negb _); [error_now|break_now].
Qed.
Lemma case_req_http_end_safe ch t u :
  at_state s_req_http_end 1 ch t → wp (case_req_http_end ch t) (safe t) u.
Proof.
  at_state_. unmarked. unfold case_req_http_end.
  repeat (destruct (decide _); [break_now|]). error_now.
Qed.
Lemma case_req_line_almost_done_safe ch t u :
  at_state s_req_line_almost_done 1 ch t → wp (case_req_line_almost_done ch t) (safe t) u.
Proof.
  at_state_. unmarked. unfold case_req_line_almost_done. destruct (decide _); [error_now|break_now].
Qed.

Lemma case_header_field_start_safe ch t u :
  at_state s_header_field_start 1 ch t → wp (case_header_field_start ch t) (safe t) u.
Proof.
  at_state_. unmarked. unfold case_header_field_start.
  destruct (decide _); [break_now|]. destruct (decide _).
  { apply safe_reexecute; [frame_|cbn; lia|done|cbn; rewrite Hst; cbn; lia]. }
  destruct (decide _); [error_now|].
  apply safe_break; [|unfold CROW_MARK; destruct (mark_of _ _); cbn; lia].
  assert (base_ok (CROW_MARK d_header_field t)) as [].
  { unfold CROW_MARK. rewrite (Hno d_header_field). by split. }
  apply (frame_ok_intro 0 d_header_field); [| |done|].
  - split; cbn -[uwrap]; [done|done|apply uwrap5_bounds|done|done].
  - intros g Hg. by apply (only_mark_CROW_MARK _ _ (only_mark_no d_header_field t Hno)).
  - unfold state_ok. cbn. by repeat case_decide.
Qed.

(** What the loop over a name leaves. *)
Record field_step (h h' : http_parser) : Prop := {
  fs_errno : hp_errno h' = hp_errno h;
  fs_state : hp_state h' = hp_state h;
  fs_length : content_length h' = content_length h;
  fs_index : 0 ≤ index h < 32 → 0 ≤ index h' < 32;
  fs_field : field_state (header_state h') = true;
}.
Lemma field_step_refl h : field_state (header_state h) = true → field_step h h.
Proof. by split. Qed.
Lemma field_step_trans h1 h2 h3 : field_step h1 h2 → field_step h2 h3 → field_step h1 h3.
Proof. intros [????] [????]. split; try congruence. auto. Qed.

(** The matchers never read past the end of a keyword. *)
Definition matching_to (str : string) (found other : header_states) (c : ascii)
  (hs : header_states) (h : http_parser) : header_states * http_parser :=
  let h := set_index (index h + 1) h in
  if (slen str <? index h) || bool_decide (c ≠ c_char str (index h)) then (other, h)
  else if index h =? slen str - 1 then (found, h)
  else (hs, h).
Definition field_match_to (str : string) (found : header_states) (c : ascii) (h : http_parser)
  : http_parser :=
  let x := matching_to str found h_general c (header_state h) h in set_header_state (fst x) (snd x).
Lemma matching_eq str found other c hs h :
  matching str found other c hs h = Ok (matching_to str found other c hs h).
Proof.
  unfold matching, matching_to. cbn -[uwrap]. pose proof (uwrap5_bounds (index h + 1)) as Hi.
  destruct (Z.ltb_spec (slen str) (uwrap 5 (index h + 1))) as [Hlt|Hle]; [done|].
  unfold c_index. rewrite (proj2 (Z.ltb_ge _ _)), (proj2 (Z.ltb_ge _ _)) by lia. cbn -[uwrap].
  by case_bool_decide.
Qed.
Lemma field_match_eq str found c h : field_match str found c h = Ok (field_match_to str found c h).
Proof. unfold field_match. by rewrite matching_eq. Qed.

Lemma field_match_step str found c h :
  field_state (header_state h) = true → field_state found = true →
  field_step h (field_match_to str found c h).
Proof.
  intros Hh Hf. unfold field_match_to, matching_to. cbn -[uwrap].
  destruct (_ || _); [|destruct (_ =? _)]; split; cbn -[uwrap]; auto using uwrap5_bounds.
Qed.
Lemma field_switch_step ch c h :
  field_state (header_state h) = true →
  ∃ h', field_switch ch c h = Ok h' ∧ field_step h h'.
Proof.
  intros Hh. unfold field_switch. rewrite !field_match_eq. cbn [mbind result_bind].
  destruct (header_state h) eqn:Hs; try done;
    (eexists; split; [reflexivity|]);
    try (apply field_match_step; [by rewrite Hs|done]);
    try (split; cbn -[uwrap]; auto using uwrap5_bounds; by repeat case_decide).
  all: try case_decide; try (by split; auto; rewrite Hs).
  all: assert (field_step h (field_match_to CROW_TRANSFER_ENCODING h_transfer_encoding c h)) as []
         by (apply field_match_step; [by rewrite Hs|done]).
  all: by split.
Qed.

Lemma token_skip_len n s : s ≠ EmptyString → (1 ≤ len (token_skip n s) ≤ len s)%nat.
Proof.
  revert s. induction n as [|n IH]; intros [|c s] Hs; try done; cbn; [lia|].
  destruct s as [|d s]; cbn; [lia|]. case_decide; cbn; [lia|].
  specialize (IH (String d s) ltac:(done)). cbn in IH. lia.
Qed.

Lemma token_skip_suffix n s : suffix (token_skip n s) s.
Proof.
  revert s. induction n as [|n IH]; intros [|c s]; cbn; auto.
  destruct s as [|d s]; [auto|]. case_decide; [auto|]. apply suffix_cons, IH.
Qed.

Lemma header_field_loop_spec fuel h s :
  (len s ≤ fuel)%nat → field_state (header_state h) = true →
  ∃ h' q, header_field_loop fuel h s = Ok (h', q) ∧ field_step h h' ∧ suffix q s.
Proof.
  revert h s. induction fuel as [|fuel IH]; intros h [|ch s] Hf Hh; cbn in Hf; try lia;
    cbn [header_field_loop]; try (exists h, EmptyString; by auto using field_step_refl).
  case_decide; [exists h, (String ch s); by auto using field_step_refl|].
  assert (∀ h' q, field_step h h' → suffix q s →
    ∃ h2 q2, header_field_loop fuel h' q = Ok (h2, q2) ∧ field_step h h2 ∧
      suffix q2 (String ch s)) as Hgo.
  { intros h' q Hst Hq. pose proof (suffix_len _ _ Hq).
    destruct (IH h' q) as (h2 & q2 & -> & Hs2 & Hq2); [lia|apply Hst|].
    exists h2, q2. split_and!; [done|by eapply field_step_trans|].
    apply suffix_cons. by eapply suffix_trans. }
  destruct (header_state h) eqn:Hs; try done;
    try (destruct (field_switch_step ch (CROW_TOKEN ch) h) as (h' & -> & Hst);
         [by rewrite Hs|cbn; apply Hgo; auto]).
  pose proof (token_skip_len (limit (String ch s) - 1) (String ch s) ltac:(done)) as Hk.
  pose proof (token_skip_suffix (limit (String ch s) - 1) (String ch s)) as [x Hx].
  destruct (token_skip _ _) as [|d q]; cbn in Hk; [lia|].
  apply Hgo; [split; auto; by rewrite Hs|].
  destruct x as [|c x]; [rewrite string_app_nil_l in Hx; injection Hx as -> ->; auto|].
  rewrite string_app_cons in Hx. injection Hx as -> ->. exists (x +:+ String d EmptyString). by str_norm.
Qed.

Lemma back_len q start : (1 ≤ len start)%nat → len (back q start) = S (len q).
Proof.
  intros Hs. unfold back. rewrite string_length_app, substring_length by lia. lia.
Qed.

Lemma case_header_field_safe t u ch :
  at_state s_header_field 1 ch t → wp (case_header_field settings data t) (safe t) u.
Proof using Hset Hlen.
  at_state_. unfold case_header_field. apply wp_bind, wp_lift.
  destruct (header_field_loop_spec (len (p t)) (parser t) (p t)) as (h' & q & -> & Hst' & Hsuf); [lia|done|].
  pose proof (suffix_len _ _ Hsuf) as Hq. pose proof (suffix_clean _ _ _ Hsuf Hcl) as Hclq.
  destruct Hst' as [Se Ss Sl Si Sf]. cbn [fst snd p set_p].
  assert (only_mark d_header_field t) as Ho by (apply only_mark_state; [done|by rewrite Hst]).
  assert (0 ≤ slen (p t) < 2 ^ 31) as Hsl by (unfold slen in *; lia).
  destruct q as [|d q].
  - apply safe_count; [done|unfold slen in *; lia|cbn -[back]; rewrite back_len by lia; cbn; lia|].
    intros Hcnt. apply safe_break; [|cbn -[back]; rewrite back_len by lia; cbn; lia].
    apply (frame_ok_intro 0 d_header_field); [split; cbn -[back] in *; try congruence; auto| | |].
    + unfold slen in *; lia.
    + apply (suffix_clean _ _ _ (back_suffix (p t)) Hcl).
    + intros g Hg. specialize (Ho g Hg). by destruct g.
    + cbn. by rewrite Ss, Hst.
    + unfold state_ok. cbn. by rewrite Ss, Hst.
  - cbn in Hq. apply safe_count; [done|unfold slen in *; cbn; lia|cbn; lia|].
    intros Hcnt. cbn in Hcnt. destruct (decide _); [|error_now].
    unfold CROW_CALLBACK_DATA. apply safe_data_break.
    + split; cbn in *; [congruence|by rewrite Sl|auto| |done]. unfold slen in *; cbn in *; lia.
    + intros g Hg. specialize (Ho g Hg). by destruct g.
    + done.
    + unfold offset, slen. cbn. lia.
    + cbn. lia.
Qed.

Lemma is_digit_code c : is_digit c = true → 0 ≤ code c - 48 ≤ 9.
Proof.
  unfold is_digit. intros [H1%bool_decide_eq_true H2%bool_decide_eq_true]%andb_prop. lia.
Qed.
(** A value starts like a space only with a NUL. *)
Lemma lower_space c : CROW_LOWER c = SP → c = NUL ∨ c = SP.
Proof. all_ascii c; first [by intros|by left|by right]. Qed.
Lemma lower_tab c : CROW_LOWER c ≠ TAB.
Proof. by all_ascii c. Qed.

Lemma case_header_value_start_safe ch t u :
  frame_ok 1 t → no_marks t → (1 ≤ len (p t))%nat → ch ≠ NUL →
  value_state (header_state (parser t)) = true ∨ ch ≠ SP →
  wp (case_header_value_start ch t) (safe t) u.
Proof.
  intros Hf Hno Hp Hc Hsp. pose proof Hf as [[He Hl Hi _] Hn _].
  unfold case_header_value_start, CROW_MARK. rewrite (Hno d_header_value).
  pose proof (fo_clean _ _ Hf) as Hcl. set (t1 := goto s_header_value _).
  assert (∀ f, hp_errno (f (parser t1)) = CHPE_OK → 0 ≤ content_length (f (parser t1)) ≤ CROW_ULLONG_MAX →
    0 ≤ index (f (parser t1)) < 32 → hp_state (f (parser t1)) = s_header_value →
    value_state (header_state (f (parser t1))) = true →
    wp (break_ (upd f t1)) (safe t) u) as Hgo.
  { intros f H1 H2 H3 H4 H5. apply safe_break; [|done].
    apply (frame_ok_intro 0 d_header_value).
    - by split.
    - intros g Hg. specialize (Hno g). by destruct g.
    - change (marked (hp_state (f (parser t1))) = Some d_header_value). by rewrite H4.
    - unfold state_ok. change (parser (upd f t1)) with (f (parser t1)). by rewrite H4. }
  assert (0 ≤ index (parser t1) < 32) as Hi1 by apply uwrap5_bounds.
  assert (value_state (header_state (parser t1)) = true → wp (break_ t1) (safe t) u) as Hsame.
  { intros Hv. by apply (Hgo id). }
  change (header_state (parser t1)) with (header_state (parser t)) in *.
  destruct (header_state (parser t)) eqn:Hhs; try (by apply Hgo); try (by apply Hsame).
  - repeat case_decide; try (by apply Hgo).
    exfalso. destruct H1 as [H1|H1]; [|by apply lower_tab in H1].
    apply lower_space in H1 as [->| ->]; [done|]. by destruct Hsp.
  - destruct (negb _) eqn:Hd; [apply safe_error; [done|cbn; lia]|].
    destruct (has_flag _ _); [apply safe_error; [done|cbn; lia]|].
    apply negb_false_iff, is_digit_code in Hd.
    apply Hgo; cbn; unfold CROW_ULLONG_MAX; try done; lia.
  - case_decide; by apply Hgo.
  - assert (∀ b : bool, wp (break_ (upd (set_header_state h_general)
      (if b then t1 else upd (add_flag F_UPGRADE) t1))) (safe t) u) as Hb.
    { intros []; [by apply Hgo|].
      by apply (Hgo (λ h, set_header_state h_general (add_flag F_UPGRADE h))). }
    apply (Hb _).
Qed.

Lemma case_header_value_discard_ws_safe ch t u :
  at_state s_header_value_discard_ws 1 ch t → wp (case_header_value_discard_ws ch t) (safe t) u.
Proof.
  at_state_. unmarked. unfold case_header_value_discard_ws.
  destruct (decide _) as [|Hws]; [break_now|]. repeat (destruct (decide _); [break_now|]).
  apply case_header_value_start_safe; [done|done|lia|done|]. right. intros ->. apply Hws. by left.
Qed.
Lemma case_header_value_start_state_safe ch t u :
  at_state s_header_value_start 1 ch t → wp (case_header_value_start ch t) (safe t) u.
Proof. at_state_. unmarked. apply case_header_value_start_safe; try done; [lia|by left]. Qed.

(** What the loop over a value leaves. *)
Record value_step (h h' : http_parser) : Prop := {
  vs_errno : hp_errno h' = hp_errno h;
  vs_state : hp_state h = s_header_value → hp_state h' = s_header_value;
  vs_length : 0 ≤ content_length h ≤ CROW_ULLONG_MAX → 0 ≤ content_length h' ≤ CROW_ULLONG_MAX;
  vs_index : 0 ≤ index h < 32 → 0 ≤ index h' < 32;
}.
Lemma value_step_refl h : value_step h h.
Proof. by split. Qed.
Lemma value_step_trans h1 h2 h3 : value_step h1 h2 → value_step h2 h3 → value_step h1 h3.
Proof. intros [????] [????]. split; try congruence; auto. Qed.

Definition switch_ok (h : http_parser) (r : result (header_states * http_parser) + http_errno) : Prop :=
  match r with
  | inl (Ok (hs', h')) => value_state hs' = true ∧ value_step h h'
  | inl (Throw _) => False
  | inr e => e ≠ CHPE_OK
  end.

Lemma content_length_digit_ok ch h :
  0 ≤ content_length h → switch_ok h (content_length_digit ch h).
Proof.
  intros Hl. unfold content_length_digit. case_decide; [by split; [|apply value_step_refl]|].
  destruct (negb _) eqn:Hd; [done|]. apply negb_false_iff, is_digit_code in Hd.
  destruct (Z.ltb_spec ((CROW_ULLONG_MAX - 10) / 10) (content_length h)); [done|].
  change ((CROW_ULLONG_MAX - 10) / 10) with 1844674407370955160 in *.
  split; [done|]. split; try done. intros _. cbn [content_length set_content_length].
  unfold uwrap, CROW_ULLONG_MAX. rewrite (Z.mod_small (_ * 10)) by lia. rewrite Z.mod_small; lia.
Qed.

Lemma matching_ok str found other c hs h :
  value_state hs = true → value_state found = true → value_state other = true →
  switch_ok h (inl (matching str found other c hs h)).
Proof.
  intros H1 H2 H3. rewrite matching_eq. unfold matching_to. cbn -[uwrap].
  destruct (_ || _); [|destruct (_ =? _)]; (split; [done|]); split; cbn -[uwrap]; auto using uwrap5_bounds.
Qed.

Lemma value_switch_ok ch hs h :
  value_state hs = true → 0 ≤ content_length h → switch_ok h (value_switch ch hs h).
Proof.
  intros Hv Hl. unfold value_switch.
  destruct hs; try done; try (by apply content_length_digit_ok); try (by apply matching_ok);
    repeat case_decide; try done; try (by apply content_length_digit_ok);
    cbn; (split; [done|]); try apply value_step_refl; split; cbn -[uwrap]; auto using uwrap5_bounds.
Qed.

Lemma general_run_suffix lenient n s :
  match general_run lenient n s with (Some q, _) => suffix q s | (None, q) => suffix q s end.
Proof.
  revert s. induction n as [|n IH]; intros [|c s]; cbn; auto.
  case_decide; [auto|]. destruct (_ && _); [auto|].
  specialize (IH s). destruct (general_run lenient n s) as [[q|] q']; auto.
Qed.
(** The run makes progress: the first character is neither a line end nor bad. *)
Lemma general_run_progress lenient s c :
  ¬ (c = CR ∨ c = LF) → negb lenient && negb (CROW_IS_HEADER_CHAR c) = false →
  match general_run lenient (limit (String c s)) (String c s) with
  | (Some q, _) => suffix q s
  | (None, q) => suffix q s
  end.
Proof.
  intros Hc Hb. unfold limit, max_header_size, slen. cbn [len].
  destruct (Z.to_nat _) as [|n] eqn:E; [lia|]. cbn. rewrite decide_False, Hb by done.
  apply general_run_suffix.
Qed.

Definition value_end_ok (h : http_parser) (s : string) (r : value_end) : Prop :=
  match r with
  | v_cr hs h' q | v_lf hs h' q =>
      value_state hs = true ∧ value_step h h' ∧ (1 ≤ len q ≤ len s)%nat ∧ suffix q s
  | v_data hs h' => value_state hs = true ∧ value_step h h'
  | v_error e h' q => e ≠ CHPE_OK ∧ (len q ≤ len s)%nat
  end.

Lemma header_value_loop_spec fuel hs h s :
  (len s ≤ fuel)%nat → value_state hs = true → 0 ≤ content_length h ≤ CROW_ULLONG_MAX →
  ∃ r, header_value_loop fuel hs h s = Ok r ∧ value_end_ok h s r.
Proof.
  revert hs h s. induction fuel as [|fuel IH]; intros hs h [|c s] Hf Hv Hl; cbn in Hf; try lia;
    try (eexists; split; [done|]; split; [done|apply value_step_refl]).
  cbn [header_value_loop].
  destruct (decide (c = CR)).
  { eexists; split; [done|]; split_and!; [done|apply value_step_refl|cbn; lia..|auto]. }
  destruct (decide (c = LF)).
  { eexists; split; [done|]; split_and!; [done|apply value_step_refl|cbn; lia..|auto]. }
  destruct (_ && _) eqn:Hbad; [eexists; split; [done|]; by split|].
  assert (∀ hs' h' q, value_state hs' = true → value_step h h' → suffix q s →
    ∃ r, header_value_loop fuel hs' h' q = Ok r ∧ value_end_ok h (String c s) r) as Hgo.
  { intros hs' h' q Hv' Hst Hsuf. pose proof (suffix_len _ _ Hsuf) as Hq.
    destruct (IH hs' h' q) as (r & -> & Hr); [lia|done|by apply Hst|].
    exists r. split; [done|]. revert Hr. destruct r; cbn; intros Hr.
    - destruct Hr as (? & ? & ? & ?).
      split_and!; [done|by eapply value_step_trans|lia..|apply suffix_cons; by eapply suffix_trans].
    - destruct Hr as (? & ? & ? & ?).
      split_and!; [done|by eapply value_step_trans|lia..|apply suffix_cons; by eapply suffix_trans].
    - destruct Hr as (? & ?). split; [done|by eapply value_step_trans].
    - destruct Hr as (? & ?). split; [done|lia]. }
  assert (∀ hs0, ∃ r,
    match value_switch c hs h with
    | inl r0 => x ← r0; header_value_loop fuel (fst x) (snd x) s
    | inr e => Ok (v_error e (set_header_state hs0 h) (String c s))
    end = Ok r ∧ value_end_ok h (String c s) r) as Hsw.
  { intros hs0. pose proof (value_switch_ok c hs h Hv ltac:(lia)) as Hok.
    destruct (value_switch c hs h) as [[[hs' h']|]|e]; cbn in Hok; [|done|].
    - destruct Hok. cbn. apply Hgo; auto.
    - eexists. split; [done|]. by split. }
  destruct (decide (hs = h_general)) as [->|Hg]; [|by destruct hs; try done; eapply Hsw].
  pose proof (general_run_progress (lenient_http_headers h) s c) as Hg.
  specialize (Hg ltac:(tauto) Hbad).
  destruct (general_run _ _ _) as [[q|] q'].
  - apply Hgo; [done|apply value_step_refl|done].
  - eexists. split; [done|]. split; [done|]. apply suffix_len. auto.
Qed.

Lemma case_header_value_safe ch t u :
  at_state s_header_value 1 ch t → wp (case_header_value settings data t) (safe t) u.
Proof using Hset Hlen.
  at_state_. unfold case_header_value. apply wp_bind, wp_lift.
  destruct (header_value_loop_spec (len (p t)) (header_state (parser t)) (parser t) (p t))
    as (r & -> & Hr); [lia|done|done|].
  assert (only_mark d_header_value t) as Ho by (apply only_mark_state; [done|by rewrite Hst]).
  assert (∀ t', header_field_mark t' = header_field_mark t → url_mark t' = url_mark t →
    body_mark t' = body_mark t → only_mark d_header_value t') as Ho'.
  { intros t' H1 H2 H3 g Hg. specialize (Ho g Hg).
    destruct g; cbn in *; congruence. }
  assert (0 ≤ slen (p t) < 2 ^ 31) as Hsl by (unfold slen in *; lia).
  destruct r as [hs h' q|hs h' q|hs h'|e h' q]; cbn [value_end_ok] in Hr.
  - destruct Hr as (Hv & [Se Ss Sl Si] & Hq & Hsuf).
    pose proof (suffix_clean _ _ _ Hsuf Hcl) as Hclq. unfold CROW_CALLBACK_DATA.
    apply safe_data; [cbn; congruence|unfold offset, slen; cbn; lia|].
    intros h2 u' Hpol He2.
    assert (parser_ok 0 (set_state s_header_almost_done (set_header_state hs h'))) as Hok.
    { split; cbn; [congruence|auto|auto|done]. }
    pose proof (parser_ok_polite _ _ _ Hok Hpol He2) as [Oe Ol Oi Os].
    apply safe_count; [done|unfold slen in *; lia|cbn; lia|]. intros Hcnt. cbn in Hcnt.
    apply safe_break; [|cbn; lia]. split; [|cbn; unfold slen in *; lia| |done].
    + split; cbn; [done..|]. destruct Hpol as (e & qs & [-> | ->]); done.
    + apply no_marks_ok. intros g. specialize (Ho g).
      destruct g; cbn; [by apply Ho|by apply Ho|done|by apply Ho].
  - destruct Hr as (Hv & [Se Ss Sl Si] & Hq & Hsuf).
    pose proof (suffix_clean _ _ _ Hsuf Hcl) as Hclq.
    apply safe_count; [done|unfold slen in *; lia|cbn; lia|]. intros Hcnt. cbn in Hcnt.
    apply safe_data; [cbn; congruence|unfold offset, slen; cbn; lia|].
    intros h2 u' Hpol He2.
    assert (parser_ok 0 (set_header_state hs (set_state s_header_almost_done h'))) as Hok.
    { split; cbn; [congruence|auto|auto|done]. }
    pose proof (parser_ok_polite _ _ _ Hok Hpol He2) as [Oe Ol Oi Os].
    apply safe_reexecute; [|cbn; lia|done|].
    + split; [|cbn; unfold slen in *; lia| |done].
      * split; cbn; [done..|]. destruct Hpol as (e & qs & [-> | ->]); done.
      * apply no_marks_ok. intros g. specialize (Ho g).
        destruct g; cbn; [by apply Ho|by apply Ho|done|by apply Ho].
    + cbn. rewrite Hst. destruct Hpol as (e & qs & [-> | ->]); cbn; lia.
  - destruct Hr as (Hv & [Se Ss Sl Si]).
    apply safe_count; [done|unfold slen in *; lia|cbn -[back]; rewrite back_len by lia; cbn; lia|].
    intros Hcnt. cbn in Hcnt. apply safe_break; [|cbn -[back]; rewrite back_len by lia; cbn; lia].
    specialize (Ss Hst).
    apply (frame_ok_intro 0 d_header_value); [|by apply Ho'|cbn; by rewrite Ss|].
    + split; cbn -[back]; [congruence|auto|auto|unfold slen in *; lia|].
      apply (suffix_clean _ _ _ (back_suffix (p t)) Hcl).
    + unfold state_ok. cbn. by rewrite Ss.
  - destruct Hr as (He' & Hq). by apply safe_error.
Qed.

Lemma case_header_almost_done_safe ch t u :
  at_state s_header_almost_done 1 ch t → wp (case_header_almost_done ch t) (safe t) u.
Proof.
  at_state_. unmarked. unfold case_header_almost_done. destruct (decide _); [error_now|break_now].
Qed.
Lemma case_header_value_lws_safe ch t u :
  at_state s_header_value_lws 1 ch t → wp (case_header_value_lws ch t) (safe t) u.
Proof.
  at_state_. unmarked. unfold case_header_value_lws. destruct (decide _).
  - destruct (decide _) as [E|E];
      (apply safe_reexecute; [frame_|cbn; lia|done|cbn; rewrite Hst; cbn; lia]).
  - destruct (header_state (parser t));
      (apply safe_reexecute; [frame_|cbn; lia|done|cbn; rewrite Hst; cbn; lia]).
Qed.
Lemma case_header_value_discard_ws_almost_done_safe ch t u :
  at_state s_header_value_discard_ws_almost_done 1 ch t →
  wp (case_header_value_discard_ws_almost_done ch t) (safe t) u.
Proof.
  at_state_. unmarked. unfold case_header_value_discard_ws_almost_done, CROW_STRICT_CHECK.
  destruct (bool_decide _); [error_now|break_now].
Qed.
Lemma case_header_value_discard_lws_safe ch t u :
  at_state s_header_value_discard_lws 1 ch t →
  wp (case_header_value_discard_lws settings data ch t) (safe t) u.
Proof using Hset.
  at_state_. unmarked. unfold case_header_value_discard_lws. destruct (decide _); [break_now|].
  unfold CROW_MARK. rewrite (Hno d_header_value).
  apply safe_data; [done|offset_|]. intros h' u' Hpol He'.
  assert (parser_ok 0 (set_state s_header_field_start (parser t))) as Hok by by split.
  pose proof (parser_ok_polite _ _ _ Hok Hpol He') as [Oe Ol Oi Os].
  apply safe_reexecute; [|cbn; lia|done|].
  - split; [|done|apply no_marks_ok; intros g; specialize (Hno g); by destruct g|done].
    split; cbn; [done..|]. destruct Hpol as (e & qs & [-> | ->]); done.
  - cbn. rewrite Hst. destruct Hpol as (e & qs & [-> | ->]); cbn; lia.
Qed.

(** A notification after which the code leaves the [switch]. *)
Lemma safe_notify_break c t t' u :
  frame_ok 0 t' → no_marks t' → (1 ≤ len (p t') ≤ len (p t))%nat → (len (p t) ≤ len data)%nat →
  wp (CROW_CALLBACK_NOTIFY settings data c t' break_) (safe t) u.
Proof using Hset.
  intros [[He Hl Hi Hs] Hn Hm Hcl] Hno Hp Hd. apply safe_call; [done|unfold offset, slen; lia|].
  intros h' u' Hpol He'. apply safe_break; [|done].
  split; [|done|by apply no_marks_ok|done].
  eapply parser_ok_polite; [|exact Hpol|done]. by split.
Qed.

Lemma case_headers_almost_done_safe ch t u :
  at_state s_headers_almost_done 1 ch t →
  wp (case_headers_almost_done settings data ch t) (safe t) u.
Proof using Hset.
  at_state_. unmarked. unfold case_headers_almost_done, CROW_STRICT_CHECK.
  destruct (bool_decide _); [error_now|]. destruct (has_flag F_TRAILING _).
  { apply safe_notify_break; [frame_|done|lia|lia]. }
  destruct (length_conflict _); [error_now|].
  set (t1 := set_parser _ _).
  apply wp_bind. eapply wp_mono; [apply Hset|]. intros [[n h']|e] u' Hpol; [|done].
  cbn [fst snd] in *.
  assert (∀ g, (∀ h, hp_errno (g h) = hp_errno h ∧ content_length (g h) = content_length h ∧
            index (g h) = index h ∧ hp_state (g h) = hp_state h) →
    wp (if decide (hp_errno (parser (upd g (set_parser h' t1))) ≠ CHPE_OK)
        then mret (Return (upd (set_hp_nread (nread (upd g (set_parser h' t1))))
               (upd g (set_parser h' t1))) (offset data (upd g (set_parser h' t1))))
        else CROW_REEXECUTE ch (upd g (set_parser h' t1))) (safe t) u') as Hgo.
  { intros g Hg. destruct (Hg h') as (Ge & Gl & Gi & Gs). cbn. rewrite Ge.
    destruct (decide _) as [E|E].
    - apply wp_ret. split; [offset_|]. cbn. rewrite Ge. done.
    - apply dec_stable in E.
      apply safe_reexecute; [|cbn; lia|done|].
      + split; [|done|apply no_marks_ok; intros f; specialize (Hno f); by destruct f|done].
        split; cbn; [congruence| | |]; rewrite ?Gl, ?Gi; unfold state_ok; rewrite ?Gs;
          by destruct Hpol as (e & q & [-> | ->]).
      + cbn. rewrite Gs, Hst. destruct Hpol as (e & q & [-> | ->]); cbn; lia. }
  destruct (n =? 0); [by apply (Hgo id)|].
  destruct (n =? 2); [by apply Hgo|]. destruct (n =? 1); [by apply Hgo|].
  apply wp_ret. split; [offset_|done].
Qed.

Lemma case_headers_done_safe ch t u :
  at_state s_headers_done 1 ch t → wp (case_headers_done settings data ch t) (safe t) u.
Proof using Hset.
  at_state_. unmarked. unfold case_headers_done, CROW_STRICT_CHECK.
  destruct (bool_decide _); [error_now|].
  assert (wp (CROW_CALLBACK_NOTIFY settings data on_message_complete
            (set_nread 0 (upd (set_hp_nread 0) t)) break_) (safe t) u) as Hbr.
  { apply safe_notify_break; [frame_|intros f; specialize (Hno f); by destruct f|cbn; lia|lia]. }
  cbn [parser set_nread upd set_parser upgrade set_hp_nread].
  destruct (upgrade (parser t)) eqn:Hu.
  { apply safe_call; [done|offset_|]. intros h' u' Hpol He'. apply wp_ret.
    split; [offset_|]. intros _. cbn. split_and!.
    - assert (parser_ok 0 (set_hp_nread 0 (parser t))) as Hok.
      { split; [done..|]. unfold state_ok. cbn. by rewrite Hst. }
      pose proof (parser_ok_polite _ _ _ Hok Hpol He') as [????]. by split.
    - lia.
    - done.
    - right. by destruct Hpol as (e & q & [-> | ->]). }
  destruct (has_flag F_SKIPBODY _); [done|].
  destruct (has_flag F_CHUNKED _) eqn:Hch; [by break_now|].
  destruct (uses_transfer_encoding _).
  { destruct (negb _); [|break_now]. apply wp_ret. split; [offset_|done]. }
  destruct (_ =? 0) eqn:H0; [done|]. destruct (negb _) eqn:Hmax; [|done].
  break_now. unfold body_expected. cbn in *. by rewrite H0, Hmax.
Qed.

Lemma body_expected_spec h :
  0 ≤ content_length h ≤ CROW_ULLONG_MAX → body_expected h = true →
  0 < content_length h < CROW_ULLONG_MAX.
Proof.
  unfold body_expected. intros Hl [H1%negb_true_iff%Z.eqb_neq H2%negb_true_iff%Z.eqb_neq]%andb_prop.
  lia.
Qed.

(** What [take_body] leaves: fewer characters to come, [p] on the last one taken. *)
Lemma take_body_spec t :
  0 < content_length (parser t) < CROW_ULLONG_MAX → (1 ≤ len (p t))%nat → only_mark d_body t →
  let n := Z.min (content_length (parser t)) (slen (p t)) in
  parser (take_body t) = set_content_length (content_length (parser t) - n) (parser t) ∧
  nread (take_body t) = nread t ∧ only_mark d_body (take_body t) ∧
  (1 ≤ len (p (take_body t)) ≤ len (p t))%nat ∧ suffix (p (take_body t)) (p t).
Proof.
  clear Hset Hlen. intros Hl Hp Ho n. unfold take_body, CROW_MARK, slen in *.
  assert (p (match mark_of d_body t with Some _ => t | None => set_mark d_body (Some (p t)) t end)
          = p t ∧
          parser (match mark_of d_body t with Some _ => t | None => set_mark d_body (Some (p t)) t end)
          = parser t ∧
          nread (match mark_of d_body t with Some _ => t | None => set_mark d_body (Some (p t)) t end)
          = nread t ∧
          only_mark d_body (match mark_of d_body t with Some _ => t | None => set_mark d_body (Some (p t)) t end))
    as (H1 & H2 & H3 & H4).
  { split_and!; try (by destruct (mark_of d_body t)).
    intros g Hg. specialize (Ho g Hg). destruct (mark_of d_body t); [done|]. by destruct g. }
  cbn. cbn in H1, H2, H3. rewrite H1, H2, H3. split_and!; [done|done|..].
  - intros g Hg. specialize (H4 g Hg). by destruct g.
  - rewrite substring_length by lia. lia.
  - rewrite substring_length by lia. lia.
  - apply substring_suffix.
Qed.

Lemma case_body_identity_safe ch t u :
  at_state s_body_identity 0 ch t → wp (case_body_identity settings data ch t) (safe t) u.
Proof using Hset.
  at_state_. unfold case_body_identity, assert. rewrite Hs.
  assert (only_mark d_body t) as Ho by (apply only_mark_state; [done|by rewrite Hst]).
  pose proof (body_expected_spec _ Hl Hs) as Hb.
  pose proof (take_body_spec t Hb ltac:(lia) Ho) as (Hpar & Hnr & Ho' & Hpp & Hsuf).
  pose proof (suffix_clean _ _ _ Hsuf Hcl) as Hclq. clear Hsuf.
  set (n := Z.min _ _) in *. assert (0 < n ≤ content_length (parser t)) by (unfold slen in *; lia).
  cbn zeta. revert Hpar Hnr Ho' Hpp Hclq. generalize (take_body t) as tb. intros tb Hpar Hnr Ho' Hpp Hclq.
  destruct (_ =? 0) eqn:Hz.
  - apply safe_data; [cbn; by rewrite Hpar|unfold offset, slen; cbn; lia|].
    intros h' u' Hpol He'. cbn in Hpol. rewrite Hpar in Hpol.
    apply safe_reexecute; [|cbn; lia|done|].
    + split; [|cbn; lia| |done].
      * split; [done|..]; destruct Hpol as (e & q & [-> | ->]); cbn; unfold CROW_ULLONG_MAX in *;
          try done; lia.
      * apply no_marks_ok, only_mark_clear. intros g Hg. specialize (Ho' g Hg). by destruct g.
    + cbn. rewrite Hst. destruct Hpol as (e & q & [-> | ->]); cbn; lia.
  - apply safe_break; [|done]. rewrite Hpar in Hz. cbn in Hz. apply Z.eqb_neq in Hz.
    apply (frame_ok_intro 0 d_body); [|done|by rewrite Hpar; cbn; rewrite Hst|].
    + split; rewrite ?Hpar; cbn; try done; lia.
    + unfold state_ok. rewrite Hpar. cbn. rewrite Hst. unfold body_expected. cbn.
      apply andb_true_intro. split; apply negb_true_iff, Z.eqb_neq; lia.
Qed.
Lemma case_body_identity_eof_safe ch t u :
  at_state s_body_identity_eof 0 ch t → wp (case_body_identity_eof t) (safe t) u.
Proof.
  at_state_. unfold case_body_identity_eof.
  assert (only_mark d_body t) as Ho by (apply only_mark_state; [done|by rewrite Hst]).
  assert (p (CROW_MARK d_body t) = p t ∧ parser (CROW_MARK d_body t) = parser t ∧
          nread (CROW_MARK d_body t) = nread t) as (H1 & H2 & H3).
  { unfold CROW_MARK. by destruct (mark_of d_body t). }
  pose proof (only_mark_CROW_MARK _ _ Ho) as Ho'.
  apply safe_break; [|cbn -[back]; rewrite H1, back_len by lia; cbn; lia].
  apply (frame_ok_intro 0 d_body).
  - split; cbn -[back CROW_MARK]; [by rewrite H2..|by rewrite H3|].
    rewrite H1. apply (suffix_clean _ _ _ (back_suffix (p t)) Hcl).
  - intros g Hg. specialize (Ho' g Hg). by destruct g.
  - cbn -[back CROW_MARK]. by rewrite H2, Hst.
  - unfold state_ok. cbn -[back CROW_MARK]. by rewrite H2, Hst.
Qed.
Lemma case_message_done_safe ch t u :
  at_state s_message_done 0 ch t → wp (case_message_done settings data t) (safe t) u.
Proof using Hset. at_state_. unmarked. apply safe_notify_break; [frame_|done|lia|lia]. Qed.

Lemma unhex_bounds c : -1 ≤ unhex c ≤ 15.
Proof. by all_ascii c. Qed.

Lemma case_chunk_size_start_safe ch t u :
  at_state s_chunk_size_start 1 ch t → wp (case_chunk_size_start ch t) (safe t) u.
Proof.
  at_state_. unmarked. destruct Hs as [Hch Hz]. unfold case_chunk_size_start, chunked, assert.
  assert (nread t = 1) as -> by lia. rewrite Hch. cbn [Z.eqb Pos.eqb].
  destruct (Z.eqb_spec (unhex ch) (-1)); [error_now|].
  pose proof (unhex_bounds ch). break_now. split; [done|]. unfold CROW_ULLONG_MAX. lia.
Qed.
Lemma case_chunk_size_safe ch t u :
  at_state s_chunk_size 1 ch t → wp (case_chunk_size ch t) (safe t) u.
Proof.
  at_state_. unmarked. destruct Hs as [Hch Hlt]. unfold case_chunk_size, chunked, assert. rewrite Hch.
  destruct (decide _); [break_now|]. pose proof (unhex_bounds ch).
  destruct (Z.eqb_spec (unhex ch) (-1)); [destruct (decide _); [break_now|error_now]|].
  destruct (Z.ltb_spec ((CROW_ULLONG_MAX - 16) / 16) (content_length (parser t))); [error_now|].
  change ((CROW_ULLONG_MAX - 16) / 16) with 1152921504606846974 in *.
  assert (uwrap 64 (uwrap 64 (content_length (parser t) * 16) + unhex ch)
          = content_length (parser t) * 16 + unhex ch) as Hw.
  { unfold uwrap. rewrite (Z.mod_small (_ * 16)) by lia. rewrite Z.mod_small; lia. }
  rewrite Hw. break_now. split; [done|]. unfold CROW_ULLONG_MAX. lia.
Qed.
Lemma case_chunk_parameters_safe ch t u :
  at_state s_chunk_parameters 1 ch t → wp (case_chunk_parameters ch t) (safe t) u.
Proof.
  at_state_. unmarked. destruct Hs as [Hch Hlt]. unfold case_chunk_parameters, chunked, assert.
  rewrite Hch. destruct (decide _); break_now.
Qed.
Lemma case_chunk_size_almost_done_safe ch t u :
  at_state s_chunk_size_almost_done 1 ch t → wp (case_chunk_size_almost_done ch t) (safe t) u.
Proof.
  at_state_. unmarked. destruct Hs as [Hch Hlt].
  unfold case_chunk_size_almost_done, chunked, assert, CROW_STRICT_CHECK. rewrite Hch.
  destruct (bool_decide _); [error_now|]. cbn [parser set_nread upd set_parser content_length set_hp_nread].
  destruct (Z.eqb_spec (content_length (parser t)) 0) as [|Hz]; [break_now|].
  break_now. split; [done|]. unfold body_expected. cbn.
  apply andb_true_intro. split; apply negb_true_iff, Z.eqb_neq; lia.
Qed.
Lemma case_chunk_data_safe ch t u :
  at_state s_chunk_data 0 ch t → wp (case_chunk_data t) (safe t) u.
Proof.
  at_state_. destruct Hs as [Hch Hs]. unfold case_chunk_data, chunked, assert. rewrite Hch, Hs.
  assert (only_mark d_body t) as Ho by (apply only_mark_state; [done|by rewrite Hst]).
  pose proof (body_expected_spec _ Hl Hs) as Hb.
  pose proof (take_body_spec t Hb ltac:(lia) Ho) as (Hpar & Hnr & Ho' & Hpp & Hsuf).
  pose proof (suffix_clean _ _ _ Hsuf Hcl) as Hclq. clear Hsuf.
  set (n := Z.min _ _) in *. assert (0 < n ≤ content_length (parser t)) by (unfold slen in *; lia).
  cbn zeta. revert Hpar Hnr Ho' Hpp Hclq. generalize (take_body t) as tb. intros tb Hpar Hnr Ho' Hpp Hclq.
  assert (base_ok tb) as Hbase by (split; rewrite ?Hpar; cbn; try done; lia).
  destruct (_ =? 0) eqn:Hz; rewrite Hpar in Hz; cbn in Hz.
  - apply Z.eqb_eq in Hz. apply safe_break; [|done].
    apply (frame_ok_intro 0 d_body); [by destruct Hbase; split|by intros g Hg; apply Ho'|done|].
    unfold state_ok. cbn. rewrite Hpar. cbn. by split.
  - apply Z.eqb_neq in Hz. apply safe_break; [|done].
    apply (frame_ok_intro 0 d_body); [done|done|by rewrite Hpar; cbn; rewrite Hst|].
    unfold state_ok. rewrite Hpar. cbn. rewrite Hst. split; [done|]. unfold body_expected. cbn.
    apply andb_true_intro. split; apply negb_true_iff, Z.eqb_neq; lia.
Qed.
Lemma case_chunk_data_almost_done_safe ch t u :
  at_state s_chunk_data_almost_done 0 ch t →
  wp (case_chunk_data_almost_done settings data ch t) (safe t) u.
Proof using Hset.
  at_state_. destruct Hs as [Hch Hz].
  unfold case_chunk_data_almost_done, chunked, assert, CROW_STRICT_CHECK. rewrite Hch, Hz. cbn [Z.eqb].
  destruct (bool_decide _); [error_now|].
  assert (only_mark d_body t) as Ho by (apply only_mark_state; [done|by rewrite Hst]).
  pose proof (frame_ok_base _ _ Hf) as [].
  apply safe_data_break; [by split|by intros g Hg; apply Ho|done|offset_|cbn; lia].
Qed.
Lemma case_chunk_data_done_safe ch t u :
  at_state s_chunk_data_done 0 ch t → wp (case_chunk_data_done ch t) (safe t) u.
Proof.
  at_state_. unmarked. unfold case_chunk_data_done, chunked, assert, CROW_STRICT_CHECK. rewrite Hs.
  destruct (bool_decide _); [error_now|break_now].
Qed.

(** ** The loop *)

(** The header bytes counted before the code of a state runs. *)
Definition counted (s : state) : Z := if parsing_header s then 1 else 0.
Create HintDb tokenizer discriminated.
#[local] Hint Resolve case_dead_safe case_start_req_safe case_req_method_safe
  case_req_spaces_before_url_safe 
  case_req_http_start_safe case_req_http_major_safe case_req_http_dot_safe
  case_req_http_minor_safe case_req_http_end_safe case_req_line_almost_done_safe
  case_header_field_start_safe case_header_field_safe case_header_value_discard_ws_safe
  case_header_value_start_state_safe case_header_value_safe case_header_almost_done_safe
  case_header_value_lws_safe case_header_value_discard_ws_almost_done_safe
  case_header_value_discard_lws_safe case_headers_almost_done_safe case_headers_done_safe
  case_body_identity_safe case_body_identity_eof_safe case_message_done_safe
  case_chunk_size_start_safe case_chunk_size_safe case_chunk_parameters_safe
  case_chunk_size_almost_done_safe case_chunk_data_safe case_chunk_data_almost_done_safe
  case_chunk_data_done_safe : tokenizer.

Lemma switch_safe ch t u :
  frame_ok (counted (hp_state (parser t))) t → (1 ≤ len (p t) ≤ len data)%nat → ch ≠ NUL →
  wp (switch settings address data ch t) (safe t) u.
Proof using Hset Hlen.
  intros Hf Hp Hc. unfold switch. destruct (hp_state (parser t)) eqn:Hst;
    (assert (at_state (hp_state (parser t)) (counted (hp_state (parser t))) ch t) as Has
       by (split; [by rewrite Hst|done|done|done]));
    rewrite Hst in Has;
    first [by eauto with tokenizer
          |by eapply case_req_http_safe; [| |exact Has]
          |by eapply case_req_schema_safe; [|exact Has]
          |by eapply case_req_path_safe; [|exact Has]].
Qed.

Lemma frame_ok_recount t : frame_ok 1 t → frame_ok (counted (hp_state (parser t))) t.
Proof.
  intros [Hok Hn Hm Hcl]. split; try done. unfold counted.
  destruct (decide (hp_state (parser t) = s_chunk_size_start)) as [->|E]; [done|].
  by eapply parser_ok_n.
Qed.

(** As [safe], with no jump back left. *)
Definition settled (t : frame) (r : result jump) (_ : U) : Prop :=
  match r with
  | Ok (Reexecute _ _) => False
  | Ok j => jump_ok t j
  | Throw e => proper e
  end.

Lemma reexecute_settled n ch t u :
  (rank (hp_state (parser t)) ≤ n)%nat →
  frame_ok (counted (hp_state (parser t))) t → (1 ≤ len (p t) ≤ len data)%nat → ch ≠ NUL →
  wp (reexecute settings address data n ch t) (settled t) u.
Proof using Hset Hlen.
  revert ch t u. induction n as [|n IH]; intros ch t u Hr Hf Hp Hc.
  { by destruct (hp_state (parser t)); cbn in Hr; lia. }
  cbn [reexecute]. apply wp_bind. eapply wp_mono; [by apply switch_safe|].
  intros [[t'|ch' t'|t'|t' m]|e] u' Hs; cbn in Hs; try (by apply wp_ret); [|done].
  destruct Hs as (Hf' & Hp' & Hc' & Hr').
  eapply wp_mono; [apply IH; [lia|by apply frame_ok_recount|lia|done]|].
  intros [[t2|? ?|t2|t2 m2]|e2] u2; cbn; try done.
  - intros [? ?]. split; [done|lia].
  - intros [? ?]. split; [done|lia].
Qed.

(** What a call of the tokenizer ends with. *)
Definition executed (r : result (http_parser * Z)) (_ : U) : Prop :=
  match r with
  | Ok (h, n) =>
      0 ≤ n ≤ slen data ∧
      (hp_errno h = CHPE_OK →
       parser_ok (hp_nread h) h ∧ 0 ≤ hp_nread h ≤ max_header_size ∧
       (n = slen data ∨ upgrade h = true))
  | Throw e => proper e
  end.

Lemma leftover_safe t u :
  frame_ok 0 t → p t = EmptyString →
  wp (leftover settings data t) (λ r s, match r with
    | Ok (Return t' n) => executed (Ok (parser t', n)) s | Ok _ => False | Throw e => proper e end) u.
Proof using Hset.
  intros Hf Hp. pose proof Hf as [[He Hl Hi Hs] Hn Hm Hcl].
  assert (is_set (header_field_mark t) + is_set (header_value_mark t) + is_set (url_mark t)
          + is_set (body_mark t) ≤ 1)%nat as Hone.
  { pose proof (Hm d_header_field). pose proof (Hm d_header_value). pose proof (Hm d_url).
    pose proof (Hm d_body). cbn in *.
    destruct (header_field_mark t), (header_value_mark t), (url_mark t), (body_mark t); cbn; try lia;
      exfalso; repeat match goal with H : Some _ ≠ None → _ |- _ => specialize (H ltac:(done)) end;
      congruence. }
  unfold leftover, assert at 1. rewrite (proj2 (Nat.leb_le _ _) Hone).
  set (Q := λ (r : result jump) (s : U), _).
  assert (∀ f t' k u', parser_ok (nread t) (parser t') → nread t' = nread t → p t' = EmptyString →
    (∀ t2 u2, parser_ok (nread t) (parser t2) → nread t2 = nread t → p t2 = EmptyString →
       wp (k t2) Q u2) →
    wp (CROW_CALLBACK_DATA_NOADVANCE settings data f t' k) Q u') as Hstep.
  { intros f t' k u' Hok Hnr Hp' Hk.
    unfold CROW_CALLBACK_DATA_NOADVANCE, CROW_CALLBACK_DATA_, call_, assert.
    rewrite bool_decide_eq_true_2 by apply Hok. destruct (mark_of f t') as [m|]; [|by apply Hk].
    apply wp_bind. eapply wp_mono; [apply Hset|]. intros [[n h']|e] u2 Hpol; [|done].
    cbn [fst snd] in *.
    destruct (decide _) as [E|E].
    - destruct (n =? 0); [|by destruct f].
      apply Hk; [|by destruct f..].
      pose proof (parser_ok_polite _ _ _ Hok Hpol E). by destruct f.
    - apply wp_ret. unfold Q, executed. split; [|done].
      unfold offset. cbn. rewrite Hp'. unfold slen. cbn. lia. }
  assert (parser_ok (nread t) (parser t)) as Hok by (by split; try done; rewrite Z.sub_0_r in Hs).
  apply Hstep; [done..|]. intros t1 u1 H1 Hn1 Hp1.
  apply Hstep; [done..|]. intros t2 u2 H2 Hn2 Hp2.
  apply Hstep; [done..|]. intros t3 u3 H3 Hn3 Hp3.
  apply Hstep; [done..|]. intros t4 u4 H4 Hn4 Hp4.
  apply wp_ret. unfold Q, executed. split; [unfold slen; lia|]. intros _.
  destruct H4 as [????]. cbn. rewrite Hn4. split_and!; [by split|lia|lia|by left].
Qed.

Lemma execute_loop_safe fuel t u :
  (len (p t) ≤ fuel)%nat → frame_ok 0 t → (len (p t) ≤ len data)%nat →
  wp (execute_loop settings address data fuel t) executed u.
Proof using Hset Hlen.
  revert t u. induction fuel as [|fuel IH]; intros t u Hfu Hf Hp.
  all: cbn [execute_loop]; destruct (p t) as [|ch rest] eqn:Ept; [|try (cbn in Hfu; lia)].
  1, 2: apply wp_bind; (eapply wp_mono; [by apply leftover_safe|]);
    intros [[t'|? ?|t'|t' n]|e] u' Hl; try done; by apply wp_ret.
  pose proof Hf as [[He Hl Hi Hs] Hn Hm Hcl]. pose proof Hcl as Hcl2. rewrite Ept in Hcl2.
  destruct Hcl2 as [Hch _].
  apply wp_bind.
  assert (wp (if parsing_header (hp_state (parser t))
              then CROW_COUNT_HEADER_SIZE 1 t (reexecute settings address data reexecutions ch)
              else reexecute settings address data reexecutions ch t) (settled t) u) as Hstep.
  { assert (rank (hp_state (parser t)) ≤ reexecutions)%nat as Hrk
      by (unfold reexecutions; destruct (hp_state (parser t)); cbn; lia).
    destruct (parsing_header _) eqn:Hph.
    - unfold CROW_COUNT_HEADER_SIZE. unfold max_header_size in Hn.
      rewrite uwrap32_small by lia. cbn [nread set_nread].
      destruct (Z.ltb_spec max_header_size (nread t + 1)).
      + apply wp_ret. split; [done|]. cbn. lia.
      + eapply wp_mono; [apply (reexecute_settled reexecutions ch (set_nread (nread t + 1) t))|].
        * done.
        * split; [|cbn; lia|done|done]. cbn. unfold counted. rewrite Hph.
          replace (nread t + 1 - 1) with (nread t - 0) by lia. by split.
        * cbn. rewrite Ept; cbn in *; lia.
        * done.
        * by intros [[]|].
    - eapply wp_mono; [apply (reexecute_settled reexecutions ch t)|].
      + done.
      + unfold counted. by rewrite Hph.
      + rewrite Ept; cbn in *; lia.
      + done.
      + by intros [[]|]. }
  eapply wp_mono; [exact Hstep|]. intros [[t'|? ?|t'|t' n]|e] u' Hj; cbn in Hj; try done.
  - destruct Hj as [[Hok' Hn' Hm' Hcl'] Hp'].
    assert (∃ c q, p t' = String c q) as (c & q & Hq) by (destruct (p t'); cbn in *; [lia|eauto]).
    rewrite Hq. apply IH.
    + cbn. rewrite Hq, Ept in Hp'. cbn in Hp', Hfu. lia.
    + split; [done|done|done|]. cbn. rewrite Hq in Hcl'. by destruct Hcl'.
    + cbn. rewrite Hq, Ept in Hp'. cbn in Hp', Hp. lia.
  - destruct Hj as [He' Hp']. apply wp_ret. unfold at_error.
    rewrite decide_False by done. split; [|done]. unfold offset, slen. rewrite Ept in Hp'.
    cbn in Hp', Hp |- *. lia.
Qed.

Lemma start_frame_ok h :
  parser_ok (hp_nread h) h → 0 ≤ hp_nread h ≤ max_header_size →
  string_Forall (λ c, c ≠ NUL) data → frame_ok 0 (start_frame data h).
Proof.
  intros Hok Hn Hcl. split; [by rewrite Z.sub_0_r|done| |done].
  intros f. unfold start_frame. destruct f; cbn; [by destruct (hp_state h)|..|done].
  - case_bool_decide as E; [by rewrite E|done].
  - case_bool_decide as E; [by rewrite E|done].
Qed.
End Safe.

(** The code for a further digit: the length it stores is the number the digits say, with no
    wrap-around, or there is an error. *)
Definition lengths_exact (U : Type) : Prop :=
  (∀ ch h hs h', 0 ≤ content_length h ≤ CROW_ULLONG_MAX →
     content_length_digit ch h = inl (Ok (hs, h')) →
     content_length h' =
       if decide (ch = SP) then content_length h else content_length h * 10 + (code ch - 48)) ∧
  (∀ ch t (u : U) t' u', 0 ≤ content_length (parser t) ≤ CROW_ULLONG_MAX →
     case_chunk_size ch t u = (Ok (Break t'), u') →
     content_length (parser t') =
       if unhex ch =? -1 then content_length (parser t)
       else content_length (parser t) * 16 + unhex ch).

Lemma content_length_digit_exact ch h hs h' :
  0 ≤ content_length h ≤ CROW_ULLONG_MAX → content_length_digit ch h = inl (Ok (hs, h')) →
  content_length h' =
    if decide (ch = SP) then content_length h else content_length h * 10 + (code ch - 48).
Proof.
  intros Hl. unfold content_length_digit. case_decide; [by intros [= _ <-]|].
  destruct (negb _) eqn:Hd; [done|]. apply negb_false_iff, is_digit_code in Hd.
  destruct (Z.ltb_spec ((CROW_ULLONG_MAX - 10) / 10) (content_length h)); [done|].
  change ((CROW_ULLONG_MAX - 10) / 10) with 1844674407370955160 in *.
  intros [= _ <-]. cbn [content_length set_content_length].
  unfold uwrap. rewrite (Z.mod_small (_ * 10)) by lia. rewrite Z.mod_small; lia.
Qed.
Lemma case_chunk_size_exact {U} ch t (u : U) t' u' :
  0 ≤ content_length (parser t) ≤ CROW_ULLONG_MAX → case_chunk_size ch t u = (Ok (Break t'), u') →
  content_length (parser t') =
    if unhex ch =? -1 then content_length (parser t) else content_length (parser t) * 16 + unhex ch.
Proof.
  intros Hl. unfold case_chunk_size, chunked, assert. destruct (has_flag _ _); [|done].
  destruct (decide _) as [->|]; [by intros [= <- _]|]. pose proof (unhex_bounds ch).
  destruct (Z.eqb_spec (unhex ch) (-1)); [destruct (decide _); [by intros [= <- _]|done]|].
  destruct (Z.ltb_spec ((CROW_ULLONG_MAX - 16) / 16) (content_length (parser t))); [done|].
  change ((CROW_ULLONG_MAX - 16) / 16) with 1152921504606846974 in *.
  intros [= <- _]. cbn [parser upd set_parser content_length set_content_length].
  unfold uwrap. rewrite (Z.mod_small (_ * 16)) by lia. rewrite Z.mod_small; lia.
Qed.

(** C12: the tokenizer is safe on every text without a NUL.  For callbacks that leave the
    parser alone up to the error number, the place of the query and a new message, and that
    do nothing undefined, a call with fewer than 2^31 bytes from any state a previous call
    can leave returns or passes on an exception of a callback: it reads neither the method
    names nor the keywords beyond their ends, no assertion fails, and it jumps back to
    [reexecute] at most three times for a character ([reexecutions] counts the turns).
    It takes no more than it was given, and all of it unless it reports an error or the
    message asks for another protocol; and if it reports no error, it is ready for the next
    part, with at most [max_header_size] header bytes counted.  And a further digit of a
    Content-Length or of the size of a chunk makes the length ten or sixteen times what it
    was plus the digit, without wrapping around at 2^64, or is refused. *)
Theorem tokenizer_safe {U} (settings : callback → http_parser → M U (Z * http_parser))
  address data h u :
  (∀ c h u, wp (settings c h) (λ r _,
     match r with Ok x => polite h (snd x) | Throw e => proper e end) u) →
  0 < slen data < 2 ^ 31 → string_Forall (λ c, c ≠ NUL) data →
  parser_ok (hp_nread h) h → 0 ≤ hp_nread h ≤ max_header_size →
  wp (http_parser_execute settings address data h) (executed data) u ∧
  lengths_exact U ∧ reexecutions = 4%nat.
Proof.
  intros Hset Hlen Hcl Hok Hn. split_and!; [|split|reflexivity].
  - unfold http_parser_execute.
    rewrite decide_False by (intros H; by destruct H, Hok).
    rewrite decide_False by (intros ->; unfold slen in Hlen; cbn in Hlen; lia).
    apply execute_loop_safe; [done|lia|done|by apply start_frame_ok|done].
  - apply content_length_digit_exact.
  - apply case_chunk_size_exact.
Qed.

Definition quiet_settings (c : callback) (h : http_parser) : M (list callback) (Z * http_parser) :=
  λ l, (Ok (0, h), c :: l).
Lemma quiet_settings_polite c h u : wp (quiet_settings c h) (λ r _,
  match r with Ok x => polite h (snd x) | Throw e => proper e end) u.
Proof. apply polite_refl. Qed.

Lemma tokenizer_safe_witness :
  let data := "GET /healthcheck HTTP/1.1" +:+ String CR (String LF (String CR (String LF ""))) in
  wp (http_parser_execute quiet_settings 4096 data http_parser_init) (executed data) [] ∧
  lengths_exact (list callback) ∧ reexecutions = 4%nat.
Proof.
  intros data. apply (tokenizer_safe quiet_settings 4096 data http_parser_init []).
  - exact quiet_settings_polite.
  - split; reflexivity.
  - repeat split; discriminate.
  - split; [reflexivity|split; discriminate|split; [discriminate|reflexivity]|exact I].
  - split; discriminate.
Defined.

(** One byte aborts the server.  The first character of a header's value is not checked,
    and in a Connection header a NUL is taken for leading white space, which leaves the
    header state [h_connection]: the next ordinary character runs into
    [assert(0 && "Shouldn't get here.")], in a build without NDEBUG the end of the process,
    before any authorization. *)
Theorem nul_in_connection_aborts address next log :
  next ≠ CR → next ≠ LF → CROW_IS_HEADER_CHAR next = true →
  fst (http_parser_execute quiet_settings address
         ("GET / HTTP/1.1" +:+ String CR (String LF
            ("Connection: " +:+ String NUL (String next EmptyString)))) http_parser_init log)
  = Throw (UB "assertion failed").
Proof.
  intros Hcr Hlf Hhd. revert Hcr Hlf Hhd. all_ascii next; try done; intros; reflexivity.
Qed.
Lemma nul_in_connection_aborts_witness :
  fst (http_parser_execute quiet_settings 4096
         ("GET / HTTP/1.1" +:+ String CR (String LF
            ("Connection: " +:+ String NUL (String "x" EmptyString)))) http_parser_init [])
  = Throw (UB "assertion failed").
Proof. apply (nul_in_connection_aborts 4096 "x" []); [discriminate|discriminate|reflexivity]. Defined.
