(* ===== verification/TokenizerRun.v ===== *)
(** * What the tokenizer reports of a request

    Runs of the tokenizer's loop under callbacks that record, and the request line: the method,
    the URL and the version are reported as they were written. *)

From S2P Require Import Prelude Doubles JsonRead JsonWrite Utility QueryString Http Service.
From S2P Require Import OrderRoutes Wp Tokenizer TokenizerSpec.
From S2P Require Connection.
Open Scope Z_scope.

(** ** The callbacks of parser.h *)

(** What [HTTPParser]'s callbacks read from the parser. *)
Definition report (c : callback) (h : http_parser) : list Connection.event :=
  match c with
  | on_message_begin => []
  | on_method => [Connection.OnMethod (hp_method h)]
  | on_url at_ => [Connection.OnUrl at_ (qs_point h)]
  | on_header_field at_ => [Connection.OnHeaderField at_]
  | on_header_value at_ => [Connection.OnHeaderValue at_]
  | on_headers_complete =>
      [Connection.OnHeadersComplete (http_major h) (http_minor h)
         (has_flag F_CONNECTION_KEEP_ALIVE h) (has_flag F_CONNECTION_CLOSE h) (upgrade h)]
  | on_body at_ => [Connection.OnBody at_]
  | on_message_complete => [Connection.OnMessageComplete]
  end.
(** [HTTPParser::clear], the part that concerns the tokenizer: the connection calls it when
    the message is answered. *)
Definition restart (h : http_parser) : http_parser := set_qs_point 0 (set_state s_start_req h).
(** Callbacks that report, and accept everything. *)
Definition reporting (c : callback) (h : http_parser)
  : M (list Connection.event) (Z * http_parser) := λ l,
  (Ok (0, match c with on_message_complete => restart h | _ => h end), l ++ report c h).

(** ** Runs *)

(** What a step keeps of [between] and [inside], below. *)
Ltac between_ Hb :=
  destruct Hb; split; cbn; auto;
  try (let f := fresh "f" in intros f;
       lazymatch goal with H : no_marks _ |- _ => specialize (H f); destruct f; exact H end).

Ltac inside_ Hb :=
  destruct Hb; split; cbn; auto;
  try (let f := fresh "f" in let Hf := fresh "Hf" in intros f Hf;
       lazymatch goal with H : only_mark _ _ |- _ => specialize (H f Hf); destruct f; exact H end).

Section Run.
Context (address : Z) (data : string).
Abbreviation len s := (String.length s).
Abbreviation U := (list Connection.event).

(** The loop gets from one frame to another, taking a character a turn at least. *)
Definition reaches (t : frame) (u : U) (t' : frame) (u' : U) : Prop :=
  ∃ k, (k + len (p t') ≤ len (p t))%nat ∧
    ∀ n, execute_loop reporting address data (k + n) t u = execute_loop reporting address data n t' u'.

Lemma reaches_refl t u : reaches t u t u.
Proof. by exists O. Qed.
Lemma reaches_trans t1 u1 t2 u2 t3 u3 :
  reaches t1 u1 t2 u2 → reaches t2 u2 t3 u3 → reaches t1 u1 t3 u3.
Proof.
  intros (k1 & H1 & E1) (k2 & H2 & E2). exists (k1 + k2)%nat. split; [lia|].
  intros n. by rewrite <- Nat.add_assoc, E1, E2.
Qed.

(** One turn: the character is counted in a header, and the code of its state leaves [t1]. *)
Definition count (t : frame) : frame :=
  if parsing_header (hp_state (parser t)) then set_nread (nread t + 1) t else t.
Lemma reaches_step t u ch rest t1 u1 c q :
  p t = String ch rest → 0 ≤ nread t < max_header_size →
  reexecute reporting address data reexecutions ch (count t) u = (Ok (Break t1), u1) →
  p t1 = String c q → (len q ≤ len rest)%nat →
  reaches t u (set_p q t1) u1.
Proof.
  intros Hp Hn Hs Hq Hl. exists 1%nat. split; [rewrite Hp; cbn; lia|].
  intros n. change (1 + n)%nat with (S n). cbn [execute_loop]. rewrite Hp.
  unfold mbind, M_bind. unfold count in Hs. destruct (parsing_header _).
  - unfold CROW_COUNT_HEADER_SIZE. unfold max_header_size in *.
    rewrite uwrap32_small by lia. cbn [nread set_nread].
    destruct (Z.ltb_spec (80 * 1024) (nread t + 1)); [lia|].
    rewrite Hs. cbn iota beta. by rewrite Hq.
  - rewrite Hs. cbn iota beta. by rewrite Hq.
Qed.

(** The code of a state that ends in a [break]. *)
Lemma reexecute_break ch t u t1 u1 :
  switch reporting address data ch t u = (Ok (Break t1), u1) →
  reexecute reporting address data reexecutions ch t u = (Ok (Break t1), u1).
Proof.
  intros H. unfold reexecutions. cbn [reexecute]. unfold mbind, M_bind. by rewrite H.
Qed.

Lemma call_reporting c er t k u :
  hp_errno (parser t) = CHPE_OK →
  call_ reporting c er t k u
  = k (set_parser (match c with on_message_complete => restart (parser t) | _ => parser t end) t)
      (u ++ report c (parser t)).
Proof.
  intros He. unfold call_, assert. rewrite bool_decide_eq_true_2 by done.
  unfold mbind, M_bind, reporting. cbn [fst snd Z.eqb].
  rewrite decide_True; [done|]. by destruct c.
Qed.
Lemma data_reporting f er t k u text rest :
  hp_errno (parser t) = CHPE_OK → mark_of f t = Some (text +:+ rest) → p t = rest →
  CROW_CALLBACK_DATA_ reporting f 0 er t k u
  = k (set_mark f None t) (u ++ report (on_data f text) (parser t)).
Proof.
  intros He Hm Hp. unfold CROW_CALLBACK_DATA_, assert. rewrite bool_decide_eq_true_2 by done.
  rewrite Hm, call_reporting by done. rewrite Hp. unfold slen. rewrite string_length_app.
  replace (Z.to_nat _) with (len text) by lia. rewrite substring_take.
  destruct f; cbn; by destruct t.
Qed.

(** ** Between the parts of a message *)

(** What is known of a frame between two parts: nothing is marked, and the fields that matter
    later. *)
Record between (st : state) (rest : string) (n : Z) (m : HTTPMethod) (ver : Z * Z)
  (fl cl qs : Z) (t : frame) : Prop := {
  bt_state : hp_state (parser t) = st;
  bt_p : p t = rest;
  bt_nread : nread t = n;
  bt_method : hp_method (parser t) = m;
  bt_version : (http_major (parser t), http_minor (parser t)) = ver;
  bt_flags : flags (parser t) = fl;
  bt_length : content_length (parser t) = cl;
  bt_qs : qs_point (parser t) = qs;
  bt_te : uses_transfer_encoding (parser t) = false;
  bt_lenient : lenient_http_headers (parser t) = false;
  bt_errno : hp_errno (parser t) = CHPE_OK;
  bt_marks : no_marks t;
}.

Lemma step_break st ch rest n m ver fl cl qs t u t1 u1 :
  between st (String ch rest) n m ver fl cl qs t →
  parsing_header st = true → 0 ≤ n < max_header_size →
  switch reporting address data ch (set_nread (n + 1) t) u = (Ok (Break t1), u1) →
  p t1 = String ch rest →
  reaches t u (set_p rest t1) u1.
Proof.
  intros Hb Hph Hn Hs Hp. eapply reaches_step; [apply Hb|by rewrite (bt_nread _ _ _ _ _ _ _ _ _ Hb)| |exact Hp|done].
  apply reexecute_break. unfold count. by rewrite (bt_state _ _ _ _ _ _ _ _ _ Hb), Hph, (bt_nread _ _ _ _ _ _ _ _ _ Hb).
Qed.

(** *** The method *)

Definition method_step (m : HTTPMethod) (i : Z) (ch : ascii) : option HTTPMethod :=
  if slen (method_name m) <=? i then None
  else if decide (ch = c_char (method_name m) i) then Some m else method_switch m i ch.
(** The methods the tokenizer takes the request for, after each character. *)
Fixpoint method_trace (m : HTTPMethod) (i : Z) (s : string) : option (list HTTPMethod) :=
  match s with
  | EmptyString => Some []
  | String ch s' =>
      m' ← method_step m i ch;
      l ← method_trace m' (i + 1) s';
      Some (m' :: l)
  end.

Lemma method_recognised m :
  ∃ c0 w m0 l, method_name m = String c0 w ∧ CROW_IS_ALPHA c0 = true ∧
    method_of_letter c0 = Some m0 ∧ method_trace m0 1 w = Some l ∧ list.last (m0 :: l) = Some m ∧
    string_Forall (λ c, ((65 <=? schar c) && (schar c <=? 90)) || bool_decide (c = "-"%char) = true) w.
Proof. destruct m; do 4 eexists; (split; [reflexivity|]); repeat split. Qed.

Lemma method_char mi i ch m' rest n ver fl cl qs t u :
  between s_req_method (String ch rest) n mi ver fl cl qs t →
  index (parser t) = i → 1 ≤ i → 0 ≤ n < max_header_size →
  method_step mi i ch = Some m' →
  ((65 <=? schar ch) && (schar ch <=? 90)) || bool_decide (ch = "-"%char) = true →
  ∃ t', reaches t u t' (u ++ [Connection.OnMethod m']) ∧
    between s_req_method rest (n + 1) m' ver fl cl qs t' ∧ index (parser t') = i + 1 ∧
    url_start_mark t' = url_start_mark t.
Proof.
  intros Hb Hi Hi1 Hn Hm Hup. unfold method_step in Hm.
  destruct (Z.leb_spec (slen (method_name mi)) i) as [|Hlt]; [done|]. pose proof Hb as [Est Ep En Em Ev Ef El Eq Ete Elen Eer Emk].
  assert (slen (method_name mi) ≤ 11) as Hshort by by destruct mi.
  set (t0 := set_nread (n + 1) t).
  assert (case_req_method reporting data ch t0 u
    = (Ok (Break (upd (λ h, set_index (i + 1) h) (upd (set_method m') t0))),
       u ++ [Connection.OnMethod m'])) as Hcase.
  { unfold case_req_method. cbn [parser set_nread t0]. rewrite Em, Hi.
    assert (ch ≠ NUL) by (intros ->; done).
    assert (ch ≠ SP) by (intros ->; done).
    rewrite decide_False by done.
    destruct (Z.ltb_spec (slen (method_name mi)) i); [lia|].
    rewrite bool_decide_eq_false_2 by done. cbn [andb].
    destruct (decide (ch = _)) as [Hch|Hch].
    - injection Hm as <-. unfold CROW_CALLBACK_NOTIFY_NOADVANCE. rewrite call_reporting by done.
      destruct t as [[] ? ? ? ? ? ? ?]; cbn in *; by subst.
    - rewrite Hup, Hm. unfold CROW_CALLBACK_NOTIFY_NOADVANCE. rewrite call_reporting by done.
      subst t0. destruct t as [[] ? ? ? ? ? ? ?]; cbn in *; by subst. }
  eexists. split_and!.
  - eapply step_break; [exact Hb|done|done| |].
    + unfold switch. cbn [parser set_nread]. rewrite Est. exact Hcase.
    + by subst t0.
  - subst t0. between_ Hb.
  - cbn -[uwrap]. apply Z.mod_small. lia.
  - done.
Qed.

(** Everything explicit. *)
Lemma method_chars w mi i l rest n ver fl cl qs t u :
  between s_req_method (w +:+ rest) n mi ver fl cl qs t → index (parser t) = i →
  1 ≤ i → method_trace mi i w = Some l → 0 ≤ n → n + slen w ≤ max_header_size →
  string_Forall (λ c, ((65 <=? schar c) && (schar c <=? 90)) || bool_decide (c = "-"%char) = true) w →
  ∃ t', reaches t u t' (u ++ (Connection.OnMethod <$> l)) ∧
    between s_req_method rest (n + slen w) (default mi (list.last l)) ver fl cl qs t' ∧
    index (parser t') = i + slen w ∧ url_start_mark t' = url_start_mark t.
Proof.
  revert mi i l n t u. induction w as [|ch w IH]; intros mi i l n t u Hb Hi Hi1 Hl Hn Hmax Hup.
  - injection Hl as <-. exists t. rewrite app_nil_r. split_and!; [apply reaches_refl| |unfold slen; cbn; lia|done].
    unfold slen. cbn. by rewrite Z.add_0_r.
  - rewrite string_app_cons in Hb. destruct Hup as [Hc Hup]. cbn [method_trace] in Hl.
    destruct (method_step mi i ch) as [m'|] eqn:Hm; [|done]. cbn in Hl.
    destruct (method_trace m' (i + 1) w) as [l'|] eqn:Hl'; [|done]. injection Hl as <-.
    assert (slen (String ch w) = 1 + slen w) as Hsl by (unfold slen; cbn [len]; lia).
    assert (0 ≤ slen w) by (unfold slen; lia).
    destruct (method_char mi i ch m' (w +:+ rest) n ver fl cl qs t u)
      as (t1 & Hr1 & Hb1 & Hi1' & Hus1); [done|done|done|lia|done|done|].
    destruct (IH m' (i + 1) l' (n + 1) t1 (u ++ [Connection.OnMethod m']))
      as (t2 & Hr2 & Hb2 & Hi2 & Hus2); [done|done|lia|done|lia|lia|done|].
    exists t2. split_and!.
    + eapply reaches_trans; [exact Hr1|]. by rewrite <- app_assoc in Hr2.
    + rewrite Hsl, Z.add_assoc. destruct l' as [|x l']; [done|].
      cbn [list.last]. change (list.last (m' :: x :: l')) with (list.last (x :: l')).
      destruct (list.last (x :: l')) eqn:E; [done|]. by apply last_None in E.
    + lia.
    + congruence.
Qed.

Lemma alpha_not_line c : CROW_IS_ALPHA c = true → ¬ (c = CR ∨ c = LF).
Proof. by intros H [-> | ->]. Qed.

Lemma run_method m rest n m' ver fl cl qs t u :
  between s_start_req (method_name m +:+ String SP rest) n m' ver fl cl qs t →
  0 ≤ n → n + slen (method_name m) + 1 ≤ max_header_size →
  ∃ t' ms, reaches t u t' (u ++ (Connection.OnMethod <$> ms ++ [m])) ∧
    between s_req_spaces_before_url rest (n + slen (method_name m) + 1) m ver 0 CROW_ULLONG_MAX qs t' ∧
    url_start_mark t' = url_start_mark t.
Proof.
  intros Hb Hn Hmax.
  destruct (method_recognised m) as (c0 & w & m0 & l & Hnm & Ha & Hl0 & Hl & Hlast & Hup).
  rewrite Hnm in Hb, Hmax. rewrite string_app_cons in Hb.
  assert (slen (String c0 w) = 1 + slen w) as Hsl by (unfold slen; cbn [len]; lia).
  assert (0 ≤ slen w) by (unfold slen; lia).
  (* the first letter *)
  assert (∃ t1, reaches t u t1 u ∧
    between s_req_method (w +:+ String SP rest) (n + 1) m0 ver 0 CROW_ULLONG_MAX qs t1 ∧
    index (parser t1) = 1 ∧ url_start_mark t1 = url_start_mark t) as (t1 & Hr1 & Hb1 & Hi1 & Hu1).
  { pose proof Hb as [Est Ep En Em Ev Ef El Eq Ete Elen Eer Emk]. eexists. split_and!.
    - eapply step_break; [exact Hb|done|lia| |].
      + unfold switch. cbn [parser set_nread]. rewrite Est. unfold case_start_req.
        rewrite decide_False by (by apply alpha_not_line). cbn zeta. rewrite Ha. cbn [negb].
        rewrite Hl0. unfold CROW_CALLBACK_NOTIFY. rewrite call_reporting by done.
        cbn [report]. rewrite app_nil_r. reflexivity.
      + done.
    - between_ Hb.
    - done.
    - done. }
  (* the others *)
  destruct (method_chars w m0 1 l (String SP rest) (n + 1) ver 0 CROW_ULLONG_MAX qs t1 u)
    as (t2 & Hr2 & Hb2 & Hi2 & Hu2); [done|done|done|done|lia|lia|done|].
  assert (default m0 (list.last l) = m) as Hd.
  { destruct l as [|x l]; [cbn in *; congruence|].
    change (list.last (m0 :: x :: l)) with (list.last (x :: l)) in Hlast. by rewrite Hlast. }
  rewrite Hd in Hb2.
  (* the space *)
  pose proof Hb2 as [Est Ep En Em Ev Ef El Eq Ete Elen Eer Emk].
  assert (index (parser t2) = slen (method_name m)) as Hidx by (rewrite Hnm; lia).
  eexists _, l. split_and!.
  - eapply reaches_trans; [exact Hr1|]. eapply reaches_trans; [exact Hr2|].
    eapply step_break; [exact Hb2|done|lia| |].
    + unfold switch. cbn [parser set_nread]. rewrite Est. unfold case_req_method.
      cbn [parser set_nread]. rewrite Em, Hidx, decide_False, Z.ltb_irrefl by done.
      assert (c_char (method_name m) (slen (method_name m)) = NUL) as ->.
      { unfold c_char, slen. by rewrite Nat2Z.id, get_beyond. }
      rewrite !bool_decide_eq_true_2 by done. cbn [andb].
      unfold CROW_CALLBACK_NOTIFY_NOADVANCE. rewrite call_reporting by done.
      cbn [report]. change (hp_method (parser (goto _ _))) with (hp_method (parser t2)). rewrite Em.
      rewrite fmap_app, app_assoc. reflexivity.
    + done.
  - rewrite Hnm, Hsl. replace (n + (1 + slen w) + 1) with (n + 1 + slen w + 1) by lia. between_ Hb2.
  - cbn. congruence.
Qed.

(** *** The URL *)

(** As [between], inside a token: [f] is marked where [seen] starts. *)
Record inside (f : data_for) (seen : string) (st : state) (rest : string) (n : Z)
  (m : HTTPMethod) (ver : Z * Z) (fl cl qs : Z) (t : frame) : Prop := {
  in_state : hp_state (parser t) = st;
  in_p : p t = rest;
  in_nread : nread t = n;
  in_method : hp_method (parser t) = m;
  in_version : (http_major (parser t), http_minor (parser t)) = ver;
  in_flags : flags (parser t) = fl;
  in_length : content_length (parser t) = cl;
  in_qs : qs_point (parser t) = qs;
  in_te : uses_transfer_encoding (parser t) = false;
  in_lenient : lenient_http_headers (parser t) = false;
  in_errno : hp_errno (parser t) = CHPE_OK;
  in_mark : mark_of f t = Some (seen +:+ rest);
  in_marks : only_mark f t;
}.
Lemma step_inside f seen st ch rest n m ver fl cl qs t u t1 u1 :
  inside f seen st (String ch rest) n m ver fl cl qs t →
  parsing_header st = true → 0 ≤ n < max_header_size →
  switch reporting address data ch (set_nread (n + 1) t) u = (Ok (Break t1), u1) →
  p t1 = String ch rest →
  reaches t u (set_p rest t1) u1.
Proof.
  intros Hb Hph Hn Hs Hp. eapply reaches_step; [apply Hb| | |exact Hp|done].
  - by rewrite (in_nread _ _ _ _ _ _ _ _ _ _ _ Hb).
  - apply reexecute_break. unfold count.
    by rewrite (in_state _ _ _ _ _ _ _ _ _ _ _ Hb), Hph, (in_nread _ _ _ _ _ _ _ _ _ _ _ Hb).
Qed.
Definition in_query (st : state) : bool :=
  match st with s_req_query_string_start | s_req_query_string => true | _ => false end.

Definition query_char (c : ascii) : bool := CROW_IS_URL_CHAR c || bool_decide (c = "?"%char).
Lemma query_char_plain c :
  query_char c = true → c ≠ SP ∧ c ≠ CR ∧ c ≠ LF ∧ c ≠ TAB ∧ c ≠ FF.
Proof. intros H. split_and!; by intros ->. Qed.

(** One character of the path or of the query. *)
Lemma url_char_inside st ch rest seen n m ver fl cl qs t u st' qs' :
  inside d_url seen st (String ch rest) n m ver fl cl qs t →
  url_start_mark t = url_mark t → 0 ≤ n < max_header_size →
  (st = s_req_path ∧ CROW_IS_URL_CHAR ch = true ∧ st' = s_req_path ∧ qs' = qs ∨
   st = s_req_path ∧ ch = "?"%char ∧ st' = s_req_query_string_start ∧ qs' = slen seen ∨
   in_query st = true ∧ (CROW_IS_URL_CHAR ch = true ∨ ch = "?"%char) ∧ st' = s_req_query_string ∧ qs' = qs) →
  ∃ t', reaches t u t' u ∧
    inside d_url (seen +:+ String ch EmptyString) st' rest (n + 1) m ver fl cl qs' t' ∧
    url_start_mark t' = url_mark t'.
Proof.
  intros Hb Hus Hn Hcase. pose proof Hb as [Est Ep En Em Ev Ef El Eq Ete Elen Eer Emk Eom].
  assert (query_char ch = true) as Hq.
  { unfold query_char. apply orb_true_iff. rewrite bool_decide_eq_true. naive_solver. }
  destruct (query_char_plain ch Hq) as (H1 & H2 & H3 & H4 & H5).
  assert (parse_url_char st ch (url_offset address data (String ch rest) (url_mark t)) (parser t)
    = (st', set_qs_point qs' (parser t))) as Hp.
  { cbn in Emk. rewrite Emk.
    assert (url_offset address data (String ch rest) (Some (seen +:+ String ch rest)) = slen seen) as ->.
    { unfold url_offset, slen. rewrite string_length_app. lia. }
    assert (set_qs_point qs (parser t) = parser t) as Hsame by (destruct (parser t); cbn in *; by subst).
    unfold parse_url_char. rewrite bool_decide_eq_false_2 by naive_solver.
    rewrite bool_decide_eq_false_2 by naive_solver. cbn zeta.
    destruct Hcase as [(-> & Hc & -> & ->)|[(-> & -> & -> & ->)|(Hst & Hc & -> & ->)]].
    - by rewrite Hc, Hsame.
    - done.
    - rewrite Hsame. destruct st; try done; (destruct Hc as [Hc| ->]; [by rewrite Hc|done]). }
  exists (set_p rest (goto st' (set_parser (set_qs_point qs' (parser t)) (set_nread (n + 1) t)))).
  split_and!.
  - eapply step_inside; [exact Hb| |done| |done].
    { by destruct Hcase as [(-> & _)|[(-> & _)|(Hst & _)]]; [..|destruct st]. }
    assert (switch reporting address data ch (set_nread (n + 1) t) u
      = url_char address data ch (set_nread (n + 1) t) u) as ->.
    { unfold switch. cbn [parser set_nread]. rewrite Est.
      destruct Hcase as [(-> & _)|[(-> & _)|(Hst & _)]]; [| |destruct st; try done];
        unfold case_req_path; by rewrite decide_False, decide_False by tauto. }
    unfold url_char. cbn [parser set_nread url_start_mark p]. rewrite Est, Ep, Hus, Hp.
    rewrite decide_False; [done|].
    by destruct Hcase as [(_ & _ & -> & _)|[(_ & _ & -> & _)|(_ & _ & -> & _)]].
  - inside_ Hb. cbn in in_mark0; rewrite in_mark0. by str_norm.
  - done.
Qed.


Lemma url_chars w st st' rest seen n m ver fl cl qs t u :
  inside d_url seen st (w +:+ rest) n m ver fl cl qs t → url_start_mark t = url_mark t →
  0 ≤ n → n + slen w ≤ max_header_size →
  (st = s_req_path ∧ string_Forall (λ c, CROW_IS_URL_CHAR c = true) w ∧ st' = s_req_path ∨
   in_query st = true ∧ string_Forall (λ c, query_char c = true) w ∧ in_query st' = true ∧
     (w = EmptyString → st' = st) ∧ (w ≠ EmptyString → st' = s_req_query_string)) →
  ∃ t', reaches t u t' u ∧
    inside d_url (seen +:+ w) st' rest (n + slen w) m ver fl cl qs t' ∧
    url_start_mark t' = url_mark t'.
Proof.
  revert st seen n t. induction w as [|ch w IH]; intros st seen n t Hb Hus Hn Hmax Hcase.
  - exists t. split; [apply reaches_refl|]. rewrite string_app_nil_r. unfold slen. cbn [len].
    rewrite Z.add_0_r. split; [|done]. replace st' with st; [exact Hb|]. naive_solver.
  - rewrite string_app_cons in Hb. rewrite slen_cons in Hmax. pose proof (slen_nonneg w).
    assert (∃ st1, (st = s_req_path ∧ CROW_IS_URL_CHAR ch = true ∧ st1 = s_req_path ∧ qs = qs ∨
       st = s_req_path ∧ ch = "?"%char ∧ st1 = s_req_query_string_start ∧ qs = slen seen ∨
       in_query st = true ∧ (CROW_IS_URL_CHAR ch = true ∨ ch = "?"%char) ∧ st1 = s_req_query_string ∧ qs = qs) ∧
      (st1 = s_req_path ∧ string_Forall (λ c, CROW_IS_URL_CHAR c = true) w ∧ st' = s_req_path ∨
       in_query st1 = true ∧ string_Forall (λ c, query_char c = true) w ∧ in_query st' = true ∧
         (w = EmptyString → st' = st1) ∧ (w ≠ EmptyString → st' = s_req_query_string)))
      as (st1 & H1 & H2).
    { destruct Hcase as [(-> & [Hc Hw] & ->)|(Hst & [Hc Hw] & Hst' & _ & Hne)].
      - exists s_req_path. split; [by left|by left].
      - specialize (Hne ltac:(done)). subst st'. exists s_req_query_string. split; [right; right|by right].
        split_and!; try done. apply orb_true_iff in Hc. by rewrite bool_decide_eq_true in Hc. }
    destruct (url_char_inside st ch (w +:+ rest) seen n m ver fl cl qs t u st1 qs Hb Hus ltac:(lia) H1)
      as (t1 & Hr1 & Hb1 & Hu1).
    destruct (IH st1 (seen +:+ String ch EmptyString) (n + 1) t1 Hb1 Hu1 ltac:(lia) ltac:(lia) H2)
      as (t2 & Hr2 & Hb2 & Hu2).
    exists t2. split; [by eapply reaches_trans|]. split; [|done].
    rewrite slen_cons. replace (n + (1 + slen w)) with (n + 1 + slen w) by lia.
    rewrite string_app_assoc in Hb2. by str_norm.
Qed.

(** A URL that starts with a slash, and where its query starts. *)
Definition url_text (path : string) (query : option string) : string :=
  path +:+ match query with Some q => String "?" q | None => EmptyString end.
Definition url_qs_point (path : string) (query : option string) : Z :=
  match query with Some _ => slen path | None => 0 end.
Definition url_ok (path : string) (query : option string) : Prop :=
  (∃ w, path = String "/" w ∧ string_Forall (λ c, CROW_IS_URL_CHAR c = true) w) ∧
  match query with Some q => string_Forall (λ c, query_char c = true) q | None => True end.

Lemma run_url path query rest n m ver fl cl t u :
  between s_req_spaces_before_url (url_text path query +:+ String SP rest) n m ver fl cl 0 t →
  url_start_mark t = None → url_ok path query →
  0 ≤ n → n + slen (url_text path query) + 1 ≤ max_header_size →
  ∃ t', reaches t u t' (u ++ [Connection.OnUrl (url_text path query) (url_qs_point path query)]) ∧
    between s_req_http_start rest (n + slen (url_text path query) + 1) m ver fl cl
      (url_qs_point path query) t'.
Proof.
  intros Hb Hus [(w & -> & Hw) Hq] Hn Hmax.
  set (tail := match query with Some q => String "?" q | None => EmptyString end).
  assert (url_text (String "/" w) query = String "/" (w +:+ tail)) as Htext by done.
  rewrite Htext in *. rewrite slen_cons, slen_app in *. rewrite string_app_cons, string_app_assoc in Hb.
  pose proof (slen_nonneg w). pose proof (slen_nonneg tail).
  (* the slash *)
  assert (∃ t1, reaches t u t1 u ∧
    inside d_url "/" s_req_path (w +:+ (tail +:+ String SP rest)) (n + 1) m ver fl cl 0 t1 ∧
    url_start_mark t1 = url_mark t1) as (t1 & Hr1 & Hb1 & Hu1).
  { pose proof Hb as [Est Ep En Em Ev Ef El Eq Ete Elen Eer Emk].
    pose proof (Emk d_url) as Eu. cbn in Eu.
    exists (set_p (w +:+ (tail +:+ String SP rest))
      (Frame (set_state s_req_path (parser t)) (p t) (n + 1) (header_field_mark t)
         (header_value_mark t) (Some (p t)) (Some (p t)) (body_mark t))). split_and!.
    - eapply step_break; [exact Hb|done|lia| |exact Ep].
      + unfold switch. cbn [parser set_nread]. rewrite Est. unfold case_req_spaces_before_url.
        rewrite decide_False by done. unfold CROW_MARK, mark_url_start.
        cbn [mark_of url_mark set_nread]. rewrite Eu. cbn [url_start_mark set_mark set_nread].
        rewrite Hus. cbn [parser set_nread set_mark p].
        destruct (decide _); unfold url_char; cbn [parser set_nread goto upd set_parser hp_state set_state];
          rewrite ?Est; reflexivity.
    - pose proof (Emk d_header_field). pose proof (Emk d_header_value). pose proof (Emk d_body).
      destruct Hb. cbn in *. split; cbn; auto.
      + f_equal. by rewrite Ep.
      + intros [] Hf; cbn; try done.
    - done. }
  (* the path *)
  destruct (url_chars w s_req_path s_req_path (tail +:+ String SP rest) "/" (n + 1) m ver fl cl 0 t1 u)
    as (t2 & Hr2 & Hb2 & Hu2); [done|done|lia|lia|by left|].
  (* the query *)
  assert (∃ t3 st, reaches t2 u t3 u ∧ (st = s_req_path ∨ in_query st = true) ∧
    inside d_url (String "/" (w +:+ tail)) st (String SP rest) (n + 1 + slen w + slen tail) m ver fl cl
      (url_qs_point (String "/" w) query) t3) as (t3 & st & Hr3 & Hst & Hb3).
  { destruct query as [q|]; subst tail.
    - rewrite slen_cons in *. rewrite string_app_cons in Hb2.
      destruct (url_char_inside s_req_path "?" (q +:+ String SP rest) ("/" +:+ w) (n + 1 + slen w)
        m ver fl cl 0 t2 u s_req_query_string_start (slen (String "/" w)))
        as (t3 & Hr3 & Hb3 & Hu3); [done|done|lia|right; left; by split_and!|].
      pose proof (slen_nonneg q).
      destruct (url_chars q s_req_query_string_start
        (if decide (q = EmptyString) then s_req_query_string_start else s_req_query_string)
        (String SP rest) (("/" +:+ w) +:+ "?") (n + 1 + slen w + 1) m ver fl cl (slen (String "/" w)) t3 u)
        as (t4 & Hr4 & Hb4 & Hu4); [done|done|lia|lia| |].
      { right. split_and!; try done; by case_decide. }
      exists t4, (if decide (q = EmptyString) then s_req_query_string_start else s_req_query_string).
      split_and!; [by eapply reaches_trans|right; by case_decide|].
      replace (n + 1 + slen w + (1 + slen q)) with (n + 1 + slen w + 1 + slen q) by lia.
      rewrite !string_app_assoc in Hb4. exact Hb4.
    - exists t2, s_req_path. split_and!; [apply reaches_refl|by left|].
      rewrite string_app_nil_r. rewrite string_app_nil_l in Hb2. unfold slen in *. cbn [len] in *.
      by rewrite Z.add_0_r. }
  (* the space *)
  pose proof Hb3 as [Est Ep En Em Ev Ef El Eq Ete Elen Eer Emk Eom].
  eexists. split.
  - eapply reaches_trans; [exact Hr1|]. eapply reaches_trans; [exact Hr2|].
    eapply reaches_trans; [exact Hr3|].
    eapply step_inside; [exact Hb3|by destruct Hst as [->|Hst]; [|destruct st]|lia| |].
    + assert (switch reporting address data SP (set_nread (n + 1 + slen w + slen tail + 1) t3) u
        = case_req_path reporting address data SP (set_nread (n + 1 + slen w + slen tail + 1) t3) u) as ->.
      { unfold switch. cbn [parser set_nread]. rewrite Est.
        by destruct Hst as [->|Hst]; [|destruct st]. }
      unfold case_req_path. rewrite decide_True by done. unfold CROW_CALLBACK_DATA.
      rewrite (data_reporting _ _ _ _ _ (String "/" (w +:+ tail)) (String SP rest)) by done.
      cbn [report on_data]. change (qs_point _) with (qs_point (parser t3)). rewrite Eq. reflexivity.
    + exact Ep.
  - replace (n + (1 + (slen w + slen tail)) + 1) with (n + 1 + slen w + slen tail + 1) by lia.
    destruct Hb3. split; cbn; auto. apply (only_mark_clear d_url).
    intros g Hg. specialize (Eom g Hg). by destruct g.
Qed.

(** *** The version *)

(** A character that only changes the state, and maybe the version. *)
Lemma step_goto st st' ch rest n m ver ver' fl cl qs t u :
  between st (String ch rest) n m ver fl cl qs t → parsing_header st = true →
  0 ≤ n < max_header_size →
  (∀ t1, hp_state (parser t1) = st → (http_major (parser t1), http_minor (parser t1)) = ver →
     hp_method (parser t1) = m →
     switch reporting address data ch t1 u
     = (Ok (Break (goto st' (upd (set_version (fst ver') (snd ver')) t1))), u)) →
  ∃ t', reaches t u t' u ∧ between st' rest (n + 1) m ver' fl cl qs t'.
Proof.
  intros Hb Hph Hn Hs. pose proof Hb as [Est Ep En Em Ev Ef El Eq Ete Elen Eer Emk].
  eexists. split.
  - eapply step_break; [exact Hb|done|done|by apply Hs|]. exact Ep.
  - between_ Hb. by destruct ver'.
Qed.
Lemma set_version_same ver t :
  (http_major (parser t), http_minor (parser t)) = ver →
  upd (set_version (fst ver) (snd ver)) t = t.
Proof. intros <-. by destruct t as [[] ? ? ? ? ? ? ?]. Qed.

(** The letters that follow in a row. *)
Inductive walks : state → Z * Z → string → state → Z * Z → Prop :=
| walks_nil st v : walks st v EmptyString st v
| walks_cons st v ch st1 v1 s st2 v2 :
    parsing_header st = true →
    (∀ t1 u, hp_state (parser t1) = st → (http_major (parser t1), http_minor (parser t1)) = v →
       switch reporting address data ch t1 u
       = (Ok (Break (goto st1 (upd (set_version (fst v1) (snd v1)) t1))), u)) →
    walks st1 v1 s st2 v2 → walks st v (String ch s) st2 v2.
Lemma run_walk st v s st' v' rest n m fl cl qs t u :
  walks st v s st' v' → between st (s +:+ rest) n m v fl cl qs t →
  0 ≤ n → n + slen s ≤ max_header_size →
  ∃ t', reaches t u t' u ∧ between st' rest (n + slen s) m v' fl cl qs t'.
Proof.
  intros Hw. revert n t. induction Hw as [st v|st v ch st1 v1 s st2 v2 Hph Hs _ IH];
    intros n t Hb Hn Hmax.
  - exists t. split; [apply reaches_refl|]. unfold slen. cbn [len]. by rewrite Z.add_0_r.
  - rewrite slen_cons in *. pose proof (slen_nonneg s). rewrite string_app_cons in Hb.
    destruct (step_goto st st1 ch (s +:+ rest) n m v v1 fl cl qs t u)
      as (t1 & Hr1 & Hb1); [done|done|lia|auto|].
    destruct (IH (n + 1) t1 Hb1) as (t2 & Hr2 & Hb2); [lia|lia|].
    exists t2. split; [by eapply reaches_trans|]. by replace (n + (1 + slen s)) with (n + 1 + slen s) by lia.
Qed.

(** The line end of the protocol. *)
Definition eol : string := String CR (String LF EmptyString).
Lemma version_walks ver : walks s_req_http_start ver ("HTTP/1.1" +:+ eol) s_header_field_start (1, 1).
Proof.
  destruct ver as [a b]. pose (v1 := (1, b)). pose (v2 := (1, 1)).
  repeat (lazymatch goal with
    | |- walks s_req_http_major _ _ _ _ => apply (walks_cons _ _ _ s_req_http_dot v1)
    | |- walks s_req_http_dot _ _ _ _ => apply (walks_cons _ _ _ s_req_http_minor v1)
    | |- walks s_req_http_minor _ _ _ _ => apply (walks_cons _ _ _ s_req_http_end v2)
    | |- walks s_req_http_end _ _ _ _ => apply (walks_cons _ _ _ s_req_line_almost_done v2)
    | |- walks s_req_line_almost_done _ _ _ _ => apply (walks_cons _ _ _ s_header_field_start v2)
    | |- walks s_header_field_start _ _ _ _ => apply walks_nil
    | |- walks s_req_http_start _ _ _ _ => apply (walks_cons _ _ _ s_req_http_H (a, b))
    | |- walks s_req_http_H _ _ _ _ => apply (walks_cons _ _ _ s_req_http_HT (a, b))
    | |- walks s_req_http_HT _ _ _ _ => apply (walks_cons _ _ _ s_req_http_HTT (a, b))
    | |- walks s_req_http_HTT _ _ _ _ => apply (walks_cons _ _ _ s_req_http_HTTP (a, b))
    | |- walks s_req_http_HTTP _ _ _ _ => apply (walks_cons _ _ _ s_req_http_major (a, b))
    end; try reflexivity).
  all: intros t1 u Hst Hv; unfold switch; rewrite Hst;
    destruct t1 as [[] ? ? ? ? ? ? ?]; cbn in *; by simplify_eq.
Qed.
End Run.
Arguments reaches_trans {address data}.
Arguments run_walk {address data}.
