(* ===== verification/TokenizerHeaders.v ===== *)
(** * What the tokenizer reports of headers

    The headers, the announced length and the blank line, after the request line of
    TokenizerRun.v: each name and each value is reported as it was written. *)

From S2P Require Import Prelude Doubles JsonRead JsonWrite Utility QueryString Http Service.
From S2P Require Import OrderRoutes Wp JsonRoundTrip Tokenizer TokenizerSpec TokenizerRun.
From S2P Require Connection.
Open Scope Z_scope.

(** ** Runs *)

Section Headers.
Context (address : Z) (data : string).
Abbreviation len s := (String.length s).
Abbreviation U := (list Connection.event).
Abbreviation reaches := (reaches address data).

(** *** Header names *)

(** The loop over a name, a character at a time. *)
Fixpoint name_fold (h : http_parser) (w : string) : http_parser :=
  match w with
  | String ch w' =>
      match field_switch ch (CROW_TOKEN ch) h with Ok h' => name_fold h' w' | Throw _ => h end
  | EmptyString => h
  end.
Definition is_token (c : ascii) : Prop := CROW_TOKEN c ≠ NUL.

Lemma name_fold_general h w : header_state h = h_general → name_fold h w = h.
Proof.
  intros Hg. induction w as [|c w IH]; [done|]. cbn. unfold field_switch. by rewrite Hg.
Qed.
Lemma token_skip_name n c w rest :
  string_Forall is_token w →
  ∃ d x w', token_skip n (String c w +:+ String ":" rest) = String d (w' +:+ String ":" rest) ∧
    w = x +:+ w'.
Proof.
  revert c w. induction n as [|n IH]; intros c w Hw; str_norm.
  - by exists c, EmptyString, w.
  - destruct w as [|d w]; str_norm; cbn [token_skip].
    + by exists c, EmptyString, EmptyString.
    + destruct Hw as [Hd Hw]. rewrite decide_False by done.
      destruct (IH d w Hw) as (d' & x & w' & E & ->). str_norm. rewrite E.
      exists d', (String d x), w'. by str_norm.
Qed.

Lemma header_field_loop_name fuel h w rest :
  (len w < fuel)%nat → string_Forall is_token w → field_state (header_state h) = true →
  header_field_loop fuel h (w +:+ String ":" rest) = Ok (name_fold h w, String ":" rest).
Proof.
  revert h w. induction fuel as [|fuel IH]; intros h w Hf Hw Hh; [lia|].
  destruct w as [|c w]; [done|]. destruct Hw as [Hc Hw]. cbn in Hf.
  rewrite string_app_cons. cbn [header_field_loop]. rewrite decide_False by done.
  destruct (decide (header_state h = h_general)) as [Hg|Hg].
  - rewrite Hg.
    destruct (token_skip_name (limit (String c (w +:+ String ":" rest)) - 1) c w rest Hw)
      as (d & x & w' & E & ->). rewrite string_app_cons in E. rewrite E.
    rewrite string_length_app in Hf. apply string_Forall_app in Hw as [_ Hw].
    rewrite IH by (try done; lia). by rewrite !name_fold_general.
  - destruct (field_switch_step c (CROW_TOKEN c) h Hh) as (h' & E & Hst).
    cbn [name_fold]. rewrite E.
    transitivity (header_field_loop fuel h' (w +:+ String ":" rest)).
    + by destruct (header_state h); try done; cbn; rewrite ?E.
    + apply IH; [lia|done|]. by destruct Hst.
Qed.

(** What a name changes: the header state, the matcher's index, and maybe the mark of
    Transfer-Encoding. *)
Definition name_change (h h' : http_parser) : Prop :=
  ∃ hs i te, h' = set_uses_te te (set_index i (set_header_state hs h)).
Lemma name_change_refl h : 0 ≤ index h < 32 → name_change h h.
Proof.
  intros Hi. exists (header_state h), (index h), (uses_transfer_encoding h).
  destruct h. cbn in *. unfold set_index, set_uses_te. cbn. f_equal. symmetry. by apply Z.mod_small.
Qed.

(** What the header state says of the name so far, in lower case. *)
Definition partial (str x : string) (h : http_parser) : Prop :=
  index h = slen x - 1 ∧ 0 < slen x < slen str ∧ slen str ≤ 17 ∧ ∃ y, str = x +:+ y.
Definition name_inv (x : string) (h : http_parser) : Prop :=
  (uses_transfer_encoding h = true → ∃ y, x = CROW_TRANSFER_ENCODING +:+ y) ∧
  match header_state h with
  | h_general => True
  | h_C => x = "c" ∧ index h = 0
  | h_CO => x = "co" ∧ index h = 1
  | h_CON => x = "con" ∧ index h = 2
  | h_matching_connection => partial CROW_CONNECTION x h
  | h_matching_proxy_connection => partial CROW_PROXY_CONNECTION x h
  | h_matching_content_length => partial CROW_CONTENT_LENGTH x h
  | h_matching_transfer_encoding => partial CROW_TRANSFER_ENCODING x h
  | h_matching_upgrade => partial CROW_UPGRADE x h
  | h_connection => x = CROW_CONNECTION ∨ x = CROW_PROXY_CONNECTION
  | h_content_length => x = CROW_CONTENT_LENGTH
  | h_transfer_encoding => x = CROW_TRANSFER_ENCODING
  | h_upgrade => x = CROW_UPGRADE
  | _ => False
  end.

Lemma c_char_app x y : c_char (x +:+ y) (slen x) = c_char y 0.
Proof.
  unfold c_char, slen. rewrite Nat2Z.id. f_equal.
  induction x as [|c x IH]; [done|]. rewrite string_app_cons. exact IH.
Qed.

Lemma field_match_partial str found x c h :
  partial str x h → c ≠ NUL →
  let h' := field_match_to str found c h in
  uses_transfer_encoding h' = uses_transfer_encoding h ∧
  (header_state h' = h_general ∨
   header_state h' = found ∧ x +:+ String c EmptyString = str ∨
   header_state h' = header_state h ∧ partial str (x +:+ String c EmptyString) h').
Proof.
  intros (Hi & Hx & Hs & y & Hy) Hc. unfold field_match_to, matching_to.
  assert (uwrap 5 (index h + 1) = slen x) as Hw by (unfold uwrap; rewrite Z.mod_small; lia).
  cbn -[uwrap]. rewrite Hw. destruct (Z.ltb_spec (slen str) (slen x)); [lia|]. cbn [orb].
  case_bool_decide as Hch; cbn -[uwrap]; [by split; [|left]|].
  rewrite Hy, c_char_app in Hch. rewrite Hy, slen_app in Hx.
  destruct y as [|d y]; [unfold slen in Hx; cbn in Hx; lia|]. change (c_char (String d y) 0) with d in Hch. subst c.
  destruct (Z.eqb_spec (slen x) (slen str - 1)) as [E|E]; cbn -[uwrap]; (split; [done|]).
  - right; left. split; [done|]. rewrite Hy. f_equal.
    rewrite Hy, slen_app, slen_cons in E. destruct y as [|e y]; [done|].
    rewrite slen_cons in E. pose proof (slen_nonneg y). lia.
  - right; right. split; [done|].
    assert (slen (x +:+ String d EmptyString) = slen x + 1) as Hl
      by (rewrite slen_app, slen_cons; done).
    assert (slen str = slen x + (1 + slen y)) as Hstr by (by rewrite Hy, slen_app, slen_cons).
    pose proof (slen_nonneg y).
    split; [|split; [|split; [done|]]].
    + cbn -[uwrap]. rewrite Hw, Hl. lia.
    + rewrite Hl, Hstr in *. lia.
    + exists y. rewrite Hy. by str_norm.
Qed.

Lemma token_not_space ch : is_token ch → ch ≠ SP.
Proof. by intros H ->. Qed.

(** The three outcomes of a matcher. *)
Ltac matched_ Hm found Hx :=
  let Et := fresh "Et" in let E := fresh "E" in
  destruct (Hm _ found Hx) as (Et & [E|[[E ?]|[E ?]]]);
  (split; [by rewrite Et|rewrite E; auto]).
Lemma name_inv_step x ch h h' :
  name_inv x h → is_token ch → field_switch ch (CROW_TOKEN ch) h = Ok h' →
  name_inv (x +:+ String (CROW_TOKEN ch) EmptyString) h'.
Proof.
  intros [Hte Hx] Hc Hs. pose proof (token_not_space ch Hc) as Hsp.
  assert (uses_transfer_encoding h = true →
    ∃ y, x +:+ String (CROW_TOKEN ch) EmptyString = CROW_TRANSFER_ENCODING +:+ y) as Hte'.
  { intros H. destruct (Hte H) as [y ->]. exists (y +:+ String (CROW_TOKEN ch) EmptyString). by str_norm. }
  unfold field_switch in Hs. rewrite !field_match_eq in Hs. unfold mbind, result_bind in Hs.
  assert (∀ str found, partial str x h →
    (let h2 := field_match_to str found (CROW_TOKEN ch) h in
     uses_transfer_encoding h2 = uses_transfer_encoding h ∧
     (header_state h2 = h_general ∨
      header_state h2 = found ∧ x +:+ String (CROW_TOKEN ch) EmptyString = str ∨
      header_state h2 = header_state h ∧ partial str (x +:+ String (CROW_TOKEN ch) EmptyString) h2)))
    as Hm by (intros; by apply field_match_partial).
  destruct (header_state h) eqn:Hhs; try done; injection Hs as <-.
  - split; [done|]. by rewrite Hhs.
  - destruct Hx as [-> Hi]. split; [done|]. cbn -[uwrap]. rewrite Hi. by case_decide as E; [rewrite E|].
  - destruct Hx as [-> Hi]. split; [done|]. cbn -[uwrap]. rewrite Hi. by case_decide as E; [rewrite E|].
  - destruct Hx as [-> Hi]. split; [done|]. cbn -[uwrap]. rewrite Hi.
    case_decide as E; [rewrite E|case_decide as E2; [rewrite E2|done]];
      (split; [done|split; [done|split; [done|by eexists]]]).
  - matched_ Hm h_connection Hx.
  - matched_ Hm h_connection Hx.
  - matched_ Hm h_content_length Hx.
  - change (fst (matching_to CROW_TRANSFER_ENCODING h_transfer_encoding h_general (CROW_TOKEN ch) _ h))
      with (header_state (field_match_to CROW_TRANSFER_ENCODING h_transfer_encoding (CROW_TOKEN ch) h)).
    specialize (Hm _ h_transfer_encoding Hx). cbv zeta in Hm. revert Hm.
    generalize (field_match_to CROW_TRANSFER_ENCODING h_transfer_encoding (CROW_TOKEN ch) h).
    intros h2 (Et & [E|[[E Ex]|[E Hp]]]).
    + rewrite decide_False by (by rewrite E). split; [by rewrite Et|by rewrite E].
    + rewrite decide_True by done. split; [|by cbn; rewrite E]. intros _. exists EmptyString.
      by rewrite Ex, string_app_nil_r.
    + rewrite decide_False by (by rewrite E). split; [by rewrite Et|]. by rewrite E.
  - matched_ Hm h_upgrade Hx.
  - rewrite decide_True by done. by split.
  - rewrite decide_True by done. by split.
  - rewrite decide_True by done. by split.
  - rewrite decide_True by done. by split.
Qed.

(** A name the tokenizer gives no meaning to. *)
Definition plain_name (k : string) : Prop :=
  k ≠ EmptyString ∧ string_Forall is_token k ∧
  let x := string_map CROW_TOKEN k in
  x ≠ CROW_CONNECTION ∧ x ≠ CROW_PROXY_CONNECTION ∧ x ≠ CROW_CONTENT_LENGTH ∧ x ≠ CROW_UPGRADE ∧
  (∀ y, x ≠ CROW_TRANSFER_ENCODING +:+ y).

Lemma string_map_app f s1 s2 : string_map f (s1 +:+ s2) = string_map f s1 +:+ string_map f s2.
Proof. induction s1 as [|c s1 IH]; [done|]. str_norm. cbn. by rewrite IH. Qed.

Lemma name_fold_inv w x h :
  string_Forall is_token w → field_state (header_state h) = true → name_inv x h →
  name_inv (x +:+ string_map CROW_TOKEN w) (name_fold h w) ∧
  field_state (header_state (name_fold h w)) = true.
Proof.
  revert x h. induction w as [|c w IH]; intros x h Hw Hf Hi; [by rewrite string_app_nil_r|].
  destruct Hw as [Hc Hw]. cbn [name_fold string_map].
  destruct (field_switch_step c (CROW_TOKEN c) h Hf) as (h' & E & Hst). rewrite E.
  pose proof (name_inv_step x c h h' Hi Hc E) as Hi'.
  destruct (IH _ h' Hw (fs_field _ _ Hst) Hi') as [H1 H2]. split; [|done].
  by rewrite string_app_assoc in H1.
Qed.

Lemma name_change_trans h1 h2 h3 : name_change h1 h2 → name_change h2 h3 → name_change h1 h3.
Proof. intros (? & ? & ? & ->) (hs & i & te & ->). by exists hs, i, te. Qed.
Lemma name_change_state hs h : 0 ≤ index h < 32 → name_change h (set_header_state hs h).
Proof.
  intros Hi. destruct (name_change_refl h Hi) as (? & i & te & E). exists hs, i, te.
  rewrite E at 1. by destruct h.
Qed.
Lemma name_change_both hs i h : name_change h (set_header_state hs (set_index i h)).
Proof. exists hs, i, (uses_transfer_encoding h). by destruct h. Qed.
Lemma field_match_change str found c h : name_change h (field_match_to str found c h).
Proof.
  unfold field_match_to, matching_to. cbn -[uwrap].
  destruct (_ || _); [apply name_change_both|destruct (_ =? _); apply name_change_both].
Qed.
Lemma name_change_te te h h' : name_change h h' → name_change h (set_uses_te te h').
Proof. intros (hs & i & ? & ->). by exists hs, i, te. Qed.
Lemma field_switch_change ch c h h' :
  0 ≤ index h < 32 → field_switch ch c h = Ok h' → name_change h h'.
Proof.
  intros Hi. unfold field_switch. rewrite !field_match_eq. cbn [mbind result_bind].
  destruct (header_state h); intros E; try done; injection E as <-;
    try apply name_change_both; try apply field_match_change; try (by apply name_change_refl);
    case_decide; try (by apply name_change_state); try (by apply name_change_refl);
    [apply name_change_te|]; apply field_match_change.
Qed.

Lemma name_fold_change w h :
  string_Forall is_token w → field_state (header_state h) = true → 0 ≤ index h < 32 →
  name_change h (name_fold h w).
Proof.
  revert h. induction w as [|c w IH]; intros h Hw Hf Hi; [by apply name_change_refl|].
  destruct Hw as [Hc Hw]. cbn [name_fold].
  destruct (field_switch_step c (CROW_TOKEN c) h Hf) as (h' & E & Hst). rewrite E.
  assert (name_change h h') as Hch by by eapply field_switch_change.
  assert (0 ≤ index h' < 32) as Hi' by by apply Hst.
  eapply name_change_trans; [exact Hch|]. by apply IH; [..|apply Hst|].
Qed.

(** *** Headers *)

(** Before a header, or before the line end of the headers: the previous header's end is only
    seen when the next line starts. *)
Definition neutral (hs : header_states) : bool :=
  match hs with h_general | h_content_length_num => true | _ => false end.
Definition ready (rest : string) (n : Z) (m : HTTPMethod) (ver : Z * Z) (fl cl qs : Z) (t : frame)
  : Prop :=
  between s_header_field_start rest n m ver fl cl qs t ∨
  between s_header_value_lws rest n m ver fl cl qs t ∧ neutral (header_state (parser t)) = true.

Lemma ready_between rest n m ver fl cl qs t :
  ready rest n m ver fl cl qs t →
  between s_header_field_start rest n m ver fl cl qs (goto s_header_field_start t).
Proof. intros [Hb|[Hb _]]; between_ Hb. Qed.

Lemma step_ready ch rest n m ver fl cl qs t u t1 u1 :
  ready (String ch rest) n m ver fl cl qs t → ¬ (ch = SP ∨ ch = TAB) → 0 ≤ n < max_header_size →
  switch reporting address data ch (set_nread (n + 1) (goto s_header_field_start t)) u
  = (Ok (Break t1), u1) →
  p t1 = String ch rest →
  reaches t u (set_p rest t1) u1.
Proof.
  intros Hr Hch Hn Hs Hp. destruct Hr as [Hb|[Hb Hneu]];
    pose proof Hb as [Est Ep En Em Ev Ef El Eq Ete Elen Eer Emk].
  - eapply step_break; [exact Hb|done|done| |exact Hp]. rewrite <- Hs. f_equal.
    by destruct t as [[] ? ? ? ? ? ? ?]; cbn in *; subst.
  - eapply reaches_step; [exact Ep|by rewrite En| |exact Hp|done].
    unfold count. rewrite Est. cbn [parsing_header]. rewrite En.
    change reexecutions with 4%nat. cbn [reexecute].
    assert (switch reporting address data ch (set_nread (n + 1) t) u
      = (Ok (Reexecute ch (set_nread (n + 1) (goto s_header_field_start t))), u)) as E.
    { unfold switch. cbn [parser set_nread]. rewrite Est. unfold case_header_value_lws.
      rewrite decide_False by done. cbn [parser set_nread].
      by destruct (header_state (parser t)). }
    unfold mbind, M_bind. rewrite E. cbn iota beta. by rewrite Hs.
Qed.

Lemma between_inside_field (c : ascii) rest n m ver fl cl qs t :
  between s_header_field_start (String c rest) n m ver fl cl qs t →
  inside d_header_field "" s_header_field (String c rest) n m ver fl cl qs
    (goto s_header_field (CROW_MARK d_header_field t)).
Proof.
  intros Hb. pose proof Hb as [Est Ep En Em Ev Ef El Eq Ete Elen Eer Emk].
  pose proof (Emk d_header_field) as E. cbn in E. unfold CROW_MARK. cbn [mark_of]. rewrite E.
  split; cbn; try done.
  - by rewrite Ep.
  - intros [] Hf; [apply (Emk d_url)|done|apply (Emk d_header_value)|apply (Emk d_body)].
Qed.

(** The header state the first character of a name leads to. *)
Definition first_state (c : ascii) : header_states :=
  if decide (c = "c"%char) then h_C
  else if decide (c = "p"%char) then h_matching_proxy_connection
  else if decide (c = "t"%char) then h_matching_transfer_encoding
  else if decide (c = "u"%char) then h_matching_upgrade
  else h_general.
(** The name [k] leaves a header state with [P], and does not announce an encoding. *)
Definition name_result (k : string) (P : header_states → Prop) : Prop :=
  match k with
  | EmptyString => False
  | String c w => ∀ h, index h = 0 → uses_transfer_encoding h = false →
      header_state h = first_state (CROW_TOKEN c) →
      uses_transfer_encoding (name_fold h w) = false ∧ P (header_state (name_fold h w))
  end.
Definition unremarkable (hs : header_states) : Prop :=
  match hs with h_connection | h_content_length | h_transfer_encoding | h_upgrade => False | _ => True end.

Lemma first_state_field c : field_state (first_state c) = true.
Proof. unfold first_state. by repeat case_decide. Qed.
Lemma first_state_inv c h :
  index h = 0 → uses_transfer_encoding h = false → header_state h = first_state c →
  name_inv (String c EmptyString) h.
Proof.
  intros Hi Ht Hs. split; [by rewrite Ht|]. rewrite Hs. unfold first_state.
  repeat case_decide; subst; try done; (split; [done|split; [done|split; [done|by eexists]]]).
Qed.

Lemma plain_name_result k :
  plain_name k → name_result k (λ hs, unremarkable hs ∧ field_state hs = true).
Proof.
  intros (Hne & Htok & H1 & H2 & H3 & H4 & H5). destruct k as [|c w]; [done|].
  intros h Hi Ht Hs. destruct Htok as [Hc Hw].
  destruct (name_fold_inv w (String (CROW_TOKEN c) EmptyString) h) as [[Hte Hst] Hf];
    [done|by rewrite Hs, first_state_field|by apply first_state_inv|].
  change (String (CROW_TOKEN c) EmptyString +:+ string_map CROW_TOKEN w)
    with (string_map CROW_TOKEN (String c w)) in *.
  split.
  - destruct (uses_transfer_encoding (name_fold h w)) eqn:E; [|done].
    destruct (Hte eq_refl) as [y Hy]. exfalso. exact (H5 y Hy).
  - split; [|done]. destruct (header_state (name_fold h w)); try done; [by destruct Hst|].
    apply (H5 EmptyString). by rewrite Hst, string_app_nil_r.
Qed.
Lemma content_length_result : name_result "Content-Length" (λ hs, hs = h_content_length).
Proof. intros [] Hi Ht Hs. cbn in *. subst. done. Qed.

(** The name and its colon. *)
Lemma run_name k P rest n m ver fl cl qs t u :
  ready (k +:+ String ":" rest) n m ver fl cl qs t →
  string_Forall is_token k → name_result k P →
  0 ≤ n → n + slen k + 1 ≤ max_header_size →
  ∃ t', reaches t u t' (u ++ [Connection.OnHeaderField k]) ∧
    between s_header_value_discard_ws rest (n + slen k + 1) m ver fl cl qs t' ∧
    P (header_state (parser t')).
Proof.
  intros Hr Htok HP Hn Hmax. destruct k as [|c w]; [done|]. destruct Htok as [Hc Hw].
  rewrite slen_cons in *. pose proof (slen_nonneg w). rewrite string_app_cons in Hr.
  pose proof (ready_between _ _ _ _ _ _ _ _ Hr) as Hb0.
  pose proof (between_inside_field _ _ _ _ _ _ _ _ _ Hb0) as Hin0.
  set (t0 := goto s_header_field _) in *.
  (* the first character *)
  set (t1 := set_p (w +:+ String ":" rest) (upd (set_header_state (first_state (CROW_TOKEN c)))
               (upd (set_index 0) (set_nread (n + 1) t0)))).
  assert (reaches t u t1 u) as Hr1.
  { subst t1. eapply step_ready; [exact Hr| |lia| |].
    - by intros [-> | ->].
    - unfold switch. cbn [parser set_nread goto upd set_parser hp_state set_state].
      unfold case_header_field_start.
      rewrite decide_False by (by intros ->). rewrite decide_False by (by intros ->).
      cbn zeta. rewrite decide_False by done. subst t0. unfold CROW_MARK.
      cbn [mark_of header_field_mark set_nread goto upd set_parser].
      destruct (header_field_mark t); reflexivity.
    - subst t0. unfold CROW_MARK. cbn. destruct (header_field_mark t); cbn; apply Hb0. }
  assert (inside d_header_field (String c EmptyString) s_header_field (w +:+ String ":" rest)
            (n + 1) m ver fl cl qs t1) as Hin1 by (subst t1; inside_ Hin0).
  assert (index (parser t1) = 0 ∧ header_state (parser t1) = first_state (CROW_TOKEN c)) as [Hi1 Hs1]
    by done.
  clearbody t1. pose proof Hin1 as [Est Ep En Em Ev Ef El Eq Ete Elen Eer Emk Eom].
  specialize (HP (parser t1) Hi1 Ete Hs1). destruct HP as [Hte HP].
  pose proof (name_fold_change w (parser t1) Hw) as Hch. rewrite Hs1, Hi1 in Hch.
  specialize (Hch (first_state_field _) ltac:(lia)).
  (* the others *)
  assert (∃ d r, w +:+ String ":" rest = String d r) as (d & r & Hd)
    by (destruct w; str_norm; eauto).
  set (h2 := name_fold (parser t1) w) in *.
  exists (set_p rest (set_mark d_header_field None (goto s_header_value_discard_ws
    (set_nread (n + 1 + 1 + slen w) (set_p (String ":" rest) (set_parser h2 t1)))))).
  split_and!; [|destruct Hch as (hs & i & te & Ehh)|done].
  - eapply reaches_trans; [exact Hr1|].
    eapply reaches_step; [rewrite Ep, Hd; done|by rewrite En; lia| |done|].
    + apply reexecute_break. unfold count. rewrite Est. cbn [parsing_header]. rewrite En.
      unfold switch. cbn [parser set_nread]. rewrite Est. unfold case_header_field.
      cbn [p set_nread]. unfold mbind, M_bind, lift. rewrite Ep. cbn [parser set_nread].
      rewrite header_field_loop_name;
        [|rewrite string_length_app; cbn; lia|done|by rewrite Hs1, first_state_field].
      cbn iota beta. cbn [fst snd p set_p].
      unfold CROW_COUNT_HEADER_SIZE. cbn [nread set_p set_parser set_nread].
      rewrite slen_app.
      replace (slen w + slen (String ":" rest) - slen (String ":" rest)) with (slen w) by lia.
      unfold max_header_size in *. rewrite uwrap32_small by lia.
      cbn [nread set_nread]. destruct (Z.ltb_spec (80 * 1024) (n + 1 + 1 + slen w)); [lia|].
      rewrite decide_True by done. unfold CROW_CALLBACK_DATA.
      rewrite (data_reporting _ _ _ _ _ (String c w) (String ":" rest)).
      * done.
      * change (hp_errno h2 = CHPE_OK). destruct Hch as (hs & i & te & ->). exact Eer.
      * cbn. cbn in Emk. rewrite Emk. by str_norm.
      * done.
    + cbn. assert (len (w +:+ String ":" rest) = S (len r)) as Hl by by rewrite Hd.
      rewrite string_length_app in Hl. cbn in Hl. lia.
  - destruct Hin1. rewrite Ehh in *. split; cbn in *; auto; try lia.
    apply (only_mark_clear d_header_field). intros g Hg. specialize (Eom g Hg). by destruct g.
Qed.

(** The rest of a value and its line end, when the loop over it gets there with a header state
    of no consequence, having changed the length at most. *)
Lemma run_value_rest c w rest n m ver fl cl cl' qs hs t u :
  inside d_header_value (String c EmptyString) s_header_value (w +:+ (eol +:+ rest)) n m ver fl cl qs t →
  (∀ fuel, (len (w +:+ (eol +:+ rest)) ≤ fuel)%nat →
     header_value_loop fuel (header_state (parser t)) (parser t) (w +:+ (eol +:+ rest))
     = Ok (v_cr hs (set_content_length cl' (parser t)) (eol +:+ rest))) →
  neutral hs = true → 0 ≤ n → n + slen w + 2 ≤ max_header_size →
  ∃ t', reaches t u t' (u ++ [Connection.OnHeaderValue (String c w)]) ∧
    ready rest (n + slen w + 2) m ver fl cl' qs t'.
Proof.
  intros Hin Hloop Hneu Hn Hmax. pose proof (slen_nonneg w).
  pose proof Hin as [Est Ep En Em Ev Ef El Eq Ete Elen Eer Emk Eom].
  set (start := w +:+ (eol +:+ rest)) in *.
  set (t1 := set_p (String LF rest) (upd (set_header_state hs) (set_nread (n + 1 + slen w)
    (set_mark d_header_value None (goto s_header_almost_done (set_p (eol +:+ rest)
      (set_parser (set_header_state hs (set_content_length cl' (parser t))) t))))))).
  assert (∃ d r, start = String d r) as (d & r & Hd) by (subst start; destruct w; str_norm; eauto).
  assert (reaches t u t1 (u ++ [Connection.OnHeaderValue (String c w)])) as Hr1.
  { eapply reaches_step; [rewrite Ep, Hd; done|by rewrite En; lia| |done|].
    - apply reexecute_break. unfold count. rewrite Est. cbn [parsing_header]. rewrite En.
      unfold switch. cbn [parser set_nread]. rewrite Est. unfold case_header_value.
      cbn [p set_nread]. unfold mbind, M_bind, lift. rewrite Ep. cbn [parser set_nread].
      rewrite (Hloop (len start)) by done. cbn iota beta. unfold CROW_CALLBACK_DATA.
      rewrite (data_reporting _ _ _ _ _ (String c w) (eol +:+ rest));
        [|exact Eer| |done].
      + unfold CROW_COUNT_HEADER_SIZE. cbn [nread set_p set_parser set_nread upd goto set_mark].
        replace (slen start - slen (eol +:+ rest)) with (slen w) by (subst start; rewrite slen_app; lia).
        unfold max_header_size in *. rewrite uwrap32_small by lia. cbn [nread set_nread].
        destruct (Z.ltb_spec (80 * 1024) (n + 1 + slen w)); [lia|]. done.
      + cbn. cbn in Emk. rewrite Emk. subst start. by str_norm.
    - cbn. assert (len start = S (len r)) as Hl by by rewrite Hd.
      subst start. rewrite !string_length_app in Hl. cbn in Hl. lia. }
  assert (between s_header_almost_done (String LF rest) (n + 1 + slen w) m ver fl cl' qs t1) as Hb1.
  { destruct Hin. subst t1. split; cbn; auto.
    apply (only_mark_clear d_header_value). intros g Hg. specialize (Eom g Hg). by destruct g. }
  assert (header_state (parser t1) = hs) as Hh1 by done. clearbody t1.
  pose proof Hb1 as [Est1 Ep1 En1 Em1 Ev1 Ef1 El1 Eq1 Ete1 Elen1 Eer1 Emk1].
  eexists. split.
  - eapply reaches_trans; [exact Hr1|]. eapply step_break; [exact Hb1|done|lia| |].
    + unfold switch. cbn [parser set_nread]. rewrite Est1. unfold case_header_almost_done.
      rewrite decide_False by tauto. reflexivity.
    + exact Ep1.
  - right. split; [|by cbn; rewrite Hh1].
    replace (n + slen w + 2) with (n + 1 + slen w + 1) by lia. between_ Hb1.
Qed.

(** A text with no line end and only characters a header may have. *)
Definition value_char (c : ascii) : Prop := c ≠ CR ∧ c ≠ LF ∧ CROW_IS_HEADER_CHAR c = true.
Lemma general_run_value k w rest :
  string_Forall value_char w → (len w < k)%nat →
  general_run false k (w +:+ (eol +:+ rest)) = (Some (eol +:+ rest), eol +:+ rest).
Proof.
  revert k. induction w as [|c w IH]; intros [|k] Hw Hk; cbn in Hk; try lia; [done|].
  destruct Hw as [(H1 & H2 & H3) Hw]. str_norm. cbn [general_run].
  rewrite decide_False by tauto. rewrite H3. cbn [negb andb]. apply IH; [done|lia].
Qed.
Lemma general_value fuel h w rest :
  lenient_http_headers h = false → string_Forall value_char w → slen w < max_header_size →
  (len (w +:+ (eol +:+ rest)) ≤ fuel)%nat →
  header_value_loop fuel h_general h (w +:+ (eol +:+ rest)) = Ok (v_cr h_general h (eol +:+ rest)).
Proof.
  intros Hlen Hw Hmax Hf.
  assert (∀ fuel, header_value_loop fuel h_general h (eol +:+ rest)
    = Ok (v_cr h_general h (eol +:+ rest))) as Hend by (by intros []).
  destruct w as [|c w]; [apply Hend|]. rewrite string_app_cons in *.
  destruct fuel as [|fuel]; [cbn in Hf; lia|]. cbn [header_value_loop].
  pose proof Hw as [(H1 & H2 & H3) _]. rewrite decide_False, decide_False, Hlen, H3 by done.
  cbn [negb andb]. rewrite <- string_app_cons, general_run_value; [apply Hend|done|].
  unfold limit. rewrite slen_app. unfold slen in *. cbn in *. unfold max_header_size in *.
  assert (2 ≤ len (eol +:+ rest))%nat by (rewrite string_length_app; cbn; lia). lia.
Qed.

(** A value as it is written: not empty, no white space in front. *)
Definition plain_value (v : string) : Prop :=
  match v with
  | String c w => c ≠ SP ∧ c ≠ TAB ∧ c ≠ CR ∧ c ≠ LF ∧ string_Forall value_char w
  | EmptyString => False
  end.

(** The blank after the colon. *)
Lemma run_blank rest n m ver fl cl qs t u :
  between s_header_value_discard_ws (String SP rest) n m ver fl cl qs t → 0 ≤ n < max_header_size →
  ∃ t', reaches t u t' u ∧ between s_header_value_discard_ws rest (n + 1) m ver fl cl qs t' ∧
    header_state (parser t') = header_state (parser t).
Proof.
  intros Hb Hn. pose proof Hb as [Est Ep En Em Ev Ef El Eq Ete Elen Eer Emk].
  eexists. split_and!.
  - eapply step_break; [exact Hb|done|done| |].
    + unfold switch. cbn [parser set_nread]. rewrite Est. unfold case_header_value_discard_ws.
      rewrite decide_True by auto. reflexivity.
    + exact Ep.
  - between_ Hb.
  - done.
Qed.

(** The first character of a value, when the code for it ends in a [break]. *)
Lemma run_value_start c rest n m ver fl cl qs t u g fl' cl' :
  between s_header_value_discard_ws (String c rest) n m ver fl cl qs t → 0 ≤ n < max_header_size →
  c ≠ SP → c ≠ TAB → c ≠ CR → c ≠ LF →
  (∀ t0, parser t0 = parser t → header_value_mark t0 = None →
     case_header_value_start c t0 (U := U)
     = break_ (upd g (goto s_header_value (upd (set_index 0) (CROW_MARK d_header_value t0))))) →
  (∀ h, flags h = fl → ∃ hs, g h = set_header_state hs (set_content_length cl' (set_flags fl' h)) ∨
              g h = set_header_state hs h ∧ cl' = cl ∧ fl' = fl) →
  ∃ t', reaches t u t' u ∧
    inside d_header_value (String c EmptyString) s_header_value rest (n + 1) m ver fl' cl' qs t' ∧
    parser t' = g (set_state s_header_value (set_index 0 (parser t))).
Proof.
  intros Hb Hn H1 H2 H3 H4 Hcase Hg. pose proof Hb as [Est Ep En Em Ev Ef El Eq Ete Elen Eer Emk].
  pose proof (Emk d_header_value) as Ehv. cbn in Ehv.
  eexists. split_and!.
  - eapply step_break; [exact Hb|done|done| |].
    + unfold switch. cbn [parser set_nread]. rewrite Est. unfold case_header_value_discard_ws.
      rewrite decide_False by tauto. rewrite !decide_False by done.
      rewrite Hcase by done. unfold CROW_MARK. cbn [mark_of header_value_mark set_nread]. rewrite Ehv.
      reflexivity.
    + exact Ep.
  - destruct (Hg (set_state s_header_value (set_index 0 (parser t))) Ef) as [hs [E|(E & -> & ->)]];
      destruct Hb; split; cbn; rewrite ?E; cbn; auto; try (by f_equal; rewrite Ep).
    + intros [] Hf; [apply (Emk d_url)|apply (Emk d_header_field)|done|apply (Emk d_body)].
    + intros [] Hf; [apply (Emk d_url)|apply (Emk d_header_field)|done|apply (Emk d_body)].
  - done.
Qed.

(** The name, the colon and the blank. *)
Lemma run_key k v P rest n m ver fl cl qs t u :
  ready (k +:+ (": " +:+ (v +:+ (eol +:+ rest)))) n m ver fl cl qs t →
  string_Forall is_token k → name_result k P →
  0 ≤ n → n + slen k + 2 ≤ max_header_size →
  ∃ t', reaches t u t' (u ++ [Connection.OnHeaderField k]) ∧
    between s_header_value_discard_ws (v +:+ (eol +:+ rest)) (n + slen k + 2) m ver fl cl qs t' ∧
    P (header_state (parser t')).
Proof.
  intros Hr Hk HP Hn Hmax. pose proof (slen_nonneg k).
  change (": " +:+ (v +:+ (eol +:+ rest))) with (String ":" (String SP (v +:+ (eol +:+ rest)))) in Hr.
  destruct (run_name k P _ n m ver fl cl qs t u Hr) as (t1 & Hr1 & Hb1 & Hs1); [done|done|done|lia|].
  destruct (run_blank _ _ m ver fl cl qs t1 (u ++ [Connection.OnHeaderField k]) Hb1 ltac:(lia))
    as (t2 & Hr2 & Hb2 & Hs2). rewrite <- Hs2 in Hs1.
  exists t2. split; [by eapply reaches_trans|]. split; [|done].
  by replace (n + slen k + 2) with (n + slen k + 1 + 1) by lia.
Qed.

Lemma run_header k v rest n m ver fl cl qs t u :
  ready (k +:+ (": " +:+ (v +:+ (eol +:+ rest)))) n m ver fl cl qs t →
  plain_name k → plain_value v → 0 ≤ n → n + slen k + slen v + 4 ≤ max_header_size →
  ∃ t', reaches t u t' (u ++ [Connection.OnHeaderField k; Connection.OnHeaderValue v]) ∧
    ready rest (n + slen k + slen v + 4) m ver fl cl qs t'.
Proof.
  intros Hr Hk Hv Hn Hmax. pose proof (slen_nonneg k). pose proof (slen_nonneg v).
  destruct (run_key k v (λ hs, unremarkable hs ∧ field_state hs = true) rest n m ver fl cl qs t u Hr)
    as (t2 & Hr2 & Hb2 & Hs1 & Hf1); [apply Hk|by apply plain_name_result|done|lia|].
  destruct v as [|c w]; [done|]. rewrite slen_cons in *. destruct Hv as (H1 & H2 & H3 & H4 & Hw).
  rewrite string_app_cons in Hb2. pose proof (slen_nonneg w).
  destruct (run_value_start c _ _ m ver fl cl qs t2 (u ++ [Connection.OnHeaderField k])
    (set_header_state h_general) fl cl Hb2 ltac:(lia) H1 H2 H3 H4) as (t3 & Hr3 & Hin3 & Hp3).
  { intros t0 Et0 Em0. unfold case_header_value_start, CROW_MARK. cbn [mark_of]. rewrite Em0.
    cbn [parser goto upd set_parser set_mark header_state set_index set_state]. rewrite Et0.
    destruct (header_state (parser t2)); try done. }
  { intros h _. exists h_general. by right. }
  destruct (run_value_rest c w rest _ m ver fl cl cl qs h_general t3
    (u ++ [Connection.OnHeaderField k]) Hin3) as (t4 & Hr4 & Hready).
  - intros fuel Hf. rewrite Hp3. cbn [header_state set_header_state].
    pose proof (in_lenient _ _ _ _ _ _ _ _ _ _ _ Hin3) as Hl. rewrite Hp3 in Hl.
    rewrite general_value; [|done|done|lia|done]. do 2 f_equal.
    pose proof (in_length _ _ _ _ _ _ _ _ _ _ _ Hin3) as Hcl. rewrite Hp3 in Hcl.
    destruct (parser t2). cbn in *. by subst.
  - done.
  - lia.
  - lia.
  - exists t4. split.
    + eapply reaches_trans; [exact Hr2|].
      eapply reaches_trans; [exact Hr3|]. by rewrite <- app_assoc in Hr4.
    + by replace (n + slen k + (1 + slen w) + 4) with (n + slen k + 2 + 1 + slen w + 2) by lia.
Qed.

(** *** The announced length *)

(** The largest length a message may announce here; the tokenizer itself takes more. *)
Definition length_bound : Z := 2 ^ 60.
Lemma digit_range c : is_digit c = true → 0 ≤ digit_val c ≤ 9.
Proof. unfold is_digit, digit_val. intros [? ?]%andb_prop. rewrite !bool_decide_eq_true in *. lia. Qed.
Lemma digits_value_grows a ds :
  0 ≤ a → string_Forall (λ c, is_digit c = true) ds → a ≤ digits_value a ds.
Proof.
  revert a. induction ds as [|c ds IH]; intros a Ha Hds; [done|]. destruct Hds as [Hc Hds].
  cbn [digits_value]. pose proof (digit_range c Hc).
  etrans; [|apply IH; [lia|done]]. lia.
Qed.
Lemma digit_not_line c : is_digit c = true → c ≠ CR ∧ c ≠ LF ∧ c ≠ SP ∧ c ≠ TAB ∧
  CROW_IS_HEADER_CHAR c = true.
Proof. intros H. repeat split; try (by intros ->).
  revert H. by all_ascii c.
Qed.
Lemma length_loop ds fuel h rest :
  lenient_http_headers h = false → string_Forall (λ c, is_digit c = true) ds →
  0 ≤ content_length h → digits_value (content_length h) ds < length_bound →
  (len (ds +:+ (eol +:+ rest)) ≤ fuel)%nat →
  header_value_loop fuel h_content_length_num h (ds +:+ (eol +:+ rest))
  = Ok (v_cr h_content_length_num (set_content_length (digits_value (content_length h) ds) h)
          (eol +:+ rest)).
Proof.
  revert fuel h. induction ds as [|c ds IH]; intros fuel h Hl Hds H0 Hb Hf.
  - replace (set_content_length _ h) with h by by destruct h. by destruct fuel.
  - destruct Hds as [Hc Hds]. destruct (digit_not_line c Hc) as (H1 & H2 & H3 & H4 & H5).
    rewrite string_app_cons in *. destruct fuel as [|fuel]; [cbn in Hf; lia|].
    cbn [header_value_loop digits_value] in *. rewrite !decide_False, Hl, H5 by done.
    cbn [negb andb value_switch]. unfold content_length_digit.
    rewrite decide_False by done. unfold CROW_IS_NUM. rewrite Hc. cbn [negb].
    pose proof (digit_range c Hc).
    pose proof (digits_value_grows (content_length h * 10 + digit_val c) ds) as Hg.
    unfold length_bound in *. specialize (Hg ltac:(lia) Hds). change (code c - 48) with (digit_val c).
    destruct (Z.ltb_spec ((CROW_ULLONG_MAX - 10) / 10) (content_length h)) as [Hlt|_].
    { change ((CROW_ULLONG_MAX - 10) / 10) with 1844674407370955160 in Hlt. lia. }
    cbn [mbind result_bind fst snd]. unfold uwrap. rewrite (Z.mod_small (content_length h * 10)), Z.mod_small by lia.
    rewrite IH; [by destruct h|done|done|cbn; lia|cbn; lia|cbn in Hf; lia].
Qed.

Definition number (v : string) : Prop :=
  match v with
  | String c ds => is_digit c = true ∧ string_Forall (λ c, is_digit c = true) ds
  | EmptyString => False
  end.
Lemma content_length_token : string_Forall is_token "Content-Length".
Proof. repeat split; done. Qed.

Lemma run_length v rest n m ver fl cl qs t u :
  ready ("Content-Length" +:+ (": " +:+ (v +:+ (eol +:+ rest)))) n m ver fl cl qs t →
  number v → digits_value 0 v < length_bound → Z.land fl F_CONTENTLENGTH = 0 →
  0 ≤ n → n + slen "Content-Length" + slen v + 4 ≤ max_header_size →
  ∃ t', reaches t u t'
      (u ++ [Connection.OnHeaderField "Content-Length"; Connection.OnHeaderValue v]) ∧
    ready rest (n + slen "Content-Length" + slen v + 4) m ver (Z.lor fl F_CONTENTLENGTH)
      (digits_value 0 v) qs t'.
Proof.
  intros Hr Hv HL Hfl Hn Hmax. set (k := "Content-Length") in *. pose proof (slen_nonneg v).
  assert (0 ≤ slen k) by apply slen_nonneg.
  destruct (run_key k v (λ hs, hs = h_content_length) rest n m ver fl cl qs t u Hr)
    as (t2 & Hr2 & Hb2 & Hs2);
    [apply content_length_token|apply content_length_result|done|lia|].
  destruct v as [|c w]; [done|]. rewrite slen_cons in *. destruct Hv as (Hc & Hw).
  destruct (digit_not_line c Hc) as (H1 & H2 & H3 & H4 & _). pose proof (digit_range c Hc) as Hd.
  rewrite string_app_cons in Hb2. pose proof (slen_nonneg w).
  cbn [digits_value] in *.
  destruct (run_value_start c _ _ m ver fl cl qs t2 (u ++ [Connection.OnHeaderField k])
    (λ h, set_header_state h_content_length_num (set_content_length (code c - 48)
            (add_flag F_CONTENTLENGTH h)))
    (Z.lor fl F_CONTENTLENGTH) (digit_val c) Hb2 ltac:(lia) H3 H4 H1 H2) as (t3 & Hr3 & Hin3 & Hp3).
  { intros t0 Et0 Em0. unfold case_header_value_start, CROW_MARK. cbn [mark_of]. rewrite Em0.
    cbn [parser goto upd set_parser set_mark header_state set_index set_state]. rewrite Et0, Hs2.
    unfold CROW_IS_NUM. rewrite Hc. cbn [negb]. unfold has_flag.
    cbn [flags set_parser set_index set_state parser].
    by rewrite (bt_flags _ _ _ _ _ _ _ _ _ Hb2), Hfl. }
  { intros h Hh. exists h_content_length_num. left. unfold add_flag. by rewrite Hh. }
  destruct (run_value_rest c w rest _ m ver (Z.lor fl F_CONTENTLENGTH) (digit_val c)
    (digits_value (digit_val c) w) qs h_content_length_num t3
    (u ++ [Connection.OnHeaderField k]) Hin3) as (t4 & Hr4 & Hready).
  - intros fuel Hf. rewrite Hp3 at 1. cbn [header_state set_header_state].
    pose proof (in_length _ _ _ _ _ _ _ _ _ _ _ Hin3) as Hcl.
    assert (header_state (parser t3) = h_content_length_num) as Hhs by by rewrite Hp3.
    rewrite length_loop; [|by apply (in_lenient _ _ _ _ _ _ _ _ _ _ _ Hin3)|done| |by rewrite Hcl|done].
    + by rewrite Hcl.
    + rewrite Hcl. lia.
  - done.
  - lia.
  - lia.
  - exists t4. split.
    + eapply reaches_trans; [exact Hr2|].
      eapply reaches_trans; [exact Hr3|]. by rewrite <- app_assoc in Hr4.
    + by replace (n + slen k + (1 + slen w) + 4) with (n + slen k + 2 + 1 + slen w + 2) by lia.
Qed.

(** *** The end of the headers, and the body *)

Definition header : Type := string * string.
Definition header_text (kv : header) (rest : string) : string :=
  kv.1 +:+ (": " +:+ (kv.2 +:+ (eol +:+ rest))).
Definition headers_text (l : list header) (rest : string) : string := foldr header_text rest l.
Definition header_size (kv : header) : Z := slen kv.1 + slen kv.2 + 4.
Definition headers_size (l : list header) : Z := foldr (λ kv a, header_size kv + a) 0 l.
Definition header_events (kv : header) : list Connection.event :=
  [Connection.OnHeaderField kv.1; Connection.OnHeaderValue kv.2].
Definition plain_header (kv : header) : Prop := plain_name kv.1 ∧ plain_value kv.2.

Lemma headers_size_nonneg l : 0 ≤ headers_size l.
Proof.
  induction l as [|[k v] l IH]; [done|].
  change (headers_size ((k, v) :: l)) with (slen k + slen v + 4 + headers_size l).
  pose proof (slen_nonneg k). pose proof (slen_nonneg v). lia.
Qed.
Lemma run_headers l rest n m ver fl cl qs t u :
  ready (headers_text l rest) n m ver fl cl qs t → List.Forall plain_header l →
  0 ≤ n → n + headers_size l ≤ max_header_size →
  ∃ t', reaches t u t' (u ++ (l ≫= header_events)) ∧
    ready rest (n + headers_size l) m ver fl cl qs t'.
Proof.
  intros Hr Hl. revert n t u Hr. induction Hl as [|[k v] l [Hk Hv] _ IH]; intros n t u Hr Hn Hmax.
  - exists t. change (headers_size []) with 0. cbn. rewrite app_nil_r, Z.add_0_r. split; [apply reaches_refl|done].
  - change (headers_size ((k, v) :: l)) with (slen k + slen v + 4 + headers_size l) in *.
    change (headers_text ((k, v) :: l) rest)
      with (k +:+ (": " +:+ (v +:+ (eol +:+ headers_text l rest)))) in Hr.
    pose proof (headers_size_nonneg l).
    pose proof (slen_nonneg k). pose proof (slen_nonneg v).
    destruct (run_header k v _ n m ver fl cl qs t u Hr) as (t1 & Hr1 & Hb1); [done|done|lia|lia|].
    destruct (IH _ _ (u ++ header_events (k, v)) Hb1) as (t2 & Hr2 & Hb2); [lia|lia|].
    exists t2. split.
    + eapply reaches_trans; [exact Hr1|]. by rewrite <- app_assoc in Hr2.
    + by replace (n + (slen k + slen v + 4 + headers_size l))
        with (n + slen k + slen v + 4 + headers_size l) by lia.
Qed.

(** The parser waits for a request. *)
Record awaiting (h : http_parser) : Prop := {
  aw_state : hp_state h = s_start_req;
  aw_errno : hp_errno h = CHPE_OK;
  aw_te : uses_transfer_encoding h = false;
  aw_lenient : lenient_http_headers h = false;
  aw_qs : qs_point h = 0;
}.
Definition at_rest (rest : string) (t : frame) : Prop :=
  awaiting (parser t) ∧ p t = rest ∧ nread t = 0 ∧ no_marks t.

(** The blank line; [n] bytes were counted. *)
Lemma run_end_of_headers rest n m ver fl cl qs t u :
  ready (eol +:+ rest) n m ver fl cl qs t → 0 ≤ n → n + 2 ≤ max_header_size →
  m ≠ Connect → fl = 0 ∨ fl = F_CONTENTLENGTH →
  ∃ t', reaches t u t' (u ++ Connection.OnHeadersComplete ver.1 ver.2 false false false ::
      (if decide (cl = 0 ∨ cl = CROW_ULLONG_MAX) then [Connection.OnMessageComplete] else [])) ∧
    (if decide (cl = 0 ∨ cl = CROW_ULLONG_MAX) then at_rest rest t'
     else between s_body_identity rest 0 m ver fl cl qs t').
Proof.
  intros Hr Hn Hmax Hm Hfl. pose proof (ready_between _ _ _ _ _ _ _ _ Hr) as Hb0.
  assert (∃ t1, reaches t u t1 u ∧
    between s_headers_almost_done (String LF rest) (n + 1) m ver fl cl qs t1) as (t1 & Hr1 & Hb1).
  { eexists. split.
    - eapply step_ready; [exact Hr|by intros [|]|lia| |].
      + unfold switch. cbn [parser set_nread goto upd set_parser hp_state set_state].
        unfold case_header_field_start. rewrite decide_True by done. reflexivity.
      + apply Hb0.
    - between_ Hb0. }
  pose proof Hb1 as [Est Ep En Em Ev Ef El Eq Ete Elen Eer Emk].
  set (u' := u ++ [Connection.OnHeadersComplete ver.1 ver.2 false false false]).
  set (t2 := set_nread 0 (upd (set_hp_nread 0) (upd (set_upgrade false)
               (goto s_headers_done (set_nread (n + 1 + 1) t1))))).
  set (t3 := if decide (cl = 0 ∨ cl = CROW_ULLONG_MAX) then set_parser (restart (parser t2)) t2
             else goto s_body_identity t2).
  exists (set_p rest t3). split.
  - eapply reaches_trans; [exact Hr1|].
    eapply reaches_step; [exact Ep|by rewrite En; lia| | |done].
    + unfold count. rewrite Est. cbn [parsing_header]. rewrite En.
      change reexecutions with (S 3). cbn [reexecute].
      assert (switch reporting address data LF (set_nread (n + 1 + 1) t1) u
        = (Ok (Reexecute LF (upd (set_upgrade false)
            (goto s_headers_done (set_nread (n + 1 + 1) t1)))), u')) as E.
      { unfold switch. cbn [parser set_nread]. rewrite Est. unfold case_headers_almost_done.
        unfold CROW_STRICT_CHECK. rewrite bool_decide_eq_false_2 by tauto.
        cbn [parser set_nread]. unfold has_flag, length_conflict.
        cbn [flags parser set_nread upd set_parser goto set_state]. rewrite Ef.
        replace (negb (Z.land fl F_TRAILING =? 0)) with false by by destruct Hfl as [-> | ->].
        rewrite Ete. cbn [andb]. unfold mbind, M_bind, reporting.
        cbn [hp_method fst snd Z.eqb set_parser parser set_upgrade set_state].
        replace (negb (Z.land fl F_UPGRADE =? 0)) with false by by destruct Hfl as [-> | ->].
        rewrite Em, bool_decide_eq_false_2 by done. cbn [orb report].
        unfold has_flag. cbn [flags set_upgrade set_state upgrade http_major http_minor]. rewrite Ef.
        replace (negb (Z.land fl F_CONNECTION_KEEP_ALIVE =? 0)) with false
          by by destruct Hfl as [-> | ->].
        replace (negb (Z.land fl F_CONNECTION_CLOSE =? 0)) with false
          by by destruct Hfl as [-> | ->].
        rewrite decide_False by (cbn; rewrite Eer; naive_solver).
        subst u'. rewrite <- Ev. reflexivity. }
      unfold mbind, M_bind. rewrite E. cbn iota beta.
      change 3%nat with (S 2). cbn [reexecute].
      unfold mbind, M_bind.
      assert (switch reporting address data LF (upd (set_upgrade false)
            (goto s_headers_done (set_nread (n + 1 + 1) t1))) u' = (Ok (Break t3),
        u' ++ if decide (cl = 0 ∨ cl = CROW_ULLONG_MAX) then [Connection.OnMessageComplete] else []))
        as E2.
      { unfold switch. cbn [parser upd goto set_parser hp_state set_state set_upgrade].
        unfold case_headers_done, CROW_STRICT_CHECK. rewrite bool_decide_eq_false_2 by tauto.
        cbn zeta. fold t2. assert (flags (parser t2) = fl) as Ef2 by done.
        assert (upgrade (parser t2) = false ∧ uses_transfer_encoding (parser t2) = false ∧
          content_length (parser t2) = cl ∧ hp_errno (parser t2) = CHPE_OK) as (-> & -> & -> & Eer2)
          by done.
        unfold has_flag. rewrite Ef2.
        replace (negb (Z.land fl F_SKIPBODY =? 0)) with false by by destruct Hfl as [-> | ->].
        replace (negb (Z.land fl F_CHUNKED =? 0)) with false by by destruct Hfl as [-> | ->].
        assert (CROW_CALLBACK_NOTIFY reporting data on_message_complete t2 break_ u'
          = (Ok (Break (set_parser (restart (parser t2)) t2)), u' ++ [Connection.OnMessageComplete]))
          as Hdone by (unfold CROW_CALLBACK_NOTIFY; by rewrite call_reporting).
        subst t3. case_decide as Hcl.
        - rewrite <- Hdone. by destruct Hcl as [-> | ->].
        - destruct (Z.eqb_spec cl 0); [tauto|]. destruct (Z.eqb_spec cl CROW_ULLONG_MAX); [tauto|].
          cbn [negb]. unfold break_, mret, M_ret. by rewrite app_nil_r. }
      rewrite E2. cbn iota beta. subst u'. by rewrite <- app_assoc.
    + subst t3. by case_decide.
  - subst t3. case_decide.
    + split_and!; [|done|done|].
      * by split.
      * intros f. specialize (Emk f). by destruct f.
    + subst t2. between_ Hb1.
Qed.

Lemma string_snoc s : s ≠ EmptyString → ∃ x c, s = x +:+ String c EmptyString.
Proof.
  induction s as [|c s IH]; intros H; [done|]. destruct s as [|d s]; [by exists EmptyString, c|].
  destruct IH as (x & e & ->); [done|]. by exists (String c x), e.
Qed.

(** All headers of a message, the length among them. *)
Definition length_header (b : option string) : list header :=
  match b with Some b => [("Content-Length", to_string (slen b))] | None => [] end.
Lemma headers_size_app l1 l2 : headers_size (l1 ++ l2) = headers_size l1 + headers_size l2.
Proof.
  induction l1 as [|kv l1 IH]; [done|].
  change (header_size kv + headers_size (l1 ++ l2)
    = header_size kv + headers_size l1 + headers_size l2). rewrite IH. lia.
Qed.
Lemma number_to_string z : 0 ≤ z → number (to_string z) ∧ digits_value 0 (to_string z) = z.
Proof.
  destruct z as [|p|p]; intros Hz; [done| |lia].
  destruct (to_string_pos p) as (c & ds & -> & Hc & _ & Hds & Hv). done.
Qed.
Lemma run_length_header b rest n m ver qs t u :
  ready (headers_text (length_header b) rest) n m ver 0 CROW_ULLONG_MAX qs t →
  slen (default "" b) < length_bound → 0 ≤ n → n + headers_size (length_header b) ≤ max_header_size →
  ∃ t', reaches t u t' (u ++ (length_header b ≫= header_events)) ∧
    ready rest (n + headers_size (length_header b)) m ver
      (match b with Some _ => F_CONTENTLENGTH | None => 0 end)
      (match b with Some b => slen b | None => CROW_ULLONG_MAX end) qs t'.
Proof.
  intros Hr Hb Hn Hmax. destruct b as [b|].
  - destruct (number_to_string (slen b) (slen_nonneg b)) as [Hnum Hval].
    assert (headers_size (length_header (Some b))
      = slen "Content-Length" + slen (to_string (slen b)) + 4) as Hs by apply Z.add_0_r.
    destruct (run_length (to_string (slen b)) rest n m ver 0 CROW_ULLONG_MAX qs t u)
      as (t1 & Hr1 & Hb1); [exact Hr|done|by rewrite Hval|done|done|lia|].
    exists t1. split; [exact Hr1|]. rewrite Hval in Hb1.
    replace (n + headers_size (length_header (Some b)))
      with (n + slen "Content-Length" + slen (to_string (slen b)) + 4) by lia. exact Hb1.
  - exists t. split; [cbn; rewrite app_nil_r; apply reaches_refl|].
    change (headers_size (length_header None)) with 0. by rewrite Z.add_0_r.
Qed.
End Headers.
