(* ===== verification/TokenizerRequest.v ===== *)
(** * What the tokenizer reports of a whole request

    After the headers of TokenizerHeaders.v the body, which may come in several reads, and the
    round trip: a request written the way clients write it is reported piece by piece, whatever
    its pieces are.  The events Connection.v takes as input are the ones the tokenizer makes of
    the bytes. *)

From S2P Require Import Prelude Doubles JsonRead JsonWrite Utility QueryString Http Service.
From S2P Require Import OrderRoutes Wp JsonRoundTrip Tokenizer TokenizerSpec TokenizerRun.
From S2P Require Import TokenizerHeaders.
From S2P Require Connection.
Open Scope Z_scope.

(** What is reported of a piece of a body, [left] bytes of which are due. *)
Definition piece_events (left : Z) (b : string) : list Connection.event :=
  (if decide (b = EmptyString) then [] else [Connection.OnBody b]) ++
  (if decide (slen b = left) then [Connection.OnMessageComplete] else []).
(** The parser waits for the rest of a body. *)
Record in_body (left : Z) (h : http_parser) : Prop := {
  ib_state : hp_state h = s_body_identity;
  ib_errno : hp_errno h = CHPE_OK;
  ib_te : uses_transfer_encoding h = false;
  ib_lenient : lenient_http_headers h = false;
  ib_length : content_length h = left;
  ib_nread : hp_nread h = 0;
}.
(** The parser after a piece of a body. *)
Definition after_piece (left : Z) (b : string) (h : http_parser) : Prop :=
  if decide (slen b = left) then awaiting h ∧ hp_nread h = 0 else in_body (left - slen b) h.

Section Body.
Context (address : Z) (data : string).
Abbreviation len s := (String.length s).
Abbreviation U := (list Connection.event).
Abbreviation reaches := (reaches address data).

(** ** The body *)

Lemma take_body_piece b rest n m ver fl left qs t :
  between s_body_identity (b +:+ rest) n m ver fl left qs t → b ≠ EmptyString →
  slen b ≤ left → slen b = left ∨ rest = EmptyString →
  ∃ c, p (take_body t) = String c rest ∧ body_mark (take_body t) = Some (b +:+ rest) ∧
    parser (take_body t) = set_content_length (left - slen b) (parser t) ∧
    nread (take_body t) = nread t ∧
    header_field_mark (take_body t) = None ∧ header_value_mark (take_body t) = None ∧
    url_mark (take_body t) = None.
Proof.
  intros Hb Hne Hle Hrest. destruct Hb as [Est Ep En Em Ev Ef El Eq Ete Elen Eer Emk].
  destruct (string_snoc b Hne) as (x & c & Hx). pose proof (slen_nonneg x) as Hx0.
  assert (slen b = slen x + 1) as Hlen by (rewrite Hx, slen_app; reflexivity).
  pose proof (Emk d_header_field) as Hf. pose proof (Emk d_header_value) as Hv.
  pose proof (Emk d_url) as Hu. pose proof (Emk d_body) as Hmk. cbn in Hf, Hv, Hu, Hmk.
  assert (Z.min left (slen (b +:+ rest)) = slen b) as Hmin.
  { rewrite slen_app. pose proof (slen_nonneg rest).
    destruct Hrest as [<-| ->]; [lia|]. change (slen "") with 0. lia. }
  exists c. unfold take_body, CROW_MARK. cbn [mark_of]. rewrite Hmk, Ep, El, Hmin.
  split_and!; cbn; try done; [|by rewrite El].
  rewrite Ep, Hlen. replace (slen x + 1 - 1) with (slen x) by lia.
  unfold slen. rewrite Nat2Z.id, Hx. str_norm.
  replace (_ + _ + _ - _)%nat with (len (String c rest)) by (cbn; lia).
  apply substring_drop.
Qed.

Lemma no_marks_end n t u :
  p t = EmptyString → no_marks t → hp_errno (parser t) = CHPE_OK →
  execute_loop reporting address data n t u = (Ok (set_hp_nread (nread t) (parser t), slen data), u).
Proof.
  intros Hp Hm He. destruct n as [|n]; cbn [execute_loop]; rewrite Hp.
  all: unfold mbind, M_bind, leftover, assert;
    pose proof (Hm d_header_field) as H1; pose proof (Hm d_header_value) as H2;
    pose proof (Hm d_url) as H3; pose proof (Hm d_body) as H4; cbn in H1, H2, H3, H4;
    rewrite H1, H2, H3, H4; cbn [is_set Nat.add Nat.leb];
    unfold CROW_CALLBACK_DATA_NOADVANCE, CROW_CALLBACK_DATA_, assert; cbn [mark_of];
    by rewrite !He, ?H1, ?H2, ?H3, ?H4, bool_decide_eq_true_2 by done.
Qed.

(** A piece that does not complete the body. *)
Lemma loop_part b m ver fl left qs t n u :
  between s_body_identity b 0 m ver fl left qs t → b ≠ EmptyString →
  slen b < left < length_bound →
  ∃ h', in_body (left - slen b) h' ∧
    execute_loop reporting address data (S n) t u
    = (Ok (h', slen data), u ++ [Connection.OnBody b]).
Proof.
  intros Hb Hne HL. pose proof Hb as [Est Ep En Em Ev Ef El Eq Ete Elen Eer Emk].
  destruct (take_body_piece b "" 0 m ver fl left qs t) as (c & Hp & Hm & Hpa & Hnr & Hf & Hv & Hu);
    [by rewrite string_app_nil_r|done|lia|by right|]. rewrite string_app_nil_r in Hm.
  pose proof (slen_nonneg b).
  exists (set_hp_nread 0 (parser (take_body t))). split; [rewrite Hpa; by split|].
  assert (∃ d r, b = String d r) as (d & r & Hd) by (destruct b; [done|eauto]).
  cbn [execute_loop]. rewrite Ep, Hd, Est. cbn [parsing_header]. rewrite <- Hd.
  unfold mbind, M_bind. rewrite (reexecute_break _ _ d t u (take_body t) u).
  2: { unfold switch. rewrite Est. unfold case_body_identity, assert, body_expected. rewrite El.
       destruct (Z.eqb_spec left 0); [lia|].
       destruct (Z.eqb_spec left CROW_ULLONG_MAX) as [->|]; [by destruct HL|].
       cbn [negb andb]. cbn zeta. rewrite Hpa. cbn [content_length set_content_length].
       destruct (Z.eqb_spec (left - slen b) 0); [lia|]. done. }
  cbn iota beta. rewrite Hp. set (t1 := set_p "" (take_body t)).
  assert (hp_errno (parser t1) = CHPE_OK) as Eer1 by (unfold t1; cbn [parser set_p]; by rewrite Hpa).
  assert (header_field_mark t1 = None ∧ header_value_mark t1 = None ∧ url_mark t1 = None ∧
    body_mark t1 = Some b ∧ p t1 = "" ∧ nread t1 = 0) as (F1 & F2 & F3 & F4 & F5 & F6)
    by (split_and!; try done; unfold t1; cbn [nread set_p]; by rewrite Hnr).
  assert (leftover reporting data t1 u = (Ok (Return (upd (set_hp_nread (nread t1))
    (set_mark d_body None t1)) (slen data)), u ++ [Connection.OnBody b])) as Hl.
  { unfold leftover. rewrite F1, F2, F3, F4. unfold assert at 1. cbn [is_set Nat.add Nat.leb].
    unfold CROW_CALLBACK_DATA_NOADVANCE.
    do 3 (unfold CROW_CALLBACK_DATA_ at 1, assert at 1; cbn [mark_of];
      rewrite Eer1, bool_decide_eq_true_2, ?F1, ?F2, ?F3 by done).
    rewrite (data_reporting d_body _ t1 _ _ b ""); [done|done|by rewrite string_app_nil_r|done]. }
  destruct n as [|n]; cbn [execute_loop]; rewrite F5; unfold mbind, M_bind; rewrite Hl; cbn iota beta;
    unfold mret, M_ret; rewrite F6; reflexivity.
Qed.

(** The body, or the rest of it, all in the buffer. *)
Lemma run_body b rest m ver fl qs t u :
  between s_body_identity (b +:+ rest) 0 m ver fl (slen b) qs t → b ≠ EmptyString →
  slen b < length_bound →
  ∃ t', reaches t u t' (u ++ [Connection.OnBody b; Connection.OnMessageComplete]) ∧ at_rest rest t'.
Proof.
  intros Hb Hne HL. pose proof Hb as [Est Ep En Em Ev Ef El Eq Ete Elen Eer Emk].
  assert (0 < slen b) as Hpos by (by apply slen_pos).
  destruct (take_body_piece b rest 0 m ver fl (slen b) qs t) as (c & Hp & Hm & Hpa & Hnr & Hf & Hv & Hu);
    [done|done|lia|by left|]. rewrite Z.sub_diag in Hpa.
  assert (∃ d r, b +:+ rest = String d r) as (d & r & Hd) by (destruct b; [done|]; str_norm; eauto).
  set (t1 := goto s_message_done (take_body t)) in *.
  assert (parser t1 = set_state s_message_done (set_content_length 0 (parser t))) as Hpt
    by (rewrite <- Hpa; reflexivity).
  assert (hp_errno (parser t1) = CHPE_OK) as Eer1 by (rewrite Hpt; exact Eer).
  exists (set_p rest (set_parser (restart (parser t1)) (set_mark d_body None t1))). split.
  - eapply reaches_step; [rewrite Ep; exact Hd|by rewrite En| |exact Hp|].
    + unfold count. rewrite Est. cbn [parsing_header]. change reexecutions with (S 3). cbn [reexecute].
      unfold mbind, M_bind.
      assert (switch reporting address data d t u = (Ok (Reexecute d (set_mark d_body None t1)),
        u ++ [Connection.OnBody b])) as E.
      { unfold switch. rewrite Est. unfold case_body_identity, assert, body_expected. rewrite El.
        destruct (Z.eqb_spec (slen b) 0); [lia|].
        destruct (Z.eqb_spec (slen b) CROW_ULLONG_MAX) as [Hbad|];
          [by rewrite Hbad in HL|]. cbn [negb andb]. cbn zeta. rewrite Hpa.
        cbn [content_length set_content_length]. cbn [Z.eqb].
        fold t1. unfold CROW_CALLBACK_DATA_, assert.
        rewrite Eer1, bool_decide_eq_true_2 by done. cbn [mark_of].
        change (body_mark t1) with (body_mark (take_body t)). rewrite Hm.
        rewrite call_reporting by exact Eer1. change (p t1) with (p (take_body t)). rewrite Hp.
        unfold slen. rewrite string_length_app. cbn [len].
        replace (Z.to_nat _) with (len b) by lia. rewrite substring_take.
        cbn [on_data report]. unfold CROW_REEXECUTE. by destruct t1. }
      rewrite E. cbn iota beta. change 3%nat with (S 2). cbn [reexecute]. unfold mbind, M_bind.
      unfold switch.
      replace (hp_state (parser (set_mark d_body None t1))) with s_message_done
        by (change (s_message_done = hp_state (parser t1)); by rewrite Hpt).
      unfold case_message_done, CROW_CALLBACK_NOTIFY. rewrite call_reporting by exact Eer1.
      unfold break_, mret, M_ret. rewrite <- app_assoc. reflexivity.
    + assert (len (b +:+ rest) = S (len r)) as Hl by by rewrite Hd.
      rewrite string_length_app in Hl. destruct b; [done|]. cbn in Hl. lia.
  - split_and!; [|done|by rewrite <- En, <- Hnr|].
    { cbn [parser set_p set_parser]. rewrite Hpt. by split. }
    by intros [].
Qed.

(** A piece of the body, and nothing after it. *)
Lemma loop_piece b m ver fl left qs t n u :
  between s_body_identity b 0 m ver fl left qs t → slen b ≤ left → 0 < left < length_bound →
  (len b ≤ n)%nat →
  ∃ h', after_piece left b h' ∧
    execute_loop reporting address data n t u = (Ok (h', slen data), u ++ piece_events left b).
Proof.
  intros Hb Hle HL Hn. unfold after_piece, piece_events.
  destruct (decide (b = "")) as [->|Hne].
  - assert (slen "" ≠ left) as He by (change (slen "") with 0; lia).
    destruct Hb as [Est Ep En Em Ev Ef El Eq Ete Elen Eer Emk].
    exists (set_hp_nread (nread t) (parser t)). split.
    + rewrite (decide_False (P := slen "" = left)) by done.
      split; cbn; auto. by rewrite Z.sub_0_r.
    + rewrite (decide_False (P := slen "" = left)), app_nil_r by done. by apply no_marks_end.
  - case_decide as Hl.
    + subst left. rewrite <- (string_app_nil_r b) in Hb at 1.
      destruct (run_body b "" m ver fl qs t u Hb Hne ltac:(lia)) as (t' & (k & Hk & Hrun) & Ha & Hp & Hnr & Hm).
      pose proof (bt_p _ _ _ _ _ _ _ _ _ Hb) as Ep. rewrite string_app_nil_r in Ep.
      exists (set_hp_nread 0 (parser t')). split; [by destruct Ha|].
      replace n with (k + (n - k))%nat by (rewrite Hp, Ep in Hk; cbn in Hk; lia).
      rewrite Hrun, no_marks_end by (done || apply Ha). by rewrite Hnr.
    + destruct n as [|n]; [destruct b; [done|cbn in Hn; lia]|]. rewrite app_nil_r.
      eapply loop_part; [exact Hb|done|lia].
Qed.
(** The headers and the blank line, and what of the body is in the buffer after them. *)
Lemma run_head before b more rest n m ver t u qs :
  between s_header_field_start (headers_text (before ++ length_header b ++ more)
    (eol +:+ rest)) n m ver 0 CROW_ULLONG_MAX qs t →
  List.Forall plain_header before → List.Forall plain_header more →
  slen (default "" b) < length_bound → m ≠ Connect → 0 ≤ n →
  n + headers_size (before ++ length_header b ++ more) + 2 ≤ max_header_size →
  ∃ t', reaches t u t' (u ++ ((before ++ length_header b ++ more) ≫= header_events) ++
      Connection.OnHeadersComplete ver.1 ver.2 false false false ::
      (if decide (default "" b = "") then [Connection.OnMessageComplete] else [])) ∧
    (if decide (default "" b = "") then at_rest rest t'
     else ∃ fl, between s_body_identity rest 0 m ver fl (slen (default "" b)) qs t').
Proof.
  intros Hb0 Hbefore Hmore HL Hm Hn Hmax. rewrite !headers_size_app in Hmax.
  pose proof (headers_size_nonneg before). pose proof (headers_size_nonneg more).
  pose proof (headers_size_nonneg (length_header b)).
  unfold headers_text in Hb0. rewrite !foldr_app in Hb0.
  destruct (run_headers address data before _ n m ver 0 CROW_ULLONG_MAX qs t u (or_introl Hb0) Hbefore)
    as (t1 & Hr1 & Hb1); [lia|lia|].
  destruct (run_length_header address data b _ _ m ver qs t1 (u ++ (before ≫= header_events)) Hb1 HL)
    as (t2 & Hr2 & Hb2); [lia|lia|].
  set (u2 := (u ++ (before ≫= header_events)) ++ (length_header b ≫= header_events)) in *.
  destruct (run_headers address data more _ _ m ver _ _ qs t2 u2 Hb2 Hmore) as (t3 & Hr3 & Hb3);
    [lia|lia|].
  pose proof (reaches_trans _ _ _ _ _ _ Hr1 (reaches_trans _ _ _ _ _ _ Hr2 Hr3)) as Hr.
  destruct (run_end_of_headers address data _ _ m ver _ _ qs t3 (u2 ++ (more ≫= header_events)) Hb3)
    as (t4 & Hr4 & Hb4); [lia|lia|done|destruct b; auto|].
  pose proof (reaches_trans _ _ _ _ _ _ Hr Hr4) as Hrest. clear Hr Hr1 Hr2 Hr3 Hr4.
  exists t4. subst u2. rewrite !bind_app, <- !app_assoc in *.
  case_decide as Hcl; case_decide as He; try done.
  - destruct He. destruct b as [b|]; [|done]. cbn [default from_option id] in *.
    destruct Hcl as [Hz|Hz]; [|by rewrite Hz in HL].
    destruct (decide (b = "")) as [|Hb]; [done|apply slen_pos in Hb; lia].
  - destruct Hcl. destruct b as [b|]; cbn [default from_option id] in *; [left; by subst|by right].
  - split; [done|]. destruct b as [b|]; [|tauto]. by exists F_CONTENTLENGTH.
Qed.

(** After the last character. *)
Lemma at_end n t u :
  at_rest EmptyString t →
  execute_loop reporting address data n t u = (Ok (set_hp_nread 0 (parser t), slen data), u).
Proof.
  intros (Ha & Hp & Hn & Hm). rewrite no_marks_end by (done || apply Ha). by rewrite Hn.
Qed.
End Body.

(** A read in the middle of a body. *)
Lemma read_piece address left b h u :
  in_body left h → b ≠ EmptyString → slen b ≤ left → left < length_bound →
  ∃ h', after_piece left b h' ∧
    http_parser_execute reporting address b h u = (Ok (h', slen b), u ++ piece_events left b).
Proof.
  intros [Hst Her Hte Hle Hcl Hnr] Hne Hlen HL.
  assert (0 < slen b) by (by apply slen_pos).
  unfold http_parser_execute. rewrite Her, decide_False, decide_False by tauto.
  eapply loop_piece; [|done|lia|done].
  split; cbn; try done. unfold start_frame. rewrite Hst. by intros [].
Qed.

(** ** Requests *)

Record request := Request {
  rq_method : HTTPMethod;
  rq_path : string;
  rq_query : option string;
  rq_headers : list header;      (* before the length *)
  rq_body : option string;       (* with a length, or none announced *)
  rq_more : list header;         (* after it *)
}.
Definition all_headers (r : request) : list header :=
  rq_headers r ++ length_header (rq_body r) ++ rq_more r.
Definition body_text (r : request) : string := default EmptyString (rq_body r).
Definition request_wire (r : request) (rest : string) : string :=
  method_name (rq_method r) +:+ String SP (url_text (rq_path r) (rq_query r) +:+ String SP
    (("HTTP/1.1" +:+ eol) +:+ headers_text (all_headers r) (eol +:+ rest))).
Definition request_head (r : request) : string := request_wire r EmptyString.
(** What the client sends. *)
Definition request_text (r : request) : string := request_head r +:+ body_text r.

Record request_ok (r : request) : Prop := {
  ro_method : rq_method r ≠ Connect;
  ro_url : url_ok (rq_path r) (rq_query r);
  ro_headers : List.Forall plain_header (rq_headers r);
  ro_more : List.Forall plain_header (rq_more r);
  ro_head : slen (request_head r) ≤ max_header_size;
  ro_body : slen (body_text r) < length_bound;
}.

(** What the connection is told up to the body, after [ms] guesses of the method. *)
Definition head_events (r : request) : list Connection.event :=
  Connection.OnUrl (url_text (rq_path r) (rq_query r)) (url_qs_point (rq_path r) (rq_query r)) ::
  (all_headers r ≫= header_events) ++ [Connection.OnHeadersComplete 1 1 false false false].
Definition head_callbacks (ms : list HTTPMethod) (r : request) : list Connection.event :=
  (Connection.OnMethod <$> ms ++ [rq_method r]) ++ head_events r.

Lemma headers_text_app l rest : headers_text l rest = headers_text l EmptyString +:+ rest.
Proof.
  induction l as [|kv l IH]; [done|].
  change (header_text kv (headers_text l rest) = header_text kv (headers_text l "") +:+ rest).
  rewrite IH. unfold header_text. by str_norm.
Qed.
Lemma headers_text_size l rest : slen (headers_text l rest) = headers_size l + slen rest.
Proof.
  induction l as [|[k v] l IH]; [done|].
  change (headers_size ((k, v) :: l)) with (slen k + slen v + 4 + headers_size l).
  change (headers_text ((k, v) :: l) rest)
    with (k +:+ (": " +:+ (v +:+ (eol +:+ headers_text l rest)))).
  rewrite !slen_app, IH. change (slen ": ") with 2. change (slen eol) with 2. lia.
Qed.
Lemma request_wire_app r b : request_head r +:+ b = request_wire r b.
Proof.
  unfold request_head, request_wire.
  rewrite (headers_text_app _ (eol +:+ b)), (headers_text_app _ (eol +:+ "")).
  by str_norm.
Qed.
Lemma request_head_size r :
  slen (request_head r) = slen (method_name (rq_method r)) + 1 +
    (slen (url_text (rq_path r) (rq_query r)) + 1) + 10 + headers_size (all_headers r) + 2.
Proof.
  unfold request_head, request_wire. rewrite slen_app, slen_cons, slen_app, slen_cons.
  rewrite slen_app, headers_text_size, slen_app, slen_app.
  change (slen "HTTP/1.1") with 8. change (slen eol) with 2. change (slen "") with 0. lia.
Qed.


(** The read with the head of a request, and a first piece [b] of its body. *)
Lemma read_head address r b b' h u :
  awaiting h → hp_nread h = 0 → request_ok r → body_text r = b +:+ b' →
  ∃ ms h', after_piece (slen (body_text r)) b h' ∧
    http_parser_execute reporting address (request_head r +:+ b) h u
    = (Ok (h', slen (request_head r +:+ b)),
       u ++ head_callbacks ms r ++ piece_events (slen (body_text r)) b).
Proof.
  intros Ha Hnr Hr Hbody. set (data := request_head r +:+ b).
  pose proof (request_head_size r) as Hsz.
  pose proof (ro_head _ Hr) as Hhead. pose proof (slen_nonneg (method_name (rq_method r))).
  pose proof (slen_nonneg (url_text (rq_path r) (rq_query r))).
  assert (headers_size (all_headers r) = headers_size (rq_headers r) +
    (headers_size (length_header (rq_body r)) + headers_size (rq_more r))) as Hall
    by (unfold all_headers; by rewrite !headers_size_app).
  pose proof (headers_size_nonneg (rq_headers r)). pose proof (headers_size_nonneg (rq_more r)).
  pose proof (headers_size_nonneg (length_header (rq_body r))).
  set (t0 := start_frame data h).
  assert (between s_start_req (request_wire r b) 0 (hp_method h)
            (http_major h, http_minor h) (flags h) (content_length h) 0 t0) as Hb0.
  { rewrite <- request_wire_app. pose proof (aw_state _ Ha) as Hst. destruct Ha.
    split; cbn; auto. intros f. unfold t0, start_frame. rewrite Hst. by destruct f. }
  assert (url_start_mark t0 = None) as Hu0 by done.
  unfold request_wire in Hb0.
  (* the request line *)
  destruct (run_method address data _ _ 0 _ _ _ _ 0 t0 u Hb0) as (t1 & ms & Hr1 & Hb1 & Hu1);
    [lia|lia|]. rewrite Hu0 in Hu1.
  destruct (run_url address data _ _ _ _ _ _ _ _ t1 (u ++ (Connection.OnMethod <$> ms ++ [rq_method r]))
    Hb1 Hu1 (ro_url _ Hr)) as (t2 & Hr2 & Hb2); [lia|lia|].
  set (u2 := _ ++ [Connection.OnUrl _ _]) in Hr2.
  destruct (run_walk _ _ _ _ _ _ _ _ _ _ _ _ u2 (version_walks address data _) Hb2)
    as (t3 & Hr3 & Hb3); [lia|change (slen ("HTTP/1.1" +:+ eol)) with 10; lia|].
  change (slen ("HTTP/1.1" +:+ eol)) with 10 in Hb3.
  (* the headers *)
  destruct (run_head address data (rq_headers r) (rq_body r) (rq_more r) b _ _ _ t3 u2 _ Hb3
    (ro_headers _ Hr) (ro_more _ Hr) (ro_body _ Hr) (ro_method _ Hr)) as (t4 & Hr4 & Hb4);
    [lia|fold (all_headers r); lia|].
  pose proof (reaches_trans _ _ _ _ _ _ Hr1 (reaches_trans _ _ _ _ _ _ Hr2
    (reaches_trans _ _ _ _ _ _ Hr3 Hr4))) as (k & Hk & Hrun).
  exists ms. unfold http_parser_execute. rewrite (aw_errno _ Ha), decide_False by tauto.
  assert (data ≠ "") as Hne.
  { intros He. assert (slen data = 0) by by rewrite He.
    unfold data in *. rewrite slen_app in *. pose proof (slen_nonneg b). lia. }
  rewrite decide_False by done. fold t0. unfold body_text in *. change (p t0) with data in Hk.
  replace (len data) with (k + (len data - k))%nat by lia. rewrite Hrun.
  assert (slen (default "" (rq_body r)) = slen b + slen b') as Hsum by (by rewrite Hbody, slen_app).
  pose proof (slen_nonneg b'). pose proof (slen_nonneg b).
  unfold head_callbacks, head_events, all_headers. subst u2. rewrite <- !app_assoc. cbn [app].
  destruct (decide (default "" (rq_body r) = "")) as [He|He].
  - rewrite He in Hsum |- *. change (slen "") with 0 in *.
    destruct (decide (b = "")) as [->|Hb]; [|apply slen_pos in Hb; lia].
    exists (set_hp_nread 0 (parser t4)). rewrite at_end by done. destruct Hb4 as (Ha' & _).
    split; [by destruct Ha'|]. by rewrite <- app_assoc.
  - destruct Hb4 as (fl & Hb4).
    pose proof (slen_pos _ He).
    destruct (loop_piece address data b _ _ _ _ _ t4 (len data - k)
      (u ++ head_callbacks ms r) Hb4) as (h' & Hh' & E); [lia|split; [lia|apply Hr]| |].
    { pose proof (bt_p _ _ _ _ _ _ _ _ _ Hb4) as Hp. rewrite Hp in Hk. lia. }
    exists h'. split; [done|]. revert E. unfold head_callbacks, head_events, all_headers.
    rewrite <- !app_assoc. cbn [app]. by rewrite <- !app_assoc.
Qed.

(** ** Deliveries *)

(** The bytes of several reads. *)
Fixpoint execute_all (address : Z) (texts : list string) (h : http_parser)
  : M (list Connection.event) http_parser :=
  match texts with
  | [] => mret h
  | text :: l =>
      r ← http_parser_execute reporting address text h;
      execute_all address l (fst r)
  end.

(** A request as it comes in: its head and a first piece of its body, perhaps empty, in a read,
    and the rest of the body in further reads. *)
Record delivery := Delivery {
  dl_request : request;
  dl_first : string;
  dl_rest : list string;
}.
Definition reads (d : delivery) : list string :=
  (request_head (dl_request d) +:+ dl_first d) :: dl_rest d.
Record delivery_ok (d : delivery) : Prop := {
  do_request : request_ok (dl_request d);
  do_body : body_text (dl_request d) = dl_first d +:+ String.concat "" (dl_rest d);
  do_rest : List.Forall (.≠ "") (dl_rest d);
}.
(** What is reported of a body in pieces: each piece, and the end. *)
Definition body_events (first : string) (rest : list string) : list Connection.event :=
  (if decide (first = EmptyString) then [] else [Connection.OnBody first]) ++
  (Connection.OnBody <$> rest) ++ [Connection.OnMessageComplete].
Definition delivery_callbacks (ms : list HTTPMethod) (d : delivery) : list Connection.event :=
  head_callbacks ms (dl_request d) ++ body_events (dl_first d) (dl_rest d).

Lemma execute_all_app address l1 l2 h u :
  execute_all address (l1 ++ l2) h u
  = match execute_all address l1 h u with
    | (Ok h', u') => execute_all address l2 h' u'
    | (Throw e, u') => (Throw e, u')
    end.
Proof.
  revert h u. induction l1 as [|t l1 IH]; intros h u; [done|].
  cbn [execute_all app]. unfold mbind, M_bind.
  by destruct (http_parser_execute reporting address t h u) as [[[h' n]|e] u'].
Qed.

(** The reads after the first. *)
Lemma rest_run address l left b h u :
  after_piece left b h → left = slen b + slen (String.concat "" l) → left < length_bound →
  List.Forall (.≠ "") l →
  ∃ h', awaiting h' ∧ hp_nread h' = 0 ∧
    execute_all address l h u = (Ok h', u ++ (Connection.OnBody <$> l) ++
      (if decide (slen b = left) then [] else [Connection.OnMessageComplete])).
Proof.
  revert left b h u. induction l as [|b1 l IH]; intros left b h u Hh Hsum HL Hl.
  - change (slen (String.concat "" [])) with 0 in Hsum. unfold after_piece in Hh.
    rewrite decide_True in Hh by lia. rewrite decide_True by lia. exists h. cbn. rewrite app_nil_r.
    by destruct Hh as [? ?].
  - apply List.Forall_cons_iff in Hl as [Hb1 Hl]. rewrite string_concat_cons, slen_app in Hsum.
    pose proof (slen_pos _ Hb1). pose proof (slen_nonneg (String.concat "" l)).
    unfold after_piece in Hh. rewrite decide_False in Hh by lia. rewrite (decide_False (P := slen b = left)) by lia.
    pose proof (slen_nonneg b).
    destruct (read_piece address (left - slen b) b1 h u Hh Hb1) as (h1 & Hh1 & E); [lia|lia|].
    destruct (IH _ _ _ (u ++ piece_events (left - slen b) b1) Hh1) as (h2 & Ha & Hn & E2);
      [lia|lia|done|].
    exists h2. split_and!; [done|done|]. cbn [execute_all]. unfold mbind, M_bind. rewrite E.
    cbn [fst]. rewrite E2. unfold piece_events. rewrite (decide_False (P := b1 = "")) by done.
    rewrite fmap_cons, <- !app_assoc. cbn [app]. case_decide; [|done].
    assert (l = []) as ->; [|done]. destruct Hl as [|b2 l Hb2 _]; [done|exfalso].
    rewrite string_concat_cons, slen_app in *. pose proof (slen_pos _ Hb2).
    pose proof (slen_nonneg (String.concat "" l)). lia.
Qed.

Lemma delivery_run address d h u :
  awaiting h → hp_nread h = 0 → delivery_ok d →
  ∃ ms h', awaiting h' ∧ hp_nread h' = 0 ∧
    execute_all address (reads d) h u = (Ok h', u ++ delivery_callbacks ms d).
Proof.
  intros Ha Hn [Hr Hb Hne]. pose proof (f_equal slen Hb) as Hsum. rewrite slen_app in Hsum.
  destruct (read_head address _ _ _ h u Ha Hn Hr Hb) as (ms & h1 & Hh1 & E).
  destruct (rest_run address (dl_rest d) _ _ _ (u ++ head_callbacks ms (dl_request d) ++
    piece_events (slen (body_text (dl_request d))) (dl_first d)) Hh1 Hsum (ro_body _ Hr) Hne)
    as (h2 & Ha2 & Hn2 & E2).
  exists ms, h2. split_and!; [done|done|]. unfold reads. cbn [execute_all]. unfold mbind, M_bind.
  rewrite E. cbn [fst]. rewrite E2. unfold delivery_callbacks, piece_events, body_events.
  rewrite <- !app_assoc. do 4 f_equal. case_decide; [|done].
  destruct Hne as [|b2 l Hb2 _]; [done|exfalso]. rewrite string_concat_cons, slen_app in Hsum.
  pose proof (slen_pos _ Hb2). pose proof (slen_nonneg (String.concat "" l)). lia.
Qed.

(** C7: requests are reported as they were written.  For requests whose heads fit the limit
    and whose bodies have the announced lengths, each with its head in one read and its body
    cut anywhere over that read and further ones, the tokenizer makes, in order, the callbacks
    of each: the method (after guesses of it), the URL whole with the place of its query,
    every header with its name and its value, the end of the headers, the pieces of the body,
    and the end of the message; nothing is rejected, and the parser waits for the next
    request. *)
Theorem requests_reported address ds h :
  awaiting h → hp_nread h = 0 → List.Forall delivery_ok ds →
  ∃ guesses h', length guesses = length ds ∧ awaiting h' ∧ hp_nread h' = 0 ∧
    execute_all address (ds ≫= reads) h []
    = (Ok h', concat (zip_with delivery_callbacks guesses ds)).
Proof.
  intros Ha Hn Hds. change (concat ?l) with ([] ++ concat l) at 1.
  assert (∀ u, ∃ guesses h', length guesses = length ds ∧ awaiting h' ∧ hp_nread h' = 0 ∧
    execute_all address (ds ≫= reads) h u
    = (Ok h', u ++ concat (zip_with delivery_callbacks guesses ds))) as H; [|apply (H [])].
  revert h Ha Hn. induction Hds as [|d ds Hd _ IH]; intros h Ha Hn u.
  - exists [], h. cbn. by rewrite app_nil_r.
  - destruct (delivery_run address d h u Ha Hn Hd) as (ms & h1 & Ha1 & Hn1 & E).
    destruct (IH h1 Ha1 Hn1 (u ++ delivery_callbacks ms d)) as (gs & h2 & Hl & Ha2 & Hn2 & E2).
    exists (ms :: gs), h2. split_and!; [by cbn; rewrite Hl|done|done|].
    change ((d :: ds) ≫= reads) with (reads d ++ (ds ≫= reads)).
    rewrite execute_all_app, E, E2. cbn. by rewrite <- app_assoc.
Qed.

(** A request with a query and a body in three reads, one header on each side of the length,
    and one without either. *)
Definition sample_request : request :=
  Request Post "/order/list" (Some "page=1&limit=10") [("Host", "localhost:18080")]
    (Some "{'a': 1}") [("X-Trace", "42 a")].
Definition sample_get : request :=
  Request Get "/healthcheck" None [("Host", "localhost:18080")] None [].
Definition sample_deliveries : list delivery :=
  [Delivery sample_request "{" ["'a': "; "1}"]; Delivery sample_get "" []].
Lemma sample_deliveries_ok : List.Forall delivery_ok sample_deliveries.
Proof.
  repeat constructor; try done.
  all: by match goal with |- ∃ w, ?p = _ ∧ _ => exists (String.substring 1 20 p) end.
Qed.
Lemma requests_reported_witness :
  awaiting http_parser_init ∧ List.Forall delivery_ok sample_deliveries ∧
  ∃ guesses h', length guesses = 2%nat ∧ awaiting h' ∧ hp_nread h' = 0 ∧
    execute_all 4096 (sample_deliveries ≫= reads) http_parser_init []
    = (Ok h', concat (zip_with delivery_callbacks guesses sample_deliveries)).
Proof.
  assert (awaiting http_parser_init) as Ha by by split.
  split; [done|]. split; [apply sample_deliveries_ok|].
  exact (requests_reported 4096 sample_deliveries http_parser_init Ha eq_refl
    sample_deliveries_ok).
Defined.
