(* ===== verification/Server.v ===== *)
(** * The server: workers, the acceptor, the end (http_server.h, app.h)

    [run()] starts a worker thread for each [io_context] of its pool, accepts connections on a
    thread of its own and hands each to a worker; [stop()], called from another thread, ends
    all of them.  What a worker does with its connections is in Session.v and Deadlines.v. *)

From S2P Require Import Prelude.
Open Scope Z_scope.

(** ** The configuration of [Crow] that the server uses *)

Record app_config : Type := AppConfig { concurrency_ : Z; timeout_ : Z; port_ : Z }.
Definition app_default : app_config := AppConfig 2 5 80.
(** [concurrency(uint16_t)], of which [multithreaded()] passes the number of cores. *)
Definition concurrency (n : Z) (c : app_config) : app_config :=
  let n := uwrap 16 n in AppConfig (if n <? 2 then 2 else n) (timeout_ c) (port_ c).
Definition multithreaded (hardware_concurrency : Z) : app_config → app_config :=
  concurrency hardware_concurrency.
Definition app_port (port : Z) (c : app_config) : app_config :=
  AppConfig (concurrency_ c) (timeout_ c) (uwrap 16 port).
(** [worker_thread_count], which is also the size of [task_queue_length_pool_]. *)
Definition worker_thread_count (c : app_config) : nat := Z.to_nat (uwrap 16 (concurrency_ c - 1)).

Lemma some_worker hardware c : (0 < worker_thread_count (multithreaded hardware c))%nat.
Proof.
  unfold worker_thread_count, multithreaded, concurrency. cbn [concurrency_].
  pose proof (Z.mod_pos_bound hardware (2 ^ 16) ltac:(done)). unfold uwrap in *.
  destruct (Z.ltb_spec (hardware mod 2 ^ 16) 2); [by vm_compute; lia|].
  rewrite Z.mod_small by lia. lia.
Qed.

(** ** Which worker gets a connection *)

(** The loop of [pick_io_context_idx] from [i] on: [l] is the rest of the pool, [m] what the
    pool has at [min_queue_idx]. *)
Fixpoint pick_from (l : list Z) (i min_queue_idx : nat) (m : Z) : nat :=
  match l with
  | [] => min_queue_idx
  | x :: l' =>
      if 0 <? m then
        if x <? m then pick_from l' (S i) i x else pick_from l' (S i) min_queue_idx m
      else min_queue_idx
  end.
Definition pick_io_context_idx (pool : list Z) : nat :=
  match pool with [] => O | m :: l => pick_from l 1 0 m end.

(** The first of the shortest queues. *)
Definition first_min (pool : list Z) (i : nat) : Prop :=
  ∃ m, pool !! i = Some m ∧
    ∀ j x, pool !! j = Some x → m ≤ x ∧ ((j < i)%nat → m < x).

Lemma pick_from_spec pre l k m :
  (∀ x, x ∈ pre ++ l → 0 ≤ x) → pre !! k = Some m → first_min pre k →
  first_min (pre ++ l) (pick_from l (length pre) k m).
Proof.
  revert pre k m. induction l as [|x l IH]; intros pre k m H0 Hk Hmin; cbn.
  { by rewrite app_nil_r. }
  pose proof Hmin as (m' & Hk' & Hm). assert (m' = m) as -> by congruence. clear Hk'.
  pose proof (lookup_lt_Some _ _ _ Hk) as Hlt.
  assert (0 ≤ x) as Hx by (apply H0; set_solver).
  replace (pre ++ x :: l) with ((pre ++ [x]) ++ l) in * by by rewrite <- app_assoc.
  replace (S (length pre)) with (length (pre ++ [x])) by (rewrite length_app; cbn; lia).
  assert (∀ j y, (pre ++ [x]) !! j = Some y →
    pre !! j = Some y ∨ j = length pre ∧ y = x) as Hl.
  { intros j y [Hj|[Hj1 Hj2]]%lookup_app_Some; [by left|right].
    destruct (j - length pre)%nat as [|d] eqn:E; [|done]. injection Hj2 as ->. split; [lia|done]. }
  destruct (Z.ltb_spec 0 m) as [Hpos|Hz].
  - destruct (Z.ltb_spec x m) as [Hxm|Hxm]; apply IH; try done.
    + by rewrite lookup_app_r, Nat.sub_diag.
    + exists x. split; [by rewrite lookup_app_r, Nat.sub_diag|].
      intros j y [Hj|[-> ->]]%Hl; [destruct (Hm j y Hj); lia|lia].
    + by apply lookup_app_l_Some.
    + exists m. split; [by apply lookup_app_l_Some|].
      intros j y [Hj|[-> ->]]%Hl; [by apply Hm|lia].
  - exists m. split; [by do 2 apply lookup_app_l_Some|].
    intros j y Hj. assert (0 ≤ y) as Hy by (apply H0; by eapply list_elem_of_lookup_2).
    destruct (Nat.lt_ge_cases j (length pre)) as [Hjl|Hjl]; [|lia].
    assert (pre !! j = Some y) as Hj' by (rewrite !lookup_app_l in Hj by (rewrite ?length_app; cbn; lia); done).
    by apply Hm.
Qed.

(** A connection goes to a shortest queue, the first one.  For a pool with a worker the
    index is in the pool, no queue is shorter, and those before it are longer. *)
Theorem pick_shortest_queue pool :
  pool ≠ [] → (∀ x, x ∈ pool → 0 ≤ x) → first_min pool (pick_io_context_idx pool).
Proof.
  destruct pool as [|m l]; [done|]. intros _ H0.
  apply (pick_from_spec [m] l 0 m); [done|done|]. exists m. split; [done|].
  intros [|j] x Hx; [|done]. injection Hx as ->. lia.
Qed.
Lemma pick_shortest_queue_witness :
  first_min [4; 2; 3; 2] (pick_io_context_idx [4; 2; 3; 2]) ∧
  pick_io_context_idx [4; 2; 3; 2] = 1%nat.
Proof.
  split; [|reflexivity]. apply pick_shortest_queue; [discriminate|].
  intros x Hx. repeat (apply elem_of_cons in Hx as [-> |Hx]; [done|]). by apply not_elem_of_nil in Hx.
Defined.
Lemma first_min_unique pool i j : first_min pool i → first_min pool j → i = j.
Proof.
  intros (m & Hi & Hmi) (m' & Hj & Hmj). destruct (Hmi j m' Hj), (Hmj i m Hi).
  destruct (Nat.lt_trichotomy i j) as [?|[?|?]]; [|done|]; lia.
Qed.

(** ** The acceptor *)

Record acceptor : Type := Acceptor {
  lengths : list Z;              (* [task_queue_length_pool_], of [unsigned int] *)
  waiting : option nat;          (* the worker of the pending [async_accept] *)
  live : list nat;               (* the connections of each worker that are not destroyed *)
  shutting_down_ : bool;
}.
Definition acceptor_new (workers : nat) : acceptor :=
  Acceptor (replicate workers 0) None (replicate workers 0%nat) false.

Definition do_accept (a : acceptor) : acceptor :=
  if shutting_down_ a then a
  else
    let context_idx := pick_io_context_idx (lengths a) in
    Acceptor (alter (λ x, uwrap 32 (x + 1)) context_idx (lengths a)) (Some context_idx) (live a)
      (shutting_down_ a).
(** The handler of the [async_accept]; a connection that is accepted starts. *)
Definition accept_handler (ec : bool) (context_idx : nat) (a : acceptor) : acceptor :=
  do_accept
    (if ec then
       Acceptor (alter (λ x, uwrap 32 (x - 1)) context_idx (lengths a)) None (live a)
         (shutting_down_ a)
     else Acceptor (lengths a) None (alter S context_idx (live a)) (shutting_down_ a)).
(** [~Connection]: the queue length of its worker is not touched. *)
Definition destroy_connection (context_idx : nat) (a : acceptor) : acceptor :=
  Acceptor (lengths a) (waiting a) (alter Nat.pred context_idx (live a)) (shutting_down_ a).

(** What happens to the acceptor, and how many connections were accepted. *)
Inductive accepting (workers : nat) : nat → acceptor → Prop :=
| accept_first : accepting workers 0 (do_accept (acceptor_new workers))
| accept_done n i a :
    accepting workers n a → waiting a = Some i → accepting workers (S n) (accept_handler false i a)
| accept_failed n i a :
    accepting workers n a → waiting a = Some i → accepting workers n (accept_handler true i a)
| connection_ends n i k a :
    accepting workers n a → live a !! i = Some (S k) → accepting workers n (destroy_connection i a).

(** The queues after [n] connections dealt in turn. *)
Definition dealt (workers n : nat) : list Z :=
  (λ i, Z.of_nat ((n + (workers - 1 - i)) / workers)) <$> seq 0 workers.

Section Dealt.
Context (workers : nat) (Hw : (0 < workers)%nat).

Lemma dealt_lookup n i : (i < workers)%nat →
  dealt workers n !! i = Some (Z.of_nat ((n + (workers - 1 - i)) / workers)).
Proof.
  intros Hi. unfold dealt. rewrite list_lookup_fmap, lookup_seq_lt by done. done.
Qed.
(** Every queue is a quotient, and one longer for those that come before the next. *)
Lemma dealt_div n i : (i < workers)%nat →
  ((n + (workers - 1 - i)) / workers = n / workers + if decide (i < n mod workers) then 1 else 0)%nat.
Proof using Hw.
  intros Hi. pose proof (Nat.div_mod_eq n workers) as E.
  pose proof (Nat.mod_upper_bound n workers ltac:(lia)).
  symmetry. case_decide; eapply Nat.div_unique.
  - instantiate (1 := (n mod workers - 1 - i)%nat). lia.
  - nia.
  - instantiate (1 := (n mod workers + (workers - 1 - i))%nat). lia.
  - nia.
Qed.
Lemma dealt_pick n : pick_io_context_idx (dealt workers n) = (n mod workers)%nat.
Proof using Hw.
  pose proof (Nat.mod_upper_bound n workers ltac:(lia)) as Hm.
  assert (length (dealt workers n) = workers) as Hlen
    by (unfold dealt; by rewrite length_fmap, length_seq).
  apply (first_min_unique (dealt workers n)).
  - apply pick_shortest_queue; [intros E; by rewrite E in Hlen; cbn in Hlen; lia|].
    intros x (i & -> & _)%list_elem_of_fmap. lia.
  - exists (Z.of_nat (n / workers)). split.
    + rewrite dealt_lookup by done. rewrite dealt_div by done. rewrite decide_False by lia. f_equal. lia.
    + intros j x Hj. pose proof (lookup_lt_Some _ _ _ Hj) as Hlt. rewrite Hlen in Hlt.
      rewrite dealt_lookup in Hj by done. rewrite dealt_div in Hj by done. injection Hj as <-.
      case_decide; lia.
Qed.
Lemma dealt_next n : Z.of_nat n < 2 ^ 32 - 1 →
  alter (λ x, uwrap 32 (x + 1)) (n mod workers)%nat (dealt workers n) = dealt workers (S n).
Proof using Hw.
  intros Hn. pose proof (Nat.mod_upper_bound n workers ltac:(lia)) as Hm.
  apply list_eq. intros i. destruct (Nat.lt_ge_cases i workers) as [Hi|Hi].
  2: { rewrite !lookup_ge_None_2; [done| |]; rewrite ?length_alter; unfold dealt;
       rewrite length_fmap, length_seq; lia. }
  assert (Z.of_nat (n / workers) ≤ Z.of_nat n) by (apply inj_le, Nat.Div0.div_le_upper_bound; nia).
  assert ((S n) / workers = n / workers + if decide (n mod workers = workers - 1) then 1 else 0)%nat as Hd.
  { pose proof (Nat.div_mod_eq n workers). symmetry. case_decide; eapply Nat.div_unique.
    - instantiate (1 := O). lia.
    - nia.
    - instantiate (1 := S (n mod workers)). lia.
    - nia. }
  assert ((S n) mod workers = if decide (n mod workers = workers - 1) then 0 else S (n mod workers))%nat as Hmod.
  { pose proof (Nat.div_mod_eq n workers). pose proof (Nat.div_mod_eq (S n) workers).
    case_decide; nia. }
  rewrite (dealt_lookup (S n)), dealt_div, Hd, Hmod by done.
  destruct (decide (i = n mod workers)%nat) as [->|Hne].
  - rewrite list_lookup_alter_eq, dealt_lookup, dealt_div by done. cbn.
    rewrite (decide_False (P := (n mod workers < n mod workers)%nat)) by lia.
    f_equal. unfold uwrap. rewrite Z.mod_small by lia. repeat case_decide; lia.
  - rewrite list_lookup_alter_ne, dealt_lookup, dealt_div by done. f_equal. repeat case_decide; lia.
Qed.
End Dealt.

Lemma do_accept_dealt workers n a :
  (0 < workers)%nat → Z.of_nat n < 2 ^ 32 - 1 → lengths a = dealt workers n →
  shutting_down_ a = false →
  lengths (do_accept a) = dealt workers (S n) ∧ waiting (do_accept a) = Some (n mod workers)%nat ∧
  live (do_accept a) = live a ∧ shutting_down_ (do_accept a) = false.
Proof.
  intros Hw Hn Hl Hs. unfold do_accept. rewrite Hs, Hl. cbn.
  by rewrite dealt_pick, dealt_next by done.
Qed.
Lemma unaccept workers n : (0 < workers)%nat → Z.of_nat n < 2 ^ 32 - 1 →
  alter (λ x, uwrap 32 (x - 1)) (n mod workers)%nat (dealt workers (S n)) = dealt workers n.
Proof.
  intros Hw Hn. rewrite <- dealt_next by done.
  apply list_eq. intros i. pose proof (Nat.mod_upper_bound n workers ltac:(lia)) as Hm.
  destruct (decide (i = n mod workers)%nat) as [->|Hne].
  - rewrite !list_lookup_alter_eq, dealt_lookup by done. cbn. f_equal.
    assert (Z.of_nat ((n + (workers - 1 - n mod workers)) / workers) ≤ Z.of_nat n) as Hle.
    { rewrite dealt_div, decide_False by lia. rewrite Nat.add_0_r.
      apply inj_le, Nat.Div0.div_le_upper_bound. nia. }
    unfold uwrap. rewrite (Z.mod_small (_ + 1)) by lia.
    rewrite Z.add_simpl_r. apply Z.mod_small. lia.
  - by rewrite !list_lookup_alter_ne.
Qed.

(** Connections are dealt in turn, whatever becomes of them.  The [n]-th connection goes
    to worker [n mod workers], and the queue lengths are those of [n + 1] connections dealt
    in turn: connections that failed to be accepted are taken off, those that ended are not. *)
Theorem connections_dealt_in_turn workers n a :
  (0 < workers)%nat → Z.of_nat n < 2 ^ 32 - 1 → accepting workers n a →
  waiting a = Some (n mod workers)%nat ∧ lengths a = dealt workers (S n).
Proof.
  intros Hw Hn Ha.
  assert (waiting a = Some (n mod workers)%nat ∧ lengths a = dealt workers (S n) ∧
    shutting_down_ a = false) as (H1 & H2 & _); [|done].
  induction Ha as [|n i a Ha IH Hi|n i a Ha IH Hi|n i k a Ha IH Hi].
  - destruct (do_accept_dealt workers 0 (acceptor_new workers) Hw Hn) as (H1 & H2 & _ & H3); [|done|done].
    apply list_eq. intros i. cbn [lengths acceptor_new].
    destruct (Nat.lt_ge_cases i workers) as [Hi|Hi].
    + rewrite lookup_replicate_2, dealt_lookup by done. rewrite dealt_div by done.
      by rewrite Nat.Div0.div_0_l, Nat.Div0.mod_0_l.
    + rewrite !lookup_ge_None_2; [done| |]; rewrite ?length_replicate; unfold dealt;
        rewrite ?length_fmap, ?length_seq; lia.
  - destruct IH as (Hwa & Hl & Hs); [lia|].
    edestruct (do_accept_dealt workers (S n)) as (H1 & H2 & _ & H3); [done|done| | |]; cycle 2;
      [split; [exact H2|split; [exact H1|exact H3]]|done|done].
  - destruct IH as (Hwa & Hl & Hs); [lia|]. rewrite Hwa in Hi. injection Hi as <-.
    edestruct (do_accept_dealt workers n) as (H1 & H2 & _ & H3); [done|done| | |]; cycle 2;
      [split; [exact H2|split; [exact H1|exact H3]]| |done].
    cbn [lengths]. rewrite Hl. by apply unaccept.
  - by destruct IH.
Qed.
Lemma connections_dealt_in_turn_witness :
  let a := accept_handler false 1 (accept_handler true 1 (accept_handler false 0
             (do_accept (acceptor_new 2)))) in
  accepting 2 2 a ∧ waiting a = Some 0%nat ∧ lengths a = dealt 2 3.
Proof.
  intros a. assert (accepting 2 2 a) as Ha.
  { apply accept_done; [apply accept_failed; [apply accept_done; [apply accept_first|done]|done]|done]. }
  split; [exact Ha|]. exact (connections_dealt_in_turn 2 2 a ltac:(lia) ltac:(done) Ha).
Defined.

(** Two connections, of which the second ends. *)
Lemma busy_round m a :
  accepting 2 (2 * m) a → live a = [m; 0%nat] → shutting_down_ a = false →
  Z.of_nat (2 * S m) < 2 ^ 32 - 1 →
  ∃ a', accepting 2 (2 * S m) a' ∧ live a' = [S m; 0%nat] ∧ shutting_down_ a' = false.
Proof.
  intros Ha Hl Hs Hn.
  assert (∀ ec i b, shutting_down_ b = false → live (accept_handler ec i b)
    = (if ec : bool then live b else alter S i (live b)) ∧
    shutting_down_ (accept_handler ec i b) = false) as Hh.
  { intros ec i b Hb. unfold accept_handler, do_accept. by destruct ec; cbn; rewrite Hb. }
  destruct (connections_dealt_in_turn 2 (2 * m) a) as [Hw _]; [lia|lia|done|].
  rewrite Nat.mul_comm, Nat.Div0.mod_mul in Hw.
  set (a1 := accept_handler false 0 a). pose proof (accept_done 2 _ _ _ Ha Hw) as Ha1. fold a1 in Ha1.
  destruct (Hh false 0%nat a Hs) as [Hl1 Hs1]. fold a1 in Hl1, Hs1. rewrite Hl in Hl1.
  destruct (connections_dealt_in_turn 2 (S (2 * m)) a1) as [Hw1 _]; [lia|lia|done|].
  replace (S (2 * m) mod 2)%nat with 1%nat in Hw1 
    by (pose proof (Nat.div_mod_eq (S (2 * m)) 2);
        pose proof (Nat.mod_upper_bound (S (2 * m)) 2 ltac:(lia)); lia).
  set (a2 := accept_handler false 1 a1). pose proof (accept_done 2 _ _ _ Ha1 Hw1) as Ha2. fold a2 in Ha2.
  destruct (Hh false 1%nat a1 Hs1) as [Hl2 Hs2]. fold a2 in Hl2, Hs2. rewrite Hl1 in Hl2. cbn in Hl2.
  exists (destroy_connection 1 a2). split_and!.
  - replace (2 * S m)%nat with (S (S (2 * m))) by lia. by eapply connection_ends; [|rewrite Hl2].
  - cbn. by rewrite Hl2.
  - done.
Qed.

(** The queue lengths do not follow the connections.  With two workers, for every [m]
    there is a course of events after which one worker has [m] connections and the other has
    none, and the next connection is given to the busy one. *)
Theorem busy_worker_preferred m :
  Z.of_nat (2 * m) < 2 ^ 32 - 1 →
  ∃ a, accepting 2 (2 * m) a ∧ live a = [m; 0%nat] ∧ waiting a = Some 0%nat.
Proof.
  intros Hm. assert (∃ a, accepting 2 (2 * m) a ∧ live a = [m; 0%nat] ∧ shutting_down_ a = false)
    as (a & Ha & Hl & _).
  { induction m as [|m IH]; [by exists (do_accept (acceptor_new 2)); split; [apply accept_first|]|].
    destruct IH as (a & Ha & Hl & Hs); [lia|]. by apply (busy_round m a). }
  exists a. split_and!; [done|done|].
  destruct (connections_dealt_in_turn 2 (2 * m) a) as [-> _]; [lia|lia|done|].
  by rewrite Nat.mul_comm, Nat.Div0.mod_mul.
Qed.
Lemma busy_worker_preferred_witness :
  ∃ a, accepting 2 2000 a ∧ live a = [1000%nat; 0%nat] ∧ waiting a = Some 0%nat.
Proof. exact (busy_worker_preferred 1000 ltac:(done)). Defined.
