(* ===== verification/ServerStop.v ===== *)
(** * The server from [run()] to its end (http_server.h, app.h)

    Three kinds of threads share the server: the one in [run()], the workers, and the one that
    calls [stop()] (the signal watcher of Main.v).  Each step below is one of their actions
    on what they share; what the acceptor and the workers do in between (connections, ticks)
    leaves it as it is, and ends: a handler that is blocked in a write to a client that does not
    read is not represented. *)

From S2P Require Import Prelude Server.
Open Scope nat_scope.

(** Where the thread of [app.run()] is: before [server_] is set; filling [io_context_pool_];
    starting the workers; in the loop that waits for [init_count]; before [do_accept()];
    waiting for the thread in [io_context_.run()]; in the destructors of the futures. *)
Inductive main_pc : Type :=
  Registering | Filling | Spawning | AwaitInit | Accepting | Running | Joining | Returned.
(** A worker: before [init_count++], in the loop around [io_context::run()], at its end. *)
Inductive worker_pc : Type := WStarting | WServing | WExited.
(** Where the thread that calls [app.stop()] is. *)
Inductive stop_pc : Type :=
  NotCalled | CheckServer | SetFlag | StopContexts (i : nat) | StopMain | StopDone.
#[export] Instance main_pc_eq_dec : EqDecision main_pc.
Proof. solve_decision. Defined.
#[export] Instance worker_pc_eq_dec : EqDecision worker_pc.
Proof. solve_decision. Defined.
#[export] Instance stop_pc_eq_dec : EqDecision stop_pc.
Proof. solve_decision. Defined.

Record server : Type := Srv {
  main : main_pc;
  created : bool;               (* [server_] is set *)
  contexts : list bool;         (* [io_context_pool_], and which are stopped *)
  workers : list worker_pc;
  io_stopped : bool;            (* [io_context_] *)
  down : bool;                  (* [shutting_down_] of the server *)
  stop : stop_pc;
}.
Definition server_new : server := Srv Registering false [] [] false false NotCalled.

Section Server.
(** The number of workers. *)
Context (n : nat).

Inductive step : server → server → Prop :=
| construct c xs ws io d st :
    step (Srv Registering c xs ws io d st) (Srv Filling true xs ws io d st)
| fill c xs ws io d st :
    length xs < n → step (Srv Filling c xs ws io d st) (Srv Filling c (xs ++ [false]) ws io d st)
| filled c xs ws io d st :
    length xs = n → step (Srv Filling c xs ws io d st) (Srv Spawning c xs ws io d st)
| spawn c xs ws io d st :
    length ws < n →
    step (Srv Spawning c xs ws io d st) (Srv Spawning c xs (ws ++ [WStarting]) io d st)
| spawned c xs ws io d st :
    length ws = n → step (Srv Spawning c xs ws io d st) (Srv AwaitInit c xs ws io d st)
| initialised c xs ws io d st :
    WStarting ∉ ws → step (Srv AwaitInit c xs ws io d st) (Srv Accepting c xs ws io d st)
| accept c xs ws io d st : step (Srv Accepting c xs ws io d st) (Srv Running c xs ws io d st)
| main_ends c xs ws d st :
    step (Srv Running c xs ws true d st) (Srv Joining c xs ws true d st)
| joined c xs ws io d st :
    List.Forall (.= WExited) ws → step (Srv Joining c xs ws io d st) (Srv Returned c xs ws io d st)
| worker_init m c xs ws io d st i :
    ws !! i = Some WStarting → step (Srv m c xs ws io d st) (Srv m c xs (<[i:=WServing]> ws) io d st)
| worker_exit m c xs ws io d st i :
    ws !! i = Some WServing → xs !! i = Some true →
    step (Srv m c xs ws io d st) (Srv m c xs (<[i:=WExited]> ws) io d st)
| call_stop m c xs ws io d :
    step (Srv m c xs ws io d NotCalled) (Srv m c xs ws io d CheckServer)
| check_server m (c : bool) xs ws io d :
    step (Srv m c xs ws io d CheckServer) (Srv m c xs ws io d (if c then SetFlag else StopDone))
| set_flag m c xs ws io d :
    step (Srv m c xs ws io d SetFlag) (Srv m c xs ws io true (StopContexts 0))
| stop_context m c xs ws io d i :
    i < length xs →
    step (Srv m c xs ws io d (StopContexts i)) (Srv m c (<[i:=true]> xs) ws io d (StopContexts (S i)))
| contexts_stopped m c xs ws io d i :
    length xs ≤ i → step (Srv m c xs ws io d (StopContexts i)) (Srv m c xs ws io d StopMain)
| stop_main m c xs ws io d :
    step (Srv m c xs ws io d StopMain) (Srv m c xs ws true d StopDone).

(** ** What always holds *)

Definition phase (m : main_pc) : nat :=
  match m with
  | Registering => 0 | Filling => 1 | Spawning => 2 | AwaitInit => 3 | Accepting => 4
  | Running => 5 | Joining => 6 | Returned => 7
  end.
Record sane (s : server) : Prop := {
  sn_created : created s = (1 <=? phase (main s));
  sn_contexts : length (contexts s) ≤ n;
  sn_no_context : phase (main s) < 1 → contexts s = [];
  sn_pool : 2 ≤ phase (main s) → length (contexts s) = n;
  sn_workers : length (workers s) ≤ n;
  sn_no_worker : phase (main s) < 2 → workers s = [];
  sn_threads : 3 ≤ phase (main s) → length (workers s) = n;
  sn_init : 4 ≤ phase (main s) → WStarting ∉ workers s;
  sn_stopped : 6 ≤ phase (main s) → io_stopped s = true;
  sn_joined : 7 ≤ phase (main s) → List.Forall (.= WExited) (workers s);
}.

Lemma sane_new : sane server_new.
Proof. split; cbn; auto; lia. Qed.
Lemma not_starting_insert (ws : list worker_pc) i x : WStarting ∉ ws → x ≠ WStarting → WStarting ∉ <[i:=x]> ws.
Proof.
  intros Hws Hx [j Hj]%list_elem_of_lookup. apply list_lookup_insert_Some in Hj as [(_ & Hy & _)|[_ Hj]].
  - done.
  - by apply list_elem_of_lookup_2 in Hj.
Qed.
Lemma exited_insert (ws : list worker_pc) i : List.Forall (.= WExited) ws → ws !! i ≠ Some WStarting ∧ ws !! i ≠ Some WServing.
Proof.
  rewrite List.Forall_forall. intros H. split; intros Hi%list_elem_of_lookup_2%list_elem_of_In%H; done.
Qed.
Lemma sane_step s s' : sane s → step s s' → sane s'.
Proof.
  intros [Hc Hx Hx0 Hx1 Hw Hw0 Hw1 Hi Hst Hj] Hs.
  destruct Hs; cbn in *; split; cbn; rewrite ?length_app, ?length_insert; cbn; intros; try lia; auto.
  all: try (apply not_starting_insert; [auto|done]).
  all: try (by rewrite Hw0 by done); try (by rewrite Hx0 by done).
  all: exfalso; destruct (exited_insert ws i) as [? ?]; [auto|congruence].
Qed.

(** ** Every course of events ends *)

Definition worker_rank (p : worker_pc) : nat :=
  match p with WStarting => 2 | WServing => 1 | WExited => 0 end.
Definition stop_rank (st : stop_pc) : nat :=
  match st with
  | NotCalled => n + 5 | CheckServer => n + 4 | SetFlag => n + 3
  | StopContexts i => (n - i) + 2 | StopMain => 1 | StopDone => 0
  end.
Definition ranks (ws : list worker_pc) : nat := sum_list_with worker_rank ws.
(** How many steps are left at most. *)
Definition left (s : server) : nat :=
  (7 - phase (main s)) + (n - length (contexts s)) + ranks (workers s)
  + 3 * (n - length (workers s)) + stop_rank (stop s).

Lemma ranks_insert ws i p q :
  ws !! i = Some p → worker_rank q < worker_rank p → ranks (<[i:=q]> ws) < ranks ws.
Proof.
  unfold ranks. revert i. induction ws as [|x ws IH]; intros [|i] Hi Hq; try done.
  - injection Hi as ->. cbn. lia.
  - specialize (IH i Hi Hq).
    change (worker_rank x + sum_list_with worker_rank (<[i:=q]> ws)
      < worker_rank x + sum_list_with worker_rank ws). lia.
Qed.
Lemma ranks_app ws p : ranks (ws ++ [p]) = ranks ws + worker_rank p.
Proof. unfold ranks. rewrite sum_list_with_app. cbn. lia. Qed.
Lemma step_left s s' : sane s → step s s' → left s' < left s.
Proof.
  intros [_ Hx _ _ Hw _ _ _ _ _] Hs.
  destruct Hs as [| | | | | | | | |m c xs ws io d st i Hi|m c xs ws io d st i Hi _|m [] xs ws io d|m [] xs ws io d| | | |];
    unfold left; cbn in *; rewrite ?length_app, ?length_insert, ?ranks_app; cbn;
    fold (ranks ws); try lia.
  - pose proof (ranks_insert ws i _ WServing Hi ltac:(cbn; lia)). unfold ranks in *. lia.
  - pose proof (ranks_insert ws i _ WExited Hi ltac:(cbn; lia)). unfold ranks in *. lia.
Qed.
Lemma steps_bounded k s s' : sane s → nsteps step k s s' → sane s' ∧ k + left s' ≤ left s.
Proof.
  intros Hs Hk. induction Hk as [s|k s s1 s2 H1 _ IH]; [split; [done|lia]|].
  pose proof (step_left _ _ Hs H1). destruct (IH (sane_step _ _ Hs H1)). split; [done|lia].
Qed.

(** ** A call of [stop()] after the workers were created *)

(** What the caller has done so far. *)
Record stopping (s : server) : Prop := {
  st_filled : 2 ≤ phase (main s);
  st_called : stop s ≠ NotCalled;
  st_contexts : ∀ i, stop s = StopContexts i → ∀ j, j < i → j < n → contexts s !! j = Some true;
  st_all : stop s = StopMain ∨ stop s = StopDone → ∀ j, j < n → contexts s !! j = Some true;
  st_main : stop s = StopDone → io_stopped s = true;
}.
Lemma stopping_step s s' : sane s → stopping s → step s s' → stopping s'.
Proof.
  intros Hsane [Hf Hc Hx Ha Hm] Hs. pose proof (sn_created _ Hsane) as Hcr.
  pose proof (sn_pool _ Hsane) as Hp.
  destruct Hs as [| | | | | | | | | | | |m [] xs ws io d| |m c xs ws io d i Hi|m c xs ws io d i Hi|];
    cbn in *; split; cbn; try done; try lia; auto.
  - by intros [?|?].
  - exfalso. by destruct (phase m); [lia|].
  - exfalso. by destruct (phase m); [lia|].
  - intros i [= <-]. lia.
  - by intros [?|?].
  - intros i' [= <-] j Hj Hjn. destruct (decide (i = j)) as [->|Hne].
    + apply list_lookup_insert_eq. lia.
    + rewrite list_lookup_insert_ne by done. apply (Hx i); [done|lia|done].
  - by intros [?|?].
  - intros _ j Hj. apply (Hx i); [done|lia|done].
Qed.
(** While some worker has work left it can go on. *)
Lemma workers_progress m c xs ws io d st :
  (∀ j, j < length ws → xs !! j = Some true) →
  (∃ s', step (Srv m c xs ws io d st) s') ∨ List.Forall (.= WExited) ws.
Proof.
  intros Hx. destruct (decide (List.Forall (.= WExited) ws)) as [|Hn]; [by right|left].
  assert (∃ i p, ws !! i = Some p ∧ p ≠ WExited) as (i & p & Hi & Hp).
  { clear -Hn. induction ws as [|p ws IH]; [by destruct Hn|].
    destruct (decide (p = WExited)) as [->|Hp]; [|by exists 0, p].
    destruct IH as (i & q & Hi & Hq); [intros H; apply Hn; by constructor|]. by exists (S i), q. }
  destruct p; [eexists; by eapply worker_init| |done].
  eexists. eapply worker_exit; [done|]. apply Hx. by eapply lookup_lt_Some.
Qed.
Lemma starting_progress m c xs ws io d st :
  (∃ s', step (Srv m c xs ws io d st) s') ∨ WStarting ∉ ws.
Proof.
  destruct (decide (WStarting ∈ ws)) as [[i Hi]%list_elem_of_lookup|]; [|by right].
  left. eexists. by eapply worker_init.
Qed.
(** The thread in [run()] gets to [io_context_.run()]. *)
Lemma main_progress s :
  sane s → (∃ s', step s s') ∨ phase (main s) ≥ 5.
Proof.
  intros [_ Hx _ _ Hw _ _ _ _ _]. destruct s as [[] c xs ws io d st]; cbn in *; try (right; lia).
  - left. eexists. apply construct.
  - left. destruct (Nat.lt_ge_cases (length xs) n); eexists; [by apply fill|apply filled; lia].
  - left. destruct (Nat.lt_ge_cases (length ws) n); eexists; [by apply spawn|apply spawned; lia].
  - left. destruct (starting_progress AwaitInit c xs ws io d st) as [|Hs]; [done|].
    eexists. by apply initialised.
  - left. eexists. apply accept.
Qed.
Lemma stopping_progress s :
  sane s → stopping s → (∃ s', step s s') ∨ main s = Returned ∧ stop s = StopDone.
Proof.
  intros Hsane [Hf Hc Hx Ha Hm]. destruct (main_progress s Hsane) as [|Hp]; [by left|].
  pose proof (sn_threads _ Hsane) as Hw. pose proof (sn_pool _ Hsane) as Hpool.
  destruct s as [m c xs ws io d st]; cbn in *.
  destruct st as [| | |i| |]; [done| | | | |].
  - left. eexists. apply check_server.
  - left. eexists. apply set_flag.
  - left. destruct (Nat.lt_ge_cases i (length xs)); eexists; [by apply stop_context|by apply contexts_stopped].
  - left. eexists. apply stop_main.
  - specialize (Hm eq_refl) as ->.
    destruct m; cbn in *; try lia; [left; eexists; apply main_ends| |by right].
    left. destruct (workers_progress Joining c xs ws true d StopDone) as [|Hex]; [|done|].
    + intros j Hj. apply Ha; [by right|lia].
    + eexists. by apply joined.
Qed.

Lemma sane_reachable s : rtc step server_new s → sane s.
Proof.
  assert (∀ s0 s1, rtc step s0 s1 → sane s0 → sane s1) as H; [|intros Hs; apply (H _ _ Hs), sane_new].
  induction 1 as [|s0 s1 s2 Hs _ IH]; [done|]. intros H0. by apply IH, (sane_step s0).
Qed.

(** C19: [stop()] ends the server.  When it is called at any moment after [run()] has filled its
    pool, however the threads interleave: no course of events is longer than [left], and one
    that cannot go on has [run()] and [stop()] returned, with the worker threads joined. *)
Theorem stop_ends_run s :
  rtc step server_new s → stop s = CheckServer → 2 ≤ phase (main s) →
  (∀ k s', nsteps step k s s' → k ≤ left s) ∧
  ∀ s', rtc step s s' → (∀ s'', ¬ step s' s'') →
    main s' = Returned ∧ stop s' = StopDone ∧ List.Forall (.= WExited) (workers s').
Proof.
  intros Hr Hst Hp. pose proof (sane_reachable s Hr) as Hsane. split.
  - intros k s' Hk. pose proof (steps_bounded k s s' Hsane Hk). lia.
  - assert (stopping s) as Hstop by (split; rewrite ?Hst; try done; intros; naive_solver).
    intros s' Hs'. clear Hr Hst Hp. induction Hs' as [s|s s1 s2 H1 _ IH]; intros Hend.
    + destruct (stopping_progress s Hsane Hstop) as [[s' Hs']|[Hm Hd]]; [by apply Hend in Hs'|].
      split_and!; [done|done|]. apply (sn_joined _ Hsane). rewrite Hm. cbn. lia.
    + apply IH; [by eapply sane_step|by eapply stopping_step|done].
Qed.

(** ** A call that comes too early *)

(** [server_] was not there, and nothing will stop the threads. *)
Definition missed (s : server) : Prop :=
  stop s = StopDone ∧ io_stopped s = false ∧ phase (main s) ≤ 5 ∧ ∀ j, contexts s !! j ≠ Some true.
Lemma missed_step s s' : missed s → step s s' → missed s'.
Proof.
  intros (Hst & Hio & Hp & Hx) Hs. destruct Hs; cbn in *; try done; unfold missed; cbn; split_and!;
    try done; try lia.
  intros j [Hj|[_ Hj]]%lookup_app_Some; [by apply Hx in Hj|].
  by apply list_lookup_singleton_Some in Hj as [_ ?].
Qed.
(** The pool was not full. *)
Definition partly_stopped (s : server) : Prop :=
  stop s = StopDone ∧ (∀ j, contexts s !! j ≠ Some true) ∧ WExited ∉ workers s ∧ main s ≠ Returned.
Lemma partly_stopped_step s s' : 0 < n → sane s → partly_stopped s → step s s' → partly_stopped s'.
Proof.
  intros Hn Hsane (Hst & Hx & Hw & Hm) Hs. pose proof (sn_threads _ Hsane) as Ht.
  destruct Hs as [| | | | | | | |c xs ws io d st Hall|m c xs ws io d st i Hi|m c xs ws io d st i Hi Hd| | | | | |];
    cbn in *; try done; unfold partly_stopped; cbn; split_and!; try done.
  - intros j [Hj|[_ Hj]]%lookup_app_Some; [by apply Hx in Hj|].
    by apply list_lookup_singleton_Some in Hj as [_ ?].
  - set_solver.
  - exfalso. destruct ws as [|p ws]; [cbn in *; lia|]. apply List.Forall_cons_iff in Hall as [-> _].
    apply Hw. by left.
  - intros [j Hj]%list_elem_of_lookup. apply list_lookup_insert_Some in Hj as [(_ & Hj & _)|[_ Hj]]; [done|].
    by apply list_elem_of_lookup_2 in Hj.
  - by apply Hx in Hd.
Qed.

Lemma missed_runs_on s :
  sane s → missed s → ∃ s', rtc step s s' ∧ main s' = Running ∧ ∀ s'', ¬ step s' s''.
Proof.
  remember (left s) as k eqn:Hk. revert s Hk.
  induction (lt_wf k) as [k _ IH]. intros s -> Hsane Hm.
  destruct (main_progress s Hsane) as [[s1 H1]|Hp].
  - destruct (IH (left s1)) with (s := s1) as (s' & Hs' & H); try done.
    + by apply step_left.
    + by eapply sane_step.
    + by eapply missed_step.
    + exists s'. split; [|done]. by eapply rtc_l.
  - exists s. split; [done|]. pose proof (sn_init _ Hsane) as Hi.
    destruct Hm as (Hst & Hio & Hp5 & Hx).
    assert (main s = Running) as Hrun by (destruct (main s); cbn in *; (lia || done)).
    split; [done|]. intros s'' Hs. rewrite Hrun in Hi. specialize (Hi ltac:(cbn; lia)).
    destruct Hs as [| | | | | | | | |m c xs ws io d st i Hwi|m c xs ws io d st i Hwi Hd| | | | | |];
      cbn in *; try done.
    + by apply list_elem_of_lookup_2 in Hwi.
    + by apply Hx in Hd.
Qed.

(** A call of [stop()] that comes too early is lost.  Called before [server_] is set it
    does nothing, and the server goes on to serve and never ends; called before the pool is
    filled it leaves workers that no one stops, and [run()] never returns. *)
Theorem early_stop_lost :
  0 < n →
  (∃ s, rtc step server_new s ∧ stop s = StopDone ∧
    (∀ s', rtc step s s' → main s' ≠ Returned) ∧
    ∃ s', rtc step s s' ∧ main s' = Running ∧ ∀ s'', ¬ step s' s'') ∧
  ∃ s, rtc step server_new s ∧ stop s = StopDone ∧ down s = true ∧ io_stopped s = true ∧
    ∀ s', rtc step s s' → main s' ≠ Returned.
Proof.
  intros Hn. split.
  - set (s := Srv Registering false [] [] false false StopDone).
    assert (rtc step server_new s) as Hr.
    { eapply rtc_l; [apply call_stop|]. apply rtc_once. apply check_server. }
    assert (missed s) as Hm by (by split_and!; cbn; try lia).
    exists s. split_and!; [done|done| |by apply missed_runs_on; [apply sane_reachable|]].
    intros s' Hs'. assert (missed s') as (_ & _ & Hp & _).
    { clear Hr. induction Hs'; [done|]. by eauto using missed_step. }
    intros Heq. rewrite Heq in Hp. cbn in Hp. lia.
  - set (s := Srv Filling true [] [] true true StopDone).
    assert (rtc step server_new s) as Hr.
    { eapply rtc_l; [apply construct|]. eapply rtc_l; [apply call_stop|].
      eapply rtc_l; [apply check_server|]. eapply rtc_l; [apply set_flag|].
      eapply rtc_l; [by apply contexts_stopped|]. apply rtc_once. apply stop_main. }
    exists s. split_and!; try done. intros s' Hs'.
    assert (sane s) as Hsane by by apply sane_reachable.
    assert (partly_stopped s) as Hp.
    { split_and!; try done. apply not_elem_of_nil. }
    assert (partly_stopped s') as (_ & _ & _ & H); [|done].
    clear Hr. induction Hs' as [|s0 s1 s2 H1 _ IH]; [done|].
    apply IH; [by eapply sane_step|by eapply partly_stopped_step].
Qed.
End Server.

(** A server of two workers, stopped while it starts them. *)
Lemma stop_ends_run_witness :
  let s := Srv Spawning true [false; false] [] false false CheckServer in
  rtc (step 2) server_new s ∧ stop s = CheckServer ∧
  ((∀ k s', nsteps (step 2) k s s' → k ≤ left 2 s) ∧
   ∀ s', rtc (step 2) s s' → (∀ s'', ¬ step 2 s' s'') →
     main s' = Returned ∧ stop s' = StopDone ∧ List.Forall (.= WExited) (workers s')).
Proof.
  intros s. assert (rtc (step 2) server_new s) as Hr.
  { eapply rtc_l; [apply construct|]. eapply rtc_l; [apply fill; cbn; lia|].
    eapply rtc_l; [apply fill; cbn; lia|]. eapply rtc_l; [by apply filled|].
    apply rtc_once. apply call_stop. }
  split; [exact Hr|]. split; [reflexivity|].
  exact (stop_ends_run 2 s Hr eq_refl ltac:(cbn; lia)).
Defined.
Lemma early_stop_lost_witness :
  (∃ s, rtc (step 1) server_new s ∧ stop s = StopDone ∧
    (∀ s', rtc (step 1) s s' → main s' ≠ Returned) ∧
    ∃ s', rtc (step 1) s s' ∧ main s' = Running ∧ ∀ s'', ¬ step 1 s' s'') ∧
  ∃ s, rtc (step 1) server_new s ∧ stop s = StopDone ∧ down s = true ∧ io_stopped s = true ∧
    ∀ s', rtc (step 1) s s' → main s' ≠ Returned.
Proof. exact (early_stop_lost 1 ltac:(lia)). Defined.
