(* ===== verification/TaskTimer.v ===== *)
(** * Deadlines of connections (task_timer.h and the timer calls of http_connection.h)

    Each worker thread has a [task_timer]: a table of tasks with the time each is due, looked
    through once a tick.  A connection that waits for bytes has a task that closes it.  Times
    are nanoseconds of the steady clock, and handlers of one worker run one after the other. *)

From S2P Require Import Prelude Service.
Open Scope Z_scope.

(** ** The table

    [std::map] from identifiers, in their order. *)

Section Map.
Context {V : Type}.
Implicit Types l : list (Z * V).

Definition map_erase (id : Z) l : list (Z * V) := filter (λ kv, kv.1 ≠ id) l.
(** [insert] keeps the element that is there. *)
Fixpoint map_insert (id : Z) (v : V) l : list (Z * V) :=
  match l with
  | [] => [(id, v)]
  | (k, x) :: l' =>
      if id <? k then (id, v) :: l
      else if id =? k then l
      else (k, x) :: map_insert id v l'
  end.

Lemma map_insert_last id v l :
  (∀ k, k ∈ l.*1 → k < id) → map_insert id v l = l ++ [(id, v)].
Proof.
  induction l as [|[k x] l IH]; intros Hl; [done|]. cbn.
  assert (k < id) by (apply Hl; by left).
  destruct (Z.ltb_spec id k); [lia|]. destruct (Z.eqb_spec id k); [lia|].
  rewrite IH; [done|]. intros k' Hk'. apply Hl. by right.
Qed.
Lemma elem_of_erase id kv l : kv ∈ map_erase id l ↔ kv.1 ≠ id ∧ kv ∈ l.
Proof. unfold map_erase. by rewrite list_elem_of_filter. Qed.
Lemma erase_fresh id l : id ∉ l.*1 → map_erase id l = l.
Proof.
  induction l as [|[k x] l IH]; intros Hl; [done|]. cbn in Hl.
  unfold map_erase. rewrite list_basics.list.filter_cons_True by set_solver.
  f_equal. apply IH. set_solver.
Qed.
Lemma filter_sorted (P : Z * V → Prop) `{∀ e, Decision (P e)} l :
  StronglySorted Z.lt l.*1 → StronglySorted Z.lt (filter P l).*1.
Proof.
  induction l as [|[k x] l IH]; intros Hl; [done|]. apply StronglySorted_inv in Hl as [Hl Hk].
  rewrite list_basics.list.filter_cons. case_decide; [|by apply IH].
  cbn. constructor; [by apply IH|]. rewrite List.Forall_forall in Hk |- *. intros k' Hk'.
  apply Hk. rewrite <- list_elem_of_In in *. apply list_elem_of_fmap in Hk' as (kv & -> & Hkv).
  apply list_elem_of_filter in Hkv as [_ Hkv]. by apply list_elem_of_fmap_2.
Qed.
End Map.

(** ** [task_timer] *)

Record task_timer (T : Type) : Type := TaskTimer {
  tasks_ : list (Z * (Z * T));       (* when it is due, and what is called *)
  highest_id_ : Z;                   (* [size_t] *)
  tick_length_ms_ : Z;
  default_timeout_ : Z;              (* [uint8_t] *)
  expires : option Z;                (* the pending [async_wait] of [timer_] *)
}.
Arguments TaskTimer {T} _ _ _ _ _.
Arguments tasks_ {T} _.
Arguments highest_id_ {T} _.
Arguments tick_length_ms_ {T} _.
Arguments default_timeout_ {T} _.
Arguments expires {T} _.

Definition nanoseconds (ms : Z) : Z := ms * 1000000.

Section Timer.
Context {T : Type}.
Implicit Types tm : task_timer T.

Definition set_tasks (l : list (Z * (Z * T))) (highest : Z) tm : task_timer T :=
  TaskTimer l highest (tick_length_ms_ tm) (default_timeout_ tm) (expires tm).
Definition set_expires (e : option Z) tm : task_timer T :=
  TaskTimer (tasks_ tm) (highest_id_ tm) (tick_length_ms_ tm) (default_timeout_ tm) e.
Definition set_default_timeout (timeout : Z) tm : task_timer T :=
  TaskTimer (tasks_ tm) (highest_id_ tm) (tick_length_ms_ tm) timeout (expires tm).

(** The length of a tick on the clock. *)
Definition tick tm : Z := nanoseconds (tick_length_ms_ tm).
Definition task_timer_new (now tick_length : Z) : task_timer T :=
  TaskTimer [] 0 tick_length 5 (Some (now + nanoseconds tick_length)).
Definition cancel (id : Z) tm : task_timer T :=
  set_tasks (map_erase id (tasks_ tm)) (highest_id_ tm) tm.
(** The timer, and the identifier of the task. *)
Definition schedule_after (now : Z) (task : T) (timeout : Z) tm : task_timer T * Z :=
  let id := uwrap 64 (highest_id_ tm + 1) in
  (set_tasks (map_insert id (now + timeout * tick tm, task) (tasks_ tm)) id tm, id).
Definition schedule (now : Z) (task : T) tm : task_timer T * Z :=
  schedule_after now task (default_timeout_ tm) tm.

(** A task is a call, on the state [S] of whatever it captured; the tasks do not use the
    timer. *)
Context {S : Type} (call : T → M S unit).

(** The loop of [process_tasks]: the identifiers of the tasks called. *)
Fixpoint run_due (current_time : Z) (l : list (Z * (Z * T))) : M S (list Z) :=
  match l with
  | [] => mret []
  | (id, (due, task)) :: l' =>
      if due <? current_time then
        _ ← call task;
        finished_tasks ← run_due current_time l';
        mret (id :: finished_tasks)
      else run_due current_time l'
  end.
Definition process_tasks (current_time : Z) tm : M S (task_timer T) :=
  finished_tasks ← run_due current_time (tasks_ tm);
  let tasks := foldl (λ l id, map_erase id l) (tasks_ tm) finished_tasks in
  mret (set_tasks tasks (match tasks with [] => 0 | _ => highest_id_ tm end) tm).
(** [later] is the time when the timer is set again. *)
Definition tick_handler (ec : bool) (current_time later : Z) tm : M S (task_timer T) :=
  if ec then mret (set_expires None tm)
  else
    tm' ← process_tasks current_time tm;
    mret (set_expires (Some (later + tick tm')) tm').

(** ** What the operations do to the table *)

Record timer_ok tm : Prop := {
  to_sorted : StronglySorted Z.lt (tasks_ tm).*1;
  to_ids : ∀ id, id ∈ (tasks_ tm).*1 → 1 ≤ id ≤ highest_id_ tm;
  to_highest : 0 ≤ highest_id_ tm < 2 ^ 64;
}.
(** The entries that are due, and the others. *)
Definition due (now : Z) (l : list (Z * (Z * T))) : list (Z * (Z * T)) :=
  filter (λ e, e.2.1 < now) l.
Definition kept (now : Z) (l : list (Z * (Z * T))) : list (Z * (Z * T)) :=
  filter (λ e, now ≤ e.2.1) l.

Lemma timer_new_ok now tick_length : timer_ok (task_timer_new now tick_length).
Proof. split; [constructor|by intros id Hid%not_elem_of_nil|done]. Qed.
Lemma timer_ok_nodup tm : timer_ok tm → NoDup (tasks_ tm).*1.
Proof.
  intros [Hs _ _]. induction Hs as [|k l Hl IH Hk]; constructor; [|done].
  intros Hin. rewrite List.Forall_forall in Hk. apply list_elem_of_In, Hk in Hin. lia.
Qed.

(** A new task goes to the end, under an identifier no other task has. *)
Lemma schedule_spec now task timeout tm :
  timer_ok tm → highest_id_ tm + 1 < 2 ^ 64 →
  schedule_after now task timeout tm =
    (set_tasks (tasks_ tm ++ [(highest_id_ tm + 1, (now + timeout * tick tm, task))])
       (highest_id_ tm + 1) tm, highest_id_ tm + 1).
Proof.
  intros [Hs Hi Hh] Hw. unfold schedule_after, uwrap. rewrite Z.mod_small by lia.
  rewrite map_insert_last; [done|]. intros k Hk%Hi. lia.
Qed.
Lemma schedule_ok now task timeout tm :
  timer_ok tm → highest_id_ tm + 1 < 2 ^ 64 → timer_ok (schedule_after now task timeout tm).1.
Proof.
  intros Hok Hw. rewrite schedule_spec by done. destruct Hok as [Hs Hi Hh]. cbn [fst].
  split; cbn [tasks_ set_tasks highest_id_]; [|intros id|lia]; rewrite fmap_app; cbn.
  - clear -Hs Hi. induction Hs as [|k l Hl IH Hk]; [repeat constructor|]. cbn. constructor.
    + apply IH. intros id Hid. apply Hi. by right.
    + apply List.Forall_app. split; [done|]. constructor; [|done].
      assert (1 ≤ k ≤ highest_id_ tm) by (apply Hi; by left). lia.
  - rewrite elem_of_app, list_elem_of_singleton. intros [Hid| ->]; [apply Hi in Hid; lia|lia].
Qed.
Lemma cancel_ok id tm : timer_ok tm → timer_ok (cancel id tm).
Proof.
  intros [Hs Hi Hh]. split; cbn; [by apply filter_sorted| |done].
  intros k (e & -> & He)%list_elem_of_fmap. apply elem_of_erase in He as [_ He].
  apply Hi. by apply list_elem_of_fmap_2.
Qed.
End Timer.

Lemma erase_all {V} (ids : list Z) (l : list (Z * V)) :
  foldl (λ l id, map_erase id l) l ids = filter (λ e, e.1 ∉ ids) l.
Proof.
  revert l. induction ids as [|id ids IH]; intros l; cbn.
  - induction l as [|e l IH]; [done|].
    rewrite list_basics.list.filter_cons_True by apply not_elem_of_nil. by f_equal.
  - rewrite IH. unfold map_erase. rewrite list_filter_filter. apply list_filter_iff.
    intros e. cbn. rewrite not_elem_of_cons. tauto.
Qed.

Section Run.
Context {T S : Type} (eff : T → S → S).
Implicit Types tm : task_timer T.
Abbreviation call := (λ task, modify (eff task)).
Definition effects (l : list (Z * (Z * T))) (s : S) : S := foldl (λ s e, eff e.2.2 s) s l.

Lemma run_due_spec now l s :
  run_due call now l s = (Ok (due now l).*1, effects (due now l) s).
Proof.
  revert s. induction l as [|[id [t task]] l IH]; intros s; [done|].
  unfold due. rewrite list_basics.list.filter_cons. cbn [run_due].
  destruct (Z.ltb_spec t now); cbn.
  - rewrite decide_True by done. unfold mbind, M_bind, modify. rewrite IH. done.
  - rewrite decide_False by lia. apply IH.
Qed.
Lemma process_tasks_spec now tm s :
  timer_ok tm →
  process_tasks call now tm s = (Ok (set_tasks (kept now (tasks_ tm))
    (match kept now (tasks_ tm) with [] => 0 | _ => highest_id_ tm end) tm),
    effects (due now (tasks_ tm)) s).
Proof.
  intros Hok%timer_ok_nodup. unfold process_tasks, mbind, M_bind. rewrite run_due_spec.
  assert (foldl (λ l id, map_erase id l) (tasks_ tm) (due now (tasks_ tm)).*1
          = kept now (tasks_ tm)) as ->; [|done].
  rewrite erase_all. unfold kept. apply filter_elem.
  intros e He. rewrite list_elem_of_fmap. split.
  - intros Hn. destruct (Z.le_gt_cases now e.2.1); [done|]. destruct Hn. exists e.
    split; [done|]. apply list_elem_of_filter. by split; [lia|].
  - intros Hle (e' & Heq & He'). apply list_elem_of_filter in He' as [Hlt He'].
    assert (e = e') as ->; [|lia].
    by apply (fst_inj (tasks_ tm)).
Qed.
End Run.

(** ** What happens to a timer *)

Inductive timer_op (T : Type) : Type :=
| Schedule (now : Z) (task : T) (timeout : Z)
| Cancel (now id : Z)
| Tick (now later : Z).
Arguments Schedule {T} _ _ _.
Arguments Cancel {T} _ _.
Arguments Tick {T} _ _.
Definition op_time {T} (o : timer_op T) : Z :=
  match o with Schedule now _ _ | Cancel now _ | Tick now _ => now end.

Section Ops.
Context {T S : Type} (call : T → M S unit).

Definition do_op (o : timer_op T) (tm : task_timer T) : M S (task_timer T) :=
  match o with
  | Schedule now task timeout => mret (schedule_after now task timeout tm).1
  | Cancel _ id => mret (cancel id tm)
  | Tick now later => tick_handler call false now later tm
  end.
Fixpoint run (ops : list (timer_op T)) (tm : task_timer T) : M S (task_timer T) :=
  match ops with
  | [] => mret tm
  | o :: ops' => tm' ← do_op o tm; run ops' tm'
  end.
End Ops.

(** ** Tasks are called in time *)

Section Live.
Context {T : Type}.
Implicit Types (tm : task_timer T) (ops : list (timer_op T)) (e : Z * (Z * T)).

(** The timer after an operation, and the calls made by a run, with their times. *)
Definition next (o : timer_op T) tm : task_timer T :=
  match o with
  | Schedule now task timeout => (schedule_after now task timeout tm).1
  | Cancel _ id => cancel id tm
  | Tick now later =>
      set_expires (Some (later + tick tm)) (set_tasks (kept now (tasks_ tm))
        (match kept now (tasks_ tm) with [] => 0 | _ => highest_id_ tm end) tm)
  end.
Definition called (o : timer_op T) tm : list (Z * (Z * (Z * T))) :=
  match o with Tick now _ => pair now <$> due now (tasks_ tm) | _ => [] end.
Fixpoint calls ops tm : list (Z * (Z * (Z * T))) :=
  match ops with [] => [] | o :: ops' => called o tm ++ calls ops' (next o tm) end.

(** The operations come in the order of their times, up to [last], and the timer ticks: [by]
    is when the next tick is at the latest, and a tick is handled at most [delay] later than
    a tick length after the one before. *)
Fixpoint timely (delay by_ now last : Z) (length : Z) ops : Prop :=
  match ops with
  | [] => now ≤ last ≤ by_
  | o :: ops' =>
      now ≤ op_time o ≤ by_ ∧
      match o with
      | Schedule t _ timeout => 0 ≤ timeout < 256 ∧ timely delay by_ t last length ops'
      | Cancel t _ => timely delay by_ t last length ops'
      | Tick t _ => timely delay (t + length + delay) t last length ops'
      end
  end.

Lemma snd_pair {A B} (a : A) (l : list B) : (pair a <$> l).*2 = l.
Proof. induction l as [|x l IH]; [done|]. cbn. by f_equal. Qed.
Lemma next_ok o tm : timer_ok tm → highest_id_ tm + 1 < 2 ^ 64 → timer_ok (next o tm).
Proof.
  intros Hok Hh. destruct o as [now task timeout|now id|now later]; cbn [next].
  - by apply schedule_ok.
  - by apply cancel_ok.
  - destruct Hok as [Hs Hi Hb]. split; cbn.
    + by apply filter_sorted.
    + destruct (kept now (tasks_ tm)) as [|y l] eqn:E; [by intros id Hid%not_elem_of_nil|].
      intros id (kv & -> & Hkv)%list_elem_of_fmap. apply Hi, list_elem_of_fmap_2.
      rewrite <- E in Hkv. by apply list_elem_of_filter in Hkv as [_ Hkv].
    + by case_match.
Qed.
Lemma next_highest o tm : timer_ok tm → highest_id_ tm + 1 < 2 ^ 64 →
  highest_id_ (next o tm) ≤ highest_id_ tm + 1.
Proof.
  intros Hok Hh. pose proof (to_highest _ Hok).
  destruct o; cbn [next]; [rewrite schedule_spec by done; cbn; lia|cbn; lia|].
  cbn. case_match; lia.
Qed.
Lemma next_tick o tm : tick (next o tm) = tick tm.
Proof. by destruct o. Qed.

(** A run makes those calls, when no task throws. *)
Lemma run_calls {S} (eff : T → S → S) ops tm s :
  timer_ok tm → highest_id_ tm + Z.of_nat (length ops) < 2 ^ 64 →
  run (λ task, modify (eff task)) ops tm s
  = (Ok (foldl (λ tm o, next o tm) tm ops), effects eff (calls ops tm).*2 s).
Proof.
  revert tm s. induction ops as [|o ops IH]; intros tm s Hok Hh; [done|].
  cbn [length] in Hh. assert (highest_id_ tm + 1 < 2 ^ 64) as Hh1 by lia.
  pose proof (next_ok o tm Hok Hh1) as Hok'. pose proof (next_highest o tm Hok Hh1).
  assert (do_op (λ task, modify (eff task)) o tm s
    = (Ok (next o tm), effects eff (called o tm).*2 s)) as E.
  { destruct o as [now task timeout|now id|now later]; [done|done|].
    cbn [do_op tick_handler called next]. unfold mbind, M_bind.
    rewrite process_tasks_spec by done. unfold mret, M_ret.
    by rewrite snd_pair. }
  cbn [run foldl calls]. unfold mbind, M_bind. rewrite E, IH by (done || lia).
  rewrite fmap_app. unfold effects. by rewrite foldl_app.
Qed.

(** An entry that has been called, or cancelled, after it was due does not come back. *)
Lemma never_again e delay by_ now last ops tm :
  timer_ok tm → highest_id_ tm + Z.of_nat (length ops) < 2 ^ 64 → 0 ≤ tick tm →
  timely delay by_ now last (tick tm) ops → e.2.1 < now → e ∉ tasks_ tm → e ∉ ((calls ops tm).*2).
Proof.
  revert by_ now tm. induction ops as [|o ops IH]; intros by_ now tm Hok Hh HL Ht Hd He.
  { apply not_elem_of_nil. }
  cbn [length] in Hh. assert (highest_id_ tm + 1 < 2 ^ 64) as Hh1 by lia.
  pose proof (next_ok o tm Hok Hh1) as Hok'. pose proof (next_highest o tm Hok Hh1).
  cbn [calls timely] in *. destruct Ht as [Hto Ht]. rewrite fmap_app, not_elem_of_app.
  rewrite <- (next_tick o tm) in Ht, HL. split.
  - destruct o; [apply not_elem_of_nil|apply not_elem_of_nil|]. cbn [called].
    rewrite snd_pair. by intros [_ Hx]%list_elem_of_filter.
  - destruct o as [t task timeout|t id|t later]; cbn [op_time] in Hto.
    + destruct Ht as [Htt Ht]. eapply IH; [done|lia|done|exact Ht|lia|].
      cbn [next]. rewrite schedule_spec by done. cbn. rewrite not_elem_of_app. split; [done|].
      rewrite list_elem_of_singleton. intros ->. cbn in Hd.
      rewrite next_tick in HL. nia.
    + eapply IH; [done|lia|done|exact Ht|lia|]. cbn. by rewrite elem_of_erase; tauto.
    + eapply IH; [done|lia|done|exact Ht|lia|]. cbn. unfold kept.
      rewrite list_elem_of_filter. tauto.
Qed.

Definition cancels (o : timer_op T) : option Z :=
  match o with Cancel _ id => Some id | _ => None end.

(** An entry of the table is called once, after it is due and within a tick and the delay. *)
Lemma entry_called e delay by_ now last ops tm :
  timer_ok tm → highest_id_ tm + Z.of_nat (length ops) < 2 ^ 64 → 0 ≤ tick tm → e ∈ tasks_ tm →
  by_ ≤ e.2.1 + tick tm + delay → timely delay by_ now last (tick tm) ops →
  (∀ o, o ∈ ops → cancels o = Some e.1 → e.2.1 + tick tm + delay < op_time o) →
  e.2.1 + tick tm + delay < last →
  ∃ l1 t l2, calls ops tm = l1 ++ (t, e) :: l2 ∧ e.2.1 < t ≤ e.2.1 + tick tm + delay ∧
    e ∉ l1.*2 ∧ e ∉ l2.*2.
Proof.
  revert by_ now tm. induction ops as [|o ops IH]; intros by_ now tm Hok Hh HL He Hby Ht Hnc Hlast.
  { cbn in Ht. lia. }
  cbn [length] in Hh. assert (highest_id_ tm + 1 < 2 ^ 64) as Hh1 by lia.
  pose proof (next_ok o tm Hok Hh1) as Hok'. pose proof (next_highest o tm Hok Hh1).
  cbn [calls timely] in *. destruct Ht as [Hto Ht]. rewrite <- (next_tick o tm) in *.
  assert (∀ o, o ∈ ops → cancels o = Some e.1 → e.2.1 + tick (next o tm) + delay < op_time o) as Hnc'.
  { intros o' Ho'. rewrite next_tick. rewrite next_tick in Hnc. apply Hnc. by right. }
  assert (∀ by', by' ≤ e.2.1 + tick (next o tm) + delay → e ∈ tasks_ (next o tm) →
    timely delay by' (op_time o) last (tick (next o tm)) ops → called o tm = [] ∨ e ∉ ((called o tm).*2) →
    ∃ l1 t l2, called o tm ++ calls ops (next o tm) = l1 ++ (t, e) :: l2 ∧
      e.2.1 < t ≤ e.2.1 + tick (next o tm) + delay ∧ e ∉ l1.*2 ∧ e ∉ l2.*2) as Hrest.
  { intros by' Hby' He' Ht' Hcall.
    destruct (IH by' (op_time o) (next o tm)) as (l1 & t & l2 & -> & Hb & H1 & H2); try done; [lia|..].
    { intros o' Ho' Hc. rewrite next_tick. rewrite next_tick in Hnc. apply Hnc; [by right|done]. }
    exists (called o tm ++ l1), t, l2. rewrite <- app_assoc. split_and!; [done|lia|lia| |done].
    rewrite fmap_app, not_elem_of_app. split; [|done].
    destruct Hcall as [->|]; [apply not_elem_of_nil|done]. }
  destruct o as [t task timeout|t id|t later]; cbn [op_time] in *.
  - apply (Hrest by_); [done| |apply Ht|by left].
    cbn [next]. rewrite schedule_spec by done. cbn. apply elem_of_app. by left.
  - apply (Hrest by_); [done| |apply Ht|by left].
    cbn. apply elem_of_erase. split; [|done]. intros Heq.
    assert (e.2.1 + tick (next (Cancel t id) tm) + delay < t); [|lia].
    apply (Hnc (Cancel t id)); [by left|by rewrite Heq].
  - destruct (Z.lt_ge_cases e.2.1 t) as [Hlt|Hge].
    + assert (e ∈ due t (tasks_ tm)) as (a & b & Hab)%list_elem_of_split
        by (unfold due; rewrite list_elem_of_filter; done).
      pose proof (timer_ok_nodup _ Hok) as Hnd.
      assert (NoDup (due t (tasks_ tm))) as Hd.
      { apply list_relations.list.NoDup_filter. by apply NoDup_fmap_1 in Hnd. }
      rewrite Hab in Hd. apply list.NoDup_app in Hd as (Ha & Hdis & Hb). apply list.NoDup_cons in Hb as [Hb _].
      exists (pair t <$> a), t, ((pair t <$> b) ++ calls ops (next (Tick t later) tm)).
      cbn [called]. rewrite Hab, fmap_app, fmap_cons, <- app_assoc, fmap_app, !snd_pair, not_elem_of_app.
      split_and!; [done|lia|lia| |done|].
      * intros Hin. apply (Hdis e Hin). by left.
      * eapply never_again; [done|lia|done|exact Ht|done|]. cbn. unfold kept.
        rewrite list_elem_of_filter. lia.
    + apply (Hrest (t + tick tm + delay)).
      * rewrite next_tick. lia.
      * cbn. unfold kept. rewrite list_elem_of_filter. split; [lia|done].
      * exact Ht.
      * right. cbn [called]. rewrite snd_pair. unfold due. rewrite list_elem_of_filter. lia.
Qed.

(** C32: a deadline is kept.  A task is scheduled, and the timer goes on with other tasks
    being scheduled and cancelled, each tick handled at most [delay] after its time, up to
    some moment later than the deadline by more than a tick and the delay.  Unless the task
    was cancelled it has been called, exactly once, after its deadline and at most a tick
    length and the delay late. *)
Theorem deadline_kept {S} (eff : T → S → S) delay by_ t0 last task timeout ops tm s :
  let deadline := t0 + timeout * tick tm in
  let e := (highest_id_ tm + 1, (deadline, task)) in
  timer_ok tm → highest_id_ tm + 1 + Z.of_nat (length ops) < 2 ^ 64 → 0 ≤ tick tm →
  0 ≤ timeout → by_ ≤ t0 + tick tm + delay → timely delay by_ t0 last (tick tm) ops →
  (∀ o, o ∈ ops → cancels o = Some e.1 → deadline + tick tm + delay < op_time o) →
  deadline + tick tm + delay < last →
  ∃ tm' l1 t l2,
    run (λ task, modify (eff task)) (Schedule t0 task timeout :: ops) tm s
    = (Ok tm', effects eff (l1 ++ (t, e) :: l2).*2 s) ∧
    deadline < t ≤ deadline + tick tm + delay ∧ e ∉ l1.*2 ∧ e ∉ l2.*2.
Proof.
  intros deadline e Hok Hh HL Hto Hby Ht Hnc Hlast.
  assert (highest_id_ tm + 1 < 2 ^ 64) as Hh1 by lia.
  pose proof (next_ok (Schedule t0 task timeout) tm Hok Hh1) as Hok'.
  pose proof (next_highest (Schedule t0 task timeout) tm Hok Hh1).
  destruct (entry_called e delay by_ t0 last ops (next (Schedule t0 task timeout) tm))
    as (l1 & t & l2 & E & Hb & H1 & H2); rewrite ?next_tick; try done.
  - lia.
  - cbn [next]. rewrite schedule_spec by done. cbn. apply elem_of_app. right. by left.
  - assert (0 ≤ timeout * tick tm) by (apply Z.mul_nonneg_nonneg; lia).
    change (e.2.1) with (t0 + timeout * tick tm). lia.
  - exists (foldl (λ tm o, next o tm) tm (Schedule t0 task timeout :: ops)), l1, t, l2.
    rewrite next_tick in Hb. change (e.2.1) with deadline in Hb. split_and!; [|lia|lia|done|done].
    rewrite run_calls by (done || (cbn [length]; lia)). cbn [calls called app]. by rewrite E.
Qed.
End Live.

(** A task of five ticks of a second; another is scheduled and cancelled. *)
Lemma deadline_kept_witness :
  let s := 1000000000 in
  let ops := [Tick (1 * s) (1 * s); Schedule (1 * s) "other" 5; Tick (2 * s) (2 * s); Cancel (2 * s) 2;
    Tick (3 * s) (3 * s); Tick (4 * s) (4 * s); Tick (5 * s) (5 * s); Tick (6 * s) (6 * s)] in
  ∃ tm' l1 t l2,
    run (λ name, modify (cons name)) (Schedule 0 "first" 5 :: ops) (task_timer_new 0 1000) []
    = (Ok tm', effects cons (l1 ++ (t, (1, (5 * s, "first"))) :: l2).*2 []) ∧
    5 * s < t ≤ 5 * s + s + 10 ∧
    (1, (5 * s, "first")) ∉ l1.*2 ∧ (1, (5 * s, "first")) ∉ l2.*2.
Proof.
  intros s ops.
  exact (deadline_kept cons 10 s 0 (6 * s + 11) "first" 5 ops (task_timer_new 0 1000) []
    (timer_new_ok 0 1000) ltac:(done) ltac:(done) ltac:(done) ltac:(done)
    ltac:(repeat split; done)
    ltac:(intros o Ho Hc; repeat (apply elem_of_cons in Ho as [-> |Ho]; [done|]);
          by apply not_elem_of_nil in Ho)
    ltac:(done)).
Defined.
