(* ===== verification/Deadlines.v ===== *)
(** * The deadlines of the connections of a worker (http_connection.h)

    A connection that waits for bytes has a task in its worker's timer that closes it; the
    handlers of a connection cancel it and schedule another.  What else the handlers do is in
    Connection.v: here a connection is its socket, its [task_id_] and whether a read is
    outstanding.  The handlers of the connections of a worker and the ticks of its timer come
    in any order, one at a time. *)

From S2P Require Import Prelude Service TaskTimer.
Open Scope Z_scope.

Record client : Type := Client {
  open : bool;              (* [adaptor_.is_open()] *)
  task_id_ : Z;
  pending : bool;           (* the handler of an [async_read_some] has yet to run *)
}.
Definition set_open (b : bool) (c : client) : client := Client b (task_id_ c) (pending c).
Definition set_task_id (id : Z) (c : client) : client := Client (open c) id (pending c).
Definition set_pending (b : bool) (c : client) : client := Client (open c) (task_id_ c) b.

Abbreviation clients := (gmap nat client).
Record worker : Type := Worker {
  timer : task_timer nat;
  conns : clients;
}.
Implicit Types (w : worker) (k : nat).

(** The task of [start_deadline]. *)
Definition expire (k : nat) : clients → clients :=
  alter (λ c, if open c then set_open false c else c) k.

Definition on_client (f : client → client) (k : nat) w : worker :=
  Worker (timer w) (alter f k (conns w)).
Definition task_of (k : nat) w : Z := default 0 (task_id_ <$> conns w !! k).
Definition cancel_deadline_timer (k : nat) w : worker :=
  Worker (cancel (task_of k w) (timer w)) (conns w).
Definition start_deadline (now : Z) (k : nat) w : worker :=
  let w := cancel_deadline_timer k w in
  let '(tm, id) := schedule now k (timer w) in
  on_client (set_task_id id) k (Worker tm (conns w)).
Definition do_read (k : nat) : worker → worker := on_client (set_pending true) k.

(** How the handler of a read ends: an error (of the socket, of the parser, or the socket is
    closed by now), a connection that is to close after its response, another read, or none
    until the response is there. *)
Inductive outcome : Type := ReadError | CloseAfter | ReadAgain | ReadLater.
#[export] Instance outcome_eq_dec : EqDecision outcome.
Proof. solve_decision. Defined.

(** [start]: the adaptor of a plain socket calls its handler at once. *)
Definition conn_start (now : Z) (k : nat) w : worker :=
  do_read k (start_deadline now k (Worker (timer w) (<[k := Client true 0 false]> (conns w)))).
(** The handler in [do_read]; [handled]: [feed] came to [handle], which cancels the deadline.
    With [CloseAfter] the deadline goes and nothing else is done: no read follows, and the
    socket is left to the end of the write and to [~Connection]. *)
Definition read_handler (now : Z) (k : nat) (handled : bool) (o : outcome) w : worker :=
  let w := on_client (set_pending false) k w in
  let w := if handled then cancel_deadline_timer k w else w in
  match o with
  | ReadError => on_client (set_open false) k (cancel_deadline_timer k w)
  | CloseAfter => cancel_deadline_timer k w
  | ReadAgain => do_read k (start_deadline now k w)
  | ReadLater => w
  end.
(** The end of [do_write_general], for a response that comes later. *)
Definition resume (now : Z) (k : nat) w : worker := do_read k (start_deadline now k w).
(** [~Connection], which closes the socket if a write has not.  A read that is outstanding and
    a task of the timer hold a reference to the connection. *)
Definition free (k : nat) w : worker := Worker (timer w) (delete k (conns w)).

Inductive event : Type :=
| Started (now : Z) (k : nat)
| Read (now : Z) (k : nat) (handled : bool) (o : outcome)
| Resumed (now : Z) (k : nat)
| Freed (now : Z) (k : nat)
| Ticked (now later : Z).
Definition event_time (e : event) : Z :=
  match e with Started now _ | Read now _ _ _ | Resumed now _ | Freed now _ | Ticked now _ => now end.
Definition event_of (e : event) : option nat :=
  match e with Started _ k | Read _ k _ _ | Resumed _ k | Freed _ k => Some k | Ticked _ _ => None end.

(** One event, when it can happen: a new connection is new, a handler runs for a read that is
    outstanding, with an error when the socket was closed, and a connection is freed when
    nothing refers to it. *)
Definition worker_step (e : event) w : option worker :=
  match e with
  | Started now k => if decide (conns w !! k = None) then Some (conn_start now k w) else None
  | Read now k handled o =>
      match conns w !! k with
      | Some c =>
          if decide (pending c = true ∧ (open c = true ∨ o = ReadError)) then
            Some (read_handler now k handled o w)
          else None
      | None => None
      end
  | Resumed now k =>
      match conns w !! k with
      | Some c =>
          if decide (pending c = false) then Some (resume now k w) else None
      | None => None
      end
  | Freed _ k =>
      match conns w !! k with
      | Some c =>
          if decide (pending c = false ∧ k ∉ (tasks_ (timer w)).*2.*2) then Some (free k w)
          else None
      | None => None
      end
  | Ticked now later =>
      match tick_handler (λ k, modify (expire k)) false now later (timer w) (conns w) with
      | (Ok tm, cs) => Some (Worker tm cs)
      | (Throw _, _) => None
      end
  end.
Fixpoint worker_run (evs : list event) w : option worker :=
  match evs with
  | [] => Some w
  | e :: evs' => w' ← worker_step e w; worker_run evs' w'
  end.

(** [server.run] sets the default timeout of the timer. *)
Definition worker_new (now timeout : Z) : worker :=
  Worker (set_default_timeout timeout (task_timer_new now 1000)) ∅.

(** ** A connection that waits has a deadline of its own *)

(** [busy] is the connection whose handler runs. *)
Record guarded (busy : option nat) w : Prop := {
  gd_timer : timer_ok (timer w);
  gd_owner : ∀ id t k, (id, (t, k)) ∈ tasks_ (timer w) →
    ∃ c, conns w !! k = Some c ∧ task_id_ c = id;
  gd_ids : ∀ k c, conns w !! k = Some c → 0 ≤ task_id_ c ≤ highest_id_ (timer w);
  gd_own : ∀ k k' c c', conns w !! k = Some c → conns w !! k' = Some c' →
    task_id_ c = task_id_ c' → task_id_ c ≠ 0 → k = k';
  gd_wait : ∀ k c, conns w !! k = Some c → open c = true → pending c = true → busy ≠ Some k →
    ∃ t, (task_id_ c, (t, k)) ∈ tasks_ (timer w);
}.

Lemma guarded_new now timeout : guarded None (worker_new now timeout).
Proof.
  assert (∀ k c, conns (worker_new now timeout) !! k ≠ Some c) as Hno
    by (intros k c; change (conns _) with (∅ : clients); by rewrite lookup_empty).
  split.
  - by destruct (timer_new_ok (T := nat) now 1000).
  - intros id t k H. by apply not_elem_of_nil in H.
  - by intros k c ?%Hno.
  - by intros k k' c c' ?%Hno.
  - by intros k c ?%Hno.
Qed.
Lemma guarded_task_pos busy w id t k :
  guarded busy w → (id, (t, k)) ∈ tasks_ (timer w) → 1 ≤ id ≤ highest_id_ (timer w).
Proof.
  intros Hg Hin. apply (to_ids _ (gd_timer _ _ Hg)). by apply (list_elem_of_fmap_2 fst) in Hin.
Qed.
Lemma task_of_lookup k w c : conns w !! k = Some c → task_of k w = task_id_ c.
Proof. intros H. unfold task_of. by rewrite H. Qed.

(** An update that keeps the task and starts no read. *)
Lemma guarded_client busy f k w :
  (∀ c, task_id_ (f c) = task_id_ c) →
  (∀ c, busy ≠ Some k → open (f c) = true → pending (f c) = true → open c = true ∧ pending c = true) →
  guarded busy w → guarded busy (on_client f k w).
Proof.
  intros Hf Hw [Ht Ho Hi Hown Hwait].
  assert (∀ k' c, alter f k (conns w) !! k' = Some c →
    ∃ c0, conns w !! k' = Some c0 ∧ task_id_ c = task_id_ c0 ∧ (c = c0 ∨ k' = k ∧ c = f c0)) as Hl.
  { intros k' c H. destruct (decide (k = k')) as [<-|Hne].
    - rewrite lookup_alter_eq in H. destruct (conns w !! k) as [c0|]; [|done]. injection H as <-.
      exists c0. split_and!; [done|apply Hf|by right].
    - rewrite lookup_alter_ne in H by done. exists c. split_and!; [done|done|by left]. }
  split; cbn.
  - done.
  - intros id t k' Hin. destruct (Ho _ _ _ Hin) as (c & Hc & Hid). cbn.
    destruct (decide (k = k')) as [<-|Hne].
    + exists (f c). rewrite lookup_alter_eq, Hc. split; [done|by rewrite Hf].
    + exists c. by rewrite lookup_alter_ne.
  - intros k' c (c0 & Hc & -> & _)%Hl. by eapply Hi.
  - intros k1 k2 c1 c2 (d1 & H1 & E1 & _)%Hl (d2 & H2 & E2 & _)%Hl. rewrite E1, E2. eauto.
  - intros k' c (c0 & Hc & E & Hcase)%Hl Hop Hpe Hb. rewrite E.
    destruct Hcase as [->|[-> ->]]; [by apply Hwait|].
    destruct (Hw _ Hb Hop Hpe). by apply Hwait.
Qed.
(** The handler of [k] cancels its task, and no other. *)
Lemma guarded_cancel k w :
  guarded (Some k) w → guarded (Some k) (cancel_deadline_timer k w) ∧
  ∀ id t, (id, (t, k)) ∉ tasks_ (timer (cancel_deadline_timer k w)).
Proof.
  intros Hg. pose proof Hg as [Ht Ho Hi Hown Hwait]. split.
  - split; cbn.
    + by apply cancel_ok.
    + intros id t k' [_ Hin]%elem_of_erase. by eapply Ho.
    + done.
    + done.
    + intros k' c Hc Hop Hpe Hb. destruct (Hwait k' c Hc Hop Hpe Hb) as (t & Hin). exists t.
      apply elem_of_erase. split; [|done]. cbn. intros Heq.
      pose proof (guarded_task_pos _ _ _ _ _ Hg Hin).
      unfold task_of in Heq. destruct (conns w !! k) as [c0|] eqn:E; cbn in Heq; [|lia].
      apply Hb. f_equal. apply (Hown k k' c0 c); [done|done|done|lia].
  - intros id t [Hne Hin]%elem_of_erase. cbn in Hne.
    destruct (Ho _ _ _ Hin) as (c & Hc & Hid). by rewrite (task_of_lookup _ _ _ Hc) in Hne.
Qed.
(** The highest identifier grows by one at most. *)
Definition room (n : nat) w : Prop := highest_id_ (timer w) + Z.of_nat n < 2 ^ 64.
Lemma guarded_start now k w c :
  guarded (Some k) w → conns w !! k = Some c → room 1 w →
  let w' := do_read k (start_deadline now k w) in
  let due := now + default_timeout_ (timer w) * tick (timer w) in
  guarded None w' ∧
  tasks_ (timer w') = tasks_ (timer (cancel_deadline_timer k w)) ++ [(highest_id_ (timer w) + 1, (due, k))] ∧
  highest_id_ (timer w') = highest_id_ (timer w) + 1 ∧
  conns w' !! k = Some (Client (open c) (highest_id_ (timer w) + 1) true).
Proof.
  intros Hg Hc Hr w' due. destruct (guarded_cancel k w Hg) as [Hg' Hno].
  pose proof (gd_timer _ _ Hg') as Hok. unfold room in Hr.
  assert (highest_id_ (timer (cancel_deadline_timer k w)) + 1 < 2 ^ 64) as Hr1 by (cbn; lia).
  set (w1 := cancel_deadline_timer k w) in *.
  set (entry := (highest_id_ (timer w) + 1, (due, k)) : Z * (Z * nat)).
  assert (w' = Worker (set_tasks (tasks_ (timer w1) ++ [entry]) (highest_id_ (timer w) + 1) (timer w1))
    (alter (set_pending true) k (alter (set_task_id (highest_id_ (timer w) + 1)) k (conns w)))) as Ew.
  { unfold w', start_deadline, schedule. fold w1. by rewrite schedule_spec by done. }
  assert (conns w' !! k = Some (Client (open c) (highest_id_ (timer w) + 1) true)) as Hk.
  { rewrite Ew. cbn [conns]. by rewrite !lookup_alter_eq, Hc. }
  assert (∀ k', k' ≠ k → conns w' !! k' = conns w !! k') as Hne.
  { intros k' Hk'. rewrite Ew. cbn [conns]. by rewrite !lookup_alter_ne by done. }
  assert (tasks_ (timer w') = tasks_ (timer w1) ++ [entry]) as Htasks by by rewrite Ew.
  assert (highest_id_ (timer w') = highest_id_ (timer w) + 1) as Hhigh by by rewrite Ew.
  split_and!; [|exact Htasks|exact Hhigh|exact Hk]. destruct Hg' as [Ht Ho Hi Hown Hwait].
  pose proof (to_highest _ Ht) as Hh. cbn in Hh, Hi.
  split.
  - rewrite Ew. cbn [timer]. pose proof (schedule_ok now k (default_timeout_ (timer w)) _ Ht Hr1) as H.
    by rewrite schedule_spec in H.
  - intros id t k'. rewrite Htasks, elem_of_app, list_elem_of_singleton.
    intros [Hin|Heq]; [|unfold entry in Heq; simplify_eq; by eexists].
    destruct (decide (k' = k)) as [->|Hk']; [by apply Hno in Hin|].
    rewrite Hne by done. by eapply Ho.
  - intros k' c' Hc'. rewrite Hhigh. destruct (decide (k' = k)) as [->|Hk'].
    + rewrite Hk in Hc'. injection Hc' as <-. cbn. lia.
    + rewrite Hne in Hc' by done. apply Hi in Hc'. lia.
  - intros k1 k2 c1 c2 H1 H2. destruct (decide (k1 = k)) as [->|H1k], (decide (k2 = k)) as [->|H2k];
      [done|rewrite Hk in H1; rewrite Hne in H2 by done|rewrite Hk in H2; rewrite Hne in H1 by done|
       rewrite Hne in H1, H2 by done; by apply Hown].
    + injection H1 as <-. apply Hi in H2. cbn. lia.
    + injection H2 as <-. apply Hi in H1. cbn. lia.
  - intros k' c' Hc' Hop Hpe _. rewrite Htasks. setoid_rewrite elem_of_app.
    destruct (decide (k' = k)) as [->|Hk'].
    + rewrite Hk in Hc'. injection Hc' as <-. exists due. right. by apply list_elem_of_singleton.
    + rewrite Hne in Hc' by done. destruct (Hwait k' c' Hc' Hop Hpe) as (t & Hin); [congruence|].
      exists t. by left.
Qed.

Lemma guarded_busy k w : guarded None w → guarded (Some k) w.
Proof. intros [? ? ? ? Hw]. split; try done. intros k' c Hc Ho Hp _. by apply Hw. Qed.
Lemma guarded_idle k w :
  guarded (Some k) w → (∀ c, conns w !! k = Some c → open c = false ∨ pending c = false) →
  guarded None w.
Proof.
  intros [? ? ? ? Hw] Hk. split; try done. intros k' c Hc Ho Hp _.
  destruct (decide (k = k')) as [<-|Hne]; [|apply Hw; congruence].
  destruct (Hk c Hc); congruence.
Qed.
Lemma on_client_lookup f k w : conns (on_client f k w) !! k = f <$> conns w !! k.
Proof. apply lookup_alter_eq. Qed.
Lemma on_client_other f k k' w : k ≠ k' → conns (on_client f k w) !! k' = conns w !! k'.
Proof. apply lookup_alter_ne. Qed.

(** A new connection, before its deadline. *)
Lemma guarded_accept k w :
  guarded None w → conns w !! k = None →
  guarded (Some k) (Worker (timer w) (<[k := Client true 0 false]> (conns w))).
Proof.
  intros [Ht Ho Hi Hown Hwait] Hk. pose proof (to_highest _ Ht) as Hh.
  assert (∀ k' c, <[k := Client true 0 false]> (conns w) !! k' = Some c →
    k' = k ∧ c = Client true 0 false ∨ k' ≠ k ∧ conns w !! k' = Some c) as Hl.
  { intros k' c. rewrite lookup_insert_Some. naive_solver. }
  split; cbn.
  - done.
  - intros id t k' Hin. destruct (Ho _ _ _ Hin) as (c & Hc & Hid). exists c.
    rewrite lookup_insert_ne by congruence. done.
  - intros k' c [[_ ->]|[_ Hc]]%Hl; [cbn; lia|by apply Hi in Hc].
  - intros k1 k2 c1 c2 [[-> ->]|[_ H1]]%Hl [[-> ->]|[_ H2]]%Hl E Hne;
      cbn in *; try congruence. by apply (Hown k1 k2 c1 c2).
  - intros k' c [[-> ->]|[_ Hc]]%Hl; [done|]. intros Hop Hpe _. by apply Hwait.
Qed.

(** The tasks that are due close their connections. *)
Lemma effects_expire l (cs : clients) k :
  effects expire l cs !! k
  = (λ c, if decide (k ∈ l.*2.*2) then set_open false c else c) <$> cs !! k.
Proof.
  revert cs. induction l as [|[id [t k0]] l IH]; intros cs.
  - cbn. by destruct (cs !! k) as [[]|].
  - change (effects expire ((id, (t, k0)) :: l) cs) with (effects expire l (expire k0 cs)).
    rewrite IH. cbn. unfold expire. destruct (decide (k0 = k)) as [->|Hne].
    + rewrite lookup_alter_eq. destruct (cs !! k) as [[op id' pe]|]; [|done]. cbn.
      rewrite (decide_True (P := k ∈ k :: _)) by by left.
      destruct op; cbn; by case_decide.
    + rewrite lookup_alter_ne by done. destruct (cs !! k) as [c|]; [|done]. cbn.
      assert (k ∈ k0 :: l.*2.*2 ↔ k ∈ l.*2.*2) as Hk by set_solver.
      by do 2 case_decide; try tauto.
Qed.
Lemma tick_step now later w w' :
  timer_ok (timer w) → worker_step (Ticked now later) w = Some w' →
  w' = Worker (set_expires (Some (later + tick (timer w))) (set_tasks (kept now (tasks_ (timer w)))
      (match kept now (tasks_ (timer w)) with [] => 0 | _ => highest_id_ (timer w) end) (timer w)))
    (effects expire (due now (tasks_ (timer w))) (conns w)).
Proof.
  intros Hg. cbn [worker_step tick_handler]. unfold mbind, M_bind.
  rewrite process_tasks_spec by done. cbn. by intros [= <-].
Qed.
Lemma guarded_tick now later w w' :
  guarded None w → worker_step (Ticked now later) w = Some w' → tasks_ (timer w') ≠ [] →
  guarded None w'.
Proof.
  intros Hg Hs Hne. pose proof (tick_step _ _ _ _ (gd_timer _ _ Hg) Hs) as ->. clear Hs. cbn in Hne.
  destruct Hg as [Ht Ho Hi Hown Hwait].
  set (cs := effects _ _ _).
  assert (∀ k c, cs !! k = Some c → ∃ c0, conns w !! k = Some c0 ∧ task_id_ c = task_id_ c0 ∧
    (open c = true → pending c = true →
       open c0 = true ∧ pending c0 = true ∧ k ∉ (due now (tasks_ (timer w))).*2.*2)) as Hl.
  { intros k c. unfold cs. rewrite effects_expire.
    intros (c0 & Hc0 & ->)%fmap_Some. exists c0. split; [done|]. by case_decide. }
  assert (highest_id_ (set_tasks (kept now (tasks_ (timer w)))
    (match kept now (tasks_ (timer w)) with [] => 0 | _ => highest_id_ (timer w) end) (timer w))
    = highest_id_ (timer w)) as Hhigh by (cbn; by case_match).
  cbn in Hhigh. destruct Ht as [Hso Hid Hhi].
  assert (∀ e, e ∈ kept now (tasks_ (timer w)) ↔ now ≤ e.2.1 ∧ e ∈ tasks_ (timer w)) as Hkept
    by (intros e; unfold kept; by rewrite list_elem_of_filter).
  split; cbn [timer conns tasks_ set_expires set_tasks highest_id_]; rewrite ?Hhigh.
  - split; cbn; rewrite ?Hhigh; [by apply filter_sorted| |done].
    intros id (e & -> & [_ He]%Hkept)%list_elem_of_fmap. by apply Hid, list_elem_of_fmap_2.
  - intros id t k [_ Hin]%Hkept. destruct (Ho _ _ _ Hin) as (c & Hc & Hidc).
    unfold cs. rewrite effects_expire, Hc. cbn. eexists. split; [done|]. by case_decide.
  - intros k c (c0 & Hc0 & -> & _)%Hl. by eapply Hi.
  - intros k1 k2 c1 c2 (d1 & H1 & E1 & _)%Hl (d2 & H2 & E2 & _)%Hl. rewrite E1, E2. eauto.
  - intros k c (c0 & Hc0 & -> & Hopen)%Hl Hop Hpe Hb. destruct (Hopen Hop Hpe) as (Ho0 & Hp0 & Hnd).
    destruct (Hwait k c0 Hc0 Ho0 Hp0 Hb) as (t & Hin). exists t. apply Hkept. split; [|done].
    cbn. destruct (Z.le_gt_cases now t) as [|Hlt]; [done|]. destruct Hnd.
    rewrite <- list_fmap_compose. apply (list_elem_of_fmap_2 (snd ∘ snd) _ (task_id_ c0, (t, k))).
    unfold due. by rewrite list_elem_of_filter.
Qed.

(** With no connection left the identifiers can start again. *)
Lemma guarded_idle_tick now later w w' :
  guarded None w → worker_step (Ticked now later) w = Some w' → conns w' = ∅ → guarded None w'.
Proof.
  intros Hg Hs He. pose proof (gd_timer _ _ Hg) as Hok.
  pose proof (tick_step _ _ _ _ Hok Hs) as ->. clear Hs. cbn in He.
  assert (∀ k, conns w !! k = None) as Hno.
  { intros k. apply (f_equal (lookup k)) in He. rewrite effects_expire, lookup_empty in He.
    by destruct (conns w !! k). }
  assert (kept now (tasks_ (timer w)) = []) as Hk.
  { apply elem_of_nil_inv. intros [id [t k]] [_ Hin]%list_elem_of_filter.
    destruct (gd_owner _ _ Hg _ _ _ Hin) as (c & Hc & _). by rewrite Hno in Hc. }
  rewrite Hk, He. split; cbn.
  - split; cbn; [constructor|by intros id ?%not_elem_of_nil|done].
  - by intros id t k ?%not_elem_of_nil.
  - intros k c. by rewrite lookup_empty.
  - intros k k' c c'. by rewrite lookup_empty.
  - intros k c. by rewrite lookup_empty.
Qed.
Lemma guarded_freed now k w w' :
  guarded None w → worker_step (Freed now k) w = Some w' → guarded None w'.
Proof.
  intros [Ht Ho Hi Hown Hwait]. cbn [worker_step]. destruct (conns w !! k) as [c|] eqn:Hk; [|done].
  case_decide as H; [|done]. destruct H as [_ Hno]. intros [= <-].
  split; cbn [timer conns free].
  - done.
  - intros id t k' Hin. rewrite lookup_delete_ne; [by eapply Ho|]. intros <-. apply Hno.
    rewrite <- list_fmap_compose. by apply (list_elem_of_fmap_2 (snd ∘ snd)) in Hin.
  - intros k' c' [_ Hc]%lookup_delete_Some. by eapply Hi.
  - intros k1 k2 c1 c2 [_ H1]%lookup_delete_Some [_ H2]%lookup_delete_Some. by apply Hown.
  - intros k' c' [_ Hc]%lookup_delete_Some. by apply Hwait.
Qed.
Lemma guarded_started now k w w' :
  guarded None w → room 1 w → worker_step (Started now k) w = Some w' → guarded None w'.
Proof.
  intros Hg Hr. cbn [worker_step]. case_decide as Hk; [|done]. intros [= <-].
  pose proof (guarded_accept k w Hg Hk) as Hg1.
  apply (guarded_start now k _ (Client true 0 false) Hg1); [apply lookup_insert_eq|done].
Qed.
Lemma guarded_resumed now k w w' :
  guarded None w → room 1 w → worker_step (Resumed now k) w = Some w' → guarded None w'.
Proof.
  intros Hg Hr. cbn [worker_step]. destruct (conns w !! k) as [c|] eqn:Hk; [|done].
  case_decide; [|done]. intros [= <-].
  exact (proj1 (guarded_start now k w c (guarded_busy k w Hg) Hk Hr)).
Qed.
Lemma guarded_read now k handled o w w' :
  guarded None w → room 1 w → worker_step (Read now k handled o) w = Some w' → guarded None w'.
Proof.
  intros Hg Hr. cbn [worker_step]. destruct (conns w !! k) as [c|] eqn:Hk; [|done].
  case_decide; [|done]. intros [= <-]. unfold read_handler.
  set (w1 := on_client (set_pending false) k w).
  assert (guarded (Some k) w1) as Hg1 by (apply guarded_client; [done|done|by apply guarded_busy]).
  set (w2 := if handled then cancel_deadline_timer k w1 else w1).
  assert (guarded (Some k) w2 ∧ highest_id_ (timer w2) = highest_id_ (timer w)
    ∧ conns w2 !! k = Some (set_pending false c)) as (Hg2 & Hh2 & Hk2).
  { assert (conns w1 !! k = Some (set_pending false c)) by (unfold w1; by rewrite on_client_lookup, Hk).
    unfold w2. destruct handled; split_and!; try done. by apply guarded_cancel. }
  assert (∀ w0, conns w0 !! k = Some (set_pending false c) → guarded (Some k) w0 → guarded None w0)
    as Hdone by (intros w0 H0 Hg0; apply (guarded_idle k); [done|]; rewrite H0; intros c' [= <-]; by right).
  destruct o.
  - apply (guarded_idle k); [apply guarded_client; [done|done|by apply guarded_cancel]|].
    intros c'. rewrite on_client_lookup. intros (c0 & _ & ->)%fmap_Some. by left.
  - apply Hdone; [done|by apply guarded_cancel].
  - apply (guarded_start now k w2 _ Hg2 Hk2). unfold room in *. by rewrite Hh2.
  - by apply Hdone.
Qed.

(** The timer alone: its table stays in order, its settings stay, and an event issues one
    identifier at most. *)
Definition same_settings w w' : Prop :=
  tick (timer w') = tick (timer w) ∧ default_timeout_ (timer w') = default_timeout_ (timer w).
Lemma timer_start_ok now k w :
  timer_ok (timer w) → room 1 w →
  let w' := do_read k (start_deadline now k w) in
  timer_ok (timer w') ∧ highest_id_ (timer w') = highest_id_ (timer w) + 1 ∧ same_settings w w'.
Proof.
  intros Hok Hr w'. unfold room in Hr.
  assert (timer_ok (cancel (task_of k w) (timer w))) as Hc by by apply cancel_ok.
  assert (timer w' = (schedule now k (cancel (task_of k w) (timer w))).1) as -> by done.
  unfold schedule. split; [apply schedule_ok; [done|cbn; lia]|].
  rewrite schedule_spec by (try done; cbn; lia). done.
Qed.
Lemma timer_step e w w' :
  timer_ok (timer w) → room 1 w → worker_step e w = Some w' →
  timer_ok (timer w') ∧ highest_id_ (timer w') ≤ highest_id_ (timer w) + 1 ∧ same_settings w w'.
Proof.
  intros Hok Hr Hs.
  assert (∀ (w0 : worker) now k, timer w0 = timer w ∨ (∃ id, timer w0 = cancel id (timer w)) →
    timer_ok (timer (do_read k (start_deadline now k w0))) ∧
    highest_id_ (timer (do_read k (start_deadline now k w0))) ≤ highest_id_ (timer w) + 1 ∧
    same_settings w (do_read k (start_deadline now k w0))) as Hstart.
  { intros w0 now k Hw0.
    assert (timer_ok (timer w0) ∧ highest_id_ (timer w0) = highest_id_ (timer w) ∧
      same_settings w w0) as (Hok0 & Hh0 & [Hs1 Hs2]).
    { unfold same_settings.
      destruct Hw0 as [->|(id & ->)]; split_and!; try done. by apply cancel_ok. }
    destruct (timer_start_ok now k w0 Hok0) as (H1 & H2 & [H3 H4]);
      [unfold room in *; by rewrite Hh0|].
    split; [exact H1|]. split; [lia|]. split; congruence. }
  assert (timer w' = timer w → timer_ok (timer w') ∧
    highest_id_ (timer w') ≤ highest_id_ (timer w) + 1 ∧ same_settings w w') as Hsame
    by (unfold same_settings; intros ->; split_and!; [done|lia|done|done]).
  destruct e as [now k|now k handled o|now k|now k|now later].
  - cbn in Hs. case_decide; [|done]. injection Hs as <-. apply Hstart. by left.
  - cbn in Hs. destruct (conns w !! k) as [c|]; [|done]. case_decide; [|done].
    injection Hs as <-. unfold read_handler.
    set (w1 := if handled then _ else _).
    assert (timer w1 = timer w ∨ ∃ id, timer w1 = cancel id (timer w)) as Hw1
      by (unfold w1; destruct handled; [right; by eexists|by left]).
    assert (timer_ok (timer w1) ∧ highest_id_ (timer w1) = highest_id_ (timer w) ∧
      same_settings w w1) as (Hok1 & Hh1 & [Hs1 Hs2]).
    { unfold same_settings.
      destruct Hw1 as [->|(id & ->)]; split_and!; try done. by apply cancel_ok. }
    destruct o; [| |by apply Hstart|].
    + split; [by apply (cancel_ok (task_of k w1))|]. split; [cbn; lia|done].
    + split; [by apply (cancel_ok (task_of k w1))|]. split; [cbn; lia|done].
    + split; [done|]. split; [lia|done].
  - cbn in Hs. destruct (conns w !! k) as [c|]; [|done]. case_decide; [|done].
    injection Hs as <-. apply Hstart. by left.
  - cbn in Hs. destruct (conns w !! k) as [c|]; [|done]. case_decide; [|done].
    injection Hs as <-. by apply Hsame.
  - rewrite (tick_step _ _ _ _ Hok Hs). destruct Hok as [Hso Hid Hhi].
    assert (∀ e, e ∈ kept now (tasks_ (timer w)) → 1 ≤ e.1 ≤ highest_id_ (timer w)) as Hkept
      by (intros e [_ He]%list_elem_of_filter; by apply Hid, list_elem_of_fmap_2).
    split; [|split; [|done]].
    + split; [by apply filter_sorted| |by cbn; case_match]. cbn.
      intros id (e & -> & He)%list_elem_of_fmap. pose proof (Hkept e He).
      destruct (kept now (tasks_ (timer w))); [by apply not_elem_of_nil in He|done].
    + cbn. case_match; lia.
Qed.

(** A tick that leaves no task, and so makes the identifiers start again, leaves no
    connection either. *)
Definition is_tick (e : event) : bool := match e with Ticked _ _ => true | _ => false end.
Definition idle_alone (e : event) w' : Prop :=
  is_tick e = true → tasks_ (timer w') = [] → conns w' = ∅.
Fixpoint never_idle (evs : list event) w : Prop :=
  match evs with
  | [] => True
  | e :: evs' =>
      match worker_step e w with
      | Some w' => idle_alone e w' ∧ never_idle evs' w'
      | None => True
      end
  end.

Lemma guarded_step e w w' :
  guarded None w → room 1 w → worker_step e w = Some w' → idle_alone e w' → guarded None w'.
Proof.
  intros Hg Hr Hs Hne. destruct e as [now k|now k handled o|now k|now k|now later].
  - exact (guarded_started _ _ _ _ Hg Hr Hs).
  - exact (guarded_read now k handled o _ _ Hg Hr Hs).
  - exact (guarded_resumed _ _ _ _ Hg Hr Hs).
  - exact (guarded_freed _ _ _ _ Hg Hs).
  - destruct (tasks_ (timer w')) eqn:E.
    + exact (guarded_idle_tick _ _ _ _ Hg Hs (Hne eq_refl E)).
    + apply (guarded_tick _ _ _ _ Hg Hs). by rewrite E.
Qed.
Lemma guarded_run evs w w' :
  guarded None w → room (length evs) w → never_idle evs w → worker_run evs w = Some w' →
  guarded None w' ∧ highest_id_ (timer w') ≤ highest_id_ (timer w) + Z.of_nat (length evs) ∧
  same_settings w w'.
Proof.
  revert w. induction evs as [|e evs IH]; intros w Hg Hr Hn Hrun.
  - injection Hrun as <-. split_and!; [done|cbn; lia|done].
  - cbn [worker_run never_idle length] in *. unfold room in Hr.
    destruct (worker_step e w) as [w1|] eqn:E; [|done]. cbn in Hrun. destruct Hn as [Hne Hn].
    assert (room 1 w) as Hr1 by (unfold room; lia).
    destruct (timer_step e w w1 (gd_timer _ _ Hg) Hr1 E) as (_ & Hh & [Hs1 Hs2]).
    destruct (IH w1 (guarded_step e w w1 Hg Hr1 E Hne)) as (Hg' & Hh' & [Hs1' Hs2']);
      [unfold room; lia|done|done|].
    split_and!; [done|lia|]. split; congruence.
Qed.

(** A connection that waits for bytes has a deadline of its own.  Whatever the order in
    which connections start, reads end, responses come, connections go and the timer ticks:
    when each tick of the worker leaves a task in its timer or no connection at all, each open
    connection with a read outstanding has a task in the timer, under its [task_id_], and it
    is the one that closes it. *)
Theorem waiting_connections_guarded evs now timeout w' :
  let w := worker_new now timeout in
  room (length evs) w → never_idle evs w → worker_run evs w = Some w' →
  ∀ k c, conns w' !! k = Some c → open c = true → pending c = true →
    ∃ t, (task_id_ c, (t, k)) ∈ tasks_ (timer w').
Proof.
  intros w Hr Hn Hrun k c Hc Ho Hp.
  destruct (guarded_run evs w w' (guarded_new now timeout) Hr Hn Hrun) as (Hg & _).
  by apply (gd_wait _ _ Hg).
Qed.

(** ** A silent connection is closed *)

(** Its socket is closed, or the connection is gone and its socket with it. *)
Definition closed (k : nat) w : Prop := ∀ c, conns w !! k = Some c → open c = false.
(** Nothing comes from the client: what runs of [k] is the handler of a read that failed, or
    its destructor. *)
Definition silent (k : nat) (e : event) : Prop :=
  event_of e = Some k → ∃ now, e = Freed now k ∨ ∃ handled, e = Read now k handled ReadError.
(** The events come in the order of their times up to [last], and ticks are handled at most
    [delay] later than a tick length after the one before, the next one by [by_]. *)
Fixpoint events_timely (delay by_ now last length : Z) (evs : list event) : Prop :=
  match evs with
  | [] => now ≤ last ≤ by_
  | e :: evs' =>
      now ≤ event_time e ≤ by_ ∧
      events_timely delay (if is_tick e then event_time e + length + delay else by_)
        (event_time e) last length evs'
  end.

(** Handlers of another connection do not touch [k]. *)
Lemma start_other now k k' w : k' ≠ k → conns (start_deadline now k' w) !! k = conns w !! k.
Proof. intros Hne. unfold start_deadline. cbn. by rewrite lookup_alter_ne. Qed.
Lemma handler_other e k w w' :
  worker_step e w = Some w' → is_tick e = false → event_of e ≠ Some k →
  conns w' !! k = conns w !! k.
Proof.
  intros Hs Ht Hne. destruct e as [now k'|now k' handled o|now k'|now k'|]; [..|done].
  all: assert (k' ≠ k) by (cbn in Hne; congruence); cbn [worker_step] in Hs.
  - case_decide; [|done]. injection Hs as <-. unfold conn_start, do_read.
    rewrite on_client_other, start_other by done. by apply lookup_insert_ne.
  - destruct (conns w !! k') as [c|]; [|done]. case_decide; [|done]. injection Hs as <-.
    unfold read_handler, do_read. destruct o, handled;
      rewrite ?on_client_other, ?start_other by done; cbn [cancel_deadline_timer conns];
      by rewrite ?on_client_other.
  - destruct (conns w !! k') as [c|]; [|done]. case_decide; [|done]. injection Hs as <-.
    unfold resume, do_read. by rewrite on_client_other, start_other.
  - destruct (conns w !! k') as [c|]; [|done]. case_decide; [|done]. injection Hs as <-.
    by apply lookup_delete_ne.
Qed.
Lemma silent_closes e k w w' :
  worker_step e w = Some w' → silent k e → event_of e = Some k → closed k w'.
Proof.
  intros Hs Hsil He. destruct (Hsil He) as (now & [->|(handled & ->)]);
    cbn in Hs; destruct (conns w !! k) as [c|] eqn:Hk; [..|done| |done]; try done;
    case_decide; try done; injection Hs as <-; intros c'.
  - cbn. by rewrite lookup_delete_eq.
  - unfold read_handler. rewrite on_client_lookup. by intros (c0 & _ & ->)%fmap_Some.
Qed.
Lemma closed_step e k w w' :
  timer_ok (timer w) → worker_step e w = Some w' → silent k e → closed k w → closed k w'.
Proof.
  intros Hok Hs Hsil Hc. destruct (decide (event_of e = Some k)) as [He|Hne];
    [by apply (silent_closes e k w w')|].
  destruct (is_tick e) eqn:Ht.
  - destruct e as [| | | |now later]; try done. rewrite (tick_step _ _ _ _ Hok Hs). intros c.
    cbn [conns]. rewrite effects_expire. intros (c0 & Hc0 & ->)%fmap_Some.
    case_decide; [done|by apply Hc].
  - intros c. rewrite (handler_other _ _ _ _ Hs Ht Hne). apply Hc.
Qed.

(** The deadline of [k] stays until it closes the connection. *)
Lemma cancel_other k k' w id t :
  guarded (Some k') w → k' ≠ k → (id, (t, k)) ∈ tasks_ (timer w) →
  (id, (t, k)) ∈ tasks_ (timer (cancel_deadline_timer k' w)).
Proof.
  intros Hg Hne Hin. cbn. apply elem_of_erase. split; [|done]. cbn. intros ->.
  pose proof (guarded_task_pos _ _ _ _ _ Hg Hin) as Hpos. unfold task_of in *.
  destruct (gd_owner _ _ Hg _ _ _ Hin) as (c & Hc & Hid).
  destruct (conns w !! k') as [c'|] eqn:E; cbn in *; [|lia].
  apply Hne. apply (gd_own _ _ Hg k' k c' c); [done|done|done|lia].
Qed.
Lemma entry_step e k id t w w' :
  guarded None w → room 1 w → worker_step e w = Some w' → silent k e →
  (id, (t, k)) ∈ tasks_ (timer w) →
  (id, (t, k)) ∈ tasks_ (timer w') ∧ (is_tick e = true → event_time e ≤ t) ∨ closed k w'.
Proof.
  intros Hg Hr Hs Hsil Hin. destruct (decide (event_of e = Some k)) as [He|Hne].
  { right. by apply (silent_closes e k w w'). }
  destruct e as [now k'|now k' handled o|now k'|now k'|now later].
  - left. split; [|done]. cbn in Hs. case_decide as Hk; [|done]. injection Hs as <-.
    assert (k' ≠ k) by (cbn in Hne; congruence).
    pose proof (guarded_accept k' w Hg Hk) as Hg1.
    destruct (guarded_start now k' _ (Client true 0 false) Hg1) as (_ & E & _);
      [apply lookup_insert_eq|done|].
    unfold conn_start. rewrite E. apply elem_of_app. left. by apply cancel_other.
  - left. split; [|done]. cbn in Hs. destruct (conns w !! k') as [c|] eqn:Hk; [|done].
    case_decide; [|done]. injection Hs as <-. assert (k' ≠ k) by (cbn in Hne; congruence).
    unfold read_handler. set (w1 := on_client (set_pending false) k' w).
    assert (guarded (Some k') w1) as Hg1 by (apply guarded_client; [done|done|by apply guarded_busy]).
    set (w2 := if handled then cancel_deadline_timer k' w1 else w1).
    assert (guarded (Some k') w2 ∧ (id, (t, k)) ∈ tasks_ (timer w2) ∧ room 1 w2 ∧
      conns w2 !! k' = Some (set_pending false c)) as (Hg2 & Hin2 & Hr2 & Hk2).
    { assert (conns w1 !! k' = Some (set_pending false c)) by (unfold w1; by rewrite on_client_lookup, Hk).
      unfold w2. destruct handled; split_and!; try done; [by apply guarded_cancel|by apply cancel_other]. }
    destruct o; [by apply cancel_other|by apply cancel_other| |done].
    destruct (guarded_start now k' w2 _ Hg2 Hk2 Hr2) as (_ & E & _).
    rewrite E. apply elem_of_app. left. by apply cancel_other.
  - left. split; [|done]. cbn in Hs. destruct (conns w !! k') as [c|] eqn:Hk; [|done].
    case_decide; [|done]. injection Hs as <-. assert (k' ≠ k) by (cbn in Hne; congruence).
    pose proof (guarded_busy k' w Hg) as Hg1.
    destruct (guarded_start now k' w c Hg1 Hk Hr) as (_ & E & _).
    unfold resume. rewrite E. apply elem_of_app. left. by apply cancel_other.
  - left. split; [|done]. cbn in Hs. destruct (conns w !! k') as [c|]; [|done].
    case_decide; [|done]. by injection Hs as <-.
  - rewrite (tick_step _ _ _ _ (gd_timer _ _ Hg) Hs). cbn [timer conns]. cbn [event_time].
    destruct (Z.le_gt_cases now t) as [Hle|Hlt].
    + left. split; [|done]. cbn. unfold kept. by rewrite list_elem_of_filter.
    + right. intros c. cbn [conns].
      rewrite effects_expire. intros (c0 & _ & ->)%fmap_Some. rewrite decide_True; [done|]. rewrite <- list_fmap_compose.
      apply (list_elem_of_fmap_2 (snd ∘ snd) _ (id, (t, k))). unfold due.
      by rewrite list_elem_of_filter.
Qed.

(** While [k] has its task no tick leaves the timer without one; once [k] is closed the
    other connections do not matter. *)
Lemma silent_run delay by_ now last k id t evs w w' :
  timer_ok (timer w) → room (length evs) w → worker_run evs w = Some w' →
  events_timely delay by_ now last (tick (timer w)) evs → (∀ e, e ∈ evs → silent k e) →
  t + tick (timer w) + delay < last →
  guarded None w ∧ (id, (t, k)) ∈ tasks_ (timer w) ∧ by_ ≤ t + tick (timer w) + delay ∨ closed k w →
  closed k w'.
Proof.
  revert by_ now w. induction evs as [|e evs IH]; intros by_ now w Hok Hr Hrun Ht Hsil Hlast Hw.
  - injection Hrun as <-. cbn in Ht. destruct Hw as [(_ & _ & Hby)|]; [lia|done].
  - cbn [worker_run events_timely length] in *. unfold room in Hr.
    destruct (worker_step e w) as [w1|] eqn:E; [|done]. cbn in Hrun.
    assert (room 1 w) as Hr1 by (unfold room; lia).
    destruct (timer_step e w w1 Hok Hr1 E) as (Hok1 & Hh & [Htick _]).
    destruct Ht as [Hto Ht]. rewrite <- Htick in *.
    apply (IH _ _ w1 Hok1) in Ht; [done|unfold room; lia|done| |done|].
    { intros e' He'. apply Hsil. by right. }
    assert (silent k e) as Hs by (apply Hsil; by left).
    destruct Hw as [(Hg & Hin & Hby)|Hc]; [|right; by apply (closed_step e k w)].
    destruct (entry_step e k id t w w1 Hg) as [[Hin' Hle]|Hc]; [done|done|done|done| |by right].
    left. split; [|split; [done|destruct (is_tick e); [specialize (Hle eq_refl); lia|done]]].
    apply (guarded_step e w w1 Hg Hr1 E). intros _ Hnil. rewrite Hnil in Hin'.
    by apply not_elem_of_nil in Hin'.
Qed.

(** Events after which [k] waits for bytes, with a new deadline. *)
Definition waits_from (e : event) (k : nat) : Prop :=
  ∃ now, e = Started now k ∨ e = Resumed now k ∨ ∃ handled, e = Read now k handled ReadAgain.
Lemma waits_entry e k w w1 :
  guarded None w → room 1 w → worker_step e w = Some w1 → waits_from e k →
  ∃ id, (id, (event_time e + default_timeout_ (timer w) * tick (timer w), k)) ∈ tasks_ (timer w1).
Proof.
  intros Hg Hr Hs (now & [->|[->|(handled & ->)]]); cbn [worker_step event_time] in *.
  - case_decide as Hk; [|done]. injection Hs as <-.
    pose proof (guarded_accept k w Hg Hk) as Hg1.
    destruct (guarded_start now k _ (Client true 0 false) Hg1) as (_ & E & _);
      [apply lookup_insert_eq|done|].
    eexists. unfold conn_start. rewrite E. apply elem_of_app. right. by left.
  - destruct (conns w !! k) as [c|] eqn:Hk; [|done]. case_decide; [|done]. injection Hs as <-.
    destruct (guarded_start now k w c (guarded_busy k w Hg) Hk Hr) as (_ & E & _).
    eexists. unfold resume. rewrite E. apply elem_of_app. right. by left.
  - destruct (conns w !! k) as [c|] eqn:Hk; [|done]. case_decide; [|done]. injection Hs as <-.
    unfold read_handler. set (w1 := on_client (set_pending false) k w).
    assert (guarded (Some k) w1) as Hg1 by (apply guarded_client; [done|done|by apply guarded_busy]).
    assert (conns w1 !! k = Some (set_pending false c)) as Hk1 by (unfold w1; by rewrite on_client_lookup, Hk).
    set (w2 := if handled then cancel_deadline_timer k w1 else w1).
    assert (guarded (Some k) w2 ∧ conns w2 !! k = Some (set_pending false c) ∧ room 1 w2 ∧
      default_timeout_ (timer w2) = default_timeout_ (timer w) ∧ tick (timer w2) = tick (timer w))
      as (Hg2 & Hk2 & Hr2 & <- & <-)
      by (unfold w2; destruct handled; split_and!; try done; by apply guarded_cancel).
    destruct (guarded_start now k w2 _ Hg2 Hk2 Hr2) as (_ & E & _).
    eexists. rewrite E. apply elem_of_app. right. by left.
Qed.

(** C18: a silent client is disconnected.  A worker runs from its beginning through any
    events, then a connection comes to wait for bytes: it started, it was read from and
    another read was begun, or its response was completed later and reading resumed.  From
    then on nothing comes from its client, whatever the other connections of the worker do.
    When ticks are handled at most a delay after they fall due, the socket is closed once the
    timeout, a tick length and that delay have passed.  It is assumed that before the
    connection came to wait each tick left a task in the timer or no connection at all
    (identifiers then start again, and a connection that is left would cancel the task of
    another, [deadline_cancelled_by_another]), and that there are fewer than [2^64] events. *)
Theorem silent_client_disconnected began timeout pre delay by_ last k e evs w w' :
  let length_of_tick := nanoseconds 1000 in
  worker_run pre (worker_new began timeout) = Some w → never_idle pre (worker_new began timeout) →
  Z.of_nat (length pre + length evs) + 1 < 2 ^ 64 → 0 ≤ timeout →
  worker_run (e :: evs) w = Some w' → waits_from e k →
  by_ ≤ event_time e + length_of_tick + delay →
  events_timely delay by_ (event_time e) last length_of_tick evs → (∀ e', e' ∈ evs → silent k e') →
  event_time e + timeout * length_of_tick + length_of_tick + delay < last →
  closed k w'.
Proof.
  intros len Hpre Hn Hmany Hto Hrun Hwf Hby Ht Hsil Hlast.
  destruct (guarded_run pre _ w (guarded_new began timeout)) as (Hg & Hh & [Hs1 Hs2]);
    [unfold room; cbn; lia|done|done|].
  change (highest_id_ (timer (worker_new began timeout))) with 0 in Hh.
  change (tick (timer (worker_new began timeout))) with len in Hs1.
  change (default_timeout_ (timer (worker_new began timeout))) with timeout in Hs2.
  cbn [worker_run] in Hrun. destruct (worker_step e w) as [w1|] eqn:E; [|done]. cbn in Hrun.
  assert (room 1 w) as Hr1 by (unfold room; lia).
  destruct (timer_step e w w1 (gd_timer _ _ Hg) Hr1 E) as (Hok1 & Hh1 & [Htk _]).
  destruct (waits_entry e k w w1 Hg Hr1 E Hwf) as (id & Hin).
  assert (is_tick e = false) as Het
    by (destruct Hwf as (now & [->|[->|(handled & ->)]]); done).
  assert (guarded None w1) as Hg1
    by (apply (guarded_step e w w1 Hg Hr1 E); intros H; by rewrite Het in H).
  rewrite Hs1, Hs2 in Hin. rewrite Hs1 in Htk.
  assert (0 ≤ timeout * len) by (unfold len, nanoseconds; lia).
  apply (silent_run delay by_ (event_time e) last k id (event_time e + timeout * len) evs w1 w');
    rewrite ?Htk; try done; [unfold room; lia|].
  left. split_and!; [done|done|lia].
Qed.

(** ** Identifiers that are issued again

    A tick that leaves no task resets [highest_id_]; a connection still holds the identifier
    of its last task, and cancels it when its read fails. *)

Definition second : Z := 1000000000.
Definition ticks (l : list Z) : list event := (λ n, Ticked (n * second) (n * second)) <$> l.
(** Connection 1 times out; before the handler of its read has run connection 2 starts. *)
Definition lost_deadline : list event :=
  Started 0 1 :: ticks [1; 2; 3; 4; 5; 6] ++
  [Started (6 * second + 1) 2; Read (6 * second + 2) 1 false ReadError].

Lemma idle_ticks l w w' :
  timer_ok (timer w) → tasks_ (timer w) = [] → worker_run (ticks l) w = Some w' →
  conns w' = conns w.
Proof.
  revert w. induction l as [|n l IH]; intros w Hok Hw Hrun; [by injection Hrun as <-|].
  unfold ticks in Hrun. rewrite fmap_cons in Hrun. cbn [worker_run worker_step tick_handler] in Hrun.
  unfold mbind at 2, M_bind in Hrun. rewrite process_tasks_spec in Hrun by done.
  rewrite Hw in Hrun. cbn [kept due filter list_filter effects foldl mret M_ret] in Hrun.
  apply IH in Hrun; [done| |done]. split; cbn; [constructor|by intros id ?%not_elem_of_nil|lia].
Qed.

(** A connection can lose its deadline to another.  Connection 1 times out, its task was
    the last one, and identifiers start again; connection 2 gets the identifier of the task
    that closed connection 1, whose handler then cancels it.  Connection 2 is open, waits for
    bytes, and however long its client is silent it is never closed. *)
Theorem deadline_cancelled_by_another :
  ∃ w, worker_run lost_deadline (worker_new 0 5) = Some w ∧
    conns w !! 1%nat = Some (Client false 1 false) ∧
    conns w !! 2%nat = Some (Client true 1 true) ∧ tasks_ (timer w) = [] ∧
    ∀ l w', worker_run (ticks l) w = Some w' → conns w' !! 2%nat = Some (Client true 1 true).
Proof.
  assert ((λ w, (conns w !! 1%nat, conns w !! 2%nat, tasks_ (timer w), highest_id_ (timer w))) <$>
    worker_run lost_deadline (worker_new 0 5)
    = Some (Some (Client false 1 false), Some (Client true 1 true), [], 1)) as H by by vm_compute.
  apply fmap_Some in H as (w & Hrun & [= H1 H2 Ht Hh]). exists w.
  refine (conj Hrun (conj (eq_sym H1) (conj (eq_sym H2) (conj (eq_sym Ht) _)))). intros l w' Hw.
  rewrite (idle_ticks l w w'); [by symmetry| |by symmetry|exact Hw].
  clear Hrun Hw H1 H2. split.
  - rewrite <- Ht. constructor.
  - rewrite <- Ht. by intros id ?%not_elem_of_nil.
  - rewrite <- Hh. done.
Qed.

(** Connection 2 has come and gone; connection 1 starts and is silent; connection 3 sends a
    request, which closes it, and for a while connection 1 is alone. *)
Definition earlier : list event :=
  [Started 0 2; Read 5 2 true CloseAfter; Freed 6 2] ++ ticks [1].
Definition quiet_worker : list event :=
  [Started (second + 2) 3] ++ ticks [2; 3] ++
  [Read (3 * second + 5) 3 true CloseAfter; Freed (3 * second + 6) 3] ++ ticks [4; 5; 6; 7; 8].
Lemma silent_client_disconnected_witness :
  ∃ w w', worker_run earlier (worker_new 0 5) = Some w ∧
    worker_run (Started (second + 1) 1 :: quiet_worker) w = Some w' ∧ closed 1 w'.
Proof.
  assert (is_Some (w ← worker_run earlier (worker_new 0 5);
    worker_run (Started (second + 1) 1 :: quiet_worker) w)) as [w' Hw]
    by (apply is_Some_alt; by vm_compute).
  apply bind_Some in Hw as (w & Hpre & Hrun). exists w, w'.
  split; [exact Hpre|]. split; [exact Hrun|].
  assert (∀ e', e' ∈ quiet_worker → silent 1 e') as Hs.
  { intros e' He'. unfold quiet_worker, ticks in He'. cbn in He'.
    repeat (apply elem_of_cons in He' as [-> |He']; [done|]). by apply not_elem_of_nil in He'. }
  assert (never_idle earlier (worker_new 0 5)) as Hn by (vm_compute; repeat split; by intros).
  assert (events_timely 10 (2 * second + 10) (second + 1) (8 * second + 10) (nanoseconds 1000)
    quiet_worker) as Ht by (vm_compute; repeat split; discriminate).
  exact (silent_client_disconnected 0 5 earlier 10 (2 * second + 10) (8 * second + 10) 1
    (Started (second + 1) 1) quiet_worker w w' Hpre Hn ltac:(done) ltac:(done) Hrun
    (ex_intro _ (second + 1) (or_introl eq_refl)) ltac:(done) Ht Hs ltac:(done)).
Defined.
Lemma waiting_connections_guarded_witness :
  ∃ w', worker_run earlier (worker_new 0 5) = Some w' ∧
    ∀ k c, conns w' !! k = Some c → open c = true → pending c = true →
      ∃ t, (task_id_ c, (t, k)) ∈ tasks_ (timer w').
Proof.
  assert (is_Some (worker_run earlier (worker_new 0 5))) as [w' Hw]
    by (apply is_Some_alt; by vm_compute).
  exists w'. split; [exact Hw|].
  assert (never_idle earlier (worker_new 0 5)) as Hn by (vm_compute; repeat split; by intros).
  exact (waiting_connections_guarded earlier 0 5 w' ltac:(done) Hn Hw).
Defined.
