(* ===== verification/Concurrency.v ===== *)
(** * The service's atomics under many threads

    The server runs multithreaded (src/main.cpp, [multithreaded().run()]): a request is
    handled on the thread of its connection, and the threads share the atomics of
    include/metrics.h and include/service_state.h.  Here every access to one of them is a
    step of its own, and the steps of the threads interleave in any way.  The atomics of a
    thread are used with [memory_order_relaxed]; a step acts on the latest value, as
    read-modify-write operations on one atomic do. *)

From S2P Require Import Prelude Doubles JsonRead JsonWrite Utility QueryString Http Service.
From S2P Require Import Backends OrderRoutes Wp Middleware AppMiddlewares.
Open Scope Z_scope.

(** ** LifecycleMiddleware, an atomic access at a time *)

(** Where a thread is in [before_handle] and [after_handle]; [Inside] is between them, with
    [ctx.counted_inflight].  A request without a route goes through [after_handle] only, with
    the context that the request before it left on the connection (handle_url and
    complete_request of http_connection.h): [Leftover], and [Undercounted] when that took a
    request off the counter a second time. *)
Inductive pc : Type :=
| Arrive
| NoteShutdown
| Count
| Compare (current_inflight : Z)
| Undo
| NoteOverload
| Inside (counted : bool)
| Rejected (message after : string)
| Gone
| Leftover (counted : bool)
| Undercounted.
#[export] Instance pc_eq_dec : EqDecision pc.
Proof. solve_decision. Defined.

Section Concurrency.
Context `{sq : !Sqlite, rd : !Redis, ev : !Environment}.
Implicit Types w : world.

Definition lifecycle_step (req : request) (p : pc) : M world pc :=
  match p with
  | Arrive =>
      if is_probe_path (req_url req) then mret (Inside false)
      else down ← gets shutting_down; mret (if down : bool then NoteShutdown else Count)
  | NoteShutdown =>
      _ ← fetch_add shutdown_rejections 1; mret (Rejected "Server is shutting down" "5")
  | Count => old ← fetch_add in_flight_requests 1; mret (Compare (old + 1))
  | Compare current_inflight =>
      limit ← gets max_inflight_requests;
      mret (if limit <? current_inflight then Undo else Inside true)
  | Undo => _ ← fetch_sub in_flight_requests 1; mret NoteOverload
  | NoteOverload =>
      _ ← fetch_add overload_rejections 1; mret (Rejected "Server overloaded" "1")
  | Inside counted =>
      if counted : bool then _ ← fetch_sub in_flight_requests 1; mret Gone else mret Gone
  | Leftover counted =>
      if counted : bool then _ ← fetch_sub in_flight_requests 1; mret Undercounted else mret p
  | Rejected _ _ | Gone | Undercounted => mret p
  end.

(** A thread on its own, through [before_handle]; five steps are enough. *)
Fixpoint solo (n : nat) (req : request) (p : pc) : M world pc :=
  match n, p with
  | O, _ | _, Inside _ | _, Rejected _ _ => mret p
  | S n', _ => q ← lifecycle_step req p; solo n' req q
  end.
(** What [before_handle] hands on when it got to [p]. *)
Definition handed_on (p : pc) (res : response) (ctx : context) : response * context :=
  match p with
  | Rejected message after => (reject message after res, ctx)
  | Inside counted => (res, Context_ (start_time ctx) counted)
  | _ => (res, ctx)
  end.

(** The steps are those of the sequential [before_handle] and [after_handle]. *)
Lemma solo_before req res ctx w :
  counted_inflight ctx = false →
  Lifecycle_before req res ctx w
  = (p ← solo 5 req Arrive; mret (handed_on p res ctx)) w.
Proof.
  intros Hc. destruct ctx as [st counted]. cbn in Hc. subst counted.
  cbv beta iota zeta delta [Lifecycle_before solo lifecycle_step mret M_ret mbind M_bind gets
    fetch_add fetch_sub handed_on].
  destruct (is_probe_path (req_url req)); [reflexivity|]. destruct (shutting_down w); [reflexivity|].
  change (max_inflight_requests (set_counter _ _ w)) with (max_inflight_requests w).
  by destruct (max_inflight_requests w <? counters w in_flight_requests + 1).
Qed.
Lemma solo_after req res ctx w :
  Lifecycle_after req res ctx w
  = (_ ← lifecycle_step req (Inside (counted_inflight ctx)); mret (res, ctx)) w.
Proof. unfold Lifecycle_after. by destruct (counted_inflight ctx). Qed.
Lemma solo_after_unrouted req res ctx w :
  Lifecycle_after req res ctx w
  = (_ ← lifecycle_step req (Leftover (counted_inflight ctx)); mret (res, ctx)) w.
Proof. unfold Lifecycle_after. by destruct (counted_inflight ctx). Qed.

(** ** Interleavings *)

Abbreviation system := (world * list (request * pc))%type.
(** What the rest of the service, the watcher of main.cpp included, may do in between: besides
    LifecycleMiddleware nothing touches the counter, after start-up nothing the limit, and
    [shutting_down] is never taken back. *)
Definition elsewhere w w' : Prop :=
  counters w' in_flight_requests = counters w in_flight_requests ∧
  max_inflight_requests w' = max_inflight_requests w ∧
  (shutting_down w = true → shutting_down w' = true).
Inductive interleave : system → system → Prop :=
| thread_step w threads i req p q w' :
    threads !! i = Some (req, p) → lifecycle_step req p w = (Ok q, w') →
    interleave (w, threads) (w', <[i := (req, q)]> threads)
| new_request w threads req :
    interleave (w, threads) (w, threads ++ [(req, Arrive)])
| unrouted_request w threads req counted :
    interleave (w, threads) (w, threads ++ [(req, Leftover counted)])
| other_work w threads w' :
    elsewhere w w' → interleave (w, threads) (w', threads).

(** The threads the counter counts, and those a handler runs on because it let them in. *)
Definition holds (p : pc) : bool :=
  match p with Compare _ | Undo | Inside true => true | _ => false end.
Definition admitted_in (p : pc) : bool := match p with Inside true => true | _ => false end.
Definition in_state (f : pc → bool) (threads : list (request * pc)) (i : nat) : bool :=
  match threads !! i with Some (_, p) => f p | None => false end.
Definition count_of (f : pc → bool) (threads : list (request * pc)) : nat :=
  length (filter (λ i, in_state f threads i = true) (seq 0 (length threads))).

(** How often a request without a route took another one off the counter. *)
Definition undercounted (p : pc) : bool := match p with Undercounted => true | _ => false end.
Definition undercounts (threads : list (request * pc)) : nat :=
  length (filter (λ x, undercounted (snd x) = true) threads).

(** The counter is a 32-bit integer: fewer threads than that are counted at once, and fewer
    taken off without being counted. *)
Definition in_bounds (s : system) : Prop :=
  Z.of_nat (count_of holds (snd s)) ≤ int32_max ∧ Z.of_nat (undercounts (snd s)) ≤ int32_max.
#[export] Instance in_bounds_dec s : Decision (in_bounds s).
Proof. unfold in_bounds. apply _. Defined.
Definition bounded_step (s s' : system) : Prop := interleave s s' ∧ in_bounds s'.

(** ** The order of arrival *)

(** A thread that was counted when [n] others were still counted, and at most [d] had been
    taken off too often. *)
Definition fits (limit : Z) (d : nat) (p : pc) (n : nat) : Prop :=
  match p with
  | Compare current_inflight => Z.of_nat n + 1 ≤ current_inflight + Z.of_nat d
  | Inside true => Z.of_nat n + 1 ≤ limit + Z.of_nat d
  | _ => True
  end.
(** The counted threads, the last one first. *)
Fixpoint ranked (limit : Z) (d : nat) (threads : list (request * pc)) (order : list nat) : Prop :=
  match order with
  | [] => True
  | i :: l =>
      (∃ req p, threads !! i = Some (req, p) ∧ holds p = true ∧ fits limit d p (length l)) ∧
      (i ∉ l) ∧ ranked limit d threads l
  end.
Definition accounted (s : system) : Prop :=
  let '(w, threads) := s in
  ∃ order, ranked (max_inflight_requests w) (undercounts threads) threads order ∧
    counters w in_flight_requests = Z.of_nat (length order) - Z.of_nat (undercounts threads) ∧
    (∀ i req p, threads !! i = Some (req, p) → holds p = true → i ∈ order).

Lemma fits_fewer limit d d' p n n' :
  (n' ≤ n)%nat → (d ≤ d')%nat → fits limit d p n → fits limit d' p n'.
Proof. intros H. destruct p as [| | | | | |[]| | | |]; cbn; lia. Qed.
Lemma ranked_more limit d d' threads order :
  (d ≤ d')%nat → ranked limit d threads order → ranked limit d' threads order.
Proof.
  intros Hd. induction order as [|i l IH]; [done|]. intros ((req & p & Hi & Hp & Hf) & Hl & Hr).
  split_and!; [|done|by apply IH]. exists req, p. split_and!; [done|done|by eapply fits_fewer].
Qed.
Lemma ranked_NoDup limit d threads order : ranked limit d threads order → NoDup order.
Proof.
  induction order as [|i l IH]; [constructor|]. intros (_ & Hi & Hl). constructor; auto.
Qed.
Lemma ranked_elem limit d threads order i :
  ranked limit d threads order → i ∈ order →
  ∃ req p, threads !! i = Some (req, p) ∧ holds p = true.
Proof.
  induction order as [|j l IH]; [by intros _ ?%elem_of_nil|].
  intros ((req & p & Hj & Hh & _) & _ & Hl) [->|Hi]%elem_of_cons; [eauto|auto].
Qed.
Lemma ranked_fits limit d threads order i x :
  i ∉ order → ranked limit d threads order → ranked limit d (<[i := x]> threads) order.
Proof.
  induction order as [|j l IH]; [done|]. intros [Hij Hil]%not_elem_of_cons (Hj & Hjl & Hl).
  cbn. by rewrite list_lookup_insert_ne; [split_and!; [..|apply IH]|].
Qed.
Lemma ranked_change limit d threads order i req p q :
  threads !! i = Some (req, p) → holds q = true → (∀ n, fits limit d p n → fits limit d q n) →
  ranked limit d threads order → ranked limit d (<[i := (req, q)]> threads) order.
Proof.
  intros Hi Hq Hf. induction order as [|j l IH]; [done|].
  intros ((r & p' & Hj & Hh & Hn) & Hjl & Hl). cbn. split_and!; [|done|by apply IH].
  destruct (decide (j = i)) as [->|Hne].
  - simplify_eq. exists req, q. rewrite list_lookup_insert_eq; [auto|by eapply lookup_lt_Some].
  - exists r, p'. by rewrite list_lookup_insert_ne.
Qed.
Lemma ranked_remove limit d threads order i :
  ranked limit d threads order → i ∈ order →
  ∃ l, ranked limit d threads l ∧ length order = S (length l) ∧ (∀ j, j ∈ l ↔ j ∈ order ∧ j ≠ i).
Proof.
  induction order as [|j l IH]; [by intros _ ?%elem_of_nil|].
  intros ((req & p & Hj & Hh & Hn) & Hjl & Hl) Hi.
  destruct (decide (j = i)) as [->|Hne].
  - exists l. split_and!; [done|done|]. intros j. rewrite elem_of_cons. naive_solver.
  - apply elem_of_cons in Hi as [->|Hi]; [done|].
    destruct (IH Hl Hi) as (l' & Hl' & Hlen & Hsub). exists (j :: l'). cbn. split_and!.
    + exists req, p. split_and!; [done|done|]. eapply fits_fewer; [|done|exact Hn]. lia.
    + by rewrite Hsub; intros [? _].
    + done.
    + lia.
    + intros k. rewrite !elem_of_cons, Hsub. naive_solver.
Qed.

(** ** Counting *)

Lemma in_state_lookup f threads i :
  in_state f threads i = true ↔ ∃ req p, threads !! i = Some (req, p) ∧ f p = true.
Proof.
  unfold in_state. destruct (threads !! i) as [[req p]|]; [|naive_solver].
  split; [eauto|]. by intros (? & ? & [= -> ->] & ?).
Qed.
Lemma count_of_list f threads l :
  NoDup l → (∀ i, i ∈ l ↔ in_state f threads i = true) → count_of f threads = length l.
Proof.
  intros Hl Hf. apply Permutation_length, NoDup_Permutation; [by apply list_relations.list.NoDup_filter, NoDup_seq|done|].
  intros i. rewrite list_elem_of_filter, elem_of_seq, Hf. split; [tauto|]. intros Hi. split; [done|].
  apply in_state_lookup in Hi as (req & p & Hi & _). apply lookup_lt_Some in Hi. lia.
Qed.
Lemma ranked_holds limit d threads order :
  ranked limit d threads order →
  (∀ i req p, threads !! i = Some (req, p) → holds p = true → i ∈ order) →
  count_of holds threads = length order.
Proof.
  intros Hr Hall. apply count_of_list; [by eapply ranked_NoDup|]. intros i. rewrite in_state_lookup.
  split; [by eapply ranked_elem|]. intros (req & p & Hi & Hh). by eapply Hall.
Qed.
Lemma ranked_admitted limit d threads order :
  ranked limit d threads order →
  Z.of_nat (length (filter (λ i, in_state admitted_in threads i = true) order)) ≤ Z.max 0 (limit + Z.of_nat d).
Proof.
  induction order as [|i l IH]; [cbn; lia|]. intros ((req & p & Hi & Hh & Hn) & _ & Hl).
  rewrite list_basics.list.filter_cons. case_decide as Hp; [|by apply IH].
  unfold in_state in Hp. rewrite Hi in Hp. destruct p as [| | | | | |[]| | | |]; try done. cbn in *.
  pose proof (length_filter (λ i, in_state admitted_in threads i = true) l). lia.
Qed.
Lemma accounted_counts w threads :
  accounted (w, threads) →
  Z.of_nat (count_of admitted_in threads) ≤ Z.max 0 (max_inflight_requests w + Z.of_nat (undercounts threads)) ∧
  counters w in_flight_requests
  = Z.of_nat (count_of holds threads) - Z.of_nat (undercounts threads).
Proof.
  intros (order & Hr & Hc & Hall). rewrite (ranked_holds _ _ _ _ Hr Hall). split; [|done].
  rewrite (count_of_list _ _ (filter (λ i, in_state admitted_in threads i = true) order)).
  - by apply ranked_admitted.
  - by eapply list_relations.list.NoDup_filter, ranked_NoDup.
  - intros i. rewrite list_elem_of_filter. split; [tauto|]. intros Hi. split; [done|].
    apply in_state_lookup in Hi as (req & p & Hi & Hp). eapply Hall; [done|].
    by destruct p as [| | | | | |[]| | | |].
Qed.

Lemma undercounts_insert threads i req p q :
  threads !! i = Some (req, p) →
  Z.of_nat (undercounts (<[i := (req, q)]> threads)) =
  Z.of_nat (undercounts threads) + Z.b2z (undercounted q) - Z.b2z (undercounted p).
Proof.
  intros Hi. unfold undercounts. rewrite insert_take_drop by (by eapply lookup_lt_Some).
  rewrite <- (take_drop_middle threads i _ Hi) at 3.
  rewrite !list_basics.list.filter_app, !list_basics.list.filter_cons, !length_app. cbn [snd].
  by destruct (undercounted q), (undercounted p); repeat case_decide; try done; cbn [length Z.b2z]; lia.
Qed.
Lemma undercounts_new threads req p :
  undercounted p = false → undercounts (threads ++ [(req, p)]) = undercounts threads.
Proof.
  intros Hp. unfold undercounts. rewrite list_basics.list.filter_app, list_basics.list.filter_cons. cbn [snd]. rewrite Hp.
  case_decide; [done|]. cbn. by rewrite app_nil_r.
Qed.

(** ** Steps keep the account *)

(** The outcome of an atomic step. *)
Ltac outcome Hq :=
  unfold gets, fetch_sub, fetch_add, mret, M_ret, mbind, M_bind in Hq; simplify_eq.

(** The counted threads stay the same; the counter may have been taken down too often. *)
Lemma accounted_change w threads w' i req p q :
  accounted (w, threads) → threads !! i = Some (req, p) → holds p = holds q →
  (∀ n d, fits (max_inflight_requests w) d p n → fits (max_inflight_requests w) d q n) →
  undercounted p = false →
  counters w' in_flight_requests = counters w in_flight_requests - Z.b2z (undercounted q) →
  max_inflight_requests w' = max_inflight_requests w →
  accounted (w', <[i := (req, q)]> threads).
Proof.
  intros (order & Hr & Hc & Hall) Hi Hpq Hf Hu Hc' Hm.
  pose proof (undercounts_insert threads i req p q Hi) as Hd. rewrite Hu in Hd. cbn [Z.b2z] in Hd.
  exists order. rewrite Hm, Hc', Hd. split_and!; [|lia|].
  - apply (ranked_more _ (undercounts threads)); [destruct (undercounted q); cbn in Hd; lia|].
    destruct (holds q) eqn:Hq; [by eapply ranked_change; eauto|].
    apply ranked_fits; [|done]. intros (r & p' & Hi' & Hp')%(ranked_elem _ _ _ _ _ Hr). congruence.
  - intros j r p' Hj Hp'. destruct (decide (j = i)) as [->|Hne].
    + rewrite list_lookup_insert_eq in Hj by (by eapply lookup_lt_Some). simplify_eq.
      eapply Hall; [done|congruence].
    + rewrite list_lookup_insert_ne in Hj by done. by eapply Hall.
Qed.
Lemma accounted_same w threads w' i req p q :
  accounted (w, threads) → threads !! i = Some (req, p) → holds p = holds q →
  (∀ n d, fits (max_inflight_requests w) d p n → fits (max_inflight_requests w) d q n) →
  undercounted p = false → undercounted q = false →
  counters w' in_flight_requests = counters w in_flight_requests →
  max_inflight_requests w' = max_inflight_requests w →
  accounted (w', <[i := (req, q)]> threads).
Proof.
  intros Ha Hi Hpq Hf Hp Hq Hc Hm. eapply accounted_change; try done. rewrite Hq, Hc. cbn. lia.
Qed.
Lemma accounted_enter w threads w' i req :
  accounted (w, threads) → threads !! i = Some (req, Count) →
  counters w' in_flight_requests = swrap 32 (counters w in_flight_requests + 1) →
  max_inflight_requests w' = max_inflight_requests w →
  let threads' := <[i := (req, Compare (counters w in_flight_requests + 1))]> threads in
  in_bounds (w', threads') → accounted (w', threads').
Proof.
  intros (order & Hr & Hc & Hall) Hi Hc' Hm threads' [Hb Hb2]. cbn [snd] in Hb, Hb2.
  assert (i ∉ order) as Hni.
  { intros (r & p' & Hi' & Hp')%(ranked_elem _ _ _ _ _ Hr). rewrite Hi in Hi'. by simplify_eq. }
  assert (threads' !! i = Some (req, Compare (counters w in_flight_requests + 1))) as Hi'
    by (apply list_lookup_insert_eq; by eapply lookup_lt_Some).
  pose proof (undercounts_insert threads i req Count (Compare (counters w in_flight_requests + 1)) Hi) as Hd.
  fold threads' in Hd. cbn [undercounted Z.b2z] in Hd.
  assert (undercounts threads' = undercounts threads) as Hd' by lia.
  assert (ranked (max_inflight_requests w) (undercounts threads') threads' (i :: order)) as Hr'.
  { rewrite Hd'. cbn [ranked]. split_and!; [|done|by apply ranked_fits].
    do 2 eexists. split_and!; [exact Hi'|done|]. cbn. lia. }
  assert (∀ j r p', threads' !! j = Some (r, p') → holds p' = true → j ∈ i :: order) as Hall'.
  { intros j r p' Hj Hp'. apply elem_of_cons. destruct (decide (j = i)) as [->|Hne]; [by left|right].
    unfold threads' in Hj. rewrite list_lookup_insert_ne in Hj by done. by eapply Hall. }
  rewrite (ranked_holds _ _ _ _ Hr' Hall') in Hb. exists (i :: order). rewrite Hm. split_and!; [done| |done].
  rewrite Hd' in *. rewrite Hc', Hc. cbn [length] in *. rewrite swrap_id; unfold int32_max in *; lia.
Qed.
Lemma accounted_leave w threads w' i req p q :
  accounted (w, threads) → threads !! i = Some (req, p) → holds p = true → holds q = false →
  undercounted q = false → in_bounds (w, threads) →
  counters w' in_flight_requests = swrap 32 (counters w in_flight_requests + - 1) →
  max_inflight_requests w' = max_inflight_requests w →
  accounted (w', <[i := (req, q)]> threads).
Proof.
  intros (order & Hr & Hc & Hall) Hi Hp Hq Hu [Hb Hb2] Hc' Hm. cbn [snd] in Hb, Hb2.
  rewrite (ranked_holds _ _ _ _ Hr Hall) in Hb.
  pose proof (undercounts_insert threads i req p q Hi) as Hd. rewrite Hu in Hd.
  assert (undercounted p = false) as Hup by by destruct p. rewrite Hup in Hd. cbn [Z.b2z] in Hd.
  assert (undercounts (<[i := (req, q)]> threads) = undercounts threads) as Hd' by lia.
  destruct (ranked_remove _ _ _ _ i Hr (Hall _ _ _ Hi Hp)) as (l & Hl & Hlen & Hsub).
  exists l. rewrite Hm, Hd'. split_and!.
  - apply ranked_fits; [|done]. rewrite Hsub. tauto.
  - rewrite Hc', Hc. rewrite swrap_id; unfold int32_max in *; lia.
  - intros j r p' Hj Hp'. destruct (decide (j = i)) as [->|Hne].
    + rewrite list_lookup_insert_eq in Hj by (by eapply lookup_lt_Some). simplify_eq. congruence.
    + rewrite list_lookup_insert_ne in Hj by done. rewrite Hsub. split; [by eapply Hall|done].
Qed.
Lemma accounted_new w threads req p :
  accounted (w, threads) → holds p = false → undercounted p = false →
  accounted (w, threads ++ [(req, p)]).
Proof.
  intros (order & Hr & Hc & Hall) Hp Hu. exists order. rewrite undercounts_new by done. split_and!; [|done|].
  - clear -Hr. set (d := undercounts threads) in *. clearbody d. induction order as [|i l IH]; [done|].
    destruct Hr as ((r & p' & Hi & Hp') & Hil & Hl). cbn [ranked]. split_and!; [|done|by apply IH].
    exists r, p'. split; [by apply lookup_app_l_Some|done].
  - intros j r p' Hj Hp'. apply lookup_app_Some in Hj as [Hj|[_ Hj]]; [by eapply Hall|].
    apply list_lookup_singleton_Some in Hj as [_ Hj]. simplify_eq. congruence.
Qed.

Lemma accounted_step s s' :
  interleave s s' → accounted s → in_bounds s → in_bounds s' → accounted s'.
Proof.
  intros Hstep Ha Hb Hb'.
  destruct Hstep as [w threads i req p q w' Hi Hq|w threads req|w threads req counted|w threads w' He].
  - destruct p as [| | |c| | |counted|m a| |counted|]; cbn [lifecycle_step] in Hq.
    + destruct (is_probe_path (req_url req)); [outcome Hq; by eapply accounted_same|].
      outcome Hq. by destruct (shutting_down w'); eapply accounted_same.
    + outcome Hq. by eapply accounted_same; [done|done|..].
    + outcome Hq. by eapply accounted_enter.
    + outcome Hq.
      destruct (Z.ltb_spec (max_inflight_requests w') c);
        (eapply accounted_same; [done|done|done| |done|done|done|done]); intros n d; cbn; lia.
    + outcome Hq. by eapply accounted_leave.
    + outcome Hq. by eapply accounted_same; [done|done|..].
    + destruct counted.
      * outcome Hq. by eapply accounted_leave.
      * outcome Hq. by eapply accounted_same.
    + outcome Hq. by eapply accounted_same.
    + outcome Hq. by eapply accounted_same.
    + destruct counted; outcome Hq; [|by eapply accounted_same].
      eapply accounted_change; [done|done|done|done|done| |done].
      destruct Ha as (order & Hr & Hc & Hall), Hb' as [_ Hb'], Hb as [Hb _].
      pose proof (undercounts_insert threads i req (Leftover true) Undercounted Hi) as Hd.
      cbn [snd undercounted Z.b2z] in *. rewrite (ranked_holds _ _ _ _ Hr Hall) in Hb.
      change (swrap 32 (counters w in_flight_requests + - 1) = counters w in_flight_requests - 1).
      rewrite swrap_id; unfold int32_max in *; lia.
    + outcome Hq. by rewrite (list_insert_id threads i (req, Undercounted) Hi).
  - by apply accounted_new.
  - by apply accounted_new.
  - destruct He as (Hc & Hm & _). destruct Ha as (order & Hr & Hc' & Hall).
    exists order. rewrite Hm, Hc. done.
Qed.
Lemma max_inflight_step s s' :
  interleave s s' → max_inflight_requests (fst s') = max_inflight_requests (fst s).
Proof.
  intros [w threads i req p q w' Hi Hq|w threads req|w threads req counted|w threads w' (_ & Hm & _)];
    [|done..].
  destruct p as [| | |c| | |counted|m a| |counted|]; cbn [lifecycle_step] in Hq;
    [destruct (is_probe_path _)| | | | | |destruct counted| | |destruct counted|];
    by outcome Hq.
Qed.
Lemma accounted_reachable w0 s :
  counters w0 in_flight_requests = 0 → rtc bounded_step (w0, []) s →
  accounted s ∧ max_inflight_requests (fst s) = max_inflight_requests w0 ∧ in_bounds s.
Proof.
  intros H0. apply (rtc_ind_r (λ s, accounted s ∧
    max_inflight_requests (fst s) = max_inflight_requests w0 ∧ in_bounds s)).
  - split_and!; [|done|done]. exists []. by split_and!.
  - intros s1 s2 _ [Hst Hb] (Ha & Hm & Hb1). split_and!; [by eapply accounted_step| |done].
    by rewrite <- Hm, (max_inflight_step _ _ Hst).
Qed.

(** C14: the limit under any interleaving.  However the atomic accesses of the threads
    interleave, requests without a route, which go through [after_handle] alone with the
    context of the request before them on the connection, included, and while the rest of the
    service does anything that leaves the counter and the limit alone, as long as the counts
    stay in the range of the counter: at any time, the counter is the number of the threads it
    counts less the number of times a request without a route took another one off it, and
    at most as many requests more than [max_inflight_requests] are handled (admitted and not
    yet counted off) as there were such times.  So without them, the limit holds, and the
    counter does not drift and is 0 when no request is in the middle. *)
Theorem concurrent_admission w0 w threads :
  counters w0 in_flight_requests = 0 → rtc bounded_step (w0, []) (w, threads) →
  let drift := Z.of_nat (undercounts threads) in
  Z.of_nat (count_of admitted_in threads) ≤ Z.max 0 (max_inflight_requests w0 + drift) ∧
  counters w in_flight_requests = Z.of_nat (count_of holds threads) - drift.
Proof.
  intros H0 Hr. destruct (accounted_reachable w0 _ H0 Hr) as (Ha & Hm & _). cbn [fst] in Hm.
  destruct (accounted_counts _ _ Ha) as [H1 H2]. by rewrite Hm in H1.
Qed.

(** ** Draining *)

(** What becomes of a request that finds [shutting_down] set. *)
Definition turned_away_down (p : pc) : Prop :=
  p = Arrive ∨ p = NoteShutdown ∨ p = Rejected "Server is shutting down" "5".
(** A request without a route, which never was on its way to a handler. *)
Definition unrouted (p : pc) : Prop := match p with Leftover _ | Undercounted => True | _ => False end.
Definition draining_from (old : list (request * pc)) (s : system) : Prop :=
  shutting_down (fst s) = true ∧
  ∀ i req p, snd s !! i = Some (req, p) → is_probe_path (req_url req) = false →
    old !! i = None ∨ old !! i = Some (req, Arrive) → turned_away_down p ∨ unrouted p.

Lemma shutting_down_step s s' :
  interleave s s' → shutting_down (fst s) = true → shutting_down (fst s') = true.
Proof.
  intros [w threads i req p q w' Hi Hq|w threads req|w threads req counted|w threads w' (_ & _ & Hd)];
    [|done..].
  destruct p as [| | |c| | |counted|m a| |counted|]; cbn [lifecycle_step] in Hq;
    [destruct (is_probe_path _)| | | | | |destruct counted| | |destruct counted|];
    by outcome Hq.
Qed.
Lemma turned_away_step req p q w w' :
  turned_away_down p → shutting_down w = true → is_probe_path (req_url req) = false →
  lifecycle_step req p w = (Ok q, w') → turned_away_down q.
Proof.
  intros [-> | [-> | ->]] Hd Hp Hq; cbn [lifecycle_step] in Hq.
  - rewrite Hp in Hq. unfold gets, mbind, M_bind in Hq. rewrite Hd in Hq. outcome Hq. by right; left.
  - outcome Hq. by right; right.
  - outcome Hq. by right; right.
Qed.
Lemma unrouted_step req p q w w' : unrouted p → lifecycle_step req p w = (Ok q, w') → unrouted q.
Proof. destruct p as [| | | | | | | | |counted|]; try done; cbn; [destruct counted|]; by intros _ [= <- _]. Qed.
Lemma draining_step old s s' :
  interleave s s' → draining_from old s → draining_from old s'.
Proof.
  intros Hst [Hd Hall]. split; [by eapply shutting_down_step|]. intros j r p' Hj Hp Hold.
  destruct Hst as [w threads i req p q w' Hi Hq|w threads req|w threads req counted|w threads w' He];
    cbn [fst snd] in *.
  - destruct (decide (j = i)) as [->|Hne].
    + rewrite list_lookup_insert_eq in Hj by (by eapply lookup_lt_Some). simplify_eq.
      destruct (Hall _ _ _ Hi Hp Hold) as [Ht|Hu]; [left|right].
      * eapply turned_away_step; [exact Ht|exact Hd|exact Hp|exact Hq].
      * by eapply unrouted_step.
    + rewrite list_lookup_insert_ne in Hj by done. by eapply Hall.
  - apply lookup_app_Some in Hj as [Hj|[_ Hj]]; [by eapply Hall|].
    apply list_lookup_singleton_Some in Hj as [_ Hj]. simplify_eq. by left; left.
  - apply lookup_app_Some in Hj as [Hj|[_ Hj]]; [by eapply Hall|].
    apply list_lookup_singleton_Some in Hj as [_ Hj]. simplify_eq. by right.
  - by eapply Hall.
Qed.

(** Nothing gets in once the service drains: from the moment [shutting_down] is set, every
    request that comes, and every one that has not looked at the flag, is on its way to the
    503, or has no route, and never reaches a handler, whatever the interleaving; the probes
    are exempt. *)
Theorem drain_turns_away w threads w' threads' i req p :
  shutting_down w = true → rtc interleave (w, threads) (w', threads') →
  threads !! i = None ∨ threads !! i = Some (req, Arrive) →
  threads' !! i = Some (req, p) → is_probe_path (req_url req) = false →
  (turned_away_down p ∨ unrouted p) ∧ admitted_in p = false.
Proof.
  intros Hd Hr Hold Hi Hp.
  assert (draining_from threads (w', threads')) as [_ Hall].
  { assert (draining_from threads (w, threads)) as H0.
    { split; [done|]. cbn [snd]. intros j r q Hj _ [Hn|Hn]; rewrite Hj in Hn; [done|].
      simplify_eq. by left; left. }
    revert H0. refine (rtc_ind_l (λ s, draining_from threads s → draining_from threads (w', threads'))
      (w', threads') id _ _ Hr).
    intros s1 s2 Hst _ IH H1. by eapply IH, draining_step. }
  assert (turned_away_down p ∨ unrouted p) as Ht by by eapply Hall. split; [done|].
  by destruct Ht as [[-> | [-> | ->]]|Ht]; [| | |destruct p].
Qed.

(** ** Schedules *)

Inductive act : Type :=
| New (req : request)
| NewUnrouted (req : request) (counted : bool)
| Go (i : nat).
Definition act_step (a : act) (s : system) : option system :=
  let '(w, threads) := s in
  match a with
  | New req => Some (w, threads ++ [(req, Arrive)])
  | NewUnrouted req counted => Some (w, threads ++ [(req, Leftover counted)])
  | Go i =>
      '(req, p) ← threads !! i;
      match lifecycle_step req p w with
      | (Ok q, w') => Some (w', <[i := (req, q)]> threads)
      | _ => None
      end
  end.
Fixpoint run (acts : list act) (s : system) : option system :=
  match acts with
  | [] => Some s
  | a :: l =>
      s' ← act_step a s;
      if bool_decide (in_bounds s') then run l s' else None
  end.
Lemma act_step_sound a s s' : act_step a s = Some s' → interleave s s'.
Proof.
  destruct s as [w threads]. destruct a as [req|req counted|i]; cbn; [intros [= <-]; constructor..|].
  destruct (threads !! i) as [[req p]|] eqn:Hi; [|done]. cbn.
  destruct (lifecycle_step req p w) as [[q|] w'] eqn:Hq; [|done]. intros [= <-].
  by eapply thread_step.
Qed.
Lemma run_sound acts s s' : run acts s = Some s' → rtc bounded_step s s'.
Proof.
  revert s. induction acts as [|a l IH]; intros s; cbn; [by intros [= <-]|].
  destruct (act_step a s) as [s1|] eqn:Ha; [|done]. cbn. case_bool_decide as Hb; [|done].
  intros Hr. eapply rtc_l; [|by apply IH]. split; [by eapply act_step_sound|done].
Qed.

(** ** The duration metrics *)

(** Where a thread is in [observe_request_duration_ms]. *)
Inductive opc : Type := AddTotal | AddSample | LoadMax | Exchange (current_max : Z) | Observed.
(** [spurious]: the weak compare-exchange fails although it could go through. *)
Definition observe_step (spurious : bool) (duration_ms : Z) (p : opc) : M world opc :=
  match p with
  | AddTotal => _ ← fetch_add request_duration_ms_total duration_ms; mret AddSample
  | AddSample => _ ← fetch_add request_duration_samples 1; mret LoadMax
  | LoadMax => current_max ← gets (λ w, counters w request_duration_ms_max); mret (Exchange current_max)
  | Exchange current_max =>
      if current_max <? duration_ms then
        now ← gets (λ w, counters w request_duration_ms_max);
        if (now =? current_max) && negb spurious then
          _ ← modify (set_counter request_duration_ms_max duration_ms); mret Observed
        else mret (Exchange now)
      else mret Observed
  | Observed => mret Observed
  end.

Definition observer_go (i : nat) (spurious : bool) (s : world * list (Z * opc))
  : option (world * list (Z * opc)) :=
  let '(w, l) := s in
  '(d, p) ← l !! i;
  match observe_step spurious d p w with
  | (Ok q, w') => Some (w', <[i := (d, q)]> l)
  | _ => None
  end.
Fixpoint observer_run (acts : list (nat * bool)) (s : world * list (Z * opc))
  : option (world * list (Z * opc)) :=
  match acts with [] => Some s | (i, b) :: r => s' ← observer_go i b s; observer_run r s' end.
Abbreviation observers := (world * list (Z * opc))%type.
Inductive observe : observers → observers → Prop :=
| observer_step w l i d p spurious q w' :
    l !! i = Some (d, p) → observe_step spurious d p w = (Ok q, w') →
    observe (w, l) (w', <[i := (d, q)]> l)
| new_observer w l d : observe (w, l) (w, l ++ [(d, AddTotal)])
| observed_elsewhere w l w' :
    counters w' request_duration_ms_total = counters w request_duration_ms_total →
    counters w' request_duration_samples = counters w request_duration_samples →
    counters w' request_duration_ms_max = counters w request_duration_ms_max →
    observe (w, l) (w', l).

Lemma observer_run_sound acts s s' : observer_run acts s = Some s' → rtc observe s s'.
Proof.
  revert s. induction acts as [|[i b] r IH]; intros [w l]; cbn; [by intros [= <-]|].
  destruct (l !! i) as [[d p]|] eqn:Hi; [|done]. cbn.
  destruct (observe_step b d p w) as [[q|] w'] eqn:Hq; [|done]. cbn. intros Hr.
  eapply rtc_l; [|by apply IH]. by eapply observer_step.
Qed.

Definition zsum {A} (f : A → Z) (l : list A) : Z := foldr (λ x a, f x + a) 0 l.
(** What an observer has added to the total and to the samples. *)
Definition in_total (x : Z * opc) : Z := match snd x with AddTotal => 0 | _ => fst x end.
Definition in_samples (x : Z * opc) : Z := match snd x with AddTotal | AddSample => 0 | _ => 1 end.
Definition durations (l : list (Z * opc)) : list Z := fst <$> l.
(** The maximum is one of the durations or what it was, what an observer knows of it is not
    ahead of it, and it has the durations that are done. *)
Definition max_inv (m0 : Z) (s : observers) : Prop :=
  let m := counters (fst s) request_duration_ms_max in
  m0 ≤ m ∧ (m = m0 ∨ m ∈ durations (snd s)) ∧
  ∀ i d p, snd s !! i = Some (d, p) →
    match p with Exchange current_max => current_max ≤ m | Observed => d ≤ m | _ => True end.
Definition sum_inv (w0 : world) (s : observers) : Prop :=
  counters (fst s) request_duration_ms_total
    = swrap 64 (counters w0 request_duration_ms_total + zsum in_total (snd s)) ∧
  counters (fst s) request_duration_samples
    = swrap 64 (counters w0 request_duration_samples + zsum in_samples (snd s)).

Lemma zsum_app {A} (f : A → Z) l1 l2 : zsum f (l1 ++ l2) = zsum f l1 + zsum f l2.
Proof.
  induction l1 as [|x l1 IH]; [done|].
  change (f x + zsum f (l1 ++ l2) = f x + zsum f l1 + zsum f l2). lia.
Qed.
Lemma zsum_insert {A} (f : A → Z) l i x y :
  l !! i = Some x → zsum f (<[i := y]> l) = zsum f l - f x + f y.
Proof.
  intros Hi. rewrite insert_take_drop by (by eapply lookup_lt_Some).
  rewrite <- (take_drop_middle l i x Hi) at 3. rewrite !zsum_app.
  change (zsum f (?z :: ?t)) with (f z + zsum f t). cbn. lia.
Qed.
Lemma swrap_add n x y : 0 < n → swrap n (swrap n x + y) = swrap n (x + y).
Proof.
  intros Hn. unfold swrap.
  replace ((x + 2 ^ (n - 1)) mod 2 ^ n - 2 ^ (n - 1) + y + 2 ^ (n - 1))
    with ((x + 2 ^ (n - 1)) mod 2 ^ n + y) by lia.
  rewrite Zplus_mod_idemp_l. do 2 f_equal. lia.
Qed.
Lemma durations_insert l i d p q :
  l !! i = Some (d, p) → durations (<[i := (d, q)]> l) = durations l.
Proof.
  intros Hi. unfold durations. rewrite list_fmap_insert. apply list_insert_id.
  by rewrite list_lookup_fmap, Hi.
Qed.

Ltac counters_cbn :=
  cbn [counters set_counter set_counters];
  rewrite ?fn_lookup_insert, ?fn_lookup_insert_ne by done.

Lemma sum_inv_step w0 s s' : observe s s' → sum_inv w0 s → sum_inv w0 s'.
Proof.
  intros [w l i d p spurious q w' Hi Hq|w l d|w l w' H1 H2 _] [Ht Hs]; unfold sum_inv in *;
    cbn [fst snd] in *.
  - rewrite !(zsum_insert _ _ _ _ _ Hi). destruct p as [| | |c|]; cbn [observe_step] in Hq.
    + outcome Hq. counters_cbn. rewrite Ht, Hs, swrap_add by done. cbn. split; f_equal; lia.
    + outcome Hq. counters_cbn. rewrite Ht, Hs, swrap_add by done. cbn. split; f_equal; lia.
    + outcome Hq. rewrite Ht, Hs. cbn. split; f_equal; lia.
    + unfold gets, modify, mret, M_ret, mbind, M_bind in Hq.
      destruct (c <? d); [destruct (_ && _)|]; simplify_eq; counters_cbn; rewrite Ht, Hs; cbn;
        split; f_equal; lia.
    + outcome Hq. rewrite Ht, Hs. cbn. split; f_equal; lia.
  - rewrite !zsum_app, Ht, Hs. cbn. split; f_equal; lia.
  - by rewrite H1, H2.
Qed.

(** [max_inv] after thread [i] moved and the maximum grew to [m']. *)
Lemma max_inv_update m0 w w' l i d p q :
  max_inv m0 (w, l) → l !! i = Some (d, p) →
  let m' := counters w' request_duration_ms_max in
  counters w request_duration_ms_max ≤ m' →
  m' = counters w request_duration_ms_max ∨ m' = d →
  match q with Exchange c => c ≤ m' | Observed => d ≤ m' | _ => True end →
  max_inv m0 (w', <[i := (d, q)]> l).
Proof.
  intros (Hm & Hin & Hall) Hi m' Hle Hm' Hq. unfold max_inv in *. cbn [fst snd] in *.
  rewrite (durations_insert _ _ _ _ _ Hi). fold m'. split_and!; [lia| |].
  - destruct Hm' as [-> | ->]; [done|]. right. unfold durations. rewrite list_elem_of_fmap.
    exists (d, p). split; [done|by eapply list_elem_of_lookup_2].
  - intros j e r Hj. destruct (decide (j = i)) as [->|Hne].
    + rewrite list_lookup_insert_eq in Hj by (by eapply lookup_lt_Some). by simplify_eq.
    + rewrite list_lookup_insert_ne in Hj by done. specialize (Hall _ _ _ Hj).
      destruct r; try done; lia.
Qed.
Lemma max_inv_step m0 s s' : observe s s' → max_inv m0 s → max_inv m0 s'.
Proof.
  intros [w l i d p spurious q w' Hi Hq|w l d|w l w' _ _ H3] Hinv.
  - pose proof Hinv as (Hm & Hin & Hall). specialize (Hall _ _ _ Hi). cbn [fst snd] in *.
    destruct p as [| | |c|]; cbn [observe_step] in Hq.
    + outcome Hq. eapply max_inv_update; [done|done| | |done]; counters_cbn; [lia|by left].
    + outcome Hq. eapply max_inv_update; [done|done| | |done]; counters_cbn; [lia|by left].
    + outcome Hq. eapply max_inv_update; [done|done|lia|by left|lia].
    + unfold gets, modify, mret, M_ret, mbind, M_bind in Hq.
      destruct (Z.ltb_spec c d); [destruct (_ && _) eqn:E|]; simplify_eq.
      * apply andb_prop in E as [E _]. apply Z.eqb_eq in E.
        eapply max_inv_update; [done|done| | |]; counters_cbn; [lia|by right|lia].
      * eapply max_inv_update; [done|done|lia|by left|lia].
      * eapply max_inv_update; [done|done|lia|by left|lia].
    + outcome Hq. eapply max_inv_update; [done|done|lia|by left|done].
  - destruct Hinv as (Hm & Hin & Hall). unfold max_inv in *. cbn [fst snd] in *.
    split_and!; [done| |].
    + unfold durations in *. rewrite fmap_app, elem_of_app. tauto.
    + intros j e r [Hj|[_ Hj]]%lookup_app_Some; [by eapply Hall|].
      apply list_lookup_singleton_Some in Hj as [_ Hj]. by simplify_eq.
  - unfold max_inv in *. cbn [fst snd] in *. by rewrite H3.
Qed.

Lemma foldr_max_spec l m :
  0 ≤ m → (m = 0 ∨ m ∈ l) → (∀ d, d ∈ l → d ≤ m) → foldr Z.max 0 l = m.
Proof.
  intros H0 Hin Hall.
  assert (foldr Z.max 0 l ≤ m) as Hle.
  { clear Hin. induction l as [|d l IH]; [done|]. cbn [foldr fold_right].
    pose proof (Hall d (list_elem_of_here _ _)). apply Z.max_lub; [done|]. apply IH.
    intros e He. apply Hall. by right. }
  assert (∀ d, d ∈ l → d ≤ foldr Z.max 0 l) as Hge.
  { clear. induction l as [|d l IH]; [by intros d ?%elem_of_nil|]. intros e He.
    apply elem_of_cons in He as [->|He]; cbn; [lia|]. specialize (IH e He). cbn in IH. lia. }
  assert (0 ≤ foldr Z.max 0 l) by (clear; induction l; cbn in *; lia).
  destruct Hin as [->|Hin]; [lia|]. specialize (Hge _ Hin). lia.
Qed.

(** The duration metrics are exact.  When any number of threads have recorded their
    durations, in any interleaving of the atomic accesses and however often the weak
    compare-exchange failed, the maximum is the largest of the durations, none is lost, and
    the total and the number of samples are those of all of them (modulo the width of the
    counters). *)
Theorem duration_metrics_exact w0 w l :
  (∀ c, counters w0 c = 0) → rtc observe (w0, []) (w, l) →
  (∀ i d p, l !! i = Some (d, p) → p = Observed) →
  counters w request_duration_ms_max = foldr Z.max 0 (durations l) ∧
  counters w request_duration_ms_total = swrap 64 (foldr Z.add 0 (durations l)) ∧
  counters w request_duration_samples = swrap 64 (Z.of_nat (length l)).
Proof.
  intros H0 Hr Hdone.
  assert (max_inv 0 (w, l) ∧ sum_inv w0 (w, l)) as [(Hm & Hin & Hall) [Ht Hs]].
  { apply (rtc_ind_r (λ s, max_inv 0 s ∧ sum_inv w0 s)) in Hr; [done| |].
    - split; [split_and!; cbn; rewrite ?H0; auto; done|]. by split; cbn; rewrite !H0.
    - intros s1 s2 _ Hst [? ?]. split; [by eapply max_inv_step|by eapply sum_inv_step]. }
  cbn [fst snd] in *. rewrite H0 in Ht, Hs. split_and!.
  - symmetry. apply foldr_max_spec; [done|done|]. intros d Hd.
    apply list_elem_of_lookup in Hd as [i Hi]. unfold durations in Hi.
    rewrite list_lookup_fmap in Hi. destruct (l !! i) as [[d' p]|] eqn:Hli; [|done].
    injection Hi as <-. specialize (Hdone _ _ _ Hli) as ->. exact (Hall _ _ _ Hli).
  - rewrite Ht. f_equal. clear -Hdone.
    induction l as [|[d p] l IH]; [done|]. rewrite (Hdone 0%nat d p eq_refl) in *.
    change (0 + (d + zsum in_total l) = d + foldr Z.add 0 (durations l)).
    specialize (IH (λ i, Hdone (S i))). lia.
  - rewrite Hs. f_equal. clear -Hdone.
    induction l as [|[d p] l IH]; [done|]. rewrite (Hdone 0%nat d p eq_refl) in *.
    change (0 + (1 + zsum in_samples l) = Z.of_nat (S (length l))).
    specialize (IH (λ i, Hdone (S i))). lia.
Qed.
End Concurrency.

(** ** Runs *)

Definition get_list : request :=
  Request Get "/order/list" "/order/list" qs_empty [] "" "" 1 1 true false false.
Definition one_slot : world := set_max_inflight_requests 1 (toy_world ∅ [] []).
(** The first request is let in, the second comes too late, and so does the third although the
    first has left: the second is still counted, until it takes itself off. *)
Definition overload : list act :=
  [New get_list; New get_list; New get_list; Go 0; Go 0; Go 0; Go 1; Go 1; Go 0; Go 2; Go 2; Go 2;
   Go 1; Go 1; Go 1; Go 2; Go 2].
Example spurious_rejection :
  option_map (λ s, map snd (snd s)) (run overload (one_slot, []))
  = Some [Gone; Rejected "Server overloaded" "1"; Rejected "Server overloaded" "1"] ∧
  option_map (λ s, (count_of admitted_in (snd s), map snd (snd s))) (run (take 9 overload) (one_slot, []))
  = Some (0%nat, [Gone; Compare 2; Arrive]).
Proof. by vm_compute. Qed.

(** The worlds are functions: only the threads are evaluated. *)
Lemma run_threads {A B} (o : option (A * B)) b : option_map snd o = Some b → ∃ a, o = Some (a, b).
Proof. destruct o as [[a b']|]; [|done]. intros [= <-]. by exists a. Qed.

(** A request that was counted leaves; one without a route on the same connection takes it off
    again, and then two requests are let in at once into a service with one place. *)
Definition drifting : list act :=
  [New get_list; Go 0; Go 0; Go 0; Go 0; NewUnrouted get_list true; Go 1;
   New get_list; Go 2; Go 2; Go 2; New get_list; Go 3; Go 3; Go 3].
Lemma concurrent_admission_witness :
  match run drifting (one_slot, []) with
  | Some (w, threads) =>
      count_of admitted_in threads = 2%nat ∧ undercounts threads = 1%nat ∧
      Z.of_nat (count_of admitted_in threads) ≤ Z.max 0 (1 + Z.of_nat (undercounts threads)) ∧
      counters w in_flight_requests
      = Z.of_nat (count_of holds threads) - Z.of_nat (undercounts threads)
  | None => False
  end.
Proof.
  destruct (run_threads (run drifting (one_slot, []))
    [(get_list, Gone); (get_list, Undercounted); (get_list, Inside true); (get_list, Inside true)])
    as [w E]; [vm_compute; reflexivity|]. rewrite E.
  split; [reflexivity|]. split; [reflexivity|].
  exact (concurrent_admission one_slot w _ eq_refl (run_sound _ _ _ E)).
Defined.

Lemma drain_turns_away_witness :
  match run [Go 0; Go 0] (set_shutting_down true one_slot, [(get_list, Arrive)]) with
  | Some (_, threads) =>
      ∃ p, threads !! 0%nat = Some (get_list, p) ∧ (turned_away_down p ∨ unrouted p) ∧ admitted_in p = false
  | None => False
  end.
Proof.
  destruct (run_threads (run [Go 0; Go 0] (set_shutting_down true one_slot, [(get_list, Arrive)]))
    [(get_list, Rejected "Server is shutting down" "5")]) as [w E]; [vm_compute; reflexivity|].
  assert (rtc interleave (set_shutting_down true one_slot, [(get_list, Arrive)])
    (w, [(get_list, Rejected "Server is shutting down" "5")])) as Hr.
  { eapply rtc_subrel; [|exact (run_sound _ _ _ E)]. by intros ? ? [? _]. }
  rewrite E.
  exists (Rejected "Server is shutting down" "5"). split; [reflexivity|].
  exact (drain_turns_away (set_shutting_down true one_slot) [(get_list, Arrive)] w _ 0%nat get_list _ eq_refl Hr (or_intror eq_refl) eq_refl eq_refl).
Defined.

(** Two observers; the exchange of the second finds the maximum changed, and then fails once
    for no reason. *)
Definition two_observers : list (Z * opc) := [(5, AddTotal); (7, AddTotal)].
Definition observations : list (nat * bool) :=
  [(0, false); (0, false); (1, false); (1, false); (0, false); (1, false); (0, false); (1, false);
   (1, true); (1, false)]%nat.
Lemma duration_metrics_exact_witness :
  match observer_run observations (toy_world ∅ [] [], two_observers) with
  | Some (w, l) =>
      counters w request_duration_ms_max = foldr Z.max 0 (durations l) ∧
      counters w request_duration_ms_total = swrap 64 (foldr Z.add 0 (durations l)) ∧
      counters w request_duration_samples = swrap 64 (Z.of_nat (length l))
  | None => False
  end.
Proof.
  destruct (run_threads (observer_run observations (toy_world ∅ [] [], two_observers))
    [(5, Observed); (7, Observed)]) as [w E]; [vm_compute; reflexivity|]. rewrite E.
  assert (rtc observe (toy_world ∅ [] [], []) (w, [(5, Observed); (7, Observed)])) as Hr.
  { eapply rtc_l; [apply (new_observer _ _ 5)|]. eapply rtc_l; [apply (new_observer _ _ 7)|].
    exact (observer_run_sound _ _ _ E). }
  refine (duration_metrics_exact (toy_world ∅ [] []) w _ (λ c, eq_refl) Hr _).
  intros i d p Hi. destruct i as [|[|i]]; cbn in Hi; by simplify_eq.
Defined.
