(* ===== verification/Session.v ===== *)
(** * From the bytes of a session to the responses

    The tokenizer in front of the connection.  A client that sends its requests one after the
    other on a connection gets one response for each, in the order of the requests, and the
    handler of each runs on the request as it was written. *)

From S2P Require Import Tokenizer TokenizerRun TokenizerHeaders TokenizerRequest.
From S2P Require Import Prelude Doubles JsonRead JsonWrite Utility QueryString Http Service.
From S2P Require Import OrderRoutes Wp Middleware AppMiddlewares Trie Router Main.
From S2P Require Import Connection ConnectionSpec.
Open Scope Z_scope.

Abbreviation crequest := TokenizerRequest.request.

(** ** The request the handler sees *)

Definition headers_of (l : list header) : ci_map := foldl (λ h kv, ci_emplace h kv.1 kv.2) [] l.
Definition add_headers (l : list header) (r : request) : request :=
  foldl (λ r kv, req_add_header r kv.1 kv.2) r l.
Definition heard_line (r : crequest) : request :=
  req_append_url (url_text (rq_path r) (rq_query r)) (url_qs_point (rq_path r) (rq_query r))
    (req_set_method (rq_method r) request_empty).
(** What the connection has put together after the headers and [got] of the body, and when the
    message is complete. *)
Definition heard_up_to (r : crequest) (got : string) : request :=
  Request (rq_method r) (url_text (rq_path r) (rq_query r)) (rq_path r)
    (query_string_of (url_text (rq_path r) (rq_query r)) true) (headers_of (all_headers r))
    got "" 1 1 true false false.
Definition heard (r : crequest) : request := heard_up_to r (body_text r).

Lemma add_headers_app l1 l2 r : add_headers (l1 ++ l2) r = add_headers l2 (add_headers l1 r).
Proof. apply foldl_app. Qed.
Lemma add_headers_fields l m u v ps hs b ip j n ka cl up :
  add_headers l (Request m u v ps hs b ip j n ka cl up)
  = Request m u v ps (foldl (λ h kv, ci_emplace h kv.1 kv.2) hs l) b ip j n ka cl up.
Proof. revert hs. induction l as [|kv l IH]; intros hs; [done|]. apply IH. Qed.
Lemma heard_line_eq r : url_ok (rq_path r) (rq_query r) →
  heard_line r = Request (rq_method r) (url_text (rq_path r) (rq_query r)) (rq_path r)
    (query_string_of (url_text (rq_path r) (rq_query r)) true) [] "" "" 0 0 false false false.
Proof.
  intros [(w & Hp & _) _]. unfold heard_line, req_append_url. cbn. f_equal.
  unfold url_qs_point, url_text. destruct (rq_query r) as [q|]; [|by rewrite string_app_nil_r].
  rewrite Hp. unfold slen. rewrite Nat2Z.id.
  destruct (Z.eqb_spec (Z.of_nat (String.length (String "/" w))) 0); [cbn in *; lia|].
  rewrite string_app_nil_l. apply substring_take.
Qed.

Section Session.
Context `{ss : !StdSort, ui : !UMapIter, sq : !Sqlite, rd : !Redis, ev : !Environment}.
Context `{fs : !FileSystem}.
Context (server_name date_str peer : string).
Context (rt : Router (connection * world) context).
Implicit Types (w : world) (c : connection) (res : response) (ctx : context).

Abbreviation state := (response * context * (connection * world))%type.
Abbreviation execute := (execute server_name date_str peer rt).
Abbreviation conn_handle := (conn_handle server_name date_str peer rt).

(** ** Assembling a request *)

(** The callbacks that only store what they are given. *)
Definition stores (e : event) : option (connection → connection) :=
  match e with
  | OnMethod m => Some (λ c, Connection.set_parser (message_complete c) true (parse_error c)
                              (set_req (req_set_method m (req_ c)) c))
  | OnHeaderField part => Some (on_header_field part)
  | OnHeaderValue part => Some (on_header_value part)
  | OnBody part => Some (λ c, set_req (req_append_body part (req_ c)) c)
  | _ => None
  end.
Lemma execute_stores e f evs res ctx c w :
  stores e = Some f → parse_error (f c) = false →
  execute (e :: evs) (res, ctx, (c, w)) = execute evs (res, ctx, (f c, w)).
Proof.
  intros He Hp. cbn [Connection.execute].
  assert (on_event server_name date_str peer rt e = modify_conn f) as ->
    by (destruct e; cbn in He; by simplify_eq).
  unfold modify_conn, modify, get_conn, gets, mbind, M_bind. cbn. by rewrite Hp.
Qed.

Lemma execute_methods l m evs res ctx c w :
  parse_error c = false →
  execute ((OnMethod <$> l ++ [m]) ++ evs) (res, ctx, (c, w))
  = execute evs (res, ctx, (Connection.set_parser (message_complete c) true false
      (set_req (req_set_method m (req_ c)) c), w)).
Proof.
  intros Hp. revert c Hp. induction l as [|m0 l IH]; intros c Hp;
    cbn [app fmap list_fmap]; (erewrite execute_stores; [|reflexivity|done]).
  - cbv beta. by rewrite Hp.
  - cbv beta. unfold fmap in IH. rewrite IH by done. by destruct c.
Qed.

(** The name and the value read last are pending; the other headers are stored. *)
Definition pending (c0 : connection) (r0 : request) (l : list header) c : Prop :=
  ∃ f v r, c = set_header_parts f v 0 (set_req r c0) ∧
    (f = "" ∧ v = "" ∧ r = add_headers l r0 ∨
     f ≠ "" ∧ v ≠ "" ∧ req_add_header r f v = add_headers l r0).

Lemma pending_flush c0 r0 l c :
  pending c0 r0 l c → flush_header c = set_header_parts "" "" 0 (set_req (add_headers l r0) c0).
Proof.
  intros (f & v & r & -> & [(-> & -> & ->)|(Hf & Hv & E)]); unfold flush_header; cbn; [done|].
  rewrite decide_False by done. by rewrite <- E.
Qed.
Lemma pending_header c0 r0 l k v c :
  k ≠ "" → v ≠ "" → pending c0 r0 l c →
  pending c0 r0 (l ++ [(k, v)]) (on_header_value v (on_header_field k c)).
Proof.
  intros Hk Hv (f & v0 & r & -> & Hc).
  unfold on_header_field. cbn.
  destruct Hc as [(-> & -> & ->)|(Hf & Hv0 & E)].
  - rewrite decide_True by done. exists k, v, (add_headers l r0).
    split; [done|]. right. split_and!; [done|done|]. by rewrite add_headers_app.
  - rewrite decide_False by done. exists k, v, (add_headers l r0).
    split; [by rewrite <- E|]. right. split_and!; [done|done|]. by rewrite add_headers_app.
Qed.
Lemma execute_headers l l0 c0 r0 evs res ctx c w :
  parse_error c0 = false → List.Forall (λ kv, kv.1 ≠ "" ∧ kv.2 ≠ "") l → pending c0 r0 l0 c →
  ∃ c', pending c0 r0 (l0 ++ l) c' ∧
    execute ((l ≫= header_events) ++ evs) (res, ctx, (c, w)) = execute evs (res, ctx, (c', w)).
Proof.
  intros Hp Hl. revert l0 c. induction Hl as [|[k v] l [Hk Hv] _ IH]; intros l0 c Hc.
  - exists c. by rewrite app_nil_r.
  - pose proof (pending_header _ _ _ k v c Hk Hv Hc) as Hc'.
    destruct (IH _ _ Hc') as (c' & Hpe & E). exists c'. rewrite <- app_assoc in Hpe. split; [done|].
    rewrite <- E. destruct Hc as (f & v0 & r & -> & _). cbn [mbind list_bind header_events app].
    do 2 (erewrite execute_stores;
      [|reflexivity|unfold on_header_field, on_header_value; cbn; by case_decide]). done.
Qed.

(** A connection between two requests, with a response nobody has touched. *)
Record idle res c : Prop := {
  id_req : req_ c = request_empty;
  id_field : header_field c = "";
  id_value : header_value c = "";
  id_state : header_building_state c = 0;
  id_complete : Connection.message_complete c = false;
  id_error : parse_error c = false;
  id_close : close_connection_ c = false;
  id_after : need_to_call_after_handlers_ c = false;
  id_fresh : fresh res c;
}.
(** The rule the router selects when it has read the URL. *)
Definition selected (r : crequest) : routing_handle_result :=
  RoutingHandleResult (find_method rt (rq_method r) (rq_path r)) (Some (rq_method r)).
(** What a request needs to be served without more ado: a route of its own method, a Host, no
    question whether to continue. *)
Record servable (r : crequest) : Prop := {
  sv_method : rq_method r ≠ Head ∧ rq_method r ≠ Options;
  sv_route : rule_index_ (find_method rt (rq_method r) (rq_path r)) ≠ 0;
  sv_host : ci_count (req_headers (heard r)) "host" ≠ 0%nat;
  sv_expect : req_get_header_value (heard r) "expect" ≠ "100-continue";
}.
Definition gathered (r : crequest) (got : string) c : connection :=
  Connection.set_parser false true false (set_routing (selected r) (set_req (heard_up_to r got) c)).
Definition assembled (r : crequest) c : connection :=
  Connection.set_parser true true false (set_routing (selected r) (set_req (heard r) c)).

Lemma handle_initial_selected r req res ctx (s : connection * world) :
  servable r → req_method req = rq_method r → req_url req = rq_path r →
  handle_initial rt req (res, ctx, s) = (Ok (selected r), (res, ctx, s)).
Proof.
  intros [[Hh Ho] Hr _ _] Hm Hu. unfold handle_initial. rewrite Hm, Hu.
  rewrite !decide_False by done. cbn zeta. by rewrite (proj2 (Z.eqb_neq _ _) Hr).
Qed.

Lemma plain_header_nonempty l :
  List.Forall plain_header l → List.Forall (λ kv, kv.1 ≠ "" ∧ kv.2 ≠ "") l.
Proof.
  intros H. eapply List.Forall_impl; [|exact H]. intros [k v] [[Hk _] Hv]. split; [done|].
  by destruct v.
Qed.
Lemma all_headers_nonempty r :
  request_ok r → List.Forall (λ kv, kv.1 ≠ "" ∧ kv.2 ≠ "") (all_headers r).
Proof.
  intros Hr. unfold all_headers. rewrite !List.Forall_app. split_and!.
  - apply plain_header_nonempty, Hr.
  - destruct (rq_body r) as [b|]; [|done]. constructor; [|done]. split; [done|].
    destruct (number_to_string (slen b) (slen_nonneg b)) as [Hn _]. cbn. by destruct (to_string _).
  - apply plain_header_nonempty, Hr.
Qed.

(** The callbacks up to the end of the headers. *)
Lemma wp_execute_head r ms evs (Q : result () → state → Prop) res ctx c w :
  request_ok r → servable r → idle res c →
  wp (execute evs) Q (res, ctx, (gathered r "" c, w)) →
  wp (execute (head_callbacks ms r ++ evs)) Q (res, ctx, (c, w)).
Proof.
  intros Hok Hr [Hreq Hf Hv Hst Hco Hpe Hcl Haf _] H. unfold wp, head_callbacks.
  rewrite <- app_assoc, execute_methods by done. rewrite Hreq.
  set (c1 := Connection.set_parser _ _ _ _).
  change (wp (execute (head_events r ++ evs)) Q (res, ctx, (c1, w))).
  set (c2 := set_routing (selected r) (set_req (heard_line r) c1)).
  (* the URL *)
  unfold head_events. cbn [app Connection.execute]. apply wp_bind. cbn [on_event].
  apply wp_bind, wp_modify. cbn [fst snd]. unfold handle_url, get_conn at 1. wp_step.
  change (req_ (set_req _ c1)) with (heard_line r). apply wp_bind. unfold wp at 1.
  pose proof (heard_line_eq r (ro_url _ Hok)) as Hline.
  rewrite (handle_initial_selected r) by (done || by rewrite Hline).
  cbn [fst snd]. apply wp_bind, wp_modify. cbn [fst snd].
  change (rh_rule_index (selected r)) with (rule_index_ (find_method rt (rq_method r) (rq_path r))).
  rewrite (proj2 (Z.eqb_neq _ _) (sv_route _ Hr)). apply wp_ret. unfold get_conn at 1. wp_step.
  change (parse_error _) with false. cbn iota.
  (* the headers *)
  match goal with |- wp (execute ?e) _ (_, _, (?c', _)) => change c' with c2 end.
  assert (pending c2 (heard_line r) [] c2) as Hpend.
  { exists "", "", (heard_line r). split; [|by left]. subst c2 c1. destruct c. cbn in *. by subst. }
  rewrite <- app_assoc.
  destruct (execute_headers (all_headers r) [] c2 (heard_line r)
    (OnHeadersComplete 1 1 false false false :: evs)
    res ctx c2 w) as (c3 & Hp3 & E); [done|by apply all_headers_nonempty, Hok|done|].
  cbn [app] in Hp3 |- *. unfold wp. rewrite E. clear E.
  (* their end *)
  match goal with |- Q (fst (execute ?e ?s)) _ => change (wp (execute e) Q s) end.
  cbn [Connection.execute]. apply wp_bind. cbn [on_event]. apply wp_bind, wp_modify. cbn [fst snd].
  rewrite (pending_flush _ _ _ _ Hp3).
  set (c4 := set_req _ _).
  assert (c4 = gathered r "" c) as ->.
  { subst c4 c2 c1. cbn [req_ set_req set_header_parts].
    rewrite Hline, add_headers_fields. destruct c. cbn in *. by subst. }
  unfold handle_header, get_conn at 1. wp_step.
  replace (_ && _) with false.
  2: { symmetry. apply andb_false_iff. right. apply bool_decide_eq_false_2, (sv_expect _ Hr). }
  apply wp_ret. unfold get_conn. wp_step. exact H.
Qed.

(** A piece of the body, the last or not. *)
Lemma wp_execute_piece r got b evs (Q : result () → state → Prop) res ctx c w :
  wp (execute evs) Q (res, ctx, (gathered r (got +:+ b) c, w)) →
  wp (execute ((if decide (b = "") then [] else [OnBody b]) ++ evs)) Q
    (res, ctx, (gathered r got c, w)).
Proof.
  intros H. case_decide as Hd; [subst b; by rewrite string_app_nil_r in H|].
  unfold wp. cbn [app]. by erewrite execute_stores; [|reflexivity|done].
Qed.
(** The end of the message, which answers. *)
Lemma wp_execute_end r (Q : result () → state → Prop) res ctx c w :
  wp conn_handle Q (res, ctx, (assembled r c, w)) →
  wp (execute [OnMessageComplete]) Q (res, ctx, (gathered r (body_text r) c, w)).
Proof.
  intros H. cbn [Connection.execute]. apply wp_bind. cbn [on_event]. apply wp_bind, wp_modify.
  eapply wp_mono; [exact H|]. intros [[]|e] x Hx; [|done].
  cbn beta iota. unfold get_conn. wp_step. case_match; exact Hx.
Qed.

(** ** One request, from its callbacks to its response *)

(** The request as the middlewares and the handler see it. *)
Definition request_seen (r : crequest) : request := req_set_remote peer (heard r).
(** [res1] answers [r], the handler of whose route is [f], and the world becomes [w']. *)
Definition answered (r : crequest) (f : request → routing_params → M world response) w
  (res1 : response) w' : Prop :=
  inflight w' = inflight w ∧
  ((∃ res, turned_away (request_seen r) w res res1 w') ∧ no_backend w w' ∨
   ∃ w1 ctx1 x w2, no_backend w w1 ∧ admitted (request_seen r) w ctx1 w1 ∧
     f (request_seen r) (r_params (rh_found (selected r))) w1 = (x, w2) ∧
     no_backend w2 w' ∧ code_ res1 = code_ (answer x) ∧
     (400 ≤ code_ res1 → body res1 ≠ "") ∧ (code_ res1 < 400 → body res1 = body (answer x))).
(** [text] was written after what was on the wire before. *)
Definition wrote (text : string) (c c' : connection) : Prop :=
  ∃ new, wire c' = new ++ wire c ∧ String.concat "" (rev new) = text.

Lemma idle_after text res r c c' :
  idle res c → sent text (accepted peer (assembled r c)) c' →
  parse_error c' = false ∧ is_open c' = true ∧ close_connection_ c' = false ∧
  need_to_call_after_handlers_ c' = false ∧ continue_requested c' = false ∧
  need_to_start_read_after_complete_ c' = false ∧
  (∀ res', fresh res' c' → idle res' (set_socket true true c')).
Proof.
  intros [Hreq Hf Hv Hst Hco Hpe Hcl Haf [_ Hsd Hnr]] Hs. destruct Hs.
  assert (is_open c' = true) as Ho.
  { destruct sn_open as [->|[_ Hc]]; [by destruct c, Hsd|done]. }
  split_and!; try done; try (rewrite ?sn_error, ?sn_close, ?sn_after, ?sn_read; by destruct c).
  intros res' [Hc1 [H1 H2 H3 H4] Hr1]. split; try (by destruct c').
Qed.

(** The end of [on_read] on a connection that goes on. *)
Ltac read_on H :=
  let H1 := fresh "Hpe" in let H2 := fresh "Ho" in let H3 := fresh "Hcl" in
  let H4 := fresh "Hna" in let H5 := fresh "Hco" in let H6 := fresh "Hnr" in
  destruct H as (H1 & H2 & H3 & H4 & H5 & H6 & _);
  unfold get_conn; wp_step; rewrite H1; apply wp_ret; wp_step; rewrite H2, H3, H4;
  apply wp_modify; cbn [fst snd]; rewrite H2.
(** A read whose callbacks answer [r]; [c0] is the connection at the start of the request. *)
Lemma wp_on_read_last r f evs (Q : result () → state → Prop) res ctx c c0 w :
  Connection.message_complete c = false → parse_error c = false → wire c = wire c0 →
  servable r → idle res c0 → routed rt (selected r) f →
  (∀ w1, no_backend w w1 → good_at (f (request_seen r) (r_params (rh_found (selected r)))) w1) →
  inflight_range w →
  (∀ Q' : result () → state → Prop, wp conn_handle Q' (res, ctx, (assembled r c0, w)) →
     wp (execute evs) Q' (res, ctx, (set_socket (is_open c) false c, w))) →
  (∀ res1 res' ctx' c' w', answered r f w res1 w' → idle res' c' → reading c' = true →
     wrote (message server_name date_str true res1) c c' → Q (Ok ()) (res', ctx', (c', w'))) →
  wp (on_read server_name date_str peer rt (Some (evs, true))) Q (res, ctx, (c, w)).
Proof.
  intros Hco Hpe Hw0 Hr Hidle Hrouted Hgood Hin Hevs HQ.
  unfold on_read. apply wp_bind, wp_modify. cbn [fst snd].
  unfold feed. do 2 apply wp_bind. unfold get_conn at 1. apply wp_gets. cbn [fst snd].
  change (Connection.message_complete (set_socket _ _ c)) with (Connection.message_complete c).
  change (parse_error (set_socket _ _ c)) with (parse_error c).
  rewrite Hco, Hpe. apply wp_bind.
  apply Hevs, wp_conn_handle_valid.
  { split; [done|apply (sv_host _ Hr)|done]. }
  assert (fresh res (assembled r c0)) as Hfr.
  { destruct Hidle as [? ? ? ? ? ? ? ? [? [] ?]]. by split; destruct c0. }
  assert (∀ text c', sent text (accepted peer (assembled r c0)) c' →
    wrote text c (set_socket true true c')) as Hwrote.
  { intros text c' Hs. destruct (sn_wire _ _ _ Hs) as (new & Hw & Ht). exists new.
    rewrite Hw0. by destruct c0, c'. }
  assert (∀ res1 res' ctx' c' w', answered r f w res1 w' →
    sent (message server_name date_str true res1) (accepted peer (assembled r c0)) c' →
    fresh res' c' → Q (Ok ()) (res', ctx', (set_socket true true c', w'))) as Hdone.
  { intros res1 res' ctx' c' w' Ha Hs Hf'.
    destruct (idle_after _ _ _ _ _ Hidle Hs) as (_ & _ & _ & _ & _ & _ & Hid).
    eapply HQ; [exact Ha|by apply Hid|by destruct c'|by apply Hwrote]. }
  eapply (wp_handle_valid _ _ _ _ (selected r) f); [exact Hfr|done|exact Hrouted|exact Hgood|exact Hin|..].
  - intros res1 ctx' c' w' Ha Hnb Hs. read_on (idle_after _ _ _ _ _ Hidle Hs).
    eapply Hdone; [|exact Hs|split; [done| |done]; by split].
    split; [by destruct Ha as (_ & _ & _ & ? & _)|]. left. split; [by exists res|done].
  - intros w1 x w2 res1 res' ctx' c' w' Hnb1 [ctx1 Had] Hfr1 Hnb2 Hi Hcode Hbody Hsame Hs Hfresh.
    read_on (idle_after _ _ _ _ _ Hidle Hs). eapply Hdone; [|exact Hs|by apply Hfresh].
    split; [done|]. right. by exists w1, ctx1, x, w2.
Qed.
(** A read that leaves the body incomplete. *)
Lemma wp_on_read_part r got evs (Q : result () → state → Prop) res ctx c c0 w :
  Connection.message_complete c = false → parse_error c = false → idle res c0 →
  (∀ Q' : result () → state → Prop, Q' (Ok ()) (res, ctx, (gathered r got c0, w)) →
     wp (execute evs) Q' (res, ctx, (set_socket (is_open c) false c, w))) →
  Q (Ok ()) (res, ctx, (gathered r got (set_socket true true c0), w)) →
  wp (on_read server_name date_str peer rt (Some (evs, true))) Q (res, ctx, (c, w)).
Proof.
  intros Hco Hpe [_ _ _ _ _ _ Hcl Haf [_ [Ho _ _ _] _]] Hevs HQ.
  unfold on_read. apply wp_bind, wp_modify. cbn [fst snd].
  unfold feed. do 2 apply wp_bind. unfold get_conn at 1. apply wp_gets. cbn [fst snd].
  change (Connection.message_complete (set_socket _ _ c)) with (Connection.message_complete c).
  change (parse_error (set_socket _ _ c)) with (parse_error c).
  rewrite Hco, Hpe. apply wp_bind, Hevs. unfold get_conn. wp_step. apply wp_ret. wp_step.
  change (is_open (gathered r got c0)) with (is_open c0).
  change (close_connection_ (gathered r got c0)) with (close_connection_ c0).
  change (need_to_call_after_handlers_ (gathered r got c0)) with (need_to_call_after_handlers_ c0).
  rewrite Ho, Hcl, Haf. apply wp_modify. cbn [fst snd].
  change (is_open (gathered r got c0)) with (is_open c0). rewrite Ho. exact HQ.
Qed.

(** ** A session *)

(** One read: the bytes go through the tokenizer, and the connection acts on its callbacks.
    They leave the tokenizer alone until the message is complete, so they can be acted on one
    after the other, when they are all made. *)
Definition receive (address : Z) (text : string) (hp : http_parser) : CR http_parser :=
  match http_parser_execute reporting address text hp [] with
  | (Ok (hp', n), evs) =>
      _ ← on_read server_name date_str peer rt (Some (evs, n =? slen text));
      mret hp'
  | (Throw e, _) => throw e
  end.
Fixpoint session (address : Z) (texts : list string) (hp : http_parser) : CR http_parser :=
  match texts with
  | [] => mret hp
  | text :: l => hp' ← receive address text hp; session address l hp'
  end.

(** A request as it comes in, with the handler of its route. *)
Definition exchange : Type := delivery * (request → routing_params → M world response).
Definition asked (x : exchange) : crequest := dl_request (fst x).
Record accepted_exchange (x : exchange) : Prop := {
  ax_delivered : delivery_ok (fst x);
  ax_servable : servable (asked x);
  ax_routed : routed rt (selected (asked x)) (snd x);
  ax_good : good_handler (snd x (request_seen (asked x)) (r_params (rh_found (selected (asked x)))));
}.
(** The responses to the requests of a session, one each, in their order. *)
Inductive served : list exchange → world → list response → world → Prop :=
| served_nil w : served [] w [] w
| served_cons x l w res1 w1 rs w' :
    answered (asked x) (snd x) w res1 w1 → served l w1 rs w' →
    served (x :: l) w (res1 :: rs) w'.

Lemma inflight_answered r f w res1 w' :
  answered r f w res1 w' → inflight_range w → inflight_range w'.
Proof. unfold inflight_range. by intros [-> _]. Qed.
Lemma wrote_trans t1 t2 c1 c2 c3 : wrote t1 c1 c2 → wrote t2 c2 c3 → wrote (t1 +:+ t2) c1 c3.
Proof.
  intros (n1 & E1 & <-) (n2 & E2 & <-). exists (n2 ++ n1). split.
  - by rewrite E2, E1, app_assoc.
  - by rewrite rev_app_distr, string_concat_app.
Qed.

Lemma wp_session_app address l1 l2 hp (Q : result http_parser → state → Prop) st :
  wp (session address l1 hp) (λ x st', match x with
    | Ok hp' => wp (session address l2 hp') Q st'
    | Throw e => Q (Throw e) st'
    end) st →
  wp (session address (l1 ++ l2) hp) Q st.
Proof.
  revert hp st. induction l1 as [|text l1 IH]; intros hp st; [done|].
  unfold wp. cbn [session app]. unfold mbind, M_bind.
  destruct (receive address text hp st) as [[hp'|e] st']; [apply IH|done].
Qed.

(** A read and those after it, up to the end of the body: [text] is the next read, whose
    callbacks [evs] bring the connection to what it knows with [got] of the body, then [b]. *)
Lemma wp_reads address r f l : ∀ text b left got evs hp hp' (Q : result http_parser → state → Prop)
    res ctx c c0 w,
  http_parser_execute reporting address text hp []
    = (Ok (hp', slen text), evs ++ piece_events left b) →
  after_piece left b hp' → left = slen b + slen (String.concat "" l) → left < length_bound →
  List.Forall (.≠ "") l → body_text r = got +:+ (b +:+ String.concat "" l) →
  (∀ evs' (Q' : result () → state → Prop),
     wp (execute evs') Q' (res, ctx, (gathered r got c0, w)) →
     wp (execute (evs ++ evs')) Q' (res, ctx, (set_socket (is_open c) false c, w))) →
  Connection.message_complete c = false → parse_error c = false → wire c = wire c0 →
  idle res c0 → servable r → routed rt (selected r) f →
  (∀ w1, no_backend w w1 → good_at (f (request_seen r) (r_params (rh_found (selected r)))) w1) →
  inflight_range w →
  (∀ hp' res1 res' ctx' c' w', awaiting hp' → hp_nread hp' = 0 → answered r f w res1 w' →
     idle res' c' → reading c' = true → wrote (message server_name date_str true res1) c c' →
     Q (Ok hp') (res', ctx', (c', w'))) →
  wp (session address (text :: l) hp) Q (res, ctx, (c, w)).
Proof.
  induction l as [|b1 l IH];
    intros text b left got evs hp hp' Q res ctx c c0 w Hex Hafter Hleft HL Hne Hbody Hevs Hco Hpe Hwi
      Hid Hs Hro Hg Hin HQ; cbn [session]; apply wp_bind; unfold receive; rewrite Hex, Z.eqb_refl;
    apply wp_bind.
  - change (String.concat "" []) with "" in *. change (slen "") with 0 in Hleft.
    rewrite string_app_nil_r in Hbody. unfold after_piece in Hafter. unfold piece_events.
    rewrite decide_True in Hafter by lia. destruct Hafter as [Ha Hn].
    rewrite (decide_True (P := slen b = left)) by lia.
    apply (wp_on_read_last r f _ _ res ctx c c0 w Hco Hpe Hwi Hs Hid Hro Hg Hin).
    + intros Q' H. apply Hevs, wp_execute_piece. rewrite <- Hbody. by apply wp_execute_end.
    + intros res1 res' ctx' c' w' H1 H2 H3 H4. apply wp_ret, wp_ret. by eapply HQ.
  - apply List.Forall_cons_iff in Hne as [Hb1 Hne]. pose proof (slen_pos _ Hb1).
    rewrite string_concat_cons, slen_app in *. pose proof (slen_nonneg (String.concat "" l)).
    pose proof (slen_nonneg b). unfold after_piece in Hafter. unfold piece_events.
    rewrite decide_False in Hafter by lia. rewrite (decide_False (P := slen b = left)) by lia.
    apply (wp_on_read_part r (got +:+ b) _ _ res ctx c c0 w Hco Hpe Hid).
    { intros Q' H'. apply Hevs, wp_execute_piece. exact H'. }
    apply wp_ret.
    destruct (read_piece address (left - slen b) b1 hp' [] Hafter Hb1) as (h2 & Hh2 & E); [lia|lia|].
    apply (IH b1 b1 (left - slen b) (got +:+ b) [] hp' h2 Q res ctx _ (set_socket true false c0) w);
      try done; try lia.
    + by rewrite Hbody, !string_app_assoc.
    + destruct Hid as [? ? ? ? ? ? ? ? [? [] ?]]. split; try (by destruct c0).
    + intros hp2 res1 res' ctx' c' w' Ha2 Hn2 Hans Hid2 Hrd2 (new & Hw2 & Ht2). eapply HQ; try done.
      exists new. split; [|done]. rewrite Hw2. by rewrite Hwi.
Qed.
Lemma wp_delivery address d f hp (Q : result http_parser → state → Prop) res ctx c w :
  delivery_ok d → servable (dl_request d) → routed rt (selected (dl_request d)) f →
  (∀ w1, no_backend w w1 →
     good_at (f (request_seen (dl_request d)) (r_params (rh_found (selected (dl_request d))))) w1) →
  awaiting hp → hp_nread hp = 0 → idle res c → inflight_range w →
  (∀ hp' res1 res' ctx' c' w', awaiting hp' → hp_nread hp' = 0 →
     answered (dl_request d) f w res1 w' →
     idle res' c' → reading c' = true → wrote (message server_name date_str true res1) c c' →
     Q (Ok hp') (res', ctx', (c', w'))) →
  wp (session address (reads d) hp) Q (res, ctx, (c, w)).
Proof.
  intros [Hok Hb Hne] Hs Hro Hg Ha Hn Hid Hin HQ.
  destruct (read_head address _ _ _ hp [] Ha Hn Hok Hb) as (ms & hp' & Ha' & E).
  assert (idle res (set_socket (is_open c) false c)) as Hid0.
  { destruct Hid as [? ? ? ? ? ? ? ? [? [] ?]]. split; try (by destruct c). }
  eapply (wp_reads address (dl_request d) f (dl_rest d) _ (dl_first d) _ "" _ hp hp' Q res ctx c
    (set_socket (is_open c) false c) w E Ha'); try done.
  - by rewrite <- slen_app, <- Hb.
  - apply (ro_body _ Hok).
  - intros evs' Q' H. by apply wp_execute_head.
  - apply Hid.
  - apply Hid.
Qed.

(** C3: one response for each request of a session.  A client sends requests in the way of
    clients, with any methods but HEAD and OPTIONS, paths, queries, headers and bodies, each
    to some route of the service, and a handler that is well behaved whatever else it does;
    the head of each comes in one read, the body in any number of further ones.
    From the bytes: every request is parsed and handled, the handler sees the request that
    was written, the responses are written in the order of the requests, one for each and
    nothing else, the in-flight counter comes back to where it was, and connection, parser
    and response are ready for another request. *)
Theorem session_served address l hp res ctx c w :
  List.Forall accepted_exchange l → awaiting hp → hp_nread hp = 0 → idle res c →
  reading c = true → inflight_range w →
  wp (session address ((fst <$> l) ≫= reads) hp) (λ x st, ∃ hp' res' ctx' c' w' rs,
    x = Ok hp' ∧ st = (res', ctx', (c', w')) ∧ served l w rs w' ∧
    wrote (String.concat "" (message server_name date_str true <$> rs)) c c' ∧
    inflight w' = inflight w ∧ reading c' = true ∧ idle res' c' ∧ awaiting hp' ∧
    hp_nread hp' = 0) (res, ctx, (c, w)).
Proof.
  intros Hl. revert hp res ctx c w. induction Hl as [|[d f] l Hx _ IH];
    intros hp res ctx c w Ha Hn Hid Hrd Hin.
  - apply wp_ret. exists hp, res, ctx, c, w, []. split_and!; try done; [constructor|by exists []].
  - change ((fst <$> (d, f) :: l) ≫= reads) with (reads d ++ ((fst <$> l) ≫= reads)).
    destruct Hx as [Hd Hs Hro Hg]. unfold asked in *. cbn [fst snd] in *.
    apply wp_session_app, (wp_delivery address d f); [done..|by intros; apply Hg|done|done|done|done|].
    intros hp1 res1 res' ctx' c1 w1 Ha1 Hn1 Hans Hid1 Hrd1 Hwr1.
    eapply wp_mono; [apply IH; try done; by eapply inflight_answered|].
    intros x st (hp' & res2 & ctx2 & c2 & w2 & rs & -> & -> & Hsv & Hwr & Hi & H).
    exists hp', res2, ctx2, c2, w2, (res1 :: rs). split_and!; try done; try apply H.
    + by econstructor.
    + rewrite fmap_cons, string_concat_cons. by eapply wrote_trans.
    + rewrite Hi. apply Hans.
Qed.
End Session.
