(* ===== verification/OrderSession.v ===== *)
(** * Orders over the wire

    The order book behind a connection: the refinement of OrderTheorems.v for clients that
    send bytes.  The service's router is the one main.cpp builds, the requests of a session
    are calls of the order API, and what the responses say is what happened to the book. *)

From S2P Require Import Tokenizer TokenizerRun TokenizerHeaders TokenizerRequest.
From S2P Require Import Prelude Doubles JsonRead JsonWrite Utility QueryString Http Service.
From S2P Require Import OrderRoutes Wp OrderSpec OrderTheorems.
From S2P Require Import Middleware AppMiddlewares Trie Router Main.
From S2P Require Import Connection ConnectionSpec Session.
Open Scope Z_scope.

(** ** Effects *)

Lemma book_step_size t e t' : book_step t e t' → (size t' ≤ S (size t))%nat.
Proof.
  intros [t0 k a now Hk Ha|t0 k o now Hk Hs|t0 k o Hk].
  - by rewrite map_size_insert, Hk.
  - rewrite map_size_insert, Hk. unfold id. lia.
  - rewrite map_size_delete, Hk. lia.
Qed.

Section Effects.
Context `{ss : !StdSort, ui : !UMapIter, sq : !Sqlite, rd : !Redis, ev : !Environment}.

Lemma effect_same c t res res' t' :
  code_ res' = code_ res → (code_ res = 200 → body res' = body res) →
  effect c t res t' → effect c t res' t'.
Proof.
  unfold effect. intros -> Hb. destruct (mutation c && (code_ res =? 200)) eqn:E.
  - apply andb_true_iff in E as [_ E%Z.eqb_eq]. intros (e & v & H1 & H2 & H3 & H4).
    exists e, v. rewrite Hb by done. by split_and!.
  - intros [-> H]. split; [done|]. intros req Hc Hcode. rewrite Hb by done. by apply H.
Qed.
(** A failure leaves the book as it was. *)
Lemma effect_failed c t res : code_ res ≠ 200 → effect c t res t.
Proof.
  intros H. unfold effect. rewrite (proj2 (Z.eqb_neq _ _) H), andb_false_r. by split.
Qed.
Lemma effect_book c t res t' :
  effect c t res t' → book_ok t → book_ok t' ∧ (size t' ≤ S (size t))%nat.
Proof.
  unfold effect. destruct (_ && _).
  - intros (e & v & _ & Hs & _) Hok. split; [by eapply book_step_ok|by eapply book_step_size].
  - intros [-> _] Hok. split; [done|lia].
Qed.
End Effects.

Section OrderSession.
Context `{ss : !StdSort, ui : !UMapIter, sq : !Sqlite, rd : !Redis, ev : !Environment}.
Context `{fs : !FileSystem}.
Context (server_name date_str peer : string).
Context (rt : Router (connection * world) context).
Context (Hrt : app_router (K := connection) = Some (Ok rt)).
Implicit Types (w : world) (c : connection) (res : response) (ctx : context).

Abbreviation table w := (sq_table (db w)).
Abbreviation state := (response * context * (connection * world))%type.
Abbreviation session := (session server_name date_str peer rt).

Lemma scan_size w : length (sq_scan (db w)) = size (table w).
Proof. by rewrite sq_scan_perm, length_map_to_list. Qed.

(** ** The calls of the API *)

(** A request for one of the order routes of main.cpp, and the call its handler makes. *)
Inductive asks_for (r : crequest) : call → Prop :=
| asks_create :
    rq_method r = Post → rq_path r = "/order/create" → asks_for r (CCreate (request_seen peer r))
| asks_get k :
    rq_method r = Get → rq_path r = "/order/get/" +:+ k → k ≠ "" →
    string_Forall (λ x, x ≠ "/"%char) k → asks_for r (CGet k)
| asks_pay :
    rq_method r = Post → rq_path r = "/order/pay" → asks_for r (CPay (request_seen peer r))
| asks_list :
    rq_method r = Get → rq_path r = "/order/list" → asks_for r (CList (request_seen peer r))
| asks_delete k :
    rq_method r = Http.Delete → rq_path r = "/order/delete/" +:+ k → k ≠ "" →
    string_Forall (λ x, x ≠ "/"%char) k → asks_for r (CDelete k).

Lemma string_matched pre k :
  k ≠ "" → string_Forall (λ x, x ≠ "/"%char) k →
  string_match pre (pre +:+ k) = Some (push_string k no_params).
Proof.
  intros Hk Hs. unfold string_match. rewrite strip_prefix_app.
  rewrite decide_True by (split; assumption). reflexivity.
Qed.
Lemma literal_missed pat url : url ≠ pat → literal_match pat url = None.
Proof. intros H. unfold literal_match. by rewrite decide_False. Qed.

#[local] Strategy opaque [find_method run].
(** [f] is the handler of the route of [r], and does what [call] does. *)
Definition handles (r : crequest) (call : call)
  (f : request → routing_params → M world response) : Prop :=
  rule_index_ (find_method rt (rq_method r) (rq_path r)) ≠ 0 ∧ routed rt (selected rt r) f ∧
  ∀ w, f (request_seen peer r) (r_params (rh_found (selected rt r))) w = run call w.

Lemma handles_found r call f p :
  app_route (K := connection) (rq_method r) (rq_path r)
    = Some (wrapped_handler (λ req rp, on_world (f req rp)), p) →
  (∀ w, f (request_seen peer r) p w = run call w) → handles r call f.
Proof using Hrt.
  intros Happ Hf. pose proof (app_finds rt (rq_method r) (rq_path r) Hrt) as H.
  rewrite Happ in H. destruct H as (x & Hi & Hx & Hh & Hm & Hp). split_and!.
  - lia.
  - exists (rq_method r), x. split_and!; [reflexivity|assumption..].
  - intros w. cbn [selected rh_found]. rewrite Hp. apply Hf.
Qed.

Lemma asks_for_handled r call : asks_for r call → ∃ f, handles r call f.
Proof using Hrt.
  intros [Hm Hp|k Hm Hp Hk Hs|Hm Hp|Hm Hp|k Hm Hp Hk Hs].
  - exists (λ req _, create_order req). apply (handles_found _ _ _ no_params); [|done].
    by rewrite Hm, Hp.
  - exists (λ _ rp, s ← lift (param_get (string_params rp) 0); get_order s).
    apply (handles_found _ _ _ (push_string k no_params)); [|done].
    rewrite Hm, Hp. cbn [app_route]. rewrite !literal_missed by done. cbn [first_match].
    by rewrite string_matched.
  - exists (λ req _, pay_order req). apply (handles_found _ _ _ no_params); [|done].
    by rewrite Hm, Hp.
  - exists (λ req _, list_orders req). apply (handles_found _ _ _ no_params); [|done].
    by rewrite Hm, Hp.
  - exists (λ _ rp, s ← lift (param_get (string_params rp) 0); delete_order s).
    apply (handles_found _ _ _ (push_string k no_params)); [|done].
    rewrite Hm, Hp. cbn [app_route first_match]. by rewrite string_matched.
Qed.

Lemma asks_for_no_probe r call : asks_for r call → is_probe_path (rq_path r) = false.
Proof. by intros [? ->|k ? -> ? ?|? ->|? ->|k ? -> ? ?]. Qed.

(** ** One exchange *)

Lemma run_good call w :
  book_ok (table w) → Z.of_nat (size (table w)) < 2 ^ 31 → no_array call → good_at (run call) w.
Proof.
  intros Hok Hlen Hna. rewrite <- scan_size in Hlen.
  eapply wp_mono; [by apply run_performs|]. intros [res|e] w' [Hc H].
  - split_and!; [apply Hc|done|apply H].
  - destruct H as [-> H]. destruct (H Hna) as [m ->]. by split_and!.
Qed.

(** What decides whether a call is let through: the key, and whether the service is draining or
    has no place left. *)
Record same_gate w w' : Prop := {
  sg_key : api_key w' = api_key w;
  sg_down : shutting_down w' = shutting_down w;
  sg_max : max_inflight_requests w' = max_inflight_requests w;
  sg_inflight : inflight w' = inflight w;
}.
Definition authorized w (r : crequest) : Prop :=
  req_get_header_value (request_seen peer r) "Authorization" = api_key w.
Definition closed w : Prop := shutting_down w = true ∨ max_inflight_requests w < inflight w + 1.
(** [res] answers [call] at the gate of [w], and the book [t] becomes [t']: the call is made, or
    turned away by a service that takes no calls or for want of the key. *)
Definition ordered w (r : crequest) (call : call) (t : book) res (t' : book) : Prop :=
  (authorized w r ∧ ¬ closed w ∧ effect call t res t') ∨
  (closed w ∧ code_ res = 503 ∧ t' = t) ∨
  (¬ authorized w r ∧ code_ res = 401 ∧ t' = t).

Lemma ordered_gate w w' r call t res t' :
  same_gate w w' → ordered w' r call t res t' → ordered w r call t res t'.
Proof. intros [Hk Hd Hm Hi]. unfold ordered, authorized, closed. by rewrite Hk, Hd, Hm, Hi. Qed.
Lemma ordered_effect w r call t res t' : ordered w r call t res t' → effect call t res t'.
Proof.
  intros [(_ & _ & H)|[(_ & H & ->)|(_ & H & ->)]]; [done|apply effect_failed; by rewrite H..].
Qed.

Lemma answered_ordered r call f w res w' :
  asks_for r call → handles r call f → no_array call → book_ok (table w) →
  Z.of_nat (size (table w)) < 2 ^ 31 → answered peer rt r f w res w' →
  ordered w r call (table w) res (table w') ∧ same_gate w w'.
Proof.
  intros Hasks (_ & _ & Hrun) Hna Hok Hlen (Hinf & [[(res0 & Haway) Hnb]|Hserved]).
  - destruct Haway as (_ & _ & _ & _ & Hwhy), Hnb as [Hdb _ Hsd _ Hkey Hmax].
    split; [|by split]. right. rewrite Hdb. unfold closed, authorized.
    destruct Hwhy as [[Hc Hwhy]|[(Hc & _ & Hwhy)|[Hc Hwhy]]]; [left; tauto|left; tauto|right; tauto].
  - destruct Hserved as (w1 & ctx1 & x & w2 & [Hdb1 _ Hsd1 _ Hk1 Hm1] & Had & Hf
      & [Hdb2 _ Hsd2 _ Hk2 Hm2] & Hcode & _ & Hbody).
    assert (authorized w r ∧ ¬ closed w) as [Hauth Hopen].
    { destruct Had as [[Hp _]|(_ & Hsd & Hk & Hroom & _)].
      - change (req_url _) with (rq_path r) in Hp. by rewrite (asks_for_no_probe r call Hasks) in Hp.
      - split; [exact Hk|]. intros [H|H]; [congruence|lia]. }
    rewrite Hrun in Hf. rewrite <- Hdb1 in Hok, Hlen |- *. rewrite <- scan_size in Hlen.
    pose proof (run_performs call w1 Hok Hlen) as [Hc Hx]. rewrite Hf in Hc, Hx. cbn [fst snd] in Hc, Hx.
    destruct Hc as [Hsd _ Hm Hk _ _ _]. split; [left|split; congruence].
    split; [exact Hauth|]. split; [exact Hopen|]. rewrite Hdb2.
    assert (effect call (table w1) (answer x) (table w2)) as He.
    { destruct x as [res1|e]; [by destruct Hx|]. destruct Hx as [-> He].
      destruct (He Hna) as [m ->]. by apply effect_failed. }
    eapply effect_same; [exact Hcode| |exact He]. intros H200. apply Hbody. lia.
Qed.

(** ** A session *)

(** A request of the API as it comes in, with its call. *)
Record order_exchange (x : delivery * call) : Prop := {
  ox_delivered : delivery_ok (fst x);
  ox_asks : asks_for (dl_request (fst x)) (snd x);
  ox_host : ci_count (req_headers (heard (dl_request (fst x)))) "host" ≠ 0%nat;
  ox_expect : req_get_header_value (heard (dl_request (fst x))) "expect" ≠ "100-continue";
  ox_body : no_array (snd x);
}.
(** The responses to the calls of a session that starts in [w], one each and in their order,
    and the book before the first and after the last. *)
Inductive book_served w : list (delivery * call) → book → list response → book → Prop :=
| book_nil t : book_served w [] t [] t
| book_cons x l t res t1 rs t2 :
    ordered w (dl_request (fst x)) (snd x) t res t1 → book_served w l t1 rs t2 →
    book_served w (x :: l) t (res :: rs) t2.

Lemma book_served_gate w w' l t rs t' :
  same_gate w w' → book_served w' l t rs t' → book_served w l t rs t'.
Proof. induction 2; econstructor; eauto using ordered_gate. Qed.

Lemma order_servable x f :
  order_exchange x → handles (dl_request (fst x)) (snd x) f → servable rt (dl_request (fst x)).
Proof.
  intros [_ Ha Hh He _] (Hi & _). split; [|assumption..].
  clear -Ha. destruct Ha as [Hm|k Hm|Hm|Hm|k Hm]; rewrite Hm; split; discriminate.
Qed.

(** C1: orders over the wire.  Over a connection that waits for a request, to the service with
    the routes of main.cpp, a client sends calls of the order API as HTTP/1.1 requests of this
    form ([order_exchange]): the path one of the five routes, with an order number that is not
    empty and has no slash, in characters of URLs; the head in one read, at most 80 KB, with a
    Host header, without "Expect: 100-continue", and otherwise only headers with a value and
    with a name that the tokenizer gives no meaning to, and the Content-Length of the body;
    the body, shorter than 2^60 bytes, in that read and any number of further ones; and the
    body of a create or a payment not a JSON array.  The book is well-formed, and with one
    order more for each call has fewer than 2^31; the in-flight counter is not at an end of
    its type.  Then every call is answered, in the order of the calls, and the answers are
    true of the book: a 200 to a create, a payment or a deletion is one step of the abstract
    order book, the one the call asked for, and its body reports that step; the orders a list
    shows are in the book; any other answer, an error of the client, the server or the
    database, leaves the book as it was.  Calls are made only with the key of the service and
    while it takes calls; all others are answered 401, for want of the key, or 503, from a
    service that drains or is full, and nothing happens. *)
Theorem orders_over_the_wire address l hp res ctx c w :
  List.Forall order_exchange l → awaiting hp → hp_nread hp = 0 → idle res c →
  reading c = true → inflight_range w → book_ok (table w) →
  Z.of_nat (size (table w)) + Z.of_nat (length l) < 2 ^ 31 →
  wp (session address ((fst <$> l) ≫= reads) hp) (λ x st, ∃ hp' res' ctx' c' w' rs,
    x = Ok hp' ∧ st = (res', ctx', (c', w')) ∧
    book_served w l (table w) rs (table w') ∧ book_ok (table w') ∧
    wrote (String.concat "" (message server_name date_str true <$> rs)) c c' ∧
    inflight w' = inflight w ∧ reading c' = true ∧ idle res' c' ∧ awaiting hp' ∧
    hp_nread hp' = 0) (res, ctx, (c, w)).
Proof using Hrt.
  pose proof asks_for_handled as Hhandled. clear Hrt.
  intros Hl. revert hp res ctx c w. induction Hl as [|[d call] l Hx _ IH];
    intros hp res ctx c w Ha Hn Hid Hrd Hin Hok Hlen.
  - apply wp_ret. exists hp, res, ctx, c, w, []. split_and!; try done; [constructor|by exists []].
  - change ((fst <$> (d, call) :: l) ≫= reads) with (reads d ++ ((fst <$> l) ≫= reads)).
    cbn [length] in Hlen. destruct (Hhandled _ _ (ox_asks _ Hx)) as [f Hf].
    apply wp_session_app, (wp_delivery _ _ _ _ address d f).
    + apply Hx.
    + by apply (order_servable _ f Hx).
    + apply Hf.
    + intros w1 Hnb. unfold good_at, wp. destruct Hf as (_ & _ & ->).
      apply run_good; [by rewrite (nb_db _ _ Hnb)|rewrite (nb_db _ _ Hnb); lia|apply Hx].
    + done.
    + done.
    + done.
    + done.
    + intros hp1 res1 res' ctx' c1 w1 Ha1 Hn1 Hans Hid1 Hrd1 Hwr1.
      destruct (answered_ordered _ _ _ _ _ _ (ox_asks _ Hx) Hf (ox_body _ Hx) Hok ltac:(lia) Hans)
        as [Ho Hgate].
      destruct (effect_book _ _ _ _ (ordered_effect _ _ _ _ _ _ Ho) Hok) as [Hok1 Hsize].
      eapply wp_mono; [apply IH; try done; [by eapply inflight_answered|lia]|].
      intros x st (hp' & res2 & ctx2 & c2 & w2 & rs & -> & -> & Hsv & Hok2 & Hwr & Hi & H).
      exists hp', res2, ctx2, c2, w2, (res1 :: rs). split_and!; try done; try apply H.
      * econstructor; [exact Ho|]. by eapply book_served_gate.
      * rewrite fmap_cons, string_concat_cons. by eapply wrote_trans.
      * rewrite Hi. apply Hans.
Qed.
End OrderSession.
