(* ===== verification/SessionExamples.v ===== *)
(** * Sessions, from their bytes

    The theorem of Session.v on two requests of the service, that of OrderSession.v on four
    calls of the order API, and a request whose URL comes in two reads. *)

From S2P Require Import Tokenizer TokenizerRun TokenizerHeaders TokenizerRequest.
From S2P Require Import Prelude Doubles JsonRead JsonWrite Utility QueryString Http Service.
From S2P Require Import Backends OrderRoutes Wp Middleware AppMiddlewares Trie Router Main.
From S2P Require Import OrderSpec OrderTheorems OrderExamples.
From S2P Require Import Connection ConnectionSpec ConnectionExamples Session OrderSession.
Open Scope Z_scope.

(** ** A URL in two reads *)

Definition healthcheck_text : string := request_head sample_get.
(** The status lines written when the bytes come in these reads. *)
Definition statuses (texts : list string) : list string :=
  status_line <$> messages (
    let '(r, st) := session "Crow" "now" "10.0.0.1" example_rt 4096 texts http_parser_init state_0 in
    ((λ _, ()) <$> r, st)).

(** A URL that comes in two reads is routed on its first part.  The same bytes that are
    answered 200 in one read are answered 404 after the first part of the URL, and the
    connection is closed before the rest is read. *)
Theorem split_url_not_found :
  let first := String.substring 0 9 healthcheck_text in
  let rest := String.substring 9 (String.length healthcheck_text) healthcheck_text in
  first +:+ rest = healthcheck_text ∧ first = "GET /heal" ∧
  statuses [healthcheck_text] = ["HTTP/1.1 200"] ∧
  statuses [first] = ["HTTP/1.1 404"] ∧
  is_open (fst (snd (snd (receive "Crow" "now" "10.0.0.1" example_rt 4096 first http_parser_init
    state_0)))) = false.
Proof. by vm_compute. Qed.

(** ** Two requests *)

Definition second_get : crequest :=
  TokenizerRequest.Request Get "/healthcheck" None [("Host", "b")] (Some "ping") [].
Definition health_exchange (d : delivery) : exchange := (d, λ _ _, healthcheck).
(** The second has a body, in three reads. *)
Definition two_gets : list delivery :=
  [Delivery sample_get "" []; Delivery second_get "p" ["in"; "g"]].

Lemma second_get_ok : request_ok second_get.
Proof. repeat constructor; try done. by exists "healthcheck". Qed.
Lemma healthcheck_selected r :
  rq_method r = Get → rq_path r = "/healthcheck" →
  selected example_rt r = RoutingHandleResult (Found 2 [] no_params) (Some Get).
Proof. intros Hm Hp. unfold selected. rewrite Hm, Hp. by vm_compute. Qed.
#[local] Strategy opaque [example_rt find_method].
Lemma health_exchange_ok d :
  delivery_ok d → let r := dl_request d in
  rq_method r = Get → rq_path r = "/healthcheck" →
  ci_count (req_headers (heard r)) "host" ≠ 0%nat →
  req_get_header_value (heard r) "expect" ≠ "100-continue" →
  accepted_exchange "10.0.0.1" example_rt (health_exchange d).
Proof.
  intros Hd r Hm Hp Hh He.
  assert (rq_method r ≠ Head ∧ rq_method r ≠ Options) as Hme by (rewrite Hm; split; discriminate).
  pose proof (healthcheck_selected r Hm Hp) as Hs.
  assert (rule_index_ (rh_found (selected example_rt r)) ≠ 0) as Hi by (rewrite Hs; discriminate).
  assert (routed example_rt (selected example_rt r) (λ _ _, healthcheck)) as Hro
    by (rewrite Hs; exact example_routed).
  exact (Build_accepted_exchange _ _ (health_exchange d) Hd
    (Build_servable _ _ Hme Hi Hh He)
    Hro healthcheck_good).
Qed.

Lemma session_served_witness :
  let l := health_exchange <$> two_gets in
  let w := toy_world ∅ [] [] in
  wp (session "Crow" "now" "10.0.0.1" example_rt 4096 ((fst <$> l) ≫= reads) http_parser_init)
    (λ x st, ∃ hp' res' ctx' c' w' rs,
      x = Ok hp' ∧ st = (res', ctx', (c', w')) ∧ served "10.0.0.1" example_rt l w rs w' ∧
      wrote (String.concat "" (message "Crow" "now" true <$> rs)) connection_new c' ∧
      inflight w' = inflight w ∧ reading c' = true ∧ idle res' c' ∧ awaiting hp' ∧
      hp_nread hp' = 0)
    (response_default, context_default, (connection_new, w)).
Proof.
  intros l w.
  assert (List.Forall (accepted_exchange "10.0.0.1" example_rt) l) as Hl.
  { constructor; [|constructor; [|constructor]]; apply health_exchange_ok; try reflexivity.
    - exact (List.Forall_inv (List.Forall_inv_tail sample_deliveries_ok)).
    - by vm_compute.
    - by vm_compute.
    - split; [apply second_get_ok|reflexivity|]. repeat constructor; discriminate.
    - by vm_compute.
    - by vm_compute. }
  assert (idle response_default connection_new) as Hid by (split; try done; split; done).
  exact (session_served "Crow" "now" "10.0.0.1" example_rt 4096 l http_parser_init response_default
    context_default connection_new w Hl ltac:(by split) eq_refl Hid eq_refl ltac:(done)).
Defined.

(** ** Four calls *)

Definition api_request (m : HTTPMethod) (path key : string) (b : option string) : crequest :=
  TokenizerRequest.Request m path None [("Host", "a"); ("Authorization", key)] b [].
Definition amount_body : string := "{" +:+ quote "amount" +:+ ":5}".
Definition pay_body : string := req_body pay_request.
(** A creation whose body comes in a read of its own, a list, a payment, and a deletion without
    the key. *)
Definition four_calls : list (delivery * call) :=
  let create := api_request Post "/order/create" "1234567" (Some amount_body) in
  let list := api_request Get "/order/list" "1234567" None in
  let pay := api_request Post "/order/pay" "1234567" (Some pay_body) in
  let delete := api_request Http.Delete "/order/delete/ORD1" "7654321" None in
  [(Delivery create "" [amount_body], CCreate (request_seen "10.0.0.1" create));
   (Delivery list "" [], CList (request_seen "10.0.0.1" list));
   (Delivery pay pay_body [], CPay (request_seen "10.0.0.1" pay));
   (Delivery delete "" [], CDelete "ORD1")].

(** What comes of them: the statuses, and the status of the order paid. *)
Example four_calls_run :
  let '(r, st) := session "Crow" "now" "10.0.0.1" example_rt 4096 ((fst <$> four_calls) ≫= reads)
    http_parser_init (response_default, context_default, (connection_new, world_1)) in
  (status_line <$> messages ((λ _, ()) <$> r, st))
    = ["HTTP/1.1 200"; "HTTP/1.1 200"; "HTTP/1.1 200"; "HTTP/1.1 401"] ∧
  status_in (snd (snd st)) "ORD1" = Some "PAID" ∧ size (sq_table (db (snd (snd st)))) = 2%nat.
Proof. by vm_compute. Qed.

Lemma four_calls_delivered : List.Forall (λ x, delivery_ok (fst x)) four_calls.
Proof.
  repeat constructor; try done.
  all: by match goal with |- ∃ w, ?p = _ ∧ _ => exists (String.substring 1 20 p) end.
Qed.
Lemma four_calls_ok : List.Forall (order_exchange "10.0.0.1") four_calls.
Proof.
  pose proof four_calls_delivered as H. unfold four_calls in *.
  repeat (apply List.Forall_cons_iff in H as [? H]; constructor; [|]); [..|constructor].
  all: (split; [assumption| |by vm_compute..]).
  - by constructor.
  - by constructor.
  - by constructor.
  - by constructor.
Qed.

Lemma orders_over_the_wire_witness :
  let w := world_1 in
  wp (session "Crow" "now" "10.0.0.1" example_rt 4096 ((fst <$> four_calls) ≫= reads)
    http_parser_init)
    (λ x st, ∃ hp' res' ctx' c' w' rs,
      x = Ok hp' ∧ st = (res', ctx', (c', w')) ∧
      book_served "10.0.0.1" w four_calls (sq_table (db w)) rs (sq_table (db w')) ∧
      book_ok (sq_table (db w')) ∧
      wrote (String.concat "" (message "Crow" "now" true <$> rs)) connection_new c' ∧
      inflight w' = inflight w ∧ reading c' = true ∧ idle res' c' ∧ awaiting hp' ∧
      hp_nread hp' = 0)
    (response_default, context_default, (connection_new, w)).
Proof.
  intros w.
  assert (idle response_default connection_new) as Hid by (split; try done; split; done).
  exact (orders_over_the_wire "Crow" "now" "10.0.0.1" example_rt example_rt_ok 4096 four_calls
    http_parser_init response_default context_default connection_new w four_calls_ok
    ltac:(by split) eq_refl Hid eq_refl ltac:(done) book_1_ok ltac:(by vm_compute)).
Defined.
